(** * A shallow embedding of the BadgerDB B+Tree index (P3/Btree/src/btree.h)

    The templates of [btree.h] are embedded for the [int] instantiation of
    [keyTraits]: keys are C [int]s (modelled as [Z]; the code only compares
    them), array indices and [level] are C [int]s (modelled as [Z]), page
    numbers are unsigned (modelled as [nat], [0] being
    [Page::INVALID_NUMBER]).

    A [Page*] obtained from the buffer manager is modelled by the number
    of the page it points into: every read or write through such a pointer
    is a read or write of the page of that number in the file image.  Frames
    are never evicted in the model.  Whatever C++ leaves undefined (an array
    index out of range, a page viewed at a node type it was not written at,
    an uninitialised local) is the outcome [Undefined]. *)

From stdpp Require Import base list numbers sorting.
From Stdlib Require Import ZArith Lia.

Local Open Scope Z_scope.

(** ** Data model *)

Definition PageId := nat.

Module Page.
Definition INVALID_NUMBER : PageId := 0%nat.
End Page.

Record RecordId := mkRid { page_number : PageId; slot_number : nat }.

Inductive Datatype := INTEGER | DOUBLE | STRING.

Inductive Operator := LT | LTE | GTE | GT.

Record IndexMetaInfo := mkMeta {
  relationName : list nat;
  metaAttrByteOffset : Z;
  attrType : Datatype;
  rootPageNo : PageId
}.

Record NonLeafNodeInt := mkNonLeaf {
  level : Z;
  nlKeyArray : list Z;
  pageNoArray : list PageId
}.

Record LeafNodeInt := mkLeaf {
  keyArray : list Z;
  ridArray : list RecordId;
  rightSibPageNo : PageId
}.

(** A page of the index file, seen at the type it was last written at.
    [BlankPage] is a page handed out by [allocPage] and not written yet. *)
Inductive PageData :=
| MetaPage (m : IndexMetaInfo)
| NonLeafPage (n : NonLeafNodeInt)
| LeafPage (l : LeafNodeInt)
| BlankPage.

(** Calls made to the buffer manager, in the order they happen. *)
Inductive BufEvent :=
| EvRead (p : PageId)
| EvAlloc (p : PageId)
| EvUnPin (p : PageId) (dirty : bool).

Record BTreeIndex := mkIndex {
  file : list PageData;          (* page [p] of the file is [file !! (p-1)] *)
  pinned : list PageId;          (* one occurrence per outstanding pin *)
  events : list BufEvent;        (* oldest call first *)
  headerPageNum : PageId;
  rootPageNum : PageId;
  scanExecuting : bool;
  nextEntry : Z;
  currentPageNum : PageId;
  currentPageData : option PageId;   (* [None] is the NULL pointer *)
  lowValInt : Z;
  highValInt : Z;
  lowOp : Operator;
  highOp : Operator
}.

#[global] Instance PageId_eq_dec : EqDecision PageId := _.
#[global] Instance RecordId_eq_dec : EqDecision RecordId.
Proof. solve_decision. Defined.
#[global] Instance Operator_eq_dec : EqDecision Operator.
Proof. solve_decision. Defined.
#[global] Instance BufEvent_eq_dec : EqDecision BufEvent.
Proof. solve_decision. Defined.

(** ** Outcomes and the state monad of the index object *)

Inductive Exception :=
| BadOpcodesException
| BadScanrangeException
| NoSuchKeyFoundException
| ScanNotInitializedException
| IndexScanCompletedException
| InvalidPageException.

Inductive Outcome (A : Type) :=
| Return (a : A)
| Throw (e : Exception)
| Undefined.
Arguments Return {A} a.
Arguments Throw {A} e.
Arguments Undefined {A}.

Definition M (A : Type) : Type := BTreeIndex -> Outcome A * BTreeIndex.

Definition ret {A} (a : A) : M A := fun s => (Return a, s).

Definition bindM {A B} (m : M A) (k : A -> M B) : M B :=
  fun s => match m s with
           | (Return a, s') => k a s'
           | (Throw e, s') => (Throw e, s')
           | (Undefined, s') => (Undefined, s')
           end.

Definition throw {A} (e : Exception) : M A := fun s => (Throw e, s).

Definition undefined {A} : M A := fun s => (Undefined, s).

Definition get : M BTreeIndex := fun s => (Return s, s).

Definition modify (f : BTreeIndex -> BTreeIndex) : M unit :=
  fun s => (Return tt, f s).

(** A partial pure computation whose failure is undefined behaviour. *)
Definition defined {A} (o : option A) : M A :=
  match o with Some a => ret a | None => undefined end.

Notation "'let*' x := m 'in' k" := (bindM m (fun x => k))
  (at level 10, x name, m at level 100, k at level 200, only parsing).

(** ** C arrays: [int]-indexed, out of range is undefined *)

Definition at_ {A} (a : list A) (i : Z) : option A :=
  if i <? 0 then None else a !! Z.to_nat i.

Definition put {A} (a : list A) (i : Z) (x : A) : option (list A) :=
  if (0 <=? i) && (i <? Z.of_nat (length a))
  then Some (<[Z.to_nat i := x]> a) else None.

(** ** The file image and state updates *)

Definition pageAt (f : list PageData) (p : PageId) : option PageData :=
  match p with O => None | S q => f !! q end.

Definition setPage (f : list PageData) (p : PageId) (d : PageData) : list PageData :=
  match p with O => f | S q => <[q := d]> f end.

Arguments pageAt : simpl never.
Arguments setPage : simpl never.

Definition withFile (f : list PageData -> list PageData) (s : BTreeIndex) : BTreeIndex :=
  mkIndex (f (file s)) (pinned s) (events s) (headerPageNum s) (rootPageNum s)
          (scanExecuting s) (nextEntry s) (currentPageNum s) (currentPageData s)
          (lowValInt s) (highValInt s) (lowOp s) (highOp s).

Definition withBuf (p : list PageId) (e : list BufEvent) (s : BTreeIndex) : BTreeIndex :=
  mkIndex (file s) p e (headerPageNum s) (rootPageNum s)
          (scanExecuting s) (nextEntry s) (currentPageNum s) (currentPageData s)
          (lowValInt s) (highValInt s) (lowOp s) (highOp s).

Definition withRoot (r : PageId) (s : BTreeIndex) : BTreeIndex :=
  mkIndex (file s) (pinned s) (events s) (headerPageNum s) r
          (scanExecuting s) (nextEntry s) (currentPageNum s) (currentPageData s)
          (lowValInt s) (highValInt s) (lowOp s) (highOp s).

Definition withCursor (e : Z) (n : PageId) (d : option PageId) (s : BTreeIndex) : BTreeIndex :=
  mkIndex (file s) (pinned s) (events s) (headerPageNum s) (rootPageNum s)
          (scanExecuting s) e n d
          (lowValInt s) (highValInt s) (lowOp s) (highOp s).

Definition withScan (b : bool) (s : BTreeIndex) : BTreeIndex :=
  mkIndex (file s) (pinned s) (events s) (headerPageNum s) (rootPageNum s)
          b (nextEntry s) (currentPageNum s) (currentPageData s)
          (lowValInt s) (highValInt s) (lowOp s) (highOp s).

Definition withBounds (lo hi : Z) (s : BTreeIndex) : BTreeIndex :=
  mkIndex (file s) (pinned s) (events s) (headerPageNum s) (rootPageNum s)
          (scanExecuting s) (nextEntry s) (currentPageNum s) (currentPageData s)
          lo hi (lowOp s) (highOp s).

Definition withOps (lo hi : Operator) (s : BTreeIndex) : BTreeIndex :=
  mkIndex (file s) (pinned s) (events s) (headerPageNum s) (rootPageNum s)
          (scanExecuting s) (nextEntry s) (currentPageNum s) (currentPageData s)
          (lowValInt s) (highValInt s) lo hi.

(** ** The buffer manager *)

(** Removes one pin of [p]; a page that is not pinned is left as it is. *)
Fixpoint unpinOne (p : PageId) (l : list PageId) : list PageId :=
  match l with
  | [] => []
  | q :: l' => if decide (q = p) then l' else q :: unpinOne p l'
  end.

Module BufMgr.

(** Modelled from the spec: the buffer manager ([buffer.h]) is not among
    the sources.  "Buffer manager contract consumed": [readPage] and
    [allocPage] pin the page they return, [unPinPage] releases one pin, and
    "violating pin balance is a programmer error and is not detected at
    runtime".  Reading a page number the file does not hold is a fatal
    error that propagates. *)
Definition readPage (p : PageId) : M PageId :=
  fun s => match pageAt (file s) p with
           | Some _ => (Return p, withBuf (p :: pinned s) (events s ++ [EvRead p]) s)
           | None => (Throw InvalidPageException, s)
           end.

(** Modelled from the spec: "Subsequent pages: allocated on demand by the
    buffer manager"; the file grows by one page, whose number is the next
    one after the last page, and the new page is returned pinned. *)
Definition allocPage : M PageId :=
  fun s => let p := S (length (file s)) in
           (Return p,
            withBuf (p :: pinned s) (events s ++ [EvAlloc p])
                    (withFile (fun f => f ++ [BlankPage]) s)).

(** Modelled from the spec: see [readPage]. *)
Definition unPinPage (p : PageId) (dirty : bool) : M unit :=
  modify (fun s => withBuf (unpinOne p (pinned s)) (events s ++ [EvUnPin p dirty]) s).

End BufMgr.

(** Views of a page through a typed pointer. *)
Definition asNonLeaf (p : PageId) : M NonLeafNodeInt :=
  fun s => match pageAt (file s) p with
           | Some (NonLeafPage n) => (Return n, s)
           | _ => (Undefined, s)
           end.

Definition asLeaf (p : PageId) : M LeafNodeInt :=
  fun s => match pageAt (file s) p with
           | Some (LeafPage l) => (Return l, s)
           | _ => (Undefined, s)
           end.

Definition writePage (p : PageId) (d : PageData) : M unit :=
  fun s => match pageAt (file s) p with
           | Some _ => (Return tt, withFile (fun f => setPage f p d) s)
           | None => (Undefined, s)
           end.

(** ** The templates, at [keyType = int] *)

Section Templates.

(** [traits::LEAFSIZE] and [traits::NONLEAFSIZE].  They are computed from
    [Page::SIZE], which [page.h] fixes; the scenarios of the specification
    take 3 and 3. *)
Variables LEAFSIZE NONLEAFSIZE : Z.

Definition zeroRid : RecordId := mkRid Page.INVALID_NUMBER 0.

(** [memset(&node, 0, sizeof(nonLeafType))] and the same for a leaf. *)
Definition zeroNonLeaf : NonLeafNodeInt :=
  mkNonLeaf 0 (replicate (Z.to_nat NONLEAFSIZE) 0)
            (replicate (Z.to_nat (NONLEAFSIZE + 1)) Page.INVALID_NUMBER).

Definition zeroLeaf : LeafNodeInt :=
  mkLeaf (replicate (Z.to_nat LEAFSIZE) 0)
         (replicate (Z.to_nat LEAFSIZE) zeroRid) Page.INVALID_NUMBER.

Definition setLevel (l : Z) (n : NonLeafNodeInt) : NonLeafNodeInt :=
  mkNonLeaf l (nlKeyArray n) (pageNoArray n).

Definition setKey (i : Z) (k : Z) (n : NonLeafNodeInt) : option NonLeafNodeInt :=
  ka ← put (nlKeyArray n) i k; Some (mkNonLeaf (level n) ka (pageNoArray n)).

Definition setPageNo (i : Z) (p : PageId) (n : NonLeafNodeInt) : option NonLeafNodeInt :=
  pa ← put (pageNoArray n) i p; Some (mkNonLeaf (level n) (nlKeyArray n) pa).

Definition setEntry (i : Z) (k : Z) (r : RecordId) (l : LeafNodeInt) : option LeafNodeInt :=
  ka ← put (keyArray l) i k; ra ← put (ridArray l) i r;
  Some (mkLeaf ka ra (rightSibPageNo l)).

Definition setRightSib (p : PageId) (l : LeafNodeInt) : LeafNodeInt :=
  mkLeaf (keyArray l) (ridArray l) p.

(** [createRoot]: the root of a new index is a zeroed non-leaf of level 1. *)
Definition createRoot (rootPage : PageId) : M unit :=
  let rootData := setLevel 1 zeroNonLeaf in
  let* _ := writePage rootPage (NonLeafPage rootData) in
  let* s := get in
  BufMgr.unPinPage (rootPageNum s) true.

(** [reinterpret_cast<leafType*>] of the page on which a descent ends.  A
    page written as a leaf is that leaf.  On the empty index the descent
    ends on the root as [createRoot] left it, a page written as a non-leaf
    with no key and no child: all its bytes are zero but those of [level],
    the first member of the non-leaf, which lie where the leaf has
    [keyArray[0]], its first member.  Read as a leaf, such a page has [level]
    for its first key, key 0 in the other slots, the record id (0, 0) in
    every slot and no right sibling.  No run from a new index reads another
    page written as a non-leaf through a leaf pointer; such a read has no
    value here. *)
Definition blankNonLeaf (n : NonLeafNodeInt) : bool :=
  forallb (Z.eqb 0) (nlKeyArray n) && forallb (Nat.eqb Page.INVALID_NUMBER) (pageNoArray n).

Definition nonLeafAsLeaf (n : NonLeafNodeInt) : LeafNodeInt :=
  mkLeaf (level n :: replicate (Z.to_nat (LEAFSIZE - 1)) 0)
         (replicate (Z.to_nat LEAFSIZE) zeroRid) Page.INVALID_NUMBER.

Definition leafView (p : PageId) : M LeafNodeInt :=
  fun s => match pageAt (file s) p with
           | Some (LeafPage l) => (Return l, s)
           | Some (NonLeafPage n) =>
               if blankNonLeaf n then (Return (nonLeafAsLeaf n), s) else (Undefined, s)
           | _ => (Undefined, s)
           end.

(** *** Descent: the walk from the root to a leaf *)

(** The loop [for (i = 0; i < NONLEAFSIZE; i++)] of the walk, entered at [i]
    with [fuel = NONLEAFSIZE - i] rounds left; the result is the value of [i]
    on leaving the loop. *)
Fixpoint childLoop (keyValue : Z) (cur : NonLeafNodeInt) (fuel : nat) (i : Z) : option Z :=
  match fuel with
  | O => Some i
  | S fuel' =>
      p ← at_ (pageNoArray cur) (i + 1);
      if decide (p = Page.INVALID_NUMBER) then Some i
      else
        k ← at_ (nlKeyArray cur) i;
        if k <=? keyValue then childLoop keyValue cur fuel' (i + 1) else Some i
  end.

(** The child index taken at one non-leaf: 0 when the key is below
    [keyArray[0]], else the result of the loop. *)
Definition childIndex (keyValue : Z) (cur : NonLeafNodeInt) : option Z :=
  k0 ← at_ (nlKeyArray cur) 0;
  if keyValue <? k0 then Some 0
  else childLoop keyValue cur (Z.to_nat NONLEAFSIZE) 0.

(** The loop [while (depth < rootData->level)].  The walk writes no page,
    so the level of the root is the same at every test and the loop makes
    [level - 1] rounds: [n] is the number of rounds left.  [currPage] is the
    pointer of that name, [pathOfTraversal] is kept with its back at the
    head; the result is [(currPage, lastPage, pathOfTraversal)]. *)
Fixpoint walk (n : nat) (keyValue : Z) (currPage lastPage : PageId)
    (pathOfTraversal : list (Z * PageId)) : M (PageId * PageId * list (Z * PageId)) :=
  match n with
  | O => ret (currPage, lastPage, pathOfTraversal)
  | S n' =>
      let* currData := asNonLeaf currPage in
      let* i := defined (childIndex keyValue currData) in
      let* _ := BufMgr.unPinPage lastPage false in
      let* child := defined (at_ (pageNoArray currData) i) in
      let* tempPage := BufMgr.readPage child in
      walk n' keyValue tempPage child ((i, lastPage) :: pathOfTraversal)
  end.

(** *** Descent: positioning within the leaf *)

(** The loop [for (i = 0; i < LEAFSIZE; i++)] over the leaf, entered at [i]
    with [fuel = LEAFSIZE - i]; the result is [(insertAt, i)] on leaving. *)
Fixpoint leafLoop (insert : bool) (keyValue : Z) (dataPage : LeafNodeInt)
    (fuel : nat) (i insertAt : Z) : option (Z * Z) :=
  match fuel with
  | O => Some (insertAt, i)
  | S fuel' =>
      r ← at_ (ridArray dataPage) i;
      if decide (page_number r = Page.INVALID_NUMBER) then
        Some (if decide (insertAt = LEAFSIZE) then i else insertAt, i)
      else
        k ← at_ (keyArray dataPage) i;
        if keyValue >? k then leafLoop insert keyValue dataPage fuel' (i + 1) insertAt
        else if decide (insertAt = LEAFSIZE) then
          (if insert then leafLoop insert keyValue dataPage fuel' (i + 1) i
           else Some (i, i))
        else leafLoop insert keyValue dataPage fuel' (i + 1) insertAt
  end.

Definition leafPosition (insert : bool) (keyValue : Z) (dataPage : LeafNodeInt)
    : option (Z * Z) :=
  leafLoop insert keyValue dataPage (Z.to_nat LEAFSIZE) 0 LEAFSIZE.

(** *** Splitting *)

(** [for (k = offset; k <= NONLEAFSIZE; k++) if (pageNoArray[k] == INVALID) break;]
    entered at [k] with [fuel = NONLEAFSIZE + 1 - k]; the result is [k]. *)
Fixpoint firstInvalidLoop (a : list PageId) (fuel : nat) (k : Z) : option Z :=
  match fuel with
  | O => Some k
  | S fuel' =>
      p ← at_ a k;
      if decide (p = Page.INVALID_NUMBER) then Some k
      else firstInvalidLoop a fuel' (k + 1)
  end.

Definition firstInvalid (n : NonLeafNodeInt) (offset : Z) : option Z :=
  firstInvalidLoop (pageNoArray n) (Z.to_nat (NONLEAFSIZE + 1 - offset)) offset.

(** [for (; k > offset; k--) { if (k-1 >= 0) pageNoArray[k] = pageNoArray[k-1];
    if (k-2 >= 0) keyArray[k-1] = keyArray[k-2]; }] with [fuel = k - offset]. *)
Fixpoint shiftLoop (fuel : nat) (k : Z) (n : NonLeafNodeInt) : option NonLeafNodeInt :=
  match fuel with
  | O => Some n
  | S fuel' =>
      n1 ← (if 0 <=? k - 1
            then p ← at_ (pageNoArray n) (k - 1); setPageNo k p n
            else Some n);
      n2 ← (if 0 <=? k - 2
            then x ← at_ (nlKeyArray n1) (k - 2); setKey (k - 1) x n1
            else Some n1);
      shiftLoop fuel' (k - 1) n2
  end.

(** Opens slot [offset] of a non-leaf: the two loops above in sequence. *)
Definition openSlot (offset : Z) (n : NonLeafNodeInt) : option NonLeafNodeInt :=
  k ← firstInvalid n offset;
  shiftLoop (Z.to_nat (k - offset)) k n.

(** [for (int i = medianIdxParent+1, j = 0; i < NONLEAFSIZE; i++, j++)]: moves
    the upper keys and children of a full non-leaf to its new right sibling. *)
Fixpoint moveNonLeafLoop (fuel : nat) (i j : Z) (parentData dataPageRight : NonLeafNodeInt)
    : option (NonLeafNodeInt * NonLeafNodeInt) :=
  match fuel with
  | O => Some (parentData, dataPageRight)
  | S fuel' =>
      k ← at_ (nlKeyArray parentData) i;
      r1 ← setKey j k dataPageRight;
      p ← at_ (pageNoArray parentData) (i + 1);
      r2 ← setPageNo (j + 1) p r1;
      p1 ← setKey i 0 parentData;
      p2 ← setPageNo (i + 1) Page.INVALID_NUMBER p1;
      moveNonLeafLoop fuel' (i + 1) (j + 1) p2 r2
  end.

(** The halves of a full non-leaf: [(parentData, dataPageRight)] after the
    move loop and the three assignments that follow it. *)
Definition splitNonLeaf (parentData : NonLeafNodeInt) : option (NonLeafNodeInt * NonLeafNodeInt) :=
  let medianIdxParent := NONLEAFSIZE / 2 in
  let dataPageRight := setLevel (level parentData) zeroNonLeaf in
  '(p1, r1) ← moveNonLeafLoop (Z.to_nat (NONLEAFSIZE - (medianIdxParent + 1)))
                 (medianIdxParent + 1) 0 parentData dataPageRight;
  c ← at_ (pageNoArray p1) (medianIdxParent + 1);
  r2 ← setPageNo 0 c r1;
  p2 ← setPageNo (medianIdxParent + 1) Page.INVALID_NUMBER p1;
  p3 ← setKey medianIdxParent 0 p2;
  Some (p3, r2).

(** [for (int i = medianIdx, j = 0; i < LEAFSIZE; i++, j++)]: moves the upper
    entries of a full leaf to its new right sibling and clears them. *)
Fixpoint moveLeafLoop (fuel : nat) (i j : Z) (dataPage dataPageRight : LeafNodeInt)
    : option (LeafNodeInt * LeafNodeInt) :=
  match fuel with
  | O => Some (dataPage, dataPageRight)
  | S fuel' =>
      k ← at_ (keyArray dataPage) i;
      r ← at_ (ridArray dataPage) i;
      right' ← setEntry j k r dataPageRight;
      left' ← setEntry i 0 zeroRid dataPage;
      moveLeafLoop fuel' (i + 1) (j + 1) left' right'
  end.


(** The loop [while (pathOfTraversal.size() >= 1)] of the split: walks the
    saved path upwards, splitting every full non-leaf on it.  [G] is the
    triple [GparentPageId], [Goffset], [GparentData] (an uninitialised
    triple is [None]); the result is its value on leaving the loop. *)
Fixpoint propagate (keyValue : Z) (pathOfTraversal : list (Z * PageId))
    (done : bool) (G : option (PageId * Z)) : M (option (PageId * Z)) :=
  match pathOfTraversal with
  | [] => ret G
  | (offset, parentPageId) :: rest =>
      let* parentPage := BufMgr.readPage parentPageId in
      let* parentData := asNonLeaf parentPage in
      let G := if done then G else Some (parentPageId, offset) in
      let* k := defined (firstInvalid parentData offset) in
      if decide (k = NONLEAFSIZE + 1) then
        let medianIdxParent := NONLEAFSIZE / 2 in
        let* up :=
          match rest with
          | [] =>
              let* newRoot := BufMgr.allocPage in
              let* _ := modify (withRoot newRoot) in
              let* d := defined (setPageNo 0 parentPageId
                                   (setLevel (level parentData + 1) zeroNonLeaf)) in
              ret (newRoot, d, 0)
          | (o, parentParentPageId) :: _ =>
              let* newRoot := BufMgr.readPage parentParentPageId in
              let* d := asNonLeaf newRoot in
              ret (parentParentPageId, d, o)
          end in
        let '(parentParentPageId, newRootData, parentParentOffset) := up in
        let* newRootData := defined (openSlot parentParentOffset newRootData) in
        let* greaterParentPage := BufMgr.allocPage in
        let* newRootData :=
          defined (setPageNo (parentParentOffset + 1) greaterParentPage newRootData) in
        let* median := defined (at_ (nlKeyArray parentData) medianIdxParent) in
        let* newRootData := defined (setKey parentParentOffset median newRootData) in
        let* halves := defined (splitNonLeaf parentData) in
        let '(parentData', dataPageRight) := halves in
        let* _ := writePage parentPage (NonLeafPage parentData') in
        let* pivot := defined (at_ (nlKeyArray newRootData) parentParentOffset) in
        let G := if done then G
                 else if keyValue >=? pivot
                      then Some (greaterParentPage, offset - medianIdxParent - 1)
                      else Some (parentPageId, offset) in
        let* _ := writePage parentParentPageId (NonLeafPage newRootData) in
        let* _ := writePage greaterParentPage (NonLeafPage dataPageRight) in
        let* _ := BufMgr.unPinPage parentParentPageId true in
        let* left := defined (at_ (pageNoArray newRootData) parentParentOffset) in
        let* right := defined (at_ (pageNoArray newRootData) (parentParentOffset + 1)) in
        let* _ :=
          if keyValue >=? pivot then
            let* _ := BufMgr.unPinPage left true in
            if level newRootData >=? 4 then BufMgr.unPinPage right true else ret tt
          else
            let* _ := BufMgr.unPinPage right true in
            if level newRootData >=? 4 then BufMgr.unPinPage left true else ret tt in
        propagate keyValue rest true G
      else
        let* _ :=
          match G with
          | Some (GparentPageId, _) =>
              if decide (GparentPageId = parentPageId) then ret tt
              else BufMgr.unPinPage parentPageId true
          | None => undefined
          end in
        ret G
  end.

(** The split of the full leaf [dataPage] (page [lastPage]) under the
    non-leaf and slot that [propagate] left in [G]; the result is
    [(pageNo, insertAt, endOfRecordsOffset, lastPageNo)]. *)
Definition splitLeaf (keyValue : Z) (dataPage lastPage : PageId) (insertAt : Z)
    (G : option (PageId * Z)) : M (PageId * Z * Z * PageId) :=
  let medianIdx := LEAFSIZE / 2 in
  let pageNo := lastPage in
  let* g := defined G in
  let '(parentPageId, offset) := g in
  let* parentData := asNonLeaf parentPageId in
  let* parentData := defined (openSlot offset parentData) in
  let* leaf := asLeaf dataPage in
  let* median := defined (at_ (keyArray leaf) medianIdx) in
  let* parentData := defined (setKey offset median parentData) in
  let* greaterKey := BufMgr.allocPage in
  let* parentData := defined (setPageNo (offset + 1) greaterKey parentData) in
  let* _ := writePage parentPageId (NonLeafPage parentData) in
  let dataPageRight := setRightSib (rightSibPageNo leaf) zeroLeaf in
  let leaf := setRightSib greaterKey leaf in
  let out :=
    if keyValue >? median
    then (greaterKey, insertAt - medianIdx,
          if decide (LEAFSIZE `rem` 2 = 0) then medianIdx else medianIdx + 1, pageNo)
    else (lastPage, insertAt, medianIdx, pageNo) in
  let* halves := defined (moveLeafLoop (Z.to_nat (LEAFSIZE - medianIdx)) medianIdx 0
                                      leaf dataPageRight) in
  let '(leaf, dataPageRight) := halves in
  let* _ := writePage dataPage (LeafPage leaf) in
  let* _ := writePage greaterKey (LeafPage dataPageRight) in
  let* _ := BufMgr.unPinPage lastPage true in
  let* _ := BufMgr.unPinPage parentPageId true in
  let* _ := BufMgr.unPinPage greaterKey true in
  ret out.

(** [getPageNoAndOffsetOfKeyInsert], entered with [rootPage] pinned by the
    caller; the four reference parameters are the result
    [(pageNo, insertAt, endOfRecordsOffset, lastPageNo)]. *)
Definition getPageNoAndOffsetOfKeyInsert (keyValue : Z) (rootPage : PageId)
    (insert : bool) : M (PageId * Z * Z * PageId) :=
  let* s := get in
  let* rootData := asNonLeaf rootPage in
  let* reached := walk (Z.to_nat (level rootData - 1)) keyValue rootPage (rootPageNum s) [] in
  let '(currPage, lastPage, pathOfTraversal) := reached in
  let pageNo := lastPage in
  let* dataPage := leafView currPage in
  let* pos := defined (leafPosition insert keyValue dataPage) in
  let '(insertAt, i) := pos in
  if decide (i = LEAFSIZE) then
    let* G := propagate keyValue pathOfTraversal false None in
    splitLeaf keyValue currPage lastPage insertAt G
  else
    let* _ := BufMgr.unPinPage lastPage false in
    ret (pageNo, insertAt, i, pageNo).

(** *** Insertion *)

(** [for (int j = endOfRecordsOffset; j > insertAt; j--)]: moves the entries
    from [insertAt] on one slot to the right; [fuel = j - insertAt]. *)
Fixpoint shiftLeafLoop (fuel : nat) (j : Z) (dataPage : LeafNodeInt) : option LeafNodeInt :=
  match fuel with
  | O => Some dataPage
  | S fuel' =>
      r ← at_ (ridArray dataPage) (j - 1);
      k ← at_ (keyArray dataPage) (j - 1);
      d ← setEntry j k r dataPage;
      shiftLeafLoop fuel' (j - 1) d
  end.

Definition insertIntoLeaf (keyValue : Z) (rid : RecordId) (insertAt endOfRecordsOffset : Z)
    (dataPage : LeafNodeInt) : option LeafNodeInt :=
  d ← shiftLeafLoop (Z.to_nat (endOfRecordsOffset - insertAt)) endOfRecordsOffset dataPage;
  setEntry insertAt keyValue rid d.

Definition insertKeyTemplate (keyValue : Z) (rid : RecordId) : M unit :=
  let* s := get in
  let* rootPage := BufMgr.readPage (rootPageNum s) in
  let* rootData := asNonLeaf rootPage in
  let* first := defined (at_ (pageNoArray rootData) 0) in
  if decide (first = Page.INVALID_NUMBER) then
    let* lessKey := BufMgr.allocPage in
    let* rootData := defined (setPageNo 0 lessKey rootData) in
    let* greaterKey := BufMgr.allocPage in
    let* rootData := defined (setPageNo 1 greaterKey rootData) in
    let dataPageLeft := setRightSib greaterKey zeroLeaf in
    let* _ := writePage lessKey (LeafPage dataPageLeft) in
    let* _ := BufMgr.unPinPage lessKey true in
    let* dataPageRight := defined (setEntry 0 keyValue rid zeroLeaf) in
    let* _ := writePage greaterKey (LeafPage dataPageRight) in
    let* _ := BufMgr.unPinPage greaterKey true in
    let* rootData := defined (setKey 0 keyValue (setLevel 2 rootData)) in
    let* _ := writePage rootPage (NonLeafPage rootData) in
    BufMgr.unPinPage (rootPageNum s) true
  else
    let* found := getPageNoAndOffsetOfKeyInsert keyValue rootPage true in
    let '(dataPageNum, insertAt, endOfRecordsOffset, dataPageNumPrev) := found in
    let* tempPage := BufMgr.readPage dataPageNum in
    let* dataPage := asLeaf tempPage in
    let* dataPage := defined (insertIntoLeaf keyValue rid insertAt endOfRecordsOffset dataPage) in
    let* _ := writePage tempPage (LeafPage dataPage) in
    BufMgr.unPinPage dataPageNum true.

(** *** The scan cursor *)

(** Leaves the page under the cursor for its right sibling:
    [nextEntry = 0; unPinPage(currentPageNum); currentPageNum = rightSib;
    readPage(currentPageNum, currentPageData)]. *)
Definition moveToSibling (dataPage : LeafNodeInt) : M unit :=
  let* s := get in
  let* _ := BufMgr.unPinPage (currentPageNum s) false in
  let* _ := modify (fun s => withCursor 0 (rightSibPageNo dataPage) (currentPageData s) s) in
  let* p := BufMgr.readPage (rightSibPageNo dataPage) in
  modify (fun s => withCursor (nextEntry s) (currentPageNum s) (Some p) s).

Definition scanNextTemplate : M RecordId :=
  let* s := get in
  match currentPageData s with
  | None => throw IndexScanCompletedException
  | Some page =>
      let* dataPage := asLeaf page in
      let* k := defined (at_ (keyArray dataPage) (nextEntry s)) in
      if bool_decide (highOp s = LT) && (k >=? highValInt s) then
        let* _ := BufMgr.unPinPage (currentPageNum s) false in
        throw IndexScanCompletedException
      else if bool_decide (highOp s = LTE) && (k >? highValInt s) then
        let* _ := BufMgr.unPinPage (currentPageNum s) false in
        throw IndexScanCompletedException
      else
        let* outRid := defined (at_ (ridArray dataPage) (nextEntry s)) in
        let* last :=
          if decide (nextEntry s + 1 = LEAFSIZE) then ret true
          else
            let* r := defined (at_ (ridArray dataPage) (nextEntry s + 1)) in
            ret (bool_decide (page_number r = Page.INVALID_NUMBER)) in
        let* _ :=
          if last : bool then
            let* _ := modify (fun s => withCursor 0 (currentPageNum s) (currentPageData s) s) in
            let* _ := BufMgr.unPinPage (currentPageNum s) false in
            let* _ := modify (fun s => withCursor (nextEntry s) (rightSibPageNo dataPage)
                                                  (currentPageData s) s) in
            if decide (rightSibPageNo dataPage = Page.INVALID_NUMBER) then
              modify (fun s => withCursor (nextEntry s) (currentPageNum s) None s)
            else
              let* p := BufMgr.readPage (rightSibPageNo dataPage) in
              modify (fun s => withCursor (nextEntry s) (currentPageNum s) (Some p) s)
          else
            modify (fun s => withCursor (nextEntry s + 1) (currentPageNum s)
                                        (currentPageData s) s) in
        ret outRid
  end.

Definition startScanTemplate (lowVal highVal : Z) : M unit :=
  let* _ := modify (withBounds lowVal highVal) in
  let* s := get in
  let* rootPage := BufMgr.readPage (rootPageNum s) in
  let* found := getPageNoAndOffsetOfKeyInsert lowVal rootPage false in
  let '(dataPageNum, insertAt, endOfRecordsOffset, dataPageNumPrev) := found in
  if decide (dataPageNumPrev = dataPageNum) then
    let* page := BufMgr.readPage dataPageNum in
    let* _ := modify (withCursor insertAt dataPageNum (Some page)) in
    (* [dataPage] keeps pointing into this first page from here on *)
    let* dataPage := leafView page in
    let* r := defined (at_ (ridArray dataPage) insertAt) in
    let* _ :=
      if decide (page_number r = Page.INVALID_NUMBER) then
        if decide (Page.INVALID_NUMBER = rightSibPageNo dataPage) then
          let* _ := BufMgr.unPinPage dataPageNum false in
          throw NoSuchKeyFoundException
        else moveToSibling dataPage
      else ret tt in
    let* _ :=
      let* s := get in
      if decide (lowOp s = GT) then
        let* dataPage := leafView page in
        let* k := defined (at_ (keyArray dataPage) (nextEntry s)) in
        if decide (k = lowValInt s) then
          if decide (nextEntry s + 1 = LEAFSIZE) then moveToSibling dataPage
          else modify (fun s => withCursor (nextEntry s + 1) (currentPageNum s)
                                           (currentPageData s) s)
        else ret tt
      else ret tt in
    let* s := get in
    let* dataPage := leafView page in
    let* k := defined (at_ (keyArray dataPage) (nextEntry s)) in
    if k >? highValInt s then
      let* _ := BufMgr.unPinPage (currentPageNum s) false in
      throw NoSuchKeyFoundException
    else if bool_decide (highOp s = LT) && bool_decide (k = highValInt s) then
      let* _ := BufMgr.unPinPage (currentPageNum s) false in
      throw NoSuchKeyFoundException
    else ret tt
  else ret tt.

End Templates.

(** ** The public methods *)

Section Methods.

Variables LEAFSIZE NONLEAFSIZE : Z.

(** Modelled from the spec: [insertEntry] is defined in [btree.cpp], which is
    not among the sources.  Section 4.4: it places the pair with the inserter
    of the key type of the index, here [insertKeyTemplate<int>]. *)
Definition insertEntry (key : Z) (rid : RecordId) : M unit :=
  insertKeyTemplate LEAFSIZE NONLEAFSIZE key rid.

(** Modelled from the spec: [endScan] is defined in [btree.cpp].  Section 4.5:
    "If no scan active, fail with ScanNotInitialized.  Unpin any currently
    pinned scan page.  Clear scan state." *)
Definition endScan : M unit :=
  let* s := get in
  if scanExecuting s then
    let* _ := match currentPageData s with
              | Some _ => BufMgr.unPinPage (currentPageNum s) false
              | None => ret tt
              end in
    modify (fun s => withScan false (withCursor 0 Page.INVALID_NUMBER None s))
  else throw ScanNotInitializedException.

(** Modelled from the spec: [startScan] is defined in [btree.cpp].  Section
    4.5: end a live scan, validate the operators and the range, then position
    the cursor (the part that is [startScanTemplate] in [btree.h]) and mark
    the scan active. *)
Definition startScan (lowVal : Z) (lowOpParm : Operator) (highVal : Z)
    (highOpParm : Operator) : M unit :=
  let* s := get in
  let* _ := if scanExecuting s then endScan else ret tt in
  if negb (bool_decide (lowOpParm = GT) || bool_decide (lowOpParm = GTE))
     || negb (bool_decide (highOpParm = LT) || bool_decide (highOpParm = LTE))
  then throw BadOpcodesException
  else if lowVal >? highVal then throw BadScanrangeException
  else
    let* _ := modify (withOps lowOpParm highOpParm) in
    let* _ := startScanTemplate LEAFSIZE NONLEAFSIZE lowVal highVal in
    modify (withScan true).

(** Modelled from the spec: [scanNext] is defined in [btree.cpp].  Section
    4.5: "If !scan_active, fail with ScanNotInitialized"; the rest is
    [scanNextTemplate] of [btree.h]. *)
Definition scanNext : M RecordId :=
  let* s := get in
  if scanExecuting s then scanNextTemplate LEAFSIZE
  else throw ScanNotInitializedException.

(** Modelled from the spec: the constructor is defined in [btree.cpp].
    Section 6, for a base relation without tuples: "create the file, write
    the meta page, allocate page 2 as an empty internal root". *)
Definition emptyFile : BTreeIndex :=
  mkIndex [] [] [] 0%nat 0%nat false 0 Page.INVALID_NUMBER None 0 0 GTE LTE.

Definition construct (relation : list nat) (attrByteOffset : Z) : M unit :=
  let* headerPage := BufMgr.allocPage in
  let* _ := modify (fun s => mkIndex (file s) (pinned s) (events s) headerPage (rootPageNum s)
                               (scanExecuting s) (nextEntry s) (currentPageNum s)
                               (currentPageData s) (lowValInt s) (highValInt s)
                               (lowOp s) (highOp s)) in
  let* rootPage := BufMgr.allocPage in
  let* _ := modify (withRoot rootPage) in
  let* _ := writePage headerPage (MetaPage (mkMeta relation attrByteOffset INTEGER rootPage)) in
  let* _ := BufMgr.unPinPage headerPage true in
  createRoot NONLEAFSIZE rootPage.

Definition freshIndex : BTreeIndex := snd (construct [] 0 emptyFile).

(** A run of [insertEntry] calls on one index object; stops at the first
    call that does not return. *)
Fixpoint insertAll (entries : list (Z * RecordId)) : M unit :=
  match entries with
  | [] => ret tt
  | (k, r) :: rest => let* _ := insertEntry k r in insertAll rest
  end.

(** Repeats [scanNext] until it raises [IndexScanCompleted], at most [fuel]
    times, and returns the record ids in the order they came. *)
Fixpoint drain (fuel : nat) : M (list RecordId) :=
  match fuel with
  | O => ret []
  | S fuel' =>
      fun s => match scanNext s with
               | (Return r, s') =>
                   (let* rest := drain fuel' in ret (r :: rest)) s'
               | (Throw IndexScanCompletedException, s') => (Return [], s')
               | (Throw e, s') => (Throw e, s')
               | (Undefined, s') => (Undefined, s')
               end
  end.

Definition scanAll (fuel : nat) (lowVal : Z) (lowOpParm : Operator) (highVal : Z)
    (highOpParm : Operator) : M (list RecordId) :=
  let* _ := startScan lowVal lowOpParm highVal highOpParm in
  drain fuel.

End Methods.

(** * Notions used to state the properties *)

Section LeafSlots.

Variable LEAFSIZE : Z.
Variable keyValue : Z.
Variable dataPage : LeafNodeInt.

(** Slot [j] of the leaf is unoccupied: its record id has page number 0. *)
Definition unoccupied (j : Z) : Prop :=
  exists r, at_ (ridArray dataPage) j = Some r /\ page_number r = Page.INVALID_NUMBER.

(** [j] is the index of the first slot that satisfies [P], or [LEAFSIZE] when
    no slot does. *)
Definition firstSlot (P : Z -> Prop) (j : Z) : Prop :=
  0 <= j <= LEAFSIZE /\ (j < LEAFSIZE -> P j) /\ forall j', 0 <= j' < j -> ~ P j'.

(** The key of slot [j] is at least, respectively more than, the search key. *)
Definition keyNotBelow (j : Z) : Prop :=
  exists k, at_ (keyArray dataPage) j = Some k /\ keyValue <= k.

Definition keyAbove (j : Z) : Prop :=
  exists k, at_ (keyArray dataPage) j = Some k /\ keyValue < k.

End LeafSlots.

(** ** C6 *)

(** The leaf of three slots that holds the single key 7. *)
Definition leaf7 : LeafNodeInt :=
  mkLeaf [7; 0; 0] [mkRid 1%nat 1%nat; mkRid 0%nat 0%nat; mkRid 0%nat 0%nat] 0%nat.


(** C6 as the specification words it: the insert slot is the first slot that
    is unoccupied or whose key is STRICTLY greater than the search key. *)
Definition leafPosition_strict_claim (LEAFSIZE keyValue : Z) (dataPage : LeafNodeInt) : Prop :=
  forall insertAt i,
    leafPosition LEAFSIZE true keyValue dataPage = Some (insertAt, i) ->
    firstSlot LEAFSIZE (fun j => unoccupied dataPage j \/ keyAbove keyValue dataPage j) insertAt
    /\ firstSlot LEAFSIZE (unoccupied dataPage) i.


(** ** C8 *)

(** The pins held after a sequence of buffer-manager calls, starting from
    the pins [pins]. *)
Definition pinStep (pins : list PageId) (e : BufEvent) : list PageId :=
  match e with
  | EvRead p => p :: pins
  | EvAlloc p => p :: pins
  | EvUnPin p _ => unpinOne p pins
  end.

Definition pinsAfter (pins : list PageId) (evs : list BufEvent) : list PageId :=
  foldl pinStep pins evs.

(** The calls of a descent that holds one page at a time, starting with
    page [cur] pinned: the page held is unpinned, then the next page is read,
    and so on; the last page is unpinned at the end. *)
Inductive handOverHand : PageId -> list BufEvent -> Prop :=
| hoh_exit cur : handOverHand cur [EvUnPin cur false]
| hoh_step cur next evs :
    handOverHand next evs ->
    handOverHand cur (EvUnPin cur false :: EvRead next :: evs).

(** C8 as the specification words it, for a descent in insert mode that has
    returned in state [s'] with the path [pathOfTraversal] and the leaf
    [pageNo]: every page on the root-to-leaf path is still pinned. *)
Definition pathPinned (pathOfTraversal : list PageId) (s' : BTreeIndex) : Prop :=
  forall p, p ∈ pathOfTraversal -> p ∈ pinned s'.

(** The index of the scenarios ([LEAFSIZE = NONLEAFSIZE = 3]) after
    [insertEntry(10, (10,1))], with the root read (and so pinned) as
    [insertKeyTemplate] does before it descends. *)
Definition rid1 (k : nat) : RecordId := mkRid k 1.

Definition afterFirstInsert : BTreeIndex :=
  snd (insertEntry 3 3 10 (rid1 10) (freshIndex 3)).

Definition rootRead (s : BTreeIndex) : BTreeIndex :=
  snd (BufMgr.readPage (rootPageNum s) s).

(** ** C9 *)

(** The key under the cursor fails the upper bound of the scan. *)
Definition upperFails (op : Operator) (k high : Z) : Prop :=
  (op = LT /\ k >= high) \/ (op = LTE /\ k > high).

(** The leaf the cursor is on, when the page handle is not null. *)
Definition cursorLeaf (s : BTreeIndex) : option LeafNodeInt :=
  p ← currentPageData s;
  match pageAt (file s) p with
  | Some (LeafPage d) => Some d
  | _ => None
  end.

Definition cursorKey (s : BTreeIndex) : option Z :=
  d ← cursorLeaf s; at_ (keyArray d) (nextEntry s).

Definition cursorRid (s : BTreeIndex) : option RecordId :=
  d ← cursorLeaf s; at_ (ridArray d) (nextEntry s).

(** A cursor with a page handle is on a leaf of [LEAFSIZE] slots, within
    its slots, and the right-sibling pointer of that leaf is 0 or the number
    of a page of the file. *)
Definition cursorOk (LEAFSIZE : Z) (s : BTreeIndex) : Prop :=
  currentPageData s <> None ->
  exists d, cursorLeaf s = Some d
    /\ length (keyArray d) = Z.to_nat LEAFSIZE
    /\ length (ridArray d) = Z.to_nat LEAFSIZE
    /\ 0 <= nextEntry s < LEAFSIZE
    /\ (rightSibPageNo d = Page.INVALID_NUMBER
        \/ is_Some (pageAt (file s) (rightSibPageNo d))).

(** The scan is over: the page handle is null or the key under the cursor
    fails the upper bound. *)
Definition scanEnded (s : BTreeIndex) : Prop :=
  currentPageData s = None
  \/ exists k, cursorKey s = Some k /\ upperFails (highOp s) k (highValInt s).

(** ** The scenarios of the specification ([LEAFSIZE = NONLEAFSIZE = 3]) *)

Definition entries1 (ks : list nat) : list (Z * RecordId) :=
  map (fun k => (Z.of_nat k, rid1 k)) ks.

(** Scenario 2: keys 10, 20, 30, 40 inserted into a fresh index. *)
Definition scenario2 : BTreeIndex :=
  snd (insertAll 3 3 (entries1 [10; 20; 30; 40]%nat) (freshIndex 3)).

(** ... and a scan [(10, GTE, 40, LTE)] started on it. *)
Definition scanning2 : BTreeIndex :=
  snd (startScan 3 3 10 GTE 40 LTE scenario2).

(** ** C10 *)

(** Slot [j] of a leaf: its key and its record id. *)
Definition slot (l : LeafNodeInt) (j : Z) : option Z * option RecordId :=
  (at_ (keyArray l) j, at_ (ridArray l) j).

(** ** C7 *)

(** Scenario 1: keys 10, 20, 30 inserted into a fresh index; its right leaf
    (page 4) is full. *)
Definition scenario1 : BTreeIndex :=
  snd (insertAll 3 3 (entries1 [10; 20; 30]%nat) (freshIndex 3)).

(** The state of the descent for key 40 in scenario 1 when it reaches the
    split of leaf 4: the root is read, the walk and the loop over the path
    are done. *)
Definition atLeafSplit : BTreeIndex :=
  snd ((let* rootPage := BufMgr.readPage 2%nat in
        let* reached := walk 3 1 40 rootPage 2%nat [] in
        propagate 3 40 (snd reached) false None) scenario1).

(** ** C2 *)

(** The occupied entries of a leaf and the children of a non-leaf. *)
Definition leafEntries (l : LeafNodeInt) : list (Z * RecordId) :=
  filter (fun e => page_number (snd e) <> Page.INVALID_NUMBER)
         (zip (keyArray l) (ridArray l)).

Definition children (n : NonLeafNodeInt) : list PageId :=
  filter (fun p => p <> Page.INVALID_NUMBER) (pageNoArray n).

(** The keys a non-leaf holds: one less than it has children. *)
Definition nodeKeys (n : NonLeafNodeInt) : list Z :=
  take (pred (length (children n))) (nlKeyArray n).

(** The tree shape the specification gives for scenario 2. *)
Definition shapeOfScenario2 (s : BTreeIndex) : Prop :=
  exists root left right leftLeaf rightLeaf,
    pageAt (file s) (rootPageNum s) = Some (NonLeafPage root)
    /\ level root = 2 /\ nodeKeys root = [30] /\ children root = [left; right]
    /\ pageAt (file s) left = Some (LeafPage leftLeaf)
    /\ pageAt (file s) right = Some (LeafPage rightLeaf)
    /\ map fst (leafEntries leftLeaf) = [10; 20]
    /\ map fst (leafEntries rightLeaf) = [30; 40]
    /\ rightSibPageNo leftLeaf = right.

Definition claimOfScenario2 : Prop :=
  fst (scanAll 3 3 5 10 GTE 40 LTE scenario2)
    = Return [rid1 10; rid1 20; rid1 30; rid1 40]
  /\ shapeOfScenario2 scenario2.

(** ** C3 *)

(** Keys 10 .. 60 inserted into a fresh index: the sixth insert splits the
    root. *)
Definition scenarioRootSplit : BTreeIndex :=
  snd (insertAll 3 3 (entries1 [10; 20; 30; 40; 50; 60]%nat) (freshIndex 3)).


(** ** C1 *)

(** The entries in non-decreasing key order, ties in the order of the
    list. *)
Fixpoint insertByKey (e : Z * RecordId) (l : list (Z * RecordId)) : list (Z * RecordId) :=
  match l with
  | [] => [e]
  | x :: rest => if fst e <? fst x then e :: l else x :: insertByKey e rest
  end.

Definition sortByKey (l : list (Z * RecordId)) : list (Z * RecordId) :=
  foldl (fun acc e => insertByKey e acc) [] l.

(** C1 as the specification words it, for one run of inserts on a fresh
    index and one scan whose bounds enclose every key. *)
Definition fullScanRoundTrip (L N : Z) (entries : list (Z * RecordId))
    (lowVal : Z) (lowOpParm : Operator) (highVal : Z) (highOpParm : Operator) : Prop :=
  exists s,
    insertAll L N entries (freshIndex N) = (Return tt, s)
    /\ fst (scanAll L N (S (length entries)) lowVal lowOpParm highVal highOpParm s)
       = Return (map snd (sortByKey entries)).

(** ** C4 *)

(** Page [c] of the file is a leaf. *)
Definition isLeafPage (f : list PageData) (c : PageId) : Prop :=
  exists l, pageAt f c = Some (LeafPage l).

(** [pathTo f p k q]: [q] is reached from [p] in [k] steps, each from a
    non-leaf to one of its children. *)
Inductive pathTo (f : list PageData) : PageId -> nat -> PageId -> Prop :=
| path_here p : pathTo f p 0 p
| path_down p n c k q :
    pageAt f p = Some (NonLeafPage n) -> c ∈ children n ->
    pathTo f c k q -> pathTo f p (S k) q.

(** The level discipline, [base] being the level of the parents of the
    leaves: a non-leaf has level [base] exactly when its children are leaves,
    the children of any other non-leaf are non-leaves one level below it, and
    every leaf is [level root - base + 1] steps below the root. *)
Definition levelDiscipline (base : Z) (s : BTreeIndex) : Prop :=
  (forall p n c,
     pageAt (file s) p = Some (NonLeafPage n) -> c ∈ children n ->
     (level n = base <-> isLeafPage (file s) c)
     /\ (level n <> base ->
         exists n', pageAt (file s) c = Some (NonLeafPage n')
                    /\ level n' = level n - 1))
  /\ (forall root k q,
        pageAt (file s) (rootPageNum s) = Some (NonLeafPage root) ->
        pathTo (file s) (rootPageNum s) k q -> isLeafPage (file s) q ->
        Z.of_nat k = level root - base + 1).

(** ** C5 *)

(** [leftmostLeaf f p q]: [q] is the leaf reached from [p] by taking the
    first child at every non-leaf. *)
Inductive leftmostLeaf (f : list PageData) : PageId -> PageId -> Prop :=
| leftmost_here p l : pageAt f p = Some (LeafPage l) -> leftmostLeaf f p p
| leftmost_down p n c q :
    pageAt f p = Some (NonLeafPage n) -> at_ (pageNoArray n) 0 = Some c ->
    leftmostLeaf f c q -> leftmostLeaf f p q.

(** Page [p] holds at least one key: a non-leaf has a key (two children), a
    leaf has an occupied slot. *)
Definition holdsKey (f : list PageData) (p : PageId) : Prop :=
  match pageAt f p with
  | Some (NonLeafPage n) => (2 <= length (children n))%nat
  | Some (LeafPage l) => leafEntries l <> []
  | _ => True
  end.

(** Every node, but the ones [except] allows, holds at least one key. *)
Definition occupancy (except : PageId -> Prop) (s : BTreeIndex) : Prop :=
  forall p, ~ except p -> holdsKey (file s) p.

(** * Notions used in the proofs of the invariants *)

(** Two images of a non-leaf with the same level and array sizes. *)
Definition sameShape (n n' : NonLeafNodeInt) : Prop :=
  level n' = level n
  /\ length (nlKeyArray n') = length (nlKeyArray n)
  /\ length (pageNoArray n') = length (pageNoArray n).

(** [up] is [base] with the key [median] inserted at slot [uo] and the
    child [g] to its right: the keys from [uo] on and the children from
    [uo + 1] on, up to the first invalid child, have moved one place to the
    right. *)
Definition childInserted (N uo median : Z) (g : PageId) (base up : NonLeafNodeInt) : Prop :=
  exists k,
    firstInvalid N base uo = Some k
    /\ 0 <= uo <= k /\ k <= N
    /\ sameShape base up
    /\ (forall j, at_ (pageNoArray up) j =
          if decide (j = uo + 1) then Some g
          else if decide (uo + 1 < j <= k) then at_ (pageNoArray base) (j - 1)
          else at_ (pageNoArray base) j)
    /\ (forall j, at_ (nlKeyArray up) j =
          if decide (j = uo) then Some median
          else if decide (uo < j < k) then at_ (nlKeyArray base) (j - 1)
          else at_ (nlKeyArray base) j).

(** The page at the top of the path (its last entry) is [root]. *)
Definition pathTop (path : list (Z * PageId)) (root : PageId) : Prop :=
  match list.last path with
  | Some (_, p) => p = root
  | None => True
  end.

Section Invariants.

Variables LEAFSIZE NONLEAFSIZE : Z.

(** Child [c] of a non-leaf of level [lv] is what the level asks for: a
    leaf under a non-leaf of level 2, else a non-leaf one level below. *)
Definition childOk (f : list PageData) (lv : Z) (c : PageId) : Prop :=
  (lv = 2 /\ isLeafPage f c)
  \/ (2 < lv /\ exists n, pageAt f c = Some (NonLeafPage n) /\ level n = lv - 1).

(** A well-formed non-leaf of a tree with data: arrays of the declared
    sizes, the valid children first and at least two of them, every valid
    child as the level asks. *)
Definition nonLeafOk (f : list PageData) (n : NonLeafNodeInt) : Prop :=
  length (nlKeyArray n) = Z.to_nat NONLEAFSIZE
  /\ length (pageNoArray n) = Z.to_nat (NONLEAFSIZE + 1)
  /\ (exists c, at_ (pageNoArray n) 1 = Some c /\ c <> Page.INVALID_NUMBER)
  /\ (forall i c, at_ (pageNoArray n) i = Some c -> c <> Page.INVALID_NUMBER ->
        (forall j, 0 <= j <= i ->
           exists c', at_ (pageNoArray n) j = Some c' /\ c' <> Page.INVALID_NUMBER)
        /\ childOk f (level n) c).

(** A well-formed leaf: arrays of the declared size and, unless it is the
    first leaf of the index, an occupied first slot. *)
Definition leafOk (first : bool) (l : LeafNodeInt) : Prop :=
  length (keyArray l) = Z.to_nat LEAFSIZE
  /\ length (ridArray l) = Z.to_nat LEAFSIZE
  /\ (first = false ->
      exists r, at_ (ridArray l) 0 = Some r /\ page_number r <> Page.INVALID_NUMBER).

(** The structural invariant of an index with data; [firstLeaf] is the left
    leaf that the first insert creates. *)
Definition structureOk (firstLeaf : PageId) (f : list PageData) (root : PageId) : Prop :=
  (forall p n, pageAt f p = Some (NonLeafPage n) -> nonLeafOk f n)
  /\ (forall p l, pageAt f p = Some (LeafPage l) -> leafOk (bool_decide (p = firstLeaf)) l)
  /\ (exists n, pageAt f root = Some (NonLeafPage n))
  /\ leftmostLeaf f root firstLeaf.

(** [f'] extends [f]: no page is lost, leaves stay leaves, non-leaves stay
    non-leaves of the same level with the same first child. *)
Definition extends (f f' : list PageData) : Prop :=
  (length f <= length f')%nat
  /\ (forall p l, pageAt f p = Some (LeafPage l) -> isLeafPage f' p)
  /\ (forall p n, pageAt f p = Some (NonLeafPage n) ->
        exists n', pageAt f' p = Some (NonLeafPage n')
                   /\ level n' = level n
                   /\ at_ (pageNoArray n') 0 = at_ (pageNoArray n) 0).

(** The saved path with levels: the entry above a page of level [lv] names
    a non-leaf of level [lv + 1] (a leaf counts as level 1). *)
Fixpoint pathLevels (f : list PageData) (below : PageId) (lv : Z)
    (path : list (Z * PageId)) : Prop :=
  match path with
  | [] => True
  | (i, p) :: rest =>
      (exists n, pageAt f p = Some (NonLeafPage n)
                 /\ at_ (pageNoArray n) i = Some below
                 /\ level n = lv + 1)
      /\ pathLevels f p (lv + 1) rest
  end.

(** The non-leaf and slot under which the leaf [O] is to be split: once the
    slot is known to be non-negative, the child there is [O]. *)
Definition splitPoint (f : list PageData) (G : option (PageId * Z)) (O : PageId) : Prop :=
  exists g go, G = Some (g, go)
    /\ exists gd, pageAt f g = Some (NonLeafPage gd)
         /\ (0 <= go -> at_ (pageNoArray gd) go = Some O).

End Invariants.

(** Page [p] has level [lv]: a leaf counts as level 1, a non-leaf has its
    [level] field, which is at least 2. *)
Definition pageLevel (f : list PageData) (p : PageId) (lv : Z) : Prop :=
  (lv = 1 /\ isLeafPage f p)
  \/ (2 <= lv /\ exists n, pageAt f p = Some (NonLeafPage n) /\ level n = lv).

(** The top of the path is the root; with an empty path the page the
    descent stands on is the root. *)
Definition topIsRoot (path : list (Z * PageId)) (cur root : PageId) : Prop :=
  match list.last path with
  | Some (_, p) => p = root
  | None => cur = root
  end.

(** * The search structure of an index, for the round trip *)

(** What the proof keeps track of beside the file: for every page the
    bounds of the keys below it ([None] is no bound), the non-leaf and slot
    that point to it, for every leaf the entries it holds, and the leaves
    in the order of their sibling pointers. *)
Record Ghost := mkGhost {
  lowOf : PageId -> option Z;
  highOf : PageId -> option Z;
  parentOf : PageId -> option (PageId * Z);
  entriesOf : PageId -> list (Z * RecordId);
  leafChain : list PageId
}.

Definition aboveLow (b : option Z) (k : Z) : Prop :=
  match b with Some x => x <= k | None => True end.

Definition belowHigh (b : option Z) (k : Z) : Prop :=
  match b with Some x => k <= x | None => True end.

(** Slot [i + 1] of the non-leaf holds a child. *)
Definition nextValid (n : NonLeafNodeInt) (i : Z) : bool :=
  match at_ (pageNoArray n) (i + 1) with
  | Some c => bool_decide (c <> Page.INVALID_NUMBER)
  | None => false
  end.

(** The child [c] in slot [i] of the non-leaf [n] (page [p]): its keys are
    bounded by the keys of [n] on both sides of the slot, or by the bounds of
    [n] itself at either end. *)
Definition edgeOk (g : Ghost) (p : PageId) (n : NonLeafNodeInt) (i : Z) (c : PageId) : Prop :=
  parentOf g c = Some (p, i)
  /\ lowOf g c = (if decide (i = 0) then lowOf g p else at_ (nlKeyArray n) (i - 1))
  /\ highOf g c = (if nextValid n i then at_ (nlKeyArray n) i else highOf g p).

Definition edgesOk (g : Ghost) (f : list PageData) : Prop :=
  forall p n i c,
    pageAt f p = Some (NonLeafPage n) ->
    at_ (pageNoArray n) i = Some c -> c <> Page.INVALID_NUMBER ->
    edgeOk g p n i c.

Definition rootOk (g : Ghost) (root : PageId) : Prop :=
  parentOf g root = None /\ lowOf g root = None /\ highOf g root = None.

Definition validRid (e : Z * RecordId) : Prop :=
  page_number (snd e) <> Page.INVALID_NUMBER.

(** The leaf holds the entries [es] in its first slots, in this order, and
    the other slots are as [memset] or the split left them. *)
Definition leafHolds (LEAFSIZE : Z) (l : LeafNodeInt) (es : list (Z * RecordId)) : Prop :=
  length (keyArray l) = Z.to_nat LEAFSIZE
  /\ length (ridArray l) = Z.to_nat LEAFSIZE
  /\ Z.of_nat (length es) <= LEAFSIZE
  /\ Forall validRid es
  /\ forall j, 0 <= j < LEAFSIZE ->
       slot l j = match es !! Z.to_nat j with
                  | Some e => (Some (fst e), Some (snd e))
                  | None => (Some 0, Some zeroRid)
                  end.

Definition keyLe (x y : Z * RecordId) : Prop := fst x <= fst y.

Definition sortedByKey (es : list (Z * RecordId)) : Prop := StronglySorted keyLe es.

(** Every leaf of the file is on the chain, holds its entries in key
    order, and they are within its bounds. *)
Definition leavesOk (LEAFSIZE : Z) (g : Ghost) (f : list PageData) : Prop :=
  forall q l, pageAt f q = Some (LeafPage l) ->
    leafHolds LEAFSIZE l (entriesOf g q)
    /\ sortedByKey (entriesOf g q)
    /\ Forall (fun e => aboveLow (lowOf g q) (fst e) /\ belowHigh (highOf g q) (fst e))
              (entriesOf g q)
    /\ q ∈ leafChain g.

(** The leaves of [c] are linked by their sibling pointers, the last one
    has none, and where one leaf ends the next begins. *)
Fixpoint linked (g : Ghost) (f : list PageData) (c : list PageId) : Prop :=
  match c with
  | [] => True
  | a :: rest =>
      (exists l, pageAt f a = Some (LeafPage l)
         /\ match rest with
            | [] => rightSibPageNo l = Page.INVALID_NUMBER
            | b :: _ => rightSibPageNo l = b
                        /\ exists x, highOf g a = Some x /\ lowOf g b = Some x
            end)
      /\ linked g f rest
  end.

(** The keys that separate the children of the non-leaves are keys of
    entries. *)
Definition sepOk (entries : list (Z * RecordId)) (f : list PageData) : Prop :=
  forall p n i x,
    pageAt f p = Some (NonLeafPage n) -> nextValid n i = true ->
    at_ (nlKeyArray n) i = Some x -> x ∈ map fst entries.

(** The keys between the children of the non-leaf [n] (page [p]) are within
    the bounds of the non-leaf, and in order. *)
Definition nodeKeysOk (g : Ghost) (p : PageId) (n : NonLeafNodeInt) : Prop :=
  (forall i x, nextValid n i = true -> at_ (nlKeyArray n) i = Some x ->
     aboveLow (lowOf g p) x /\ belowHigh (highOf g p) x)
  /\ (forall i j x y, 0 <= i <= j -> nextValid n j = true ->
        at_ (nlKeyArray n) i = Some x -> at_ (nlKeyArray n) j = Some y -> x <= y).

Definition keysOk (g : Ghost) (f : list PageData) : Prop :=
  forall p n, pageAt f p = Some (NonLeafPage n) -> nodeKeysOk g p n.

(** The bounds of the non-leaves of the index. *)
Definition boundsOk (entries : list (Z * RecordId)) (g : Ghost) (f : list PageData)
    (root : PageId) : Prop :=
  edgesOk g f /\ rootOk g root /\ sepOk entries f /\ keysOk g f.

(** The non-leaf and slot under which the leaf [O] is to be split. *)
Definition splitAt (f : list PageData) (G : option (PageId * Z)) (O : PageId) : Prop :=
  exists gp go gd, G = Some (gp, go)
    /\ pageAt f gp = Some (NonLeafPage gd) /\ at_ (pageNoArray gd) go = Some O.

(** [a] is the place of the key among the entries [es] of a leaf: the
    entries before it have smaller keys, the entries from it on do not. *)
Definition insertPos (keyValue : Z) (es : list (Z * RecordId)) (a : Z) : Prop :=
  0 <= a <= Z.of_nat (length es)
  /\ Forall (fun e => fst e < keyValue) (take (Z.to_nat a) es)
  /\ Forall (fun e => keyValue <= fst e) (drop (Z.to_nat a) es).

(** The index holds [entries]: the structure of the tree, the bounds along
    its edges, and the chain of leaves with the entries. *)
Definition indexOk (LEAFSIZE NONLEAFSIZE : Z) (firstLeaf : PageId)
    (entries : list (Z * RecordId)) (g : Ghost) (f : list PageData) (root : PageId) : Prop :=
  structureOk LEAFSIZE NONLEAFSIZE firstLeaf f root
  /\ edgesOk g f /\ rootOk g root
  /\ leavesOk LEAFSIZE g f
  /\ NoDup (leafChain g)
  /\ (exists rest, leafChain g = firstLeaf :: rest)
  /\ linked g f (leafChain g)
  /\ sepOk entries f
  /\ concat (map (entriesOf g) (leafChain g)) ≡ₚ entries.

(** Zero is within the scan range as the operators read it. *)
Definition zeroInRange (lowVal : Z) (lowOpParm : Operator) (highVal : Z)
    (highOpParm : Operator) : Prop :=
  (lowOpParm = GT -> lowVal <> 0) /\ 0 <= highVal /\ (highOpParm = LT -> highVal <> 0).

(** The fields of the index that a scan reads. *)
Definition cursorAt (s : BTreeIndex) (f : list PageData) (highVal : Z) (highOpParm : Operator)
    (page : option PageId) (entry : Z) : Prop :=
  file s = f /\ highValInt s = highVal /\ highOp s = highOpParm
  /\ currentPageData s = page /\ nextEntry s = entry.

(** Slot [j] of the non-leaf holds a child. *)
Definition validAt (n : NonLeafNodeInt) (j : Z) : Prop :=
  exists c, at_ (pageNoArray n) j = Some c /\ c <> Page.INVALID_NUMBER.

(** The children of the non-leaf are in its first slots. *)
Definition prefixValid (n : NonLeafNodeInt) : Prop :=
  forall i, validAt n i -> forall j, 0 <= j <= i -> validAt n j.

(** Keys 10 .. 50 inserted into a fresh index ([LEAFSIZE = NONLEAFSIZE = 3]):
    the root (page 2) is full. *)
Definition beforeRootSplit : BTreeIndex :=
  snd (insertAll 3 3 (entries1 [10; 20; 30; 40; 50]%nat) (freshIndex 3)).

(** Its root. *)
Definition fullRoot : NonLeafNodeInt := mkNonLeaf 2 [10; 20; 30] [3; 4; 5; 6]%nat.

(** The bounds and parents after the split of the non-leaf [P] under [U],
    slot [uo]: [gnew] is the new right half, [median] the key that goes up,
    [m] the index it had in [P]. *)
Definition splitGhost (g0 : Ghost) (P U gnew : PageId) (uo median m : Z) : Ghost :=
  mkGhost
    (fun q => if decide (q = gnew) then Some median else lowOf g0 q)
    (fun q => if decide (q = gnew) then highOf g0 P
              else if decide (q = P) then Some median else highOf g0 q)
    (fun q => if decide (q = gnew) then Some (U, uo + 1)
              else match parentOf g0 q with
                   | Some (p, j) =>
                       if decide (p = P /\ m < j) then Some (gnew, j - m - 1)
                       else if decide (p = U /\ uo < j) then Some (U, j + 1)
                       else Some (p, j)
                   | None => None
                   end)
    (entriesOf g0) (leafChain g0).

(** The bounds and parents once a new root [U] is put above the root [P]. *)
Definition newRootGhost (g : Ghost) (P U : PageId) : Ghost :=
  mkGhost
    (fun q => if decide (q = U) then None else lowOf g q)
    (fun q => if decide (q = U) then None else highOf g q)
    (fun q => if decide (q = U) then None
              else if decide (q = P) then Some (U, 0) else parentOf g q)
    (entriesOf g) (leafChain g).

(** The bounds, parents, entries and chain after the split of the leaf [O]
    under [G], slot [go]: [R] is the new right leaf, [median] the key that
    goes up and [m] its slot in [O]. *)
Definition leafSplitGhost (g : Ghost) (O G R : PageId) (go median : Z) (m : nat) : Ghost :=
  mkGhost
    (fun q => if decide (q = R) then Some median else lowOf g q)
    (fun q => if decide (q = R) then highOf g O
              else if decide (q = O) then Some median else highOf g q)
    (fun q => if decide (q = R) then Some (G, go + 1)
              else match parentOf g q with
                   | Some (p, j) =>
                       if decide (p = G /\ go < j) then Some (G, j + 1) else Some (p, j)
                   | None => None
                   end)
    (fun q => if decide (q = R) then drop m (entriesOf g O)
              else if decide (q = O) then take m (entriesOf g O) else entriesOf g q)
    (flat_map (fun q => if decide (q = O) then [O; R] else [q]) (leafChain g)).

(** The entries once [e] is put at index [a] of the leaf [p]. *)
Definition insertGhost (g : Ghost) (p : PageId) (a : nat) (e : Z * RecordId) : Ghost :=
  mkGhost (lowOf g) (highOf g) (parentOf g)
    (fun q => if decide (q = p) then take a (entriesOf g p) ++ e :: drop a (entriesOf g p)
              else entriesOf g q)
    (leafChain g).

(** The bounds, parents, entries and chain after the first insert: the
    root is page 2, the empty left leaf page 3, the right leaf page 4. *)
Definition firstGhost (keyValue : Z) (rid : RecordId) : Ghost :=
  mkGhost
    (fun q => if decide (q = 4%nat) then Some keyValue else None)
    (fun q => if decide (q = 3%nat) then Some keyValue else None)
    (fun q => if decide (q = 3%nat) then Some (2%nat, 0)
              else if decide (q = 4%nat) then Some (2%nat, 1) else None)
    (fun q => if decide (q = 4%nat) then [(keyValue, rid)] else [])
    [3%nat; 4%nat].

(** The entries of the leaves from page [p] on, following the right
    sibling pointers, over at most [fuel] leaves. *)
Fixpoint chainEntries (f : list PageData) (fuel : nat) (p : PageId) : list (Z * RecordId) :=
  match fuel with
  | O => []
  | S fuel' =>
      match pageAt f p with
      | Some (LeafPage l) => leafEntries l ++ chainEntries f fuel' (rightSibPageNo l)
      | _ => []
      end
  end.

(** The first leaf and the key [k0] of the first insert: the leaf holds
    only keys below [k0], and its upper bound is [k0] until it is split. *)
Definition firstLeafOk (firstLeaf : PageId) (k0 : Z) (g : Ghost) : Prop :=
  Forall (fun e => fst e < k0) (entriesOf g firstLeaf)
  /\ (entriesOf g firstLeaf = [] -> highOf g firstLeaf = Some k0)
  /\ (exists h, highOf g firstLeaf = Some h /\ h <= k0).

(** The leaves and what is kept about them are the same. *)
Definition sameLeaves (f f' : list PageData) (g g' : Ghost) : Prop :=
  (forall q l, pageAt f' q = Some (LeafPage l) <-> pageAt f q = Some (LeafPage l))
  /\ (forall q l, pageAt f q = Some (LeafPage l) ->
        lowOf g' q = lowOf g q /\ highOf g' q = highOf g q)
  /\ entriesOf g' = entriesOf g
  /\ leafChain g' = leafChain g.

(** ** Room in the non-leaves above the parents of the leaves *)

(** The last child slot of the non-leaf is free. *)
Definition hasRoom (N : Z) (n : NonLeafNodeInt) : Prop :=
  at_ (pageNoArray n) N = Some Page.INVALID_NUMBER.

(** Every non-leaf of level 3 or more, but the one on page [x], has a free
    child slot. *)
Definition roomBut (N : Z) (f : list PageData) (x : option PageId) : Prop :=
  forall p n, pageAt f p = Some (NonLeafPage n) -> 3 <= level n -> x <> Some p ->
              hasRoom N n.

(** Keys 10, 20, 30, 40, 50, 25, 27 inserted into a fresh index
    ([LEAFSIZE = NONLEAFSIZE = 3]): leaf 5 holds 20, 25, 27 and is full, its
    right sibling holds 30, 40, 50, and the key between them is 30. *)
Definition scenarioFullLeaf : BTreeIndex :=
  snd (insertAll 3 3 (entries1 [10; 20; 30; 40; 50; 25; 27]%nat) (freshIndex 3)).

(** ** The calls of a descent on the buffer manager *)

(** The run from [s] to [s'] made the calls [evs] on the buffer manager,
    and the pins of [s'] are those of [s] after these calls. *)
Definition traced (s s' : BTreeIndex) (evs : list BufEvent) : Prop :=
  events s' = events s ++ evs /\ pinned s' = pinsAfter (pinned s) evs.

(** * Properties *)

(** ** Arrays *)

Lemma at_Some {A} (a : list A) (i : Z) (x : A) :
  at_ a i = Some x <-> 0 <= i /\ a !! Z.to_nat i = Some x.
Proof.
  unfold at_. destruct (Z.ltb_spec i 0); split; intros; try easy; try lia.
  all: destruct H0; try lia; auto.
Qed.

Lemma at_in_range {A} (a : list A) (i : Z) :
  0 <= i < Z.of_nat (length a) -> exists x, at_ a i = Some x.
Proof.
  intros H. destruct (lookup_lt_is_Some_2 a (Z.to_nat i)) as [x Hx]; [lia|].
  exists x. apply at_Some. split; [lia|done].
Qed.

Lemma at_None {A} (a : list A) (i : Z) :
  at_ a i = None <-> i < 0 \/ Z.of_nat (length a) <= i.
Proof.
  unfold at_. destruct (Z.ltb_spec i 0).
  - split; auto.
  - rewrite lookup_ge_None. lia.
Qed.

Lemma put_Some {A} (a b : list A) (i : Z) (x : A) :
  put a i x = Some b <->
  0 <= i < Z.of_nat (length a) /\ b = <[Z.to_nat i := x]> a.
Proof.
  unfold put.
  destruct (Z.leb_spec 0 i), (Z.ltb_spec i (Z.of_nat (length a))); simpl;
    split; intros H1; try easy; try lia.
  - inversion H1. split; [lia|done].
  - destruct H1 as [_ ->]. done.
Qed.

Lemma put_in_range {A} (a : list A) (i : Z) (x : A) :
  0 <= i < Z.of_nat (length a) -> put a i x = Some (<[Z.to_nat i := x]> a).
Proof. intros. apply put_Some. done. Qed.

Lemma put_length {A} (a b : list A) (i : Z) (x : A) :
  put a i x = Some b -> length b = length a.
Proof. intros [_ ->]%put_Some. apply length_insert. Qed.

Lemma at_put {A} (a b : list A) (i j : Z) (x : A) :
  put a i x = Some b -> at_ b j = if decide (j = i) then Some x else at_ a j.
Proof.
  intros [Hi ->]%put_Some. unfold at_.
  destruct (Z.ltb_spec j 0).
  - destruct (decide (j = i)); [lia|done].
  - destruct (decide (j = i)) as [->|Hne].
    + apply list_lookup_insert_eq. lia.
    + apply list_lookup_insert_ne. lia.
Qed.

(** ** Positioning within a leaf *)

Section LeafPosition.

Variable LEAFSIZE : Z.
Variable keyValue : Z.
Variable dataPage : LeafNodeInt.

Local Abbreviation unoccupied := (unoccupied dataPage).
Local Abbreviation firstSlot := (firstSlot LEAFSIZE).
Local Abbreviation keyNotBelow := (keyNotBelow keyValue dataPage).

Hypothesis keys_length : length (keyArray dataPage) = Z.to_nat LEAFSIZE.
Hypothesis rids_length : length (ridArray dataPage) = Z.to_nat LEAFSIZE.

(** The loop once [insertAt] is set (insert mode): it only looks for the
    first unoccupied slot. *)
Lemma leafLoop_set (fuel : nat) (i insertAt : Z) :
  0 <= i -> i + Z.of_nat fuel = LEAFSIZE -> insertAt <> LEAFSIZE ->
  (forall j, 0 <= j < i -> ~ unoccupied j) ->
  exists e, leafLoop LEAFSIZE true keyValue dataPage fuel i insertAt = Some (insertAt, e)
            /\ firstSlot unoccupied e.
Proof.
  revert i. induction fuel as [|fuel IH]; intros i Hi Hfuel Hset Hocc; simpl.
  - exists i. split; [done|]. repeat split; try lia. auto.
  - destruct (at_in_range (ridArray dataPage) i) as [r Hr]; [lia|].
    destruct (at_in_range (keyArray dataPage) i) as [k Hk]; [lia|].
    rewrite Hr. simpl. destruct (decide (page_number r = Page.INVALID_NUMBER)) as [Hz|Hnz].
    + exists i. destruct (decide (insertAt = LEAFSIZE)); [done|].
      split; [done|]. repeat split; try lia; [|auto]. intros _. by exists r.
    + rewrite Hk. simpl.
      assert (Hocc' : forall j, 0 <= j < i + 1 -> ~ unoccupied j).
      { intros j Hj. destruct (decide (j = i)) as [->|]; [|apply Hocc; lia].
        intros (r' & Hr' & Hz). congruence. }
      destruct (keyValue >? k); [apply IH; auto; lia|].
      destruct (decide (insertAt = LEAFSIZE)); [done|]. apply IH; auto; lia.
Qed.

(** The loop while [insertAt] still holds its initial value [LEAFSIZE]. *)
Lemma leafLoop_unset (insert : bool) (fuel : nat) (i : Z) :
  0 <= i -> i + Z.of_nat fuel = LEAFSIZE ->
  (forall j, 0 <= j < i -> ~ (unoccupied j \/ keyNotBelow j)) ->
  exists a e, leafLoop LEAFSIZE insert keyValue dataPage fuel i LEAFSIZE = Some (a, e)
    /\ firstSlot (fun j => unoccupied j \/ keyNotBelow j) a
    /\ (insert = true -> firstSlot unoccupied e)
    /\ (insert = false -> e = a).
Proof.
  revert i. induction fuel as [|fuel IH]; intros i Hi Hfuel Hnone; simpl.
  - exists LEAFSIZE, i. split; [done|]. assert (i = LEAFSIZE) as -> by lia.
    repeat split; try lia; auto.
    intros j Hj Hu. apply (Hnone j Hj). by left.
  - destruct (at_in_range (ridArray dataPage) i) as [r Hr]; [lia|].
    destruct (at_in_range (keyArray dataPage) i) as [k Hk]; [lia|].
    rewrite Hr. simpl. destruct (decide (page_number r = Page.INVALID_NUMBER)) as [Hz|Hnz].
    + exists i, i. destruct (decide (LEAFSIZE = LEAFSIZE)) as [_|]; [|done].
      split; [done|]. repeat split; try lia; auto.
      * intros _. left. by exists r.
      * intros _. by exists r.
      * intros j Hj Hu. apply (Hnone j Hj). by left.
    + rewrite Hk. simpl.
      assert (Hnu : ~ unoccupied i).
      { intros (r' & Hr' & Hz). congruence. }
      destruct (Z.gtb_spec keyValue k) as [Hgt|Hle].
      * apply IH; [lia|lia|]. intros j Hj.
        destruct (decide (j = i)) as [->|]; [|apply Hnone; lia].
        intros [Hu|(k' & Hk' & Hle)]; [done|]. assert (k' = k) by congruence. lia.
      * destruct (decide (LEAFSIZE = LEAFSIZE)) as [_|]; [|done].
        assert (Hfirst : firstSlot (fun j => unoccupied j \/ keyNotBelow j) i).
        { repeat split; try lia; auto. intros _. right. exists k. split; [done|lia]. }
        destruct insert.
        -- destruct (leafLoop_set fuel (i + 1) i) as (e & He & Hfe); try lia.
           { intros j Hj. destruct (decide (j = i)) as [->|]; [done|].
             intros Hu. apply (Hnone j); [lia|by left]. }
           exists i, e. rewrite He. split; [done|]. split; [done|]. split; [done|]. done.
        -- exists i, i. split; [done|]. split; [done|]. split; done.
Qed.

End LeafPosition.

(** C6, as the code has it.  For every key and every leaf of [LEAFSIZE]
    slots, the positioning within the leaf returns as insert slot the index
    of the first slot that is unoccupied or whose key is greater than or
    EQUAL to the search key, or [LEAFSIZE] when there is none: a duplicate is
    placed before the equal keys the leaf already holds.  In insert mode the
    loop index it leaves with (the end of records) is the index of the first
    unoccupied slot, or [LEAFSIZE] if the leaf is full; in read-only mode the
    loop leaves at the insert slot. *)
Theorem leafPosition_first_not_below (LEAFSIZE keyValue : Z) (insert : bool)
    (dataPage : LeafNodeInt) :
  0 <= LEAFSIZE ->
  length (keyArray dataPage) = Z.to_nat LEAFSIZE ->
  length (ridArray dataPage) = Z.to_nat LEAFSIZE ->
  exists insertAt i,
    leafPosition LEAFSIZE insert keyValue dataPage = Some (insertAt, i)
    /\ firstSlot LEAFSIZE
         (fun j => unoccupied dataPage j \/ keyNotBelow keyValue dataPage j) insertAt
    /\ (insert = true -> firstSlot LEAFSIZE (unoccupied dataPage) i)
    /\ (insert = false -> i = insertAt).
Proof.
  intros HL Hk Hr. unfold leafPosition.
  apply leafLoop_unset; auto; lia.
Qed.

Lemma leafPosition_first_not_below_witness :
  exists insertAt i,
    leafPosition 3 true 7 leaf7 = Some (insertAt, i)
    /\ firstSlot 3 (fun j => unoccupied leaf7 j \/ keyNotBelow 7 leaf7 j) insertAt
    /\ (true = true -> firstSlot 3 (unoccupied leaf7) i)
    /\ (true = false -> i = insertAt).
Proof.
  apply (leafPosition_first_not_below 3 7 true leaf7); [lia | reflexivity | reflexivity].
Defined.

(** C6, counterexample: in the leaf that holds the single key 7, the insert
    slot for another 7 is slot 0, which is occupied and whose key is not
    greater than 7. *)
Lemma leafPosition_strict_claim_fails : ~ leafPosition_strict_claim 3 7 leaf7.
Proof.
  intros H. destruct (H 0 1 eq_refl) as [(_ & Hat & _) _].
  destruct Hat as [(r & Hr & Hz)|(k & Hk & Hlt)]; [lia| |].
  - vm_compute in Hr. inversion Hr; subst. discriminate.
  - vm_compute in Hk. inversion Hk; subst. lia.
Qed.

(** ** Runs of the monad *)

Lemma bindM_Return {A B} (m : M A) (k : A -> M B) s b s' :
  bindM m k s = (Return b, s') ->
  exists a s1, m s = (Return a, s1) /\ k a s1 = (Return b, s').
Proof.
  unfold bindM. destruct (m s) as [[a| |] s1]; intros H; try discriminate.
  eauto.
Qed.

Lemma bindM_run {A B} (m : M A) (k : A -> M B) s a s1 :
  m s = (Return a, s1) -> bindM m k s = k a s1.
Proof. unfold bindM. intros ->. done. Qed.

Lemma ret_Return {A} (a b : A) s s' : ret a s = (Return b, s') -> b = a /\ s' = s.
Proof. unfold ret. intros H. by inversion H. Qed.

Lemma get_Return s a s' : get s = (Return a, s') -> a = s /\ s' = s.
Proof. unfold get. intros H. by inversion H. Qed.

Lemma modify_Return f s u s' : modify f s = (Return u, s') -> s' = f s.
Proof. unfold modify. intros H. by inversion H. Qed.

Lemma defined_Return {A} (o : option A) s a s' :
  defined o s = (Return a, s') -> o = Some a /\ s' = s.
Proof. destruct o; unfold defined, ret, undefined; intros H; by inversion H. Qed.

Lemma asNonLeaf_Return p s n s' :
  asNonLeaf p s = (Return n, s') -> pageAt (file s) p = Some (NonLeafPage n) /\ s' = s.
Proof.
  unfold asNonLeaf. destruct (pageAt (file s) p) as [[]|]; intros H; by inversion H.
Qed.

Lemma asLeaf_Return p s l s' :
  asLeaf p s = (Return l, s') -> pageAt (file s) p = Some (LeafPage l) /\ s' = s.
Proof.
  unfold asLeaf. destruct (pageAt (file s) p) as [[]|]; intros H; by inversion H.
Qed.

Lemma leafView_Return L p s l s' :
  leafView L p s = (Return l, s') ->
  (pageAt (file s) p = Some (LeafPage l)
   \/ exists n, pageAt (file s) p = Some (NonLeafPage n)
                /\ blankNonLeaf n = true /\ l = nonLeafAsLeaf L n)
  /\ s' = s.
Proof.
  unfold leafView. destruct (pageAt (file s) p) as [[|n| |]|]; intros H; try by inversion H.
  - destruct (blankNonLeaf n) eqn:Hb; inversion H; subst. split; [|done]. right. eauto.
  - inversion H; subst. by split; [left|].
Qed.

(** On a page of level 1 the view is the leaf written there. *)
Lemma leafView_leaf L f p l :
  pageLevel f p 1 ->
  (pageAt f p = Some (LeafPage l)
   \/ exists n, pageAt f p = Some (NonLeafPage n)
                /\ blankNonLeaf n = true /\ l = nonLeafAsLeaf L n) ->
  pageAt f p = Some (LeafPage l).
Proof.
  intros [[_ [l' Hl']]|[Hlv _]] [Hl|(n & Hn & _)]; try done; try lia. congruence.
Qed.

Lemma writePage_Return p d s u s' :
  writePage p d s = (Return u, s') ->
  is_Some (pageAt (file s) p) /\ s' = withFile (fun f => setPage f p d) s.
Proof.
  unfold writePage. destruct (pageAt (file s) p); intros H; inversion H. eauto.
Qed.

Lemma readPage_Return p s q s' :
  BufMgr.readPage p s = (Return q, s') ->
  q = p /\ is_Some (pageAt (file s) p)
  /\ s' = withBuf (p :: pinned s) (events s ++ [EvRead p]) s.
Proof.
  unfold BufMgr.readPage. destruct (pageAt (file s) p); intros H; inversion H. eauto.
Qed.

Lemma allocPage_Return s q s' :
  BufMgr.allocPage s = (Return q, s') ->
  q = S (length (file s))
  /\ s' = withBuf (q :: pinned s) (events s ++ [EvAlloc q])
                  (withFile (fun f => f ++ [BlankPage]) s).
Proof. unfold BufMgr.allocPage. intros H. by inversion H. Qed.

Lemma unPinPage_Return p d s u s' :
  BufMgr.unPinPage p d s = (Return u, s') ->
  s' = withBuf (unpinOne p (pinned s)) (events s ++ [EvUnPin p d]) s.
Proof. unfold BufMgr.unPinPage, modify. intros H. by inversion H. Qed.

(** Takes a run [H : m s = (Return a, s')] of a sequence of calls apart,
    one call at a time. *)
Ltac run1 H :=
  match type of H with
  | bindM _ _ _ = (Return _, _) =>
      let a := fresh "a" in let s := fresh "s" in let H1 := fresh "R" in
      apply bindM_Return in H; destruct H as (a & s & H1 & H); run1 H1
  | ret _ _ = (Return _, _) =>
      apply ret_Return in H; destruct H as [H ?]; simplify_eq
  | get _ = (Return _, _) =>
      apply get_Return in H; destruct H as [? ?]; subst
  | modify _ _ = (Return _, _) =>
      apply modify_Return in H; subst
  | defined _ _ = (Return _, _) =>
      apply defined_Return in H; destruct H as [H ?]; subst
  | asNonLeaf _ _ = (Return _, _) =>
      apply asNonLeaf_Return in H; destruct H as [H ?]; subst
  | asLeaf _ _ = (Return _, _) =>
      apply asLeaf_Return in H; destruct H as [H ?]; subst
  | leafView _ _ _ = (Return _, _) =>
      apply leafView_Return in H; destruct H as [H ?]; subst
  | writePage _ _ _ = (Return _, _) =>
      apply writePage_Return in H; destruct H as [H ?]; subst
  | BufMgr.readPage _ _ = (Return _, _) =>
      apply readPage_Return in H; destruct H as (? & H & ?); subst
  | BufMgr.allocPage _ = (Return _, _) =>
      apply allocPage_Return in H; destruct H as (? & ?); subst
  | BufMgr.unPinPage _ _ _ = (Return _, _) =>
      apply unPinPage_Return in H; subst
  | undefined _ = (Return _, _) => discriminate H
  | throw _ _ = (Return _, _) => discriminate H
  | _ => idtac
  end.

Ltac run H := repeat (run1 H).

(** ** The walk *)

Lemma pinsAfter_app pins e1 e2 :
  pinsAfter pins (e1 ++ e2) = pinsAfter (pinsAfter pins e1) e2.
Proof. apply foldl_app. Qed.

Lemma walk_Return N n keyValue cur path s c' l' path' s' :
  walk N n keyValue cur cur path s = (Return (c', l', path'), s') ->
  c' = l'
  /\ exists evs,
       s' = withBuf (pinsAfter (pinned s) evs) (events s ++ evs) s
       /\ forall tail, handOverHand l' tail -> handOverHand cur (evs ++ tail).
Proof.
  revert cur path s. induction n as [|n IH]; intros cur path s H; simpl in H.
  - run H. split; [done|]. exists []. split.
    + destruct s; simpl. unfold withBuf; simpl. by rewrite app_nil_r.
    + done.
  - run H. apply IH in H as (-> & evs & -> & Htail). split; [done|].
    exists (EvUnPin cur false :: EvRead a2 :: evs). split.
    + unfold withBuf; simpl. f_equal. rewrite <- !app_assoc. done.
    + intros tail Ht. simpl. constructor. auto.
Qed.

(** ** Pages are never removed *)

Lemma setPage_length f p d : length (setPage f p d) = length f.
Proof. destruct p; unfold setPage; [done|apply length_insert]. Qed.

Ltac file_length :=
  simpl in *;
  repeat (rewrite ?length_insert, ?setPage_length, ?length_app in *; simpl in * );
  try lia.

(** Takes every run among the hypotheses apart, splitting on the tests and
    matches at the head of a run. *)
Ltac run_step :=
  match goal with
  | H : bindM _ _ _ = (Return _, _) |- _ =>
      let R := fresh "R" in
      apply bindM_Return in H; destruct H as (? & ? & R & H)
  | H : ret _ _ = (Return _, _) |- _ =>
      apply ret_Return in H; destruct H as [H ?]; simplify_eq
  | H : get _ = (Return _, _) |- _ =>
      apply get_Return in H; destruct H as [? ?]; subst
  | H : modify _ _ = (Return _, _) |- _ =>
      apply modify_Return in H; subst
  | H : defined _ _ = (Return _, _) |- _ =>
      apply defined_Return in H; destruct H as [H ?]; subst
  | H : asNonLeaf _ _ = (Return _, _) |- _ =>
      apply asNonLeaf_Return in H; destruct H as [H ?]; subst
  | H : asLeaf _ _ = (Return _, _) |- _ =>
      apply asLeaf_Return in H; destruct H as [H ?]; subst
  | H : leafView _ _ _ = (Return _, _) |- _ =>
      apply leafView_Return in H; destruct H as [H ?]; subst
  | H : writePage _ _ _ = (Return _, _) |- _ =>
      apply writePage_Return in H; destruct H as [H ?]; subst
  | H : BufMgr.readPage _ _ = (Return _, _) |- _ =>
      apply readPage_Return in H; destruct H as (? & H & ?); subst
  | H : BufMgr.allocPage _ = (Return _, _) |- _ =>
      apply allocPage_Return in H; destruct H as (? & ?); subst
  | H : BufMgr.unPinPage _ _ _ = (Return _, _) |- _ =>
      apply unPinPage_Return in H; subst
  | H : undefined _ = (Return _, _) |- _ => discriminate H
  | H : throw _ _ = (Return _, _) |- _ => discriminate H
  | H : (if ?c then _ else _) _ = (Return _, _) |- _ => destruct c eqn:?
  | H : (match ?c with _ => _ end) _ = (Return _, _) |- _ => destruct c eqn:?
  end.

Ltac run_all := repeat run_step.

Lemma propagate_length N keyValue path done G s G' s' :
  propagate N keyValue path done G s = (Return G', s') ->
  (length (file s) <= length (file s'))%nat.
Proof.
  revert done G s. induction path as [|[offset parentPageId] rest IH];
    intros done G s H; simpl in H.
  - run_all. done.
  - run_all;
      try match goal with H : propagate _ _ _ _ _ _ = _ |- _ => apply IH in H end;
      file_length.
Qed.

Lemma splitLeaf_length L N keyValue dataPage lastPage insertAt G s out s' :
  splitLeaf L N keyValue dataPage lastPage insertAt G s = (Return out, s') ->
  length (file s') = S (length (file s)).
Proof. unfold splitLeaf. intros H. run_all; file_length. Qed.

(** ** The pin discipline of the walk *)

Lemma handOverHand_pins cur evs :
  handOverHand cur evs ->
  (forall n, (length (pinsAfter [cur] (take n evs)) <= 1)%nat)
  /\ pinsAfter [cur] evs = [].
Proof.
  unfold pinsAfter. induction 1 as [cur|cur next evs _ [IH1 IH2]].
  - split.
    + intros [|n]; simpl; [lia|]. rewrite take_nil. simpl.
      destruct (decide (cur = cur)); [simpl; lia|done].
    + simpl. destruct (decide (cur = cur)); done.
  - split.
    + intros [|[|n]]; simpl; try lia.
      * destruct (decide (cur = cur)); [simpl; lia|done].
      * destruct (decide (cur = cur)); [|done]. apply IH1.
    + simpl. destruct (decide (cur = cur)); [|done]. apply IH2.
Qed.

(** ** C9: [scanNext] *)

Lemma upperFails_dec op k high :
  upperFails op k high <->
  (bool_decide (op = LT) && (k >=? high)) || (bool_decide (op = LTE) && (k >? high)) = true.
Proof.
  unfold upperFails.
  destruct (Z.geb_spec k high), (Z.gtb_spec k high), op; simpl;
    split; intros Hu; try easy; try lia;
    try (destruct Hu as [[? ?]|[? ?]]; (discriminate || lia));
    auto; try (left; split; [done|lia]); try (right; split; [done|lia]).
Qed.

Ltac eval_run :=
  cbv [bindM get asLeaf asNonLeaf defined ret throw undefined modify
       BufMgr.unPinPage BufMgr.readPage]; simpl.

Lemma scanNextTemplate_null LEAFSIZE s :
  currentPageData s = None ->
  scanNextTemplate LEAFSIZE s = (Throw IndexScanCompletedException, s).
Proof. intros H. unfold scanNextTemplate. eval_run. rewrite H. done. Qed.

Lemma scanNextTemplate_bound LEAFSIZE s p d k :
  currentPageData s = Some p -> pageAt (file s) p = Some (LeafPage d) ->
  at_ (keyArray d) (nextEntry s) = Some k ->
  upperFails (highOp s) k (highValInt s) ->
  scanNextTemplate LEAFSIZE s
  = (Throw IndexScanCompletedException,
     withBuf (unpinOne (currentPageNum s) (pinned s))
             (events s ++ [EvUnPin (currentPageNum s) false]) s).
Proof.
  intros Hp Hpage Hk Hf. unfold scanNextTemplate. eval_run.
  rewrite Hp, Hpage, Hk. apply upperFails_dec in Hf.
  destruct (bool_decide (highOp s = LT) && (k >=? highValInt s)); [done|].
  simpl in Hf. rewrite Hf. done.
Qed.

Lemma scanNextTemplate_rid LEAFSIZE s p d k r :
  currentPageData s = Some p -> pageAt (file s) p = Some (LeafPage d) ->
  at_ (keyArray d) (nextEntry s) = Some k ->
  at_ (ridArray d) (nextEntry s) = Some r ->
  length (ridArray d) = Z.to_nat LEAFSIZE ->
  0 <= nextEntry s < LEAFSIZE ->
  (rightSibPageNo d = Page.INVALID_NUMBER
   \/ is_Some (pageAt (file s) (rightSibPageNo d))) ->
  ~ upperFails (highOp s) k (highValInt s) ->
  exists s', scanNextTemplate LEAFSIZE s = (Return r, s').
Proof.
  intros Hp Hpage Hk Hr Hrl Hne Hsib Hf. unfold scanNextTemplate. eval_run.
  rewrite Hp, Hpage, Hk, Hr. rewrite upperFails_dec in Hf.
  destruct (bool_decide (highOp s = LT) && (k >=? highValInt s)); [done|].
  destruct (bool_decide (highOp s = LTE) && (k >? highValInt s)); [done|].
  assert (Hhop : forall s0 : BTreeIndex, file s0 = file s ->
    exists s1, (if decide (rightSibPageNo d = Page.INVALID_NUMBER)
     then fun s1 : BTreeIndex =>
            (Return tt, withCursor (nextEntry s1) (currentPageNum s1) None s1)
     else fun s1 : BTreeIndex =>
            let (o0, s'0) :=
              match pageAt (file s1) (rightSibPageNo d) with
              | Some _ => (Return (rightSibPageNo d),
                           withBuf (rightSibPageNo d :: pinned s1)
                             (events s1 ++ [EvRead (rightSibPageNo d)]) s1)
              | None => (Throw InvalidPageException, s1)
              end in
            match o0 with
            | Return a0 => (Return tt, withCursor (nextEntry s'0) (currentPageNum s'0)
                                         (Some a0) s'0)
            | Throw e => (Throw e, s'0)
            | Undefined => (Undefined, s'0)
            end) s0 = (Return tt, s1)).
  { intros s0 Hfile. destruct (decide (rightSibPageNo d = Page.INVALID_NUMBER)); [eauto|].
    rewrite Hfile. destruct Hsib as [?|[x Hx]]; [done|]. rewrite Hx. eauto. }
  destruct (decide (nextEntry s + 1 = LEAFSIZE)) as [Hlast|Hmore].
  - edestruct Hhop as [s1 ->]; [|eauto]. done.
  - destruct (at_in_range (ridArray d) (nextEntry s + 1)) as [r' Hr']; [lia|].
    rewrite Hr'. destruct (bool_decide (page_number r' = Page.INVALID_NUMBER)); [|eauto].
    edestruct Hhop as [s1 ->]; [|eauto]. done.
Qed.

(** C9.  Whenever [scanNext] is called on an active scan whose cursor is
    well formed, it raises [IndexScanCompletedException] exactly when the
    page handle is null or the key under the cursor fails the upper bound
    ([key >= high] when [highOp] is [LT], [key > high] when it is [LTE]); when
    the bound fails, the current page has been unpinned when the exception is
    raised, and nothing else has changed; and when the scan is not over, the
    record id under the cursor is returned. *)
Theorem scanNext_completed_iff (LEAFSIZE : Z) (s : BTreeIndex) :
  scanExecuting s = true ->
  cursorOk LEAFSIZE s ->
  (fst (scanNext LEAFSIZE s) = Throw IndexScanCompletedException <-> scanEnded s)
  /\ (scanEnded s -> currentPageData s <> None ->
      snd (scanNext LEAFSIZE s)
      = withBuf (unpinOne (currentPageNum s) (pinned s))
                (events s ++ [EvUnPin (currentPageNum s) false]) s)
  /\ (~ scanEnded s ->
      exists r, cursorRid s = Some r /\ fst (scanNext LEAFSIZE s) = Return r).
Proof.
  intros Hact Hok.
  assert (Hsn : scanNext LEAFSIZE s = scanNextTemplate LEAFSIZE s).
  { unfold scanNext, bindM, get. by rewrite Hact. }
  rewrite Hsn. clear Hsn.
  unfold scanEnded, cursorOk, cursorKey, cursorRid, cursorLeaf in *.
  destruct (currentPageData s) as [p|] eqn:Hp; simpl in *.
  2:{ rewrite scanNextTemplate_null by done. simpl.
      split; [split; auto|]. split; [done|]. intros H. exfalso. apply H. by left. }
  destruct Hok as (d & Hd & Hkl & Hrl & Hne & Hsib); [done|].
  destruct (pageAt (file s) p) as [[| |d'|]|] eqn:Hpage; try discriminate.
  inversion Hd; subst d'. clear Hd.
  destruct (at_in_range (keyArray d) (nextEntry s)) as [k Hk]; [lia|].
  destruct (at_in_range (ridArray d) (nextEntry s)) as [r Hr]; [lia|].
  cbn [mbind option_bind]. rewrite Hk, Hr.
  assert (Hcases : upperFails (highOp s) k (highValInt s)
                   \/ ~ upperFails (highOp s) k (highValInt s)).
  { rewrite upperFails_dec.
    destruct ((bool_decide (highOp s = LT) && (k >=? highValInt s))
              || (bool_decide (highOp s = LTE) && (k >? highValInt s))); auto. }
  destruct Hcases as [Hf|Hf].
  - rewrite (scanNextTemplate_bound _ _ _ _ _ Hp Hpage Hk Hf). simpl.
    split; [split; [intros _; right; eauto|done]|]. split; [done|].
    intros H. exfalso. apply H. right; eauto.
  - destruct (scanNextTemplate_rid LEAFSIZE _ _ _ _ _ Hp Hpage Hk Hr Hrl Hne Hsib Hf)
      as [s' ->]. simpl.
    assert (Hnot : ~ (Some p = None \/ exists k0, Some k = Some k0
                        /\ upperFails (highOp s) k0 (highValInt s))).
    { intros [?|(k0 & Hk0 & Hf')]; [done|]. inversion Hk0; subst. done. }
    split; [split; [discriminate|tauto]|]. split; [tauto|]. intros _. by exists r.
Qed.

Lemma scanNext_completed_iff_witness :
  (fst (scanNext 3 scanning2) = Throw IndexScanCompletedException <-> scanEnded scanning2)
  /\ (scanEnded scanning2 -> currentPageData scanning2 <> None ->
      snd (scanNext 3 scanning2)
      = withBuf (unpinOne (currentPageNum scanning2) (pinned scanning2))
                (events scanning2 ++ [EvUnPin (currentPageNum scanning2) false]) scanning2)
  /\ (~ scanEnded scanning2 ->
      exists r, cursorRid scanning2 = Some r /\ fst (scanNext 3 scanning2) = Return r).
Proof.
  apply (scanNext_completed_iff 3 scanning2).
  - vm_compute. reflexivity.
  - intros _. exists (mkLeaf [10; 0; 0] [rid1 10; zeroRid; zeroRid] 5%nat).
    split; [vm_compute; reflexivity|]. split; [reflexivity|]. split; [reflexivity|].
    split; [replace (nextEntry scanning2) with 0 by (vm_compute; reflexivity); lia|].
    right. vm_compute. eauto.
Defined.

(** ** C10: an insert that splits nothing changes one leaf *)

Lemma setEntry_Some i k r l l' :
  setEntry i k r l = Some l' ->
  rightSibPageNo l' = rightSibPageNo l
  /\ forall j, slot l' j = if decide (j = i) then (Some k, Some r) else slot l j.
Proof.
  unfold setEntry. intros H.
  destruct (put (keyArray l) i k) as [ka|] eqn:Hk; [|done].
  destruct (put (ridArray l) i r) as [ra|] eqn:Hr; [|done].
  simpl in H. inversion H; subst; simpl. split; [done|].
  intros j. unfold slot; simpl.
  rewrite (at_put _ _ _ j _ Hk), (at_put _ _ _ j _ Hr).
  destruct (decide (j = i)); done.
Qed.

Lemma shiftLeafLoop_Some fuel j l l' :
  shiftLeafLoop fuel j l = Some l' ->
  rightSibPageNo l' = rightSibPageNo l
  /\ forall i, slot l' i = if decide (j - Z.of_nat fuel < i <= j)
                           then slot l (i - 1) else slot l i.
Proof.
  revert j l. induction fuel as [|fuel IH]; intros j l H; simpl in H.
  - inversion H; subst. split; [done|]. intros i.
    destruct (decide (j - Z.of_nat 0 < i <= j)); [lia|done].
  - destruct (at_ (ridArray l) (j - 1)) as [r|] eqn:Hr; [|done].
    destruct (at_ (keyArray l) (j - 1)) as [k|] eqn:Hk; [|done].
    simpl in H. destruct (setEntry j k r l) as [d|] eqn:Hd; [|done].
    simpl in H. apply IH in H as [Hs Hslots].
    apply setEntry_Some in Hd as [Hs1 Hd].
    split; [congruence|]. intros i. rewrite Hslots, !Hd.
    assert (Hj1 : slot l (j - 1) = (Some k, Some r)) by (unfold slot; by rewrite Hk, Hr).
    destruct (decide (j - 1 - Z.of_nat fuel < i <= j - 1)),
             (decide (j - Z.of_nat (S fuel) < i <= j)),
             (decide (i - 1 = j)), (decide (i = j)); try lia; try done.
    subst i. by rewrite Hj1.
Qed.

(** The bounds of the result of the loop over the leaf, in insert mode. *)
Lemma leafLoop_bounds L keyValue d fuel i a0 a e :
  leafLoop L true keyValue d fuel i a0 = Some (a, e) ->
  i + Z.of_nat fuel = L -> 0 <= i ->
  i <= e <= L /\ (a0 = L -> i <= a <= e) /\ (a0 <> L -> a = a0).
Proof.
  revert i a0. induction fuel as [|fuel IH]; intros i a0 H Hf Hi; simpl in H.
  - inversion H. lia.
  - destruct (at_ (ridArray d) i) as [r|]; [|done]. simpl in H.
    destruct (decide (page_number r = Page.INVALID_NUMBER)).
    + inversion H. destruct (decide (a0 = L)); lia.
    + destruct (at_ (keyArray d) i) as [k|]; [|done]. simpl in H.
      destruct (keyValue >? k).
      * apply IH in H; lia.
      * destruct (decide (a0 = L)).
        -- apply IH in H; [|lia|lia]. destruct H as (? & ? & Hset).
           destruct (decide (i = L)); [lia|]. specialize (Hset n0). lia.
        -- apply IH in H; lia.
Qed.

Lemma pageAt_setPage_ne f p q d : q <> p -> pageAt (setPage f p d) q = pageAt f q.
Proof.
  intros Hne. destruct p, q; unfold pageAt, setPage; try done.
  apply list_lookup_insert_ne. lia.
Qed.

Lemma pageAt_setPage_eq f p d :
  is_Some (pageAt f p) -> pageAt (setPage f p d) p = Some d.
Proof.
  destruct p; unfold pageAt, setPage; [by intros [? ?]|]. intros H%lookup_lt_is_Some.
  by apply list_lookup_insert_eq.
Qed.

(** C10.  For every [insertEntry] call that returns and allocates no page
    (the tree is not empty and nothing is split), the only page whose
    contents change is the leaf [p] that the descent reaches: every other
    page of the file (the meta page, the root, every non-leaf, every other
    leaf) and the cached root number are unchanged; and within that leaf the
    sibling pointer and the slots below [insertAt] and above the old
    [endOfRecordsOffset] are unchanged, the new entry is at [insertAt], and
    the slots from [insertAt] to the old end of records are moved one slot to
    the right. *)
Theorem insertEntry_without_split_frame (LEAFSIZE NONLEAFSIZE keyValue : Z)
    (rid : RecordId) (s s' : BTreeIndex) :
  0 <= LEAFSIZE ->
  insertEntry LEAFSIZE NONLEAFSIZE keyValue rid s = (Return tt, s') ->
  length (file s') = length (file s) ->
  exists p leaf leaf' insertAt endOfRecordsOffset,
    pageAt (file s) p = Some (LeafPage leaf)
    /\ leafPosition LEAFSIZE true keyValue leaf = Some (insertAt, endOfRecordsOffset)
    /\ 0 <= insertAt <= endOfRecordsOffset /\ endOfRecordsOffset < LEAFSIZE
    /\ file s' = setPage (file s) p (LeafPage leaf')
    /\ (forall q, q <> p -> pageAt (file s') q = pageAt (file s) q)
    /\ rootPageNum s' = rootPageNum s
    /\ rightSibPageNo leaf' = rightSibPageNo leaf
    /\ forall j,
         slot leaf' j =
           if decide (j < insertAt) then slot leaf j
           else if decide (j = insertAt) then (Some keyValue, Some rid)
           else if decide (j <= endOfRecordsOffset) then slot leaf (j - 1)
           else slot leaf j.
Proof.
  intros HL H Hlen. unfold insertEntry, insertKeyTemplate in H.
  apply bindM_Return in H as (s0 & ? & [-> ->]%get_Return & H).
  apply bindM_Return in H as (rootPage & ? & (-> & Hroot & ->)%readPage_Return & H).
  apply bindM_Return in H as (rootData & ? & [Hrd ->]%asNonLeaf_Return & H).
  apply bindM_Return in H as (first & ? & [Hfirst ->]%defined_Return & H).
  destruct (decide (first = Page.INVALID_NUMBER)).
  { run_all. file_length. }
  apply bindM_Return in H as ([[[dataPageNum insertAt] eor] prev] & s1 & Hd & H).
  unfold getPageNoAndOffsetOfKeyInsert in Hd.
  apply bindM_Return in Hd as (s0 & ? & [-> ->]%get_Return & Hd).
  apply bindM_Return in Hd as (rootData' & ? & [_ ->]%asNonLeaf_Return & Hd).
  apply bindM_Return in Hd as ([[c l] path] & s2 & Hw & Hd).
  simpl in Hw. apply walk_Return in Hw as (-> & evs & -> & _).
  apply bindM_Return in Hd as (leaf & ? & [Hleaf ->]%leafView_Return & Hd).
  apply bindM_Return in Hd as ([a i] & ? & [Hpos ->]%defined_Return & Hd).
  simpl in Hleaf.
  destruct (decide (i = LEAFSIZE)).
  { apply bindM_Return in Hd as (G & s3 & Hp & Hd).
    apply propagate_length in Hp. apply splitLeaf_length in Hd.
    run_all. file_length. }
  run_all. simpl in *.
  destruct Hleaf as [Hleaf|(nb & Hnb & _)]; [|congruence].
  match goal with H : insertIntoLeaf _ _ _ _ _ = Some ?x |- _ => rename x into leaf'; rename H into Hins end.
  assert (x1 = leaf) as -> by congruence.
  unfold insertIntoLeaf in Hins.
  destruct (shiftLeafLoop _ _ _) as [d1|] eqn:Hshift; [|done]. simpl in Hins.
  apply shiftLeafLoop_Some in Hshift as [Hsib1 Hslots1].
  apply setEntry_Some in Hins as [Hsib2 Hslots2].
  unfold leafPosition in Hpos.
  pose proof (leafLoop_bounds _ _ _ _ _ _ _ _ Hpos) as (Hb1 & Hb2 & _).
  { lia. }
  { lia. }
  specialize (Hb2 eq_refl).
  exists l, leaf, leaf', a, i.
  split; [done|]. split; [done|]. split; [lia|]. split; [lia|].
  split; [done|]. split; [intros q Hq; by apply pageAt_setPage_ne|].
  split; [done|]. split; [congruence|].
  intros j. rewrite Hslots2, !Hslots1.
  rewrite Z2Nat.id by lia.
  destruct (decide (j = a)), (decide (j < a)),
    (decide (j <= i)), (decide (i - (i - a) < j <= i)); try lia; done.
Qed.

Lemma insertEntry_without_split_frame_witness :
  exists p leaf leaf' insertAt endOfRecordsOffset,
    pageAt (file afterFirstInsert) p = Some (LeafPage leaf)
    /\ leafPosition 3 true 20 leaf = Some (insertAt, endOfRecordsOffset)
    /\ 0 <= insertAt <= endOfRecordsOffset /\ endOfRecordsOffset < 3
    /\ file (snd (insertEntry 3 3 20 (rid1 20) afterFirstInsert))
       = setPage (file afterFirstInsert) p (LeafPage leaf')
    /\ (forall q, q <> p ->
          pageAt (file (snd (insertEntry 3 3 20 (rid1 20) afterFirstInsert))) q
          = pageAt (file afterFirstInsert) q)
    /\ rootPageNum (snd (insertEntry 3 3 20 (rid1 20) afterFirstInsert))
       = rootPageNum afterFirstInsert
    /\ rightSibPageNo leaf' = rightSibPageNo leaf
    /\ forall j,
         slot leaf' j =
           if decide (j < insertAt) then slot leaf j
           else if decide (j = insertAt) then (Some 20, Some (rid1 20))
           else if decide (j <= endOfRecordsOffset) then slot leaf (j - 1)
           else slot leaf j.
Proof.
  apply (insertEntry_without_split_frame 3 3 20 (rid1 20) afterFirstInsert
           (snd (insertEntry 3 3 20 (rid1 20) afterFirstInsert))).
  - lia.
  - vm_compute. reflexivity.
  - vm_compute. reflexivity.
Defined.

(** ** C7: the leaf split *)

Lemma moveLeafLoop_Some fuel i j l r l' r' :
  moveLeafLoop fuel i j l r = Some (l', r') ->
  rightSibPageNo l' = rightSibPageNo l
  /\ rightSibPageNo r' = rightSibPageNo r
  /\ (forall x, slot l' x = if decide (i <= x < i + Z.of_nat fuel)
                            then (Some 0, Some zeroRid) else slot l x)
  /\ (forall x, slot r' x = if decide (j <= x < j + Z.of_nat fuel)
                            then slot l (i + (x - j)) else slot r x).
Proof.
  revert i j l r. induction fuel as [|fuel IH]; intros i j l r H; simpl in H.
  - inversion H; subst. split; [done|]. split; [done|].
    split; intros x; [destruct (decide (i <= x < i + Z.of_nat 0))
                     |destruct (decide (j <= x < j + Z.of_nat 0))]; try lia; done.
  - destruct (at_ (keyArray l) i) as [k|] eqn:Hk; [|done].
    destruct (at_ (ridArray l) i) as [rd|] eqn:Hr; [|done]. simpl in H.
    destruct (setEntry j k rd r) as [right'|] eqn:Hright; [|done]. simpl in H.
    destruct (setEntry i 0 zeroRid l) as [left'|] eqn:Hleft; [|done]. simpl in H.
    apply IH in H as (Hs1 & Hs2 & Hl & Hrr).
    apply setEntry_Some in Hright as [Hsr Hright].
    apply setEntry_Some in Hleft as [Hsl Hleft].
    split; [congruence|]. split; [congruence|].
    assert (Hi : slot l i = (Some k, Some rd)) by (unfold slot; by rewrite Hk, Hr).
    split; intros x.
    + rewrite Hl, Hleft.
      destruct (decide (i + 1 <= x < i + 1 + Z.of_nat fuel)),
        (decide (i <= x < i + Z.of_nat (S fuel))), (decide (x = i)); try lia; done.
    + rewrite Hrr, Hleft, Hright.
      destruct (decide (j + 1 <= x < j + 1 + Z.of_nat fuel)),
        (decide (j <= x < j + Z.of_nat (S fuel))), (decide (x = j)),
        (decide (i + 1 + (x - (j + 1)) = i)); try lia; try done.
      * f_equal. lia.
      * subst x. rewrite <- Hi. f_equal. lia.
Qed.

Lemma setKey_Some i k n n' :
  setKey i k n = Some n' ->
  level n' = level n /\ pageNoArray n' = pageNoArray n
  /\ put (nlKeyArray n) i k = Some (nlKeyArray n').
Proof.
  unfold setKey. destruct (put (nlKeyArray n) i k) eqn:E; [|done].
  simpl. intros H. inversion H; subst. done.
Qed.

Lemma setPageNo_Some i p n n' :
  setPageNo i p n = Some n' ->
  level n' = level n /\ nlKeyArray n' = nlKeyArray n
  /\ put (pageNoArray n) i p = Some (pageNoArray n').
Proof.
  unfold setPageNo. destruct (put (pageNoArray n) i p) eqn:E; [|done].
  simpl. intros H. inversion H; subst. done.
Qed.

Lemma pageAt_app_blank f p d :
  pageAt f p = Some d -> pageAt (f ++ [BlankPage]) p = Some d.
Proof. destruct p; unfold pageAt; [done|]. apply lookup_app_l_Some. Qed.

Lemma pageAt_lt f p : is_Some (pageAt f p) -> (1 <= p <= length f)%nat.
Proof. destruct p; unfold pageAt; [by intros [? ?]|]. intros H%lookup_lt_is_Some. lia. Qed.

Lemma at_replicate {A} (n : nat) (x : A) (j : Z) :
  0 <= j < Z.of_nat n -> at_ (replicate n x) j = Some x.
Proof.
  intros H. apply at_Some. split; [lia|]. apply lookup_replicate_2. lia.
Qed.

Lemma slot_zeroLeaf L sib j :
  0 <= j < L -> slot (setRightSib sib (zeroLeaf L)) j = (Some 0, Some zeroRid).
Proof.
  intros H. unfold slot, setRightSib, zeroLeaf; simpl.
  rewrite !at_replicate by lia. done.
Qed.

(** C7.  Whenever the split of a leaf [O] of [LEAFSIZE] slots returns, with
    [m = LEAFSIZE / 2] and [R] the page it has just allocated: the entries of
    slots [m .. LEAFSIZE-1] of [O] are in [R] from slot 0 on and the other
    slots of [R] are empty; those slots are cleared in [O] and the slots
    below [m] are as they were; the right sibling of [R] is the old right
    sibling of [O] and the right sibling of [O] is [R]; the key promoted into
    the parent, at the slot the descent took, with [R] as the child to its
    right, is the key of slot [m] of [O] before the move, which is the key of
    slot 0 of [R] after it; and the new key is targeted at [R], slot
    [insertAt - m], when it is greater than the promoted key, else at [O], slot
    [insertAt]. *)
Theorem splitLeaf_moves_upper_half (LEAFSIZE NONLEAFSIZE keyValue : Z) (O : PageId)
    (insertAt : Z) (G : option (PageId * Z)) (s s' : BTreeIndex)
    (out : PageId * Z * Z * PageId) :
  0 < LEAFSIZE ->
  splitLeaf LEAFSIZE NONLEAFSIZE keyValue O O insertAt G s = (Return out, s') ->
  let m := LEAFSIZE / 2 in
  let R := S (length (file s)) in
  exists parent offset leaf median leafO leafR parentData,
    G = Some (parent, offset)
    /\ pageAt (file s) O = Some (LeafPage leaf)
    /\ pageAt (file s) R = None
    /\ at_ (keyArray leaf) m = Some median
    /\ pageAt (file s') O = Some (LeafPage leafO)
    /\ pageAt (file s') R = Some (LeafPage leafR)
    /\ pageAt (file s') parent = Some (NonLeafPage parentData)
    /\ (forall j, 0 <= j < LEAFSIZE - m -> slot leafR j = slot leaf (m + j))
    /\ (forall j, LEAFSIZE - m <= j < LEAFSIZE -> slot leafR j = (Some 0, Some zeroRid))
    /\ (forall j, j < m -> slot leafO j = slot leaf j)
    /\ (forall j, m <= j < LEAFSIZE -> slot leafO j = (Some 0, Some zeroRid))
    /\ rightSibPageNo leafR = rightSibPageNo leaf
    /\ rightSibPageNo leafO = R
    /\ at_ (nlKeyArray parentData) offset = Some median
    /\ at_ (pageNoArray parentData) (offset + 1) = Some R
    /\ at_ (keyArray leafR) 0 = Some median
    /\ out = if keyValue >? median
             then (R, insertAt - m,
                   if decide (LEAFSIZE `rem` 2 = 0) then m else m + 1, O)
             else (O, insertAt, m, O).
Proof.
  intros HL H m R. unfold splitLeaf in H.
  apply bindM_Return in H as ([parent offset] & ? & [-> ->]%defined_Return & H).
  apply bindM_Return in H as (pd & ? & [Hpd ->]%asNonLeaf_Return & H).
  apply bindM_Return in H as (pd1 & ? & [Hopen ->]%defined_Return & H).
  apply bindM_Return in H as (leaf & ? & [Hleaf ->]%asLeaf_Return & H).
  apply bindM_Return in H as (median & ? & [Hmed ->]%defined_Return & H).
  apply bindM_Return in H as (pd2 & ? & [Hkey ->]%defined_Return & H).
  apply bindM_Return in H as (greaterKey & s1 & [-> ->]%allocPage_Return & H).
  apply bindM_Return in H as (pd3 & ? & [Hpno ->]%defined_Return & H).
  apply bindM_Return in H as (? & ? & [Hw1 ->]%writePage_Return & H).
  apply bindM_Return in H as ([leafO leafR] & ? & [Hmove ->]%defined_Return & H).
  apply bindM_Return in H as (? & ? & [Hw2 ->]%writePage_Return & H).
  apply bindM_Return in H as (? & ? & [Hw3 ->]%writePage_Return & H).
  run_all. simpl in *. fold R in Hpno, Hmove, Hw3 |- *. fold m in Hmed, Hmove |- *.
  apply moveLeafLoop_Some in Hmove as (HsO & HsR & HslO & HslR). simpl in *.
  apply setKey_Some in Hkey as (_ & Hpn2 & Hkey).
  apply setPageNo_Some in Hpno as (_ & Hk3 & Hpno).
  assert (Hm : 0 <= m < LEAFSIZE).
  { subst m. split; [apply Z.div_pos; lia|apply Z.div_lt_upper_bound; lia]. }
  assert (HOlt := pageAt_lt _ _ (ex_intro _ _ Hleaf)).
  assert (HPlt := pageAt_lt _ _ (ex_intro _ _ Hpd)).
  assert (HneOP : O <> parent) by (intros ->; congruence).
  assert (HR : pageAt (file s) R = None).
  { subst R. unfold pageAt. apply lookup_ge_None. lia. }
  exists parent, offset, leaf, median, leafO, leafR, pd3.
  split; [done|]. split; [done|]. split; [done|]. split; [done|].
  split. { rewrite pageAt_setPage_ne by (subst R; lia). by apply pageAt_setPage_eq. }
  split. { by apply pageAt_setPage_eq. }
  split. { rewrite pageAt_setPage_ne by (subst R; lia).
           rewrite pageAt_setPage_ne by done. by apply pageAt_setPage_eq. }
  assert (HRslots : forall j, 0 <= j < LEAFSIZE - m -> slot leafR j = slot leaf (m + j)).
  { intros j Hj. rewrite HslR, Z2Nat.id by lia.
    destruct (decide (0 <= j < 0 + (LEAFSIZE - m))); [|lia].
    unfold slot, setRightSib; simpl. do 2 f_equal; lia. }
  split; [done|].
  split. { intros j Hj. rewrite HslR, Z2Nat.id by lia.
           destruct (decide (0 <= j < 0 + (LEAFSIZE - m))); [lia|].
           apply slot_zeroLeaf. lia. }
  split. { intros j Hj. rewrite HslO. destruct (decide _); [lia|]. done. }
  split. { intros j Hj. rewrite HslO, Z2Nat.id by lia. destruct (decide _); [done|lia]. }
  split; [done|]. split; [done|].
  split. { rewrite Hk3. erewrite at_put by done. by destruct (decide _). }
  split. { erewrite at_put by done. by destruct (decide _). }
  split. { specialize (HRslots 0). unfold slot in HRslots.
           assert (Hz : 0 <= 0 < LEAFSIZE - m) by lia.
           apply HRslots in Hz. rewrite Z.add_0_r, Hmed in Hz. by inversion Hz. }
  destruct (keyValue >? median); done.
Qed.

(** ** The scenarios *)

Lemma splitLeaf_moves_upper_half_witness :
  let m := 3 / 2 in
  let R := S (length (file atLeafSplit)) in
  exists parent offset leaf median leafO leafR parentData,
    Some (2%nat, 1) = Some (parent, offset)
    /\ pageAt (file atLeafSplit) 4%nat = Some (LeafPage leaf)
    /\ pageAt (file atLeafSplit) R = None
    /\ at_ (keyArray leaf) m = Some median
    /\ pageAt (file (snd (splitLeaf 3 3 40 4%nat 4%nat 3 (Some (2%nat, 1)) atLeafSplit))) 4%nat
       = Some (LeafPage leafO)
    /\ pageAt (file (snd (splitLeaf 3 3 40 4%nat 4%nat 3 (Some (2%nat, 1)) atLeafSplit))) R
       = Some (LeafPage leafR)
    /\ pageAt (file (snd (splitLeaf 3 3 40 4%nat 4%nat 3 (Some (2%nat, 1)) atLeafSplit))) parent
       = Some (NonLeafPage parentData)
    /\ (forall j, 0 <= j < 3 - m -> slot leafR j = slot leaf (m + j))
    /\ (forall j, 3 - m <= j < 3 -> slot leafR j = (Some 0, Some zeroRid))
    /\ (forall j, j < m -> slot leafO j = slot leaf j)
    /\ (forall j, m <= j < 3 -> slot leafO j = (Some 0, Some zeroRid))
    /\ rightSibPageNo leafR = rightSibPageNo leaf
    /\ rightSibPageNo leafO = R
    /\ at_ (nlKeyArray parentData) offset = Some median
    /\ at_ (pageNoArray parentData) (offset + 1) = Some R
    /\ at_ (keyArray leafR) 0 = Some median
    /\ (5%nat, 2, 2, 4%nat)
       = if 40 >? median
         then (R, 3 - m, if decide (3 `rem` 2 = 0) then m else m + 1, 4%nat)
         else (4%nat, 3, m, 4%nat).
Proof.
  apply (splitLeaf_moves_upper_half 3 3 40 4%nat 3 (Some (2%nat, 1)) atLeafSplit
           (snd (splitLeaf 3 3 40 4%nat 4%nat 3 (Some (2%nat, 1)) atLeafSplit))
           (5%nat, 2, 2, 4%nat)).
  - lia.
  - vm_compute. reflexivity.
Defined.

(** C2, as the code has it.  With [LEAFSIZE = NONLEAFSIZE = 3], after keys
    10, 20, 30, 40 (rids [(key,1)]) are inserted into a fresh index, the scan
    [(10, GTE, 40, LTE)] yields [(10,1), (20,1), (30,1), (40,1)] in that order;
    the tree is the level-2 root (page 2) with the two keys 10 and 20 and three
    leaves: the empty leaf of the first insert (page 3), then [10] (page 4),
    then [20, 30, 40] (page 5), each with its right-sibling pointer set to the
    next and the last to 0. *)
Theorem scenario2_scan_and_shape :
  fst (scanAll 3 3 5 10 GTE 40 LTE scenario2)
    = Return [rid1 10; rid1 20; rid1 30; rid1 40]
  /\ rootPageNum scenario2 = 2%nat
  /\ pageAt (file scenario2) 2%nat
     = Some (NonLeafPage (mkNonLeaf 2 [10; 20; 0] [3; 4; 5; 0]%nat))
  /\ pageAt (file scenario2) 3%nat
     = Some (LeafPage (mkLeaf [0; 0; 0] [zeroRid; zeroRid; zeroRid] 4%nat))
  /\ pageAt (file scenario2) 4%nat
     = Some (LeafPage (mkLeaf [10; 0; 0] [rid1 10; zeroRid; zeroRid] 5%nat))
  /\ pageAt (file scenario2) 5%nat
     = Some (LeafPage (mkLeaf [20; 30; 40] [rid1 20; rid1 30; rid1 40] 0%nat))
  /\ length (file scenario2) = 5%nat.
Proof. vm_compute. repeat split; reflexivity. Qed.

(** C2, counterexample: the tree of scenario 2 does not have the shape the
    specification gives (a root with the single key 30 over the leaves
    [10, 20] and [30, 40]). *)
Lemma scenario2_claimed_shape_fails : ~ claimOfScenario2.
Proof.
  intros [_ (root & l & r & ll & rl & Hroot & _ & Hkeys & _)].
  vm_compute in Hroot. inversion Hroot; subst root.
  vm_compute in Hkeys. discriminate.
Qed.


(** C1, counterexample.  With [LEAFSIZE = NONLEAFSIZE = 3], after
    [insertEntry(10, (10,1))] on a fresh index the scan [(0, GT, 100, LT)],
    whose bounds enclose the key, does not return [(10,1)]: it returns the
    record id [(0,0)] of an unoccupied slot. *)
Lemma full_scan_misses_entry :
  fst (scanAll 3 3 2 0 GT 100 LT afterFirstInsert) = Return [zeroRid]
  /\ ~ fullScanRoundTrip 3 3 [(10, rid1 10)] 0 GT 100 LT.
Proof.
  split; [vm_compute; reflexivity|].
  intros (s & Hs & Hscan). vm_compute in Hs. inversion Hs; subst s.
  vm_compute in Hscan. discriminate.
Qed.

(** Equal keys do not come back in insertion order either: after
    [insertEntry(7, (1,1))] and [insertEntry(7, (2,1))] the full scan yields
    [(2,1)] before [(1,1)]. *)
Lemma full_scan_reverses_equal_keys :
  fst (scanAll 3 3 3 1 GTE 100 LTE
         (snd (insertAll 3 3 [(7, rid1 1); (7, rid1 2)] (freshIndex 3))))
  = Return [rid1 2; rid1 1].
Proof. vm_compute. reflexivity. Qed.

(** C4, counterexample: after the first insert the root has level 2 and its
    children are leaves, so the parents of leaves do not have level 1. *)
Lemma leaf_parent_level_is_not_one : ~ levelDiscipline 1 afterFirstInsert.
Proof.
  intros [H _].
  destruct (H 2%nat (mkNonLeaf 2 [10; 0; 0] [3; 4; 0; 0]%nat) 4%nat) as [[_ Hl] _].
  - vm_compute. reflexivity.
  - vm_compute. apply list_elem_of_further, list_elem_of_here.
  - assert (Hx : level (mkNonLeaf 2 [10; 0; 0] [3; 4; 0; 0]%nat) = 1); [|discriminate].
    apply Hl. eexists. vm_compute. reflexivity.
Qed.

(** C5, counterexample: after the first insert the left leaf (page 3), which
    is not the root, holds no key. *)
Lemma first_insert_leaves_left_leaf_empty :
  ~ occupancy (fun _ => False) afterFirstInsert.
Proof.
  intros H. specialize (H 3%nat (fun x => x)). vm_compute in H. by apply H.
Qed.

(** ** The loops over a non-leaf *)

Lemma firstInvalidLoop_Some a fuel k0 k :
  firstInvalidLoop a fuel k0 = Some k ->
  k0 <= k <= k0 + Z.of_nat fuel
  /\ (forall j, k0 <= j < k -> exists c, at_ a j = Some c /\ c <> Page.INVALID_NUMBER)
  /\ (k < k0 + Z.of_nat fuel -> at_ a k = Some Page.INVALID_NUMBER).
Proof.
  revert k0. induction fuel as [|fuel IH]; intros k0 H; simpl in H.
  - inversion H; subst. split; [lia|]. split; [intros; lia|lia].
  - destruct (at_ a k0) as [p|] eqn:Hp; [|done]. simpl in H.
    destruct (decide (p = Page.INVALID_NUMBER)) as [->|Hnz].
    + inversion H; subst. split; [lia|]. split; [intros; lia|done].
    + apply IH in H as (Hk & Hbelow & Hat). split; [lia|]. split.
      * intros j Hj. destruct (decide (j = k0)) as [->|]; [eauto|]. apply Hbelow. lia.
      * intros Hlt. apply Hat. lia.
Qed.

Lemma firstInvalid_Some N n offset k :
  firstInvalid N n offset = Some k ->
  offset <= k
  /\ (offset <= N + 1 -> k <= N + 1)
  /\ (forall j, offset <= j < k ->
        exists c, at_ (pageNoArray n) j = Some c /\ c <> Page.INVALID_NUMBER)
  /\ (k <= N -> at_ (pageNoArray n) k = Some Page.INVALID_NUMBER).
Proof.
  unfold firstInvalid. intros H. apply firstInvalidLoop_Some in H as (Hk & Hb & Hat).
  split; [lia|]. split; [lia|]. split; [done|]. intros Hle. apply Hat. lia.
Qed.

Lemma sameShape_refl n : sameShape n n.
Proof. done. Qed.

Lemma sameShape_trans n1 n2 n3 : sameShape n1 n2 -> sameShape n2 n3 -> sameShape n1 n3.
Proof. unfold sameShape. intros (? & ? & ?) (? & ? & ?). repeat split; congruence. Qed.

Lemma setKey_shape i k n n' : setKey i k n = Some n' -> sameShape n n'.
Proof.
  intros (Hl & Hp & Hput)%setKey_Some. apply put_length in Hput.
  unfold sameShape. rewrite Hp. done.
Qed.

Lemma setPageNo_shape i p n n' : setPageNo i p n = Some n' -> sameShape n n'.
Proof.
  intros (Hl & Hp & Hput)%setPageNo_Some. apply put_length in Hput.
  unfold sameShape. rewrite Hp. done.
Qed.

Lemma shiftLoop_shape fuel k n n' : shiftLoop fuel k n = Some n' -> sameShape n n'.
Proof.
  revert k n. induction fuel as [|fuel IH]; intros k n H; simpl in H.
  - inversion H; subst. apply sameShape_refl.
  - destruct (if 0 <=? k - 1 then _ else _) as [n1|] eqn:H1; [|done]. simpl in H.
    destruct (if 0 <=? k - 2 then _ else _) as [n2|] eqn:H2; [|done]. simpl in H.
    apply IH in H.
    assert (S1 : sameShape n n1).
    { destruct (0 <=? k - 1); [|inversion H1; subst; apply sameShape_refl].
      destruct (at_ (pageNoArray n) (k - 1)); [|done]. simpl in H1.
      by apply setPageNo_shape in H1. }
    assert (S2 : sameShape n1 n2).
    { destruct (0 <=? k - 2); [|inversion H2; subst; apply sameShape_refl].
      destruct (at_ (nlKeyArray n1) (k - 2)); [|done]. simpl in H2.
      by apply setKey_shape in H2. }
    eauto using sameShape_trans.
Qed.

Lemma moveNonLeafLoop_shape fuel i j p r p' r' :
  moveNonLeafLoop fuel i j p r = Some (p', r') -> sameShape p p' /\ sameShape r r'.
Proof.
  revert i j p r. induction fuel as [|fuel IH]; intros i j p r H; simpl in H.
  - inversion H; subst. split; apply sameShape_refl.
  - destruct (at_ (nlKeyArray p) i) as [k|] eqn:Hk; [|done]. simpl in H.
    destruct (setKey j k r) as [r1|] eqn:Hr1; [|done]. simpl in H.
    destruct (at_ (pageNoArray p) (i + 1)) as [c|] eqn:Hc; [|done]. simpl in H.
    destruct (setPageNo (j + 1) c r1) as [r2|] eqn:Hr2; [|done]. simpl in H.
    destruct (setKey i 0 p) as [p1|] eqn:Hp1; [|done]. simpl in H.
    destruct (setPageNo (i + 1) Page.INVALID_NUMBER p1) as [p2|] eqn:Hp2; [|done].
    simpl in H. apply IH in H as [? ?].
    apply setKey_shape in Hr1, Hp1. apply setPageNo_shape in Hr2, Hp2.
    split; eauto using sameShape_trans.
Qed.

Lemma splitNonLeaf_shape N pd left right :
  splitNonLeaf N pd = Some (left, right) ->
  sameShape pd left /\ sameShape (setLevel (level pd) (zeroNonLeaf N)) right.
Proof.
  unfold splitNonLeaf. intros H.
  destruct (moveNonLeafLoop _ _ _ _ _) as [[p1 r1]|] eqn:Hmove; [|done]. simpl in H.
  destruct (at_ (pageNoArray p1) _) as [c|] eqn:Hc; [|done]. simpl in H.
  destruct (setPageNo 0 c r1) as [r2|] eqn:Hr2; [|done]. simpl in H.
  destruct (setPageNo _ Page.INVALID_NUMBER p1) as [p2|] eqn:Hp2; [|done].
  simpl in H. destruct (setKey _ 0 p2) as [p3|] eqn:Hp3; [|done]. simpl in H.
  inversion H; subst p3 r2. clear H.
  apply moveNonLeafLoop_shape in Hmove as [? ?].
  apply setPageNo_shape in Hr2, Hp2. apply setKey_shape in Hp3.
  split; eauto using sameShape_trans.
Qed.

Lemma openSlot_shape N offset n n' : openSlot N offset n = Some n' -> sameShape n n'.
Proof.
  unfold openSlot. intros H. destruct (firstInvalid N n offset); [|done].
  simpl in H. by apply shiftLoop_shape in H.
Qed.

(** The two arrays of a non-leaf, read at every index. *)
Lemma shiftLoop_Some fuel k n n' :
  shiftLoop fuel k n = Some n' ->
  level n' = level n
  /\ (forall j, at_ (pageNoArray n') j =
        if decide (k - Z.of_nat fuel < j <= k /\ 1 <= j)
        then at_ (pageNoArray n) (j - 1) else at_ (pageNoArray n) j)
  /\ (forall j, at_ (nlKeyArray n') j =
        if decide (k - Z.of_nat fuel <= j < k /\ 1 <= j)
        then at_ (nlKeyArray n) (j - 1) else at_ (nlKeyArray n) j).
Proof.
  revert k n. induction fuel as [|fuel IH]; intros k n H; simpl in H.
  - inversion H; subst. split; [done|].
    split; intros j; destruct (decide _); try lia; done.
  - destruct (Z.leb_spec 0 (k - 1)) as [Hk1|Hk1].
    + destruct (at_ (pageNoArray n) (k - 1)) as [p|] eqn:Hp; [|done]. simpl in H.
      destruct (setPageNo k p n) as [n1|] eqn:Hn1; [|done]. simpl in H.
      apply setPageNo_Some in Hn1 as (Hl1 & Hk1' & Hput1).
      destruct (Z.leb_spec 0 (k - 2)) as [Hk2|Hk2].
      * destruct (at_ (nlKeyArray n1) (k - 2)) as [x|] eqn:Hx; [|done]. simpl in H.
        destruct (setKey (k - 1) x n1) as [n2|] eqn:Hn2; [|done]. simpl in H.
        apply setKey_Some in Hn2 as (Hl2 & Hp2 & Hput2).
        apply IH in H as (Hl & Hpn & Hkey).
        split; [congruence|]. split; intros j.
        -- rewrite Hpn, Hp2. rewrite !(at_put _ _ _ _ _ Hput1).
           destruct (decide (k - 1 - Z.of_nat fuel < j <= k - 1 /\ 1 <= j)),
             (decide (k - Z.of_nat (S fuel) < j <= k /\ 1 <= j)),
             (decide (j - 1 = k)), (decide (j = k)); try lia; try done.
           subst j. done.
        -- rewrite Hkey. rewrite !(at_put _ _ _ _ _ Hput2), Hk1'.
           destruct (decide (k - 1 - Z.of_nat fuel <= j < k - 1 /\ 1 <= j)),
             (decide (k - Z.of_nat (S fuel) <= j < k /\ 1 <= j)),
             (decide (j - 1 = k - 1)), (decide (j = k - 1)); try lia; try done.
           subst j. rewrite Hk1' in Hx. rewrite <- Hx. f_equal. lia.
      * simpl in H. apply IH in H as (Hl & Hpn & Hkey).
        split; [congruence|]. split; intros j.
        -- rewrite Hpn. rewrite !(at_put _ _ _ _ _ Hput1).
           destruct (decide (k - 1 - Z.of_nat fuel < j <= k - 1 /\ 1 <= j)),
             (decide (k - Z.of_nat (S fuel) < j <= k /\ 1 <= j)),
             (decide (j - 1 = k)), (decide (j = k)); try lia; try done.
           subst j. done.
        -- rewrite Hkey, Hk1'.
           destruct (decide (k - 1 - Z.of_nat fuel <= j < k - 1 /\ 1 <= j)),
             (decide (k - Z.of_nat (S fuel) <= j < k /\ 1 <= j)); try lia; done.
    + destruct (Z.leb_spec 0 (k - 2)) as [Hk2|Hk2]; [lia|]. simpl in H.
      apply IH in H as (Hl & Hpn & Hkey).
      split; [congruence|]. split; intros j.
      * rewrite Hpn.
        destruct (decide (k - 1 - Z.of_nat fuel < j <= k - 1 /\ 1 <= j)),
          (decide (k - Z.of_nat (S fuel) < j <= k /\ 1 <= j)); try lia; done.
      * rewrite Hkey.
        destruct (decide (k - 1 - Z.of_nat fuel <= j < k - 1 /\ 1 <= j)),
          (decide (k - Z.of_nat (S fuel) <= j < k /\ 1 <= j)); try lia; done.
Qed.

(** Opening slot [offset]: the children from [offset] up to the first
    invalid one move one place to the right (so the child at [offset] is
    also at [offset + 1]), and the keys from [offset] on do the same. *)
Lemma openSlot_Some N offset n n' :
  0 <= N ->
  openSlot N offset n = Some n' ->
  exists k,
    firstInvalid N n offset = Some k
    /\ 0 <= offset <= k
    /\ level n' = level n
    /\ (forall j, at_ (pageNoArray n') j =
          if decide (offset < j <= k) then at_ (pageNoArray n) (j - 1)
          else at_ (pageNoArray n) j)
    /\ (forall j, at_ (nlKeyArray n') j =
          if decide (offset <= j < k /\ 1 <= j) then at_ (nlKeyArray n) (j - 1)
          else at_ (nlKeyArray n) j).
Proof.
  unfold openSlot. intros HN H.
  destruct (firstInvalid N n offset) as [k|] eqn:Hk; [|done]. simpl in H.
  exists k. split; [done|].
  pose proof (firstInvalid_Some _ _ _ _ Hk) as (Hle & _ & Hbelow & _).
  assert (H0 : 0 <= offset).
  { unfold firstInvalid in Hk. destruct (Z.to_nat (N + 1 - offset)) eqn:E.
    - simpl in Hk. inversion Hk; subst.
      lia.
    - simpl in Hk. destruct (at_ (pageNoArray n) offset) eqn:E2; [|done].
      apply at_Some in E2. lia. }
  apply shiftLoop_Some in H as (Hl & Hpn & Hkey).
  split; [lia|]. split; [done|]. rewrite Z2Nat.id in Hpn, Hkey by lia.
  split; intros j.
  - rewrite Hpn. destruct (decide (k - (k - offset) < j <= k /\ 1 <= j)),
      (decide (offset < j <= k)); try lia; done.
  - rewrite Hkey. destruct (decide (k - (k - offset) <= j < k /\ 1 <= j)),
      (decide (offset <= j < k /\ 1 <= j)); try lia; done.
Qed.

Lemma setKey_at i k n n' :
  setKey i k n = Some n' ->
  level n' = level n /\ pageNoArray n' = pageNoArray n
  /\ forall j, at_ (nlKeyArray n') j = if decide (j = i) then Some k else at_ (nlKeyArray n) j.
Proof.
  intros (Hl & Hp & Hput)%setKey_Some. split; [done|]. split; [done|].
  intros j. by apply at_put.
Qed.

Lemma setPageNo_at i p n n' :
  setPageNo i p n = Some n' ->
  level n' = level n /\ nlKeyArray n' = nlKeyArray n
  /\ forall j, at_ (pageNoArray n') j = if decide (j = i) then Some p else at_ (pageNoArray n) j.
Proof.
  intros (Hl & Hp & Hput)%setPageNo_Some. split; [done|]. split; [done|].
  intros j. by apply at_put.
Qed.

Lemma moveNonLeafLoop_Some fuel i j p r p' r' :
  moveNonLeafLoop fuel i j p r = Some (p', r') ->
  level p' = level p /\ level r' = level r
  /\ (forall x, at_ (nlKeyArray p') x =
        if decide (i <= x < i + Z.of_nat fuel) then Some 0 else at_ (nlKeyArray p) x)
  /\ (forall x, at_ (pageNoArray p') x =
        if decide (i + 1 <= x < i + 1 + Z.of_nat fuel) then Some Page.INVALID_NUMBER
        else at_ (pageNoArray p) x)
  /\ (forall x, at_ (nlKeyArray r') x =
        if decide (j <= x < j + Z.of_nat fuel) then at_ (nlKeyArray p) (i + (x - j))
        else at_ (nlKeyArray r) x)
  /\ (forall x, at_ (pageNoArray r') x =
        if decide (j + 1 <= x < j + 1 + Z.of_nat fuel)
        then at_ (pageNoArray p) (i + 1 + (x - (j + 1)))
        else at_ (pageNoArray r) x).
Proof.
  revert i j p r. induction fuel as [|fuel IH]; intros i j p r H; simpl in H.
  - inversion H; subst. split; [done|]. split; [done|].
    repeat split; intros x; destruct (decide _); try lia; done.
  - destruct (at_ (nlKeyArray p) i) as [k|] eqn:Hk; [|done]. simpl in H.
    destruct (setKey j k r) as [r1|] eqn:Hr1; [|done]. simpl in H.
    destruct (at_ (pageNoArray p) (i + 1)) as [c|] eqn:Hc; [|done]. simpl in H.
    destruct (setPageNo (j + 1) c r1) as [r2|] eqn:Hr2; [|done]. simpl in H.
    destruct (setKey i 0 p) as [p1|] eqn:Hp1; [|done]. simpl in H.
    destruct (setPageNo (i + 1) Page.INVALID_NUMBER p1) as [p2|] eqn:Hp2; [|done].
    simpl in H. apply IH in H as (Hlp & Hlr & Hkp & Hpp & Hkr & Hpr).
    apply setKey_at in Hr1 as (Hr1l & Hr1p & Hr1k).
    apply setPageNo_at in Hr2 as (Hr2l & Hr2k & Hr2p).
    apply setKey_at in Hp1 as (Hp1l & Hp1p & Hp1k).
    apply setPageNo_at in Hp2 as (Hp2l & Hp2k & Hp2p).
    split; [congruence|]. split; [congruence|].
    split; [|split; [|split]]; intros x.
    + rewrite Hkp, Hp2k, Hp1k.
      destruct (decide (i + 1 <= x < i + 1 + Z.of_nat fuel)),
        (decide (i <= x < i + Z.of_nat (S fuel))), (decide (x = i)); try lia; done.
    + rewrite Hpp, Hp2p, Hp1p.
      destruct (decide (i + 1 + 1 <= x < i + 1 + 1 + Z.of_nat fuel)),
        (decide (i + 1 <= x < i + 1 + Z.of_nat (S fuel))), (decide (x = i + 1));
        try lia; done.
    + rewrite Hkr, Hp2k, Hp1k, Hr2k, Hr1k.
      destruct (decide (j + 1 <= x < j + 1 + Z.of_nat fuel)),
        (decide (j <= x < j + Z.of_nat (S fuel))), (decide (x = j)),
        (decide (i + 1 + (x - (j + 1)) = i)); try lia; try done.
      * f_equal. lia.
      * subst x. rewrite <- Hk. f_equal. lia.
    + rewrite Hpr, Hp2p, Hp1p, Hr2p, Hr1p.
      destruct (decide (j + 1 + 1 <= x < j + 1 + 1 + Z.of_nat fuel)),
        (decide (j + 1 <= x < j + 1 + Z.of_nat (S fuel))), (decide (x = j + 1)),
        (decide (i + 1 + 1 + (x - (j + 1 + 1)) = i + 1)); try lia; try done.
      * f_equal. lia.
      * subst x. rewrite <- Hc. f_equal. lia.
Qed.

(** The halves of a full non-leaf, with [m = NONLEAFSIZE / 2]: the left
    half keeps keys [0 .. m-1] and children [0 .. m]; the right half has keys
    [m+1 ..] and children [m+1 ..] of the node, from index 0 on. *)
Lemma splitNonLeaf_Some N pd left right :
  1 <= N ->
  splitNonLeaf N pd = Some (left, right) ->
  let m := N / 2 in
  level left = level pd /\ level right = level pd
  /\ (forall x, at_ (nlKeyArray left) x =
        if decide (m <= x < N) then Some 0 else at_ (nlKeyArray pd) x)
  /\ (forall x, at_ (pageNoArray left) x =
        if decide (m + 1 <= x <= N) then Some Page.INVALID_NUMBER
        else at_ (pageNoArray pd) x)
  /\ (forall x, at_ (nlKeyArray right) x =
        if decide (0 <= x < N - m - 1) then at_ (nlKeyArray pd) (m + 1 + x)
        else at_ (nlKeyArray (zeroNonLeaf N)) x)
  /\ (forall x, at_ (pageNoArray right) x =
        if decide (0 <= x < N - m) then at_ (pageNoArray pd) (m + 1 + x)
        else at_ (pageNoArray (zeroNonLeaf N)) x).
Proof.
  intros HN H m. unfold splitNonLeaf in H. fold m in H.
  assert (Hm : 0 <= m < N).
  { subst m. split; [apply Z.div_pos; lia|apply Z.div_lt_upper_bound; lia]. }
  destruct (moveNonLeafLoop _ _ _ _ _) as [[p1 r1]|] eqn:Hmove; [|done]. simpl in H.
  destruct (at_ (pageNoArray p1) (m + 1)) as [c|] eqn:Hc; [|done]. simpl in H.
  destruct (setPageNo 0 c r1) as [r2|] eqn:Hr2; [|done]. simpl in H.
  destruct (setPageNo (m + 1) Page.INVALID_NUMBER p1) as [p2|] eqn:Hp2; [|done].
  simpl in H. destruct (setKey m 0 p2) as [p3|] eqn:Hp3; [|done]. simpl in H.
  inversion H; subst p3 r2. clear H.
  apply moveNonLeafLoop_Some in Hmove as (Hlp & Hlr & Hkp & Hpp & Hkr & Hpr).
  rewrite Z2Nat.id in Hkp, Hpp, Hkr, Hpr by lia.
  apply setPageNo_at in Hr2 as (Hr2l & Hr2k & Hr2p).
  apply setPageNo_at in Hp2 as (Hp2l & Hp2k & Hp2p).
  apply setKey_at in Hp3 as (Hp3l & Hp3p & Hp3k).
  simpl in *. split; [congruence|]. split; [congruence|].
  split; [|split; [|split]]; intros x.
  - rewrite Hp3k, Hp2k, Hkp.
    destruct (decide (x = m)), (decide (m + 1 <= x < m + 1 + (N - (m + 1)))),
      (decide (m <= x < N)); try lia; done.
  - rewrite Hp3p, Hp2p, Hpp.
    destruct (decide (x = m + 1)), (decide (m + 1 + 1 <= x < m + 1 + 1 + (N - (m + 1)))),
      (decide (m + 1 <= x <= N)); try lia; done.
  - rewrite Hr2k, Hkr.
    destruct (decide (0 <= x < 0 + (N - (m + 1)))), (decide (0 <= x < N - m - 1));
      try lia; try done. f_equal. lia.
  - rewrite Hr2p, Hpr.
    destruct (decide (x = 0)) as [->|].
    + destruct (decide (0 <= 0 < N - m)); [|lia].
      rewrite Hpp in Hc. destruct (decide _) in Hc; [lia|].
      rewrite <- Hc. f_equal. lia.
    + destruct (decide (0 + 1 <= x < 0 + 1 + (N - (m + 1)))), (decide (0 <= x < N - m));
        try lia; try done. f_equal. lia.
Qed.

(** ** What the phases of an insert do to the file *)

Lemma at_length {A} (a : list A) (i : Z) :
  is_Some (at_ a i) <-> 0 <= i < Z.of_nat (length a).
Proof.
  split.
  - intros [x [? Hx%lookup_lt_Some]%at_Some]. lia.
  - intros H. destruct (at_in_range a i H) as [x Hx]. eauto.
Qed.

Lemma childInserted_intro N uo median g base b1 b2 up :
  0 <= N ->
  length (pageNoArray base) = Z.to_nat (N + 1) ->
  openSlot N uo base = Some b1 ->
  (setPageNo (uo + 1) g b1 = Some b2 /\ setKey uo median b2 = Some up
   \/ setKey uo median b1 = Some b2 /\ setPageNo (uo + 1) g b2 = Some up) ->
  childInserted N uo median g base up.
Proof.
  intros HN Hlen Ho Hsets. pose proof (openSlot_shape _ _ _ _ Ho) as Hs1.
  apply openSlot_Some in Ho as (k & Hk & Hle & Hl & Hpn & Hkey); [|done].
  exists k. split; [done|]. split; [lia|].
  assert (Hres : sameShape b1 up
    /\ (forall j, at_ (pageNoArray up) j = if decide (j = uo + 1) then Some g
                                           else at_ (pageNoArray b1) j)
    /\ (forall j, at_ (nlKeyArray up) j = if decide (j = uo) then Some median
                                          else at_ (nlKeyArray b1) j)).
  { destruct Hsets as [[H1 H2]|[H1 H2]].
    - pose proof (setPageNo_shape _ _ _ _ H1). pose proof (setKey_shape _ _ _ _ H2).
      apply setPageNo_at in H1 as (? & Hk1 & ?). apply setKey_at in H2 as (? & Hp2 & ?).
      split; [eauto using sameShape_trans|]. split; [intros j; rewrite Hp2; auto|].
      intros j; rewrite <- Hk1; auto.
    - pose proof (setKey_shape _ _ _ _ H1). pose proof (setPageNo_shape _ _ _ _ H2).
      apply setKey_at in H1 as (? & Hp1 & ?).
      apply setPageNo_at in H2 as (? & Hk2 & ?).
      split; [eauto using sameShape_trans|]. split; [intros j; rewrite <- Hp1; auto|].
      intros j; rewrite Hk2; auto. }
  destruct Hres as (Hsu & Hpu & Hku).
  assert (Hs : sameShape base up) by eauto using sameShape_trans.
  assert (HkN : k <= N).
  { assert (Hin : is_Some (at_ (pageNoArray up) (uo + 1))).
    { rewrite Hpu. destruct (decide _); [eauto|done]. }
    apply at_length in Hin. destruct Hs as (_ & _ & Hsl). rewrite Hsl, Hlen in Hin.
    destruct (decide (k = uo)); [lia|].
    assert (Hin2 : is_Some (at_ (pageNoArray b1) k)).
    { rewrite Hpn. destruct (decide (uo < k <= k)); [|lia].
      pose proof (firstInvalid_Some _ _ _ _ Hk) as (_ & _ & Hbelow & _).
      destruct (Hbelow (k - 1)) as (c & Hc & _); [lia|]. eauto. }
    apply at_length in Hin2. destruct Hs1 as (_ & _ & Hsl1). rewrite Hsl1, Hlen in Hin2.
    lia. }
  split; [done|]. split; [done|]. split; intros j.
  - rewrite Hpu, Hpn. destruct (decide (j = uo + 1)); [done|].
    destruct (decide (uo < j <= k)), (decide (uo + 1 < j <= k)); try lia; done.
  - rewrite Hku, Hkey. destruct (decide (j = uo)); [done|].
    destruct (decide (uo <= j < k /\ 1 <= j)), (decide (uo < j < k)); try lia; done.
Qed.

Lemma pageAt_app f p blanks :
  (p <= length f)%nat -> pageAt (f ++ blanks) p = pageAt f p.
Proof.
  intros H. destruct p; unfold pageAt; [done|]. apply lookup_app_l. lia.
Qed.

(** One round of the loop over the saved path. *)
Lemma propagate_cons N keyValue offset P rest done G s G' s' :
  0 <= N ->
  (forall n p, pageAt (file s) p = Some (NonLeafPage n) ->
               length (pageNoArray n) = Z.to_nat (N + 1)) ->
  propagate N keyValue ((offset, P) :: rest) done G s = (Return G', s') ->
  exists pd k,
    pageAt (file s) P = Some (NonLeafPage pd)
    /\ firstInvalid N pd offset = Some k
    /\ ((k <> N + 1 /\ file s' = file s /\ rootPageNum s' = rootPageNum s
         /\ (exists gp go, (if done then G else Some (P, offset)) = Some (gp, go)
               /\ pinned s' = if decide (gp = P) then P :: pinned s else pinned s)
         /\ G' = (if done then G else Some (P, offset)))
        \/ (k = N + 1 /\
            exists s1 left right median base up uo upId g blanks,
              splitNonLeaf N pd = Some (left, right)
              /\ at_ (nlKeyArray pd) (N / 2) = Some median
              /\ ((rest = [] /\ upId = S (length (file s))
                   /\ blanks = [BlankPage; BlankPage]
                   /\ setPageNo 0 P (setLevel (level pd + 1) (zeroNonLeaf N)) = Some base
                   /\ uo = 0 /\ rootPageNum s1 = upId)
                  \/ (exists rest', rest = (uo, upId) :: rest'
                      /\ pageAt (file s) upId = Some (NonLeafPage base)
                      /\ blanks = [BlankPage] /\ rootPageNum s1 = rootPageNum s))
              /\ g = length (file s ++ blanks)
              /\ childInserted N uo median g base up
              /\ file s1 = setPage (setPage (setPage (file s ++ blanks)
                                      P (NonLeafPage left)) upId (NonLeafPage up))
                                   g (NonLeafPage right)
              /\ pinned s1 =
                   (let held := unpinOne upId (g :: upId :: P :: pinned s) in
                    match at_ (pageNoArray up) uo, at_ (pageNoArray up) (uo + 1) with
                    | Some lft, Some rgt =>
                        if keyValue >=? median
                        then if level up >=? 4 then unpinOne rgt (unpinOne lft held)
                             else unpinOne lft held
                        else if level up >=? 4 then unpinOne lft (unpinOne rgt held)
                             else unpinOne rgt held
                    | _, _ => held
                    end)
              /\ propagate N keyValue rest true
                   (if done then G
                    else if keyValue >=? median then Some (g, offset - N / 2 - 1)
                         else Some (P, offset)) s1 = (Return G', s'))).
Proof.
  intros HN Hlen H. simpl in H.
  apply bindM_Return in H as (? & ? & (-> & HP & ->)%readPage_Return & H).
  apply bindM_Return in H as (pd & ? & [Hpd ->]%asNonLeaf_Return & H).
  apply bindM_Return in H as (k & ? & [Hk ->]%defined_Return & H).
  simpl in Hpd. exists pd, k. split; [done|]. split; [done|].
  destruct (decide (k = N + 1)) as [->|Hne].
  2:{ left. split; [done|].
      destruct (if done then G else Some (P, offset)) as [[gp go]|] eqn:EG; [|run_all].
      destruct (decide (gp = P)) as [->|Hgp]; run_all; simpl;
        (do 2 (split; [done|])); (split; [|done]).
      - exists P, go. split; [done|]. by destruct (decide (P = P)).
      - exists gp, go. split; [done|].
        destruct (decide (P = P)); [|done]. by destruct (decide (gp = P)). }
  right. split; [done|].
  apply bindM_Return in H as ([[upId base] uo] & s0 & Hup & H).
  apply bindM_Return in H as (b1 & ? & [Hopen ->]%defined_Return & H).
  apply bindM_Return in H as (g & ? & [-> ->]%allocPage_Return & H).
  apply bindM_Return in H as (b2 & ? & [Hb2 ->]%defined_Return & H).
  apply bindM_Return in H as (median & ? & [Hmed ->]%defined_Return & H).
  apply bindM_Return in H as (up & ? & [Hb3 ->]%defined_Return & H).
  apply bindM_Return in H as ([left right] & ? & [Hsplit ->]%defined_Return & H).
  apply bindM_Return in H as (? & ? & [Hw1 ->]%writePage_Return & H).
  apply bindM_Return in H as (pivot & ? & [Hpivot ->]%defined_Return & H).
  apply bindM_Return in H as (? & ? & [Hw2 ->]%writePage_Return & H).
  apply bindM_Return in H as (? & ? & [Hw3 ->]%writePage_Return & H).
  apply bindM_Return in H as (? & s2 & Hu & H). apply unPinPage_Return in Hu.
  apply bindM_Return in H as (lft & ? & [Hlft ->]%defined_Return & H).
  apply bindM_Return in H as (rgt & ? & [Hrgt ->]%defined_Return & H).
  apply bindM_Return in H as (? & s3 & Hunpin & H).
  assert (Hpiv : pivot = median).
  { apply setKey_at in Hb3 as (_ & _ & Hb3). rewrite Hb3 in Hpivot.
    destruct (decide (uo = uo)); [congruence|done]. }
  subst pivot.
  assert (Hs3 : file s3 = file s2 /\ rootPageNum s3 = rootPageNum s2
                /\ pinned s3 =
                     if keyValue >=? median
                     then if level up >=? 4 then unpinOne rgt (unpinOne lft (pinned s2))
                          else unpinOne lft (pinned s2)
                     else if level up >=? 4 then unpinOne lft (unpinOne rgt (pinned s2))
                          else unpinOne rgt (pinned s2)).
  { destruct (keyValue >=? median), (level up >=? 4); run_all; done. }
  destruct Hs3 as (Hf3 & Hr3 & Hp3). subst s2. simpl in Hf3, Hr3, Hp3.
  clear Hunpin.
  assert (HG : forall A (x y : A), (if done then if done then x else y else y)
                                   = (if done then x else y)) by (by destruct done).
  simpl in H.
  destruct rest as [|[o pp] rest'].
  - apply bindM_Return in Hup as (newRoot & ? & [-> ->]%allocPage_Return & Hup).
    apply bindM_Return in Hup as (? & ? & ->%modify_Return & Hup).
    apply bindM_Return in Hup as (d & ? & [Hd ->]%defined_Return & Hup).
    apply ret_Return in Hup as [Hup ->]. inversion Hup; subst upId base uo. clear Hup.
    simpl in *.
    exists s3, left, right, median, d, up, 0,
      (S (length (file s))), (S (length (file s ++ [BlankPage]))), [BlankPage; BlankPage].
    split; [done|]. split; [done|]. split; [left; done|].
    split; [by rewrite !length_app; simpl; lia|].
    split.
    { eapply childInserted_intro; [done| |done|left; done].
      apply setPageNo_shape in Hd as (_ & _ & ->).
      simpl. by rewrite length_replicate. }
    split; [|split; [by rewrite Hlft, Hrgt, Hp3|by destruct done]].
    rewrite Hf3. replace (file s ++ [BlankPage; BlankPage])
      with ((file s ++ [BlankPage]) ++ [BlankPage]) by (by rewrite <- app_assoc).
    done.
  - apply bindM_Return in Hup as (newRoot & ? & (-> & Hpp & ->)%readPage_Return & Hup).
    apply bindM_Return in Hup as (d & ? & [Hd ->]%asNonLeaf_Return & Hup).
    apply ret_Return in Hup as [Hup ->]. inversion Hup; subst upId base uo. clear Hup.
    simpl in *.
    exists s3, left, right, median, d, up, o, pp,
      (S (length (file s))), [BlankPage].
    split; [done|]. split; [done|]. split; [right; eauto|].
    split; [by rewrite !length_app; simpl; lia|].
    split. { eapply childInserted_intro; [done|by eapply Hlen|done|left; done]. }
    split; [by rewrite Hf3|]. split; [by rewrite Hlft, Hrgt, Hp3|by destruct done].
Qed.

(** ** Extending the file *)

Lemma extends_refl f : extends f f.
Proof.
  split; [done|]. split; [intros p l H; by exists l|]. intros p n H. by exists n.
Qed.

Lemma extends_trans f1 f2 f3 : extends f1 f2 -> extends f2 f3 -> extends f1 f3.
Proof.
  intros (Hl1 & Hleaf1 & Hnl1) (Hl2 & Hleaf2 & Hnl2). split; [lia|]. split.
  - intros p l H. destruct (Hleaf1 _ _ H) as [l' Hl']. eauto.
  - intros p n H. destruct (Hnl1 _ _ H) as (n' & Hn' & Hlv & H0).
    destruct (Hnl2 _ _ Hn') as (n'' & Hn'' & Hlv' & H0'). exists n''.
    split; [done|]. split; congruence.
Qed.

Lemma extends_app f blanks : extends f (f ++ blanks).
Proof.
  split; [rewrite length_app; lia|]. split.
  - intros p l H. exists l. rewrite pageAt_app; [done|]. apply pageAt_lt. eauto.
  - intros p n H. exists n. rewrite pageAt_app; [done|]. apply pageAt_lt. eauto.
Qed.

Lemma extends_setPage_nonLeaf f p n n' :
  pageAt f p = Some (NonLeafPage n) -> level n' = level n ->
  at_ (pageNoArray n') 0 = at_ (pageNoArray n) 0 ->
  extends f (setPage f p (NonLeafPage n')).
Proof.
  intros Hp Hlv H0. split; [by rewrite setPage_length|]. split.
  - intros q l Hq. exists l. rewrite pageAt_setPage_ne; [done|]. intros ->. congruence.
  - intros q m Hq. destruct (decide (q = p)) as [->|Hne].
    + exists n'. rewrite pageAt_setPage_eq by eauto. split; [done|].
      assert (m = n) as -> by congruence. done.
    + exists m. by rewrite pageAt_setPage_ne.
Qed.

Lemma extends_setPage_leaf f p l l' :
  pageAt f p = Some (LeafPage l) -> extends f (setPage f p (LeafPage l')).
Proof.
  intros Hp. split; [by rewrite setPage_length|]. split.
  - intros q m Hq. destruct (decide (q = p)) as [->|Hne].
    + exists l'. apply pageAt_setPage_eq. eauto.
    + exists m. by rewrite pageAt_setPage_ne.
  - intros q m Hq. exists m. rewrite pageAt_setPage_ne; [done|]. intros ->. congruence.
Qed.

Lemma extends_setPage_blank f p d :
  pageAt f p = Some BlankPage -> extends f (setPage f p d).
Proof.
  intros Hp. split; [by rewrite setPage_length|]. split.
  - intros q m Hq. exists m. rewrite pageAt_setPage_ne; [done|]. intros ->. congruence.
  - intros q m Hq. exists m. rewrite pageAt_setPage_ne; [done|]. intros ->. congruence.
Qed.

Lemma childOk_extends f f' lv c : extends f f' -> childOk f lv c -> childOk f' lv c.
Proof.
  intros (_ & Hleaf & Hnl) [[-> [l Hl]]|[Hlv (n & Hn & Hln)]].
  - left. split; [done|]. eauto.
  - right. split; [done|]. destruct (Hnl _ _ Hn) as (n' & Hn' & Hlv' & _).
    exists n'. split; [done|]. congruence.
Qed.

Lemma leftmostLeaf_extends f f' p q :
  extends f f' -> leftmostLeaf f p q -> leftmostLeaf f' p q.
Proof.
  intros Hext. induction 1 as [p l Hl|p n c q Hn Hc _ IH].
  - destruct Hext as (_ & Hleaf & _). destruct (Hleaf _ _ Hl) as [l' Hl'].
    by eapply leftmost_here.
  - destruct Hext as (_ & _ & Hnl). destruct (Hnl _ _ Hn) as (n' & Hn' & _ & H0).
    eapply leftmost_down; [done| |done]. congruence.
Qed.

Lemma nonLeafOk_extends N f f' n : extends f f' -> nonLeafOk N f n -> nonLeafOk N f' n.
Proof.
  intros Hext (Hk & Hp & Htwo & Hch). split; [done|]. split; [done|]. split; [done|].
  intros i c Hc Hnz. destruct (Hch i c Hc Hnz) as [Hpre Hok].
  split; [done|]. eauto using childOk_extends.
Qed.

Lemma pathLevels_unchanged f f' below lv path :
  (forall p n, pageAt f p = Some (NonLeafPage n) -> lv < level n ->
               pageAt f' p = Some (NonLeafPage n)) ->
  pathLevels f below lv path -> pathLevels f' below lv path.
Proof.
  revert below lv. induction path as [|[i p] rest IH]; intros below lv Hsame H; [done|].
  destruct H as [(n & Hn & Hi & Hlv) Hrest]. split.
  - exists n. split; [apply Hsame; [done|lia]|]. done.
  - apply IH; [|done]. intros q m Hq Hlt. apply Hsame; [done|lia].
Qed.

(** ** The walk and the saved path *)

Lemma childLoop_Some keyValue cur fuel i0 i :
  childLoop keyValue cur fuel i0 = Some i ->
  i0 <= i <= i0 + Z.of_nat fuel
  /\ (forall j, i0 <= j < i ->
        exists k, at_ (nlKeyArray cur) j = Some k /\ k <= keyValue)
  /\ (i < i0 + Z.of_nat fuel ->
        at_ (pageNoArray cur) (i + 1) = Some Page.INVALID_NUMBER
        \/ exists k, at_ (nlKeyArray cur) i = Some k /\ keyValue < k).
Proof.
  revert i0. induction fuel as [|fuel IH]; intros i0 H; simpl in H.
  - inversion H; subst. split; [lia|]. split; [intros; lia|lia].
  - destruct (at_ (pageNoArray cur) (i0 + 1)) as [p|] eqn:Hp; [|done]. simpl in H.
    destruct (decide (p = Page.INVALID_NUMBER)) as [->|Hnz].
    { inversion H; subst. split; [lia|]. split; [intros; lia|]. intros _. by left. }
    destruct (at_ (nlKeyArray cur) i0) as [k|] eqn:Hk; [|done]. simpl in H.
    destruct (Z.leb_spec k keyValue).
    + apply IH in H as (Hi & Hbelow & Hat). split; [lia|]. split.
      * intros j Hj. destruct (decide (j = i0)) as [->|]; [eauto|]. apply Hbelow. lia.
      * intros Hlt. apply Hat. lia.
    + inversion H; subst. split; [lia|]. split; [intros; lia|].
      intros _. right. eauto.
Qed.

Lemma childIndex_Some N keyValue cur i :
  0 <= N ->
  childIndex N keyValue cur = Some i ->
  0 <= i <= N
  /\ (forall j, 0 <= j < i ->
        exists k, at_ (nlKeyArray cur) j = Some k /\ k <= keyValue)
  /\ (i < N ->
        at_ (pageNoArray cur) (i + 1) = Some Page.INVALID_NUMBER
        \/ exists k, at_ (nlKeyArray cur) i = Some k /\ keyValue < k).
Proof.
  intros HN H. unfold childIndex in H.
  destruct (at_ (nlKeyArray cur) 0) as [k0|] eqn:Hk0; [|done]. simpl in H.
  destruct (Z.ltb_spec keyValue k0).
  - inversion H; subst. split; [lia|]. split; [intros; lia|]. intros _. right. eauto.
  - apply childLoop_Some in H as (Hi & Hbelow & Hat). rewrite Z2Nat.id in Hi, Hat by lia.
    split; [lia|]. split; [done|]. intros Hlt. apply Hat. lia.
Qed.

Lemma pageAt_zero f : pageAt f 0%nat = None.
Proof. done. Qed.

Lemma topIsRoot_cons path cur root i :
  topIsRoot path cur root -> forall child, topIsRoot ((i, cur) :: path) child root.
Proof.
  unfold topIsRoot. intros H child. rewrite last_cons.
  destruct (list.last path) as [[? ?]|]; done.
Qed.

(** The walk leaves the file as it is and saves a path whose levels rise by
    one per entry, from the page it ends on up to the root. *)
Lemma walk_path N n keyValue cur path s c l path' s' lv root f :
  (forall p nd i ch, pageAt f p = Some (NonLeafPage nd) ->
     at_ (pageNoArray nd) i = Some ch -> ch <> Page.INVALID_NUMBER ->
     childOk f (level nd) ch) ->
  file s = f ->
  walk N n keyValue cur cur path s = (Return (c, l, path'), s') ->
  pageLevel f cur lv ->
  pathLevels f cur lv path ->
  topIsRoot path cur root ->
  c = l
  /\ file s' = f /\ rootPageNum s' = rootPageNum s
  /\ pageLevel f l (lv - Z.of_nat n)
  /\ pathLevels f l (lv - Z.of_nat n) path'
  /\ topIsRoot path' l root
  /\ ((0 < n)%nat ->
      exists i p rest nd, path' = (i, p) :: rest
        /\ pageAt f p = Some (NonLeafPage nd)
        /\ childIndex N keyValue nd = Some i).
Proof.
  intros Hch. revert cur path s lv. induction n as [|n IH];
    intros cur path s lv Hf H Hlv Hpath Htop; simpl in H; subst f.
  - apply ret_Return in H as [H ->]. inversion H; subst c l path'. clear H.
    rewrite Z.sub_0_r. repeat split; try done. lia.
  - apply bindM_Return in H as (nd & ? & [Hnd ->]%asNonLeaf_Return & H).
    apply bindM_Return in H as (i & ? & [Hi ->]%defined_Return & H).
    apply bindM_Return in H as (? & s1 & ->%unPinPage_Return & H).
    apply bindM_Return in H as (child & ? & [Hchild ->]%defined_Return & H).
    apply bindM_Return in H as (? & s2 & (-> & Hread & ->)%readPage_Return & H).
    simpl in Hread.
    assert (Hnz : child <> Page.INVALID_NUMBER).
    { intros ->. destruct Hread as [? Hx]. by rewrite pageAt_zero in Hx. }
    assert (Hlvn : level nd = lv /\ 2 <= lv).
    { destruct Hlv as [[_ [lf Hlf]]|[? (nd' & Hnd' & ?)]]; [congruence|].
      assert (nd' = nd) as -> by congruence. done. }
    destruct Hlvn as [Hlvn Hlv2].
    pose proof (Hch _ _ _ _ Hnd Hchild Hnz) as Hok. rewrite Hlvn in Hok.
    assert (Hcl : pageLevel (file s) child (lv - 1)).
    { destruct Hok as [[-> Hleaf]|[Hgt (n' & Hn' & Hl')]].
      - left. done.
      - right. split; [lia|]. eauto. }
    pose proof H as Hrun.
    apply IH with (lv := lv - 1) in H; simpl; try done.
    + destruct H as (-> & Hf' & Hr & Hl & Hp & Ht & Hhead). simpl in *.
      split; [done|]. split; [done|]. split; [done|].
      replace (lv - Z.of_nat (S n)) with (lv - 1 - Z.of_nat n) by lia.
      split; [done|]. split; [done|]. split; [done|].
      intros _. destruct n as [|n]; [|apply Hhead; lia].
      simpl in Hrun. apply ret_Return in Hrun as [Hrun _].
      inversion Hrun; subst. eauto 10.
    + split; [|by replace (lv - 1 + 1) with lv by lia].
      exists nd. split; [done|]. split; [done|]. lia.
    + by apply topIsRoot_cons.
Qed.

(** ** The split of a non-leaf keeps the structure *)

Lemma pageAt_is_Some_le f p : is_Some (pageAt f p) <-> (1 <= p <= length f)%nat.
Proof.
  split; [apply pageAt_lt|]. intros H. destruct p; [lia|]. unfold pageAt.
  apply lookup_lt_is_Some. lia.
Qed.

Lemma pageAt_None_gt f p : (length f < p)%nat -> pageAt f p = None.
Proof.
  intros H. destruct p; [done|]. unfold pageAt. apply lookup_ge_None. lia.
Qed.

Lemma pageAt_blank f blanks p :
  Forall (fun d => d = BlankPage) blanks ->
  (length f < p <= length (f ++ blanks))%nat ->
  pageAt (f ++ blanks) p = Some BlankPage.
Proof.
  intros Hb Hp. rewrite length_app in Hp. destruct p; [lia|]. unfold pageAt.
  rewrite lookup_app_r by lia.
  destruct (lookup_lt_is_Some_2 blanks (p - length f)) as [d Hd]; [lia|].
  rewrite Hd. f_equal. by eapply (Forall_lookup_1 _ _ _ _ Hb).
Qed.

(** The pages of the file after a non-leaf [P] is split: [P], the node
    [U] above it and the new page [g] are written, in this order, over the
    file grown by the blank pages [blanks]. *)
Section ThreeWrites.

Variables (f blanks : list PageData) (P U g : PageId) (a b c : PageData).
Hypothesis blanks_blank : Forall (fun d => d = BlankPage) blanks.
Hypothesis P_in : is_Some (pageAt f P).
Hypothesis U_in : is_Some (pageAt (f ++ blanks) U).
Hypothesis g_last : g = length (f ++ blanks).
Hypothesis g_new : (length f < g)%nat.
Hypothesis PU : P <> U.
Hypothesis Ug : U <> g.
Hypothesis new_pages : forall q, (length f < q <= length (f ++ blanks))%nat -> q = U \/ q = g.

Let f1 := setPage (setPage (setPage (f ++ blanks) P a) U b) g c.

Lemma threeWrites_P : pageAt f1 P = Some a.
Proof.
  pose proof (pageAt_lt _ _ P_in). unfold f1.
  rewrite pageAt_setPage_ne by lia. rewrite pageAt_setPage_ne by done.
  apply pageAt_setPage_eq. rewrite pageAt_app by lia. done.
Qed.

Lemma threeWrites_U : pageAt f1 U = Some b.
Proof.
  unfold f1. rewrite pageAt_setPage_ne by done.
  apply pageAt_setPage_eq. rewrite pageAt_setPage_ne by done. done.
Qed.

Lemma threeWrites_g : pageAt f1 g = Some c.
Proof.
  unfold f1. apply pageAt_setPage_eq.
  apply pageAt_is_Some_le. rewrite !setPage_length. lia.
Qed.

Lemma threeWrites_other q :
  q <> P -> q <> U -> q <> g -> pageAt f1 q = pageAt f q.
Proof.
  intros H1 H2 H3. unfold f1. rewrite !pageAt_setPage_ne by done.
  destruct (decide (q <= length f)%nat); [by apply pageAt_app|].
  rewrite (pageAt_None_gt f) by lia.
  destruct (decide (q <= length (f ++ blanks))%nat).
  - destruct (new_pages q); [lia|done|done].
  - apply pageAt_None_gt. lia.
Qed.

Lemma threeWrites_cases q d :
  pageAt f1 q = Some d ->
  (q = P /\ d = a) \/ (q = U /\ d = b) \/ (q = g /\ d = c)
  \/ (q <> P /\ q <> U /\ q <> g /\ pageAt f q = Some d).
Proof.
  intros H. destruct (decide (q = P)) as [->|H1].
  { rewrite threeWrites_P in H. left. split; congruence. }
  destruct (decide (q = U)) as [->|H2].
  { rewrite threeWrites_U in H. right; left. split; congruence. }
  destruct (decide (q = g)) as [->|H3].
  { rewrite threeWrites_g in H. right; right; left. split; congruence. }
  rewrite threeWrites_other in H by done. right; right; right. done.
Qed.

Lemma threeWrites_length : length f1 = g.
Proof. unfold f1. by rewrite !setPage_length. Qed.

End ThreeWrites.

Lemma nonzero_entry_in_range (a : list PageId) i c :
  at_ a i = Some c -> 0 <= i < Z.of_nat (length a).
Proof. intros H. apply at_length. eauto. Qed.

(** Every child slot of a full well-formed non-leaf holds a valid child. *)
Lemma full_children N f pd offset :
  0 <= N -> nonLeafOk N f pd -> 0 <= offset <= N ->
  firstInvalid N pd offset = Some (N + 1) ->
  forall j, 0 <= j <= N ->
    exists c, at_ (pageNoArray pd) j = Some c /\ c <> Page.INVALID_NUMBER
              /\ childOk f (level pd) c.
Proof.
  intros HN (Hkl & Hpl & Htwo & Hch) Ho Hfull j Hj.
  apply firstInvalid_Some in Hfull as (Hle & _ & Hbelow & _).
  destruct (Hbelow N) as (cN & HcN & HnzN); [lia|].
  destruct (Hch _ _ HcN HnzN) as [Hpre _].
  destruct (Hpre j Hj) as (c & Hc & Hnz). exists c. split; [done|]. split; [done|].
  by apply (Hch _ _ Hc Hnz).
Qed.

Lemma zeroNonLeaf_pageNo N x :
  at_ (pageNoArray (zeroNonLeaf N)) x = Some Page.INVALID_NUMBER
  \/ at_ (pageNoArray (zeroNonLeaf N)) x = None.
Proof.
  unfold zeroNonLeaf; simpl. destruct (at_ _ x) as [c|] eqn:E; [|by right].
  left. apply at_Some in E as [_ E]. apply lookup_replicate in E as [-> _]. done.
Qed.

Lemma half_bounds N : 3 <= N -> 1 <= N / 2 /\ N / 2 + 2 <= N.
Proof.
  intros H. pose proof (Z.div_mod N 2 ltac:(lia)).
  pose proof (Z.mod_pos_bound N 2 ltac:(lia)). lia.
Qed.

(** The left half of a split non-leaf. *)
Lemma left_half_ok N f pd left right offset :
  3 <= N -> nonLeafOk N f pd -> 0 <= offset <= N ->
  firstInvalid N pd offset = Some (N + 1) ->
  splitNonLeaf N pd = Some (left, right) ->
  nonLeafOk N f left.
Proof.
  intros HN Hpd Ho Hfull Hsplit.
  pose proof (full_children N f pd offset ltac:(lia) Hpd Ho Hfull) as Hall.
  pose proof (splitNonLeaf_shape _ _ _ _ Hsplit) as [(Hlv & Hkl & Hpl) _].
  apply splitNonLeaf_Some in Hsplit as (_ & _ & _ & Hpn & _ & _); [|lia].
  destruct Hpd as (Hkl0 & Hpl0 & _ & _).
  pose proof (half_bounds N HN) as Hm.
  split; [congruence|]. split; [congruence|]. split.
  - destruct (Hall 1) as (c & Hc & Hnz & _); [lia|]. exists c. split; [|done].
    rewrite Hpn. destruct (decide _); [lia|done].
  - intros i c Hc Hnz. rewrite Hpn in Hc.
    destruct (decide (N / 2 + 1 <= i <= N)); [congruence|].
    pose proof (nonzero_entry_in_range _ _ _ Hc) as Hr. rewrite Hpl0 in Hr.
    split.
    + intros j Hj. destruct (Hall j) as (c' & Hc' & Hnz' & _); [lia|].
      exists c'. split; [|done]. rewrite Hpn. destruct (decide _); [lia|done].
    + rewrite Hlv. destruct (Hall i) as (c' & Hc' & _ & Hok); [lia|]. congruence.
Qed.

(** The right half of a split non-leaf. *)
Lemma right_half_ok N f pd left right offset :
  3 <= N -> nonLeafOk N f pd -> 0 <= offset <= N ->
  firstInvalid N pd offset = Some (N + 1) ->
  splitNonLeaf N pd = Some (left, right) ->
  nonLeafOk N f right.
Proof.
  intros HN Hpd Ho Hfull Hsplit.
  pose proof (full_children N f pd offset ltac:(lia) Hpd Ho Hfull) as Hall.
  pose proof (splitNonLeaf_shape _ _ _ _ Hsplit) as [_ (Hlv & Hkl & Hpl)].
  apply splitNonLeaf_Some in Hsplit as (_ & _ & _ & _ & _ & Hpn); [|lia].
  unfold setLevel, zeroNonLeaf in Hlv, Hkl, Hpl. simpl in Hlv, Hkl, Hpl.
  rewrite length_replicate in Hkl. rewrite length_replicate in Hpl.
  pose proof (half_bounds N HN) as Hm.
  split; [done|]. split; [done|]. split.
  - destruct (Hall (N / 2 + 1 + 1)) as (c & Hc & Hnz & _); [lia|]. exists c.
    split; [|done]. rewrite Hpn. destruct (decide _); [done|lia].
  - intros i c Hc Hnz. rewrite Hpn in Hc.
    destruct (decide (0 <= i < N - N / 2)).
    2:{ destruct (zeroNonLeaf_pageNo N i); congruence. }
    split.
    + intros j Hj. destruct (Hall (N / 2 + 1 + j)) as (c' & Hc' & Hnz' & _); [lia|].
      exists c'. split; [|done]. rewrite Hpn. destruct (decide _); [done|lia].
    + rewrite Hlv. destruct (Hall (N / 2 + 1 + i)) as (c' & Hc' & _ & Hok); [lia|].
      congruence.
Qed.

(** A non-leaf after a child is inserted to the right of a valid child. *)
Lemma childInserted_ok N f' base up uo median g below :
  0 <= N ->
  length (nlKeyArray base) = Z.to_nat N ->
  length (pageNoArray base) = Z.to_nat (N + 1) ->
  (forall i c, at_ (pageNoArray base) i = Some c -> c <> Page.INVALID_NUMBER ->
     (forall j, 0 <= j <= i ->
        exists c', at_ (pageNoArray base) j = Some c' /\ c' <> Page.INVALID_NUMBER)
     /\ childOk f' (level base) c) ->
  at_ (pageNoArray base) uo = Some below -> below <> Page.INVALID_NUMBER ->
  g <> Page.INVALID_NUMBER ->
  childOk f' (level base) g ->
  childInserted N uo median g base up ->
  nonLeafOk N f' up.
Proof.
  intros HN Hkl Hpl Hch Hbelow Hbnz Hgnz Hg (k & Hk & Huo & HkN & (Hlv & Hkl' & Hpl') & Hpn & Hkey).
  pose proof (firstInvalid_Some _ _ _ _ Hk) as (_ & _ & Hvalid & Hzero).
  specialize (Hzero HkN).
  assert (Hlt : uo < k).
  { destruct (decide (k = uo)) as [->|]; [congruence|lia]. }
  assert (Hlow : forall j, 0 <= j < k ->
            exists c, at_ (pageNoArray base) j = Some c /\ c <> Page.INVALID_NUMBER).
  { intros j Hj. destruct (decide (uo <= j)); [apply Hvalid; lia|].
    destruct (Hch _ _ Hbelow Hbnz) as [Hpre _]. apply Hpre. lia. }
  assert (Hhigh : forall j c, k <= j -> at_ (pageNoArray base) j = Some c ->
            c = Page.INVALID_NUMBER).
  { intros j c Hj Hc. destruct (decide (c = Page.INVALID_NUMBER)); [done|].
    destruct (Hch _ _ Hc n) as [Hpre _]. destruct (Hpre k) as (c' & Hc' & Hnz'); [lia|].
    congruence. }
  assert (Hup : forall j, 0 <= j <= k ->
            exists c, at_ (pageNoArray up) j = Some c /\ c <> Page.INVALID_NUMBER
                      /\ childOk f' (level base) c).
  { intros j Hj. rewrite Hpn. destruct (decide (j = uo + 1)); [by exists g|].
    destruct (decide (uo + 1 < j <= k)).
    - destruct (Hlow (j - 1)) as (c & Hc & Hnz); [lia|]. exists c.
      split; [done|]. split; [done|]. by apply (Hch _ _ Hc Hnz).
    - destruct (Hlow j) as (c & Hc & Hnz); [lia|]. exists c.
      split; [done|]. split; [done|]. by apply (Hch _ _ Hc Hnz). }
  split; [congruence|]. split; [congruence|]. split.
  - destruct (Hup 1) as (c & Hc & Hnz & _); [lia|]. eauto.
  - intros i c Hc Hnz.
    assert (Hik : 0 <= i <= k).
    { pose proof (nonzero_entry_in_range _ _ _ Hc). split; [lia|].
      destruct (decide (i <= k)); [done|]. exfalso.
      rewrite Hpn in Hc. destruct (decide (i = uo + 1)); [lia|].
      destruct (decide (uo + 1 < i <= k)); [lia|].
      apply Hnz. eapply Hhigh; [|done]. lia. }
    split.
    + intros j Hj. destruct (Hup j) as (c' & Hc' & Hnz' & _); [lia|]. eauto.
    + rewrite Hlv. destruct (Hup i Hik) as (c' & Hc' & _ & Hok). congruence.
Qed.

Lemma childOk_level f lv c : childOk f lv c -> 2 <= lv.
Proof. intros [[-> _]|[? _]]; lia. Qed.

(** Splitting the full non-leaf [P] keeps the structure.  [U] is the node
    above [P]: an existing non-leaf, or the new root when [P] is the root. *)
Lemma splitStep_structure L N firstLeaf f root root1 P pd offset left right median
    base up uo U g blanks :
  3 <= N ->
  structureOk L N firstLeaf f root ->
  pageAt f P = Some (NonLeafPage pd) ->
  0 <= offset <= N ->
  firstInvalid N pd offset = Some (N + 1) ->
  splitNonLeaf N pd = Some (left, right) ->
  (pageAt f U = Some (NonLeafPage base) /\ blanks = [BlankPage] /\ root1 = root
   /\ at_ (pageNoArray base) uo = Some P /\ level base = level pd + 1
   \/ U = S (length f) /\ blanks = [BlankPage; BlankPage] /\ root1 = U /\ P = root
      /\ setPageNo 0 P (setLevel (level pd + 1) (zeroNonLeaf N)) = Some base /\ uo = 0) ->
  g = length (f ++ blanks) ->
  childInserted N uo median g base up ->
  let f1 := setPage (setPage (setPage (f ++ blanks) P (NonLeafPage left))
                       U (NonLeafPage up)) g (NonLeafPage right) in
  structureOk L N firstLeaf f1 root1
  /\ extends f f1
  /\ (forall q, q <> P -> q <> U -> q <> g -> pageAt f1 q = pageAt f q)
  /\ pageAt f1 P = Some (NonLeafPage left)
  /\ pageAt f1 U = Some (NonLeafPage up)
  /\ pageAt f1 g = Some (NonLeafPage right)
  /\ P <> U /\ P <> g /\ U <> g /\ (length f < g)%nat
  /\ at_ (pageNoArray up) uo = Some P
  /\ level up = level pd + 1.
Proof.
  intros HN (Hnl & Hlf & Hroot & Hleft) HP Ho Hfull Hsplit HU Hg Hins f1.
  pose proof (Hnl _ _ HP) as Hpd.
  pose proof (pageAt_lt _ _ (ex_intro _ _ HP)) as HPle.
  pose proof (half_bounds N HN) as Hm.
  pose proof (full_children N f pd offset ltac:(lia) Hpd Ho Hfull) as Hall.
  assert (Hlvpd : 2 <= level pd).
  { destruct (Hall 0) as (c & _ & _ & Hok); [lia|]. by eapply childOk_level. }
  pose proof (left_half_ok _ _ _ _ _ _ HN Hpd Ho Hfull Hsplit) as Hleftok.
  pose proof (right_half_ok _ _ _ _ _ _ HN Hpd Ho Hfull Hsplit) as Hrightok.
  pose proof (splitNonLeaf_shape _ _ _ _ Hsplit) as [(Hlvl & _ & _) (Hlvr & _ & _)].
  simpl in Hlvr.
  pose proof (splitNonLeaf_Some N pd left right ltac:(lia) Hsplit)
    as (_ & _ & _ & Hpnl & _ & _).
  assert (Hblank : Forall (fun d => d = BlankPage) blanks).
  { destruct HU as [(_ & -> & _)|(_ & -> & _)]; repeat constructor. }
  assert (Hgnew : (length f < g)%nat).
  { subst g. rewrite length_app. destruct HU as [(_ & -> & _)|(_ & -> & _)]; simpl; lia. }
  assert (HPU : P <> U).
  { destruct HU as [(HUb & _ & _ & _ & Hlb)|(-> & _)]; [|lia].
    intros ->. assert (base = pd) as Heq by congruence. rewrite Heq in Hlb. lia. }
  assert (HUg : U <> g).
  { destruct HU as [(HUb & _)|(-> & -> & _)].
    - pose proof (pageAt_lt _ _ (ex_intro _ _ HUb)). lia.
    - subst g. rewrite length_app. simpl. lia. }
  assert (HUin : is_Some (pageAt (f ++ blanks) U)).
  { apply pageAt_is_Some_le. rewrite length_app.
    destruct HU as [(HUb & _)|(-> & -> & _)].
    - pose proof (pageAt_lt _ _ (ex_intro _ _ HUb)). lia.
    - simpl. lia. }
  assert (Hnew : forall q, (length f < q <= length (f ++ blanks))%nat -> q = U \/ q = g).
  { intros q. subst g. rewrite length_app.
    destruct HU as [(_ & -> & _)|(-> & -> & _)]; simpl; lia. }
  assert (H1P : pageAt f1 P = Some (NonLeafPage left))
    by (apply threeWrites_P; eauto).
  assert (H1U : pageAt f1 U = Some (NonLeafPage up))
    by (apply threeWrites_U; eauto).
  assert (H1g : pageAt f1 g = Some (NonLeafPage right))
    by (apply threeWrites_g; eauto).
  assert (H1o : forall q, q <> P -> q <> U -> q <> g -> pageAt f1 q = pageAt f q)
    by (intros q ? ? ?; apply threeWrites_other; eauto).
  assert (H1c : forall q d, pageAt f1 q = Some d ->
            (q = P /\ d = NonLeafPage left) \/ (q = U /\ d = NonLeafPage up)
            \/ (q = g /\ d = NonLeafPage right)
            \/ (q <> P /\ q <> U /\ q <> g /\ pageAt f q = Some d))
    by (intros q d ?; apply (threeWrites_cases f blanks); eauto).
  assert (Hup0 : at_ (pageNoArray up) 0 = at_ (pageNoArray base) 0
                 /\ at_ (pageNoArray up) uo = at_ (pageNoArray base) uo
                 /\ level up = level base /\ 0 <= uo).
  { destruct Hins as (k & _ & Huo & _ & (Hlv & _) & Hpn & _).
    split; [|split; [|split; [done|lia]]]; rewrite Hpn.
    - destruct (decide (0 = uo + 1)); [lia|]. destruct (decide _); [lia|done].
    - destruct (decide (uo = uo + 1)); [lia|]. destruct (decide _); [lia|done]. }
  destruct Hup0 as (Hup0 & Hupuo & Hlvup & Huo0).
  assert (Hbase : at_ (pageNoArray base) uo = Some P /\ level base = level pd + 1
                  /\ length (nlKeyArray base) = Z.to_nat N
                  /\ length (pageNoArray base) = Z.to_nat (N + 1)).
  { destruct HU as [(HUb & _ & _ & Hb & Hlb)|(_ & _ & _ & _ & Hb & ->)].
    - destruct (Hnl _ _ HUb) as (? & ? & _). done.
    - pose proof (setPageNo_shape _ _ _ _ Hb) as (Hl' & Hk' & Hp').
      apply setPageNo_at in Hb as (_ & _ & Hb). unfold setLevel, zeroNonLeaf in *.
      simpl in *. rewrite length_replicate in Hk'. rewrite length_replicate in Hp'.
      rewrite Hb. destruct (decide (0 = 0)); done. }
  destruct Hbase as (HbP & Hlvb & Hbkl & Hbpl).
  assert (Hext : extends f f1).
  { unfold f1. eapply extends_trans; [apply (extends_app f blanks)|].
    eapply extends_trans.
    { assert (HP' : pageAt (f ++ blanks) P = Some (NonLeafPage pd)).
      { rewrite pageAt_app; [done|lia]. }
      eapply extends_setPage_nonLeaf; [exact HP'|exact Hlvl|].
      rewrite Hpnl. destruct (decide _); [lia|done]. }
    eapply extends_trans.
    { destruct HU as [(HUb & _)|(-> & -> & _)].
      - eapply extends_setPage_nonLeaf; [|exact Hlvup|exact Hup0].
        rewrite pageAt_setPage_ne by done. rewrite pageAt_app; [done|].
        apply pageAt_lt. eauto.
      - apply extends_setPage_blank. rewrite pageAt_setPage_ne by done.
        apply pageAt_blank; [done|]. rewrite length_app. simpl. lia. }
    apply extends_setPage_blank. rewrite !pageAt_setPage_ne by (done || lia).
    apply pageAt_blank; [done|]. lia. }
  assert (Hgnz : g <> Page.INVALID_NUMBER) by (unfold Page.INVALID_NUMBER; lia).
  assert (HPnz : P <> Page.INVALID_NUMBER) by (unfold Page.INVALID_NUMBER; lia).
  assert (Hupok : nonLeafOk N f1 up).
  { eapply (childInserted_ok N f1 base up uo median g P); try done; try lia.
    - intros i c Hc Hnz. destruct HU as [(HUb & _)|(_ & _ & _ & _ & Hb & ->)].
      + destruct (Hnl _ _ HUb) as (_ & _ & _ & Hch). destruct (Hch _ _ Hc Hnz).
        split; [done|]. eauto using childOk_extends.
      + apply setPageNo_at in Hb as (_ & _ & Hb). rewrite Hb in Hc.
        destruct (decide (i = 0)) as [->|].
        * inversion Hc; subst c. split.
          -- intros j Hj. assert (j = 0) as -> by lia. exists P. by rewrite Hb.
          -- right. split; [lia|]. exists left. split; [done|]. lia.
        * change (pageNoArray (setLevel (level pd + 1) (zeroNonLeaf N)))
            with (pageNoArray (zeroNonLeaf N)) in Hc.
          destruct (zeroNonLeaf_pageNo N i) as [Hz|Hz]; rewrite Hc in Hz;
            inversion Hz; subst; done.
    - right. split; [lia|]. exists right. split; [done|]. lia. }
  split; [|split; [exact Hext|repeat split; try done; try lia; congruence]].
  split; [|split; [|split]].
  - intros q n Hq. destruct (H1c _ _ Hq) as [[_ Hd]|[[_ Hd]|[[_ Hd]|(_ & _ & _ & Hd)]]].
    + inversion Hd; subst. eauto using nonLeafOk_extends.
    + inversion Hd; subst. done.
    + inversion Hd; subst. eauto using nonLeafOk_extends.
    + eauto using nonLeafOk_extends.
  - intros q l Hq. destruct (H1c _ _ Hq) as [[_ Hd]|[[_ Hd]|[[_ Hd]|(_ & _ & _ & Hd)]]];
      try discriminate. eauto.
  - destruct HU as [(_ & _ & -> & _)|(_ & _ & -> & _)]; [|eauto].
    destruct Hroot as [n Hn]. destruct Hext as (_ & _ & Hnlx).
    destruct (Hnlx _ _ Hn) as (n' & Hn' & _). eauto.
  - destruct HU as [(_ & _ & -> & _)|(_ & _ & -> & -> & _ & ->)].
    + eauto using leftmostLeaf_extends.
    + eapply leftmost_down; [exact H1U|by rewrite Hup0|].
      eauto using leftmostLeaf_extends.
Qed.

(** ** The loop over the saved path keeps the structure *)

Lemma pathTop_cons i p rest root :
  pathTop ((i, p) :: rest) root -> (rest = [] -> p = root) /\ pathTop rest root.
Proof.
  unfold pathTop. rewrite last_cons. destruct (list.last rest) as [[? ?]|] eqn:E.
  - intros ->. split; [|done]. intros ->. done.
  - intros ->. done.
Qed.

Lemma leaf_child_level N f gd go O :
  nonLeafOk N f gd -> at_ (pageNoArray gd) go = Some O -> isLeafPage f O ->
  level gd = 2.
Proof.
  intros (_ & _ & _ & Hch) Hgo [l Hl].
  assert (Hnz : O <> Page.INVALID_NUMBER).
  { intros ->. by rewrite pageAt_zero in Hl. }
  destruct (Hch _ _ Hgo Hnz) as [_ [[? _]|[_ (n & Hn & _)]]]; [done|congruence].
Qed.

Lemma propagate_structure L N firstLeaf keyValue O leaf path :
  forall done G s G' s' below lv,
  3 <= N ->
  structureOk L N firstLeaf (file s) (rootPageNum s) ->
  pageAt (file s) O = Some (LeafPage leaf) ->
  pathLevels (file s) below lv path ->
  pathTop path (rootPageNum s) ->
  1 <= lv ->
  (if done : bool then 2 <= lv /\ splitPoint (file s) G O
   else below = O /\ lv = 1
        /\ exists i p rest nd, path = (i, p) :: rest
             /\ pageAt (file s) p = Some (NonLeafPage nd)
             /\ childIndex N keyValue nd = Some i) ->
  propagate N keyValue path done G s = (Return G', s') ->
  structureOk L N firstLeaf (file s') (rootPageNum s')
  /\ splitPoint (file s') G' O
  /\ pageAt (file s') O = Some (LeafPage leaf).
Proof.
  induction path as [|[offset P] rest IH];
    intros done G s G' s' below lv HN Hst HO Hpath Htop Hlv Hd H.
  { simpl in H. apply ret_Return in H as [-> ->]. destruct done.
    - destruct Hd. done.
    - destruct Hd as (_ & _ & (? & ? & ? & ? & ? & _)). done. }
  pose proof Hst as (Hnl & Hlf & Hroot & Hleft).
  apply propagate_cons in H; [|lia|].
  2:{ intros n p Hp. by destruct (Hnl _ _ Hp) as (_ & ? & _). }
  destruct H as (pd & k & HP & Hk & H).
  destruct Hpath as [(pd' & HP' & Hoff & Hlvpd) Hrest].
  assert (pd' = pd) as -> by congruence.
  destruct H as [(Hne & Hf & Hr & _ & ->)|(-> & H)].
  { rewrite Hf, Hr. split; [done|]. split; [|done]. destruct done.
    - destruct Hd. done.
    - destruct Hd as (-> & _). exists P, offset. split; [done|]. exists pd. done. }
  destruct H as (s1 & left & right & median & base & up & uo & U & g & blanks
                 & Hsplit & Hmed & HU & Hg & Hins & Hf1 & _ & Hrec).
  pose proof (Hnl _ _ HP) as Hpdok.
  assert (Horange : 0 <= offset <= N).
  { pose proof (nonzero_entry_in_range _ _ _ Hoff) as Hr.
    destruct Hpdok as (_ & Hpl & _). rewrite Hpl in Hr. lia. }
  destruct (pathTop_cons _ _ _ _ Htop) as [Htop1 Htop2].
  assert (HU' : pageAt (file s) U = Some (NonLeafPage base) /\ blanks = [BlankPage]
                /\ rootPageNum s1 = rootPageNum s
                /\ at_ (pageNoArray base) uo = Some P /\ level base = level pd + 1
                \/ U = S (length (file s)) /\ blanks = [BlankPage; BlankPage]
                   /\ rootPageNum s1 = U /\ P = rootPageNum s
                   /\ setPageNo 0 P (setLevel (level pd + 1) (zeroNonLeaf N)) = Some base
                   /\ uo = 0).
  { destruct HU as [(-> & -> & -> & Hb & -> & Hr1)|(rest' & -> & HUb & -> & Hr1)].
    - right. repeat split; try done; by apply Htop1.
    - left. destruct Hrest as [(b' & Hb' & Hbo & Hbl) _].
      assert (b' = base) as -> by congruence.
      repeat split; try done. lia. }
  pose proof (splitStep_structure L N firstLeaf (file s) (rootPageNum s) (rootPageNum s1)
                P pd offset left right median base up uo U g blanks
                HN Hst HP Horange Hk Hsplit HU' Hg Hins) as Hstep.
  simpl in Hstep. rewrite <- Hf1 in Hstep.
  destruct Hstep as (Hs1 & Hext & Hother & H1P & H1U & H1g & HPU & HPg & HUg & Hgnew
                     & HupP & Hlvup).
  assert (HUlv : forall q n, pageAt (file s) q = Some (NonLeafPage n) ->
                   level n <> lv + 2 -> q <> U).
  { intros q n Hq Hne ->. destruct HU' as [(HUb & _ & _ & _ & Hlb)|(-> & _)].
    - assert (n = base) by congruence. subst n. lia.
    - pose proof (pageAt_lt _ _ (ex_intro _ _ Hq)). lia. }
  assert (Hgout : forall q, is_Some (pageAt (file s) q) -> q <> g).
  { intros q Hq ->. apply pageAt_lt in Hq. lia. }
  assert (HO1 : pageAt (file s1) O = Some (LeafPage leaf)).
  { rewrite Hother; [done| | |].
    - intros ->. congruence.
    - intros ->. destruct HU' as [(HUb & _)|(-> & _)]; [congruence|].
      pose proof (pageAt_lt _ _ (ex_intro _ _ HO)). lia.
    - apply Hgout. eauto. }
  assert (Hpath1 : pathLevels (file s1) P (lv + 1) rest).
  { destruct HU as [(-> & _)|(rest' & -> & HUb & _ & _)]; [done|].
    destruct Hrest as [(b' & Hb' & Hbo & Hbl) Hrest']. split.
    + exists up. split; [done|]. split; [done|]. lia.
    + eapply pathLevels_unchanged; [|exact Hrest'].
      intros q n Hq Hlt. rewrite Hother; [done| | |].
      * intros ->. assert (n = pd) by congruence. subst n. lia.
      * eapply HUlv; [done|lia].
      * apply Hgout. eauto. }
  assert (Htop' : pathTop rest (rootPageNum s1)).
  { destruct HU as [(-> & _)|(rest' & -> & _ & _ & ->)]; done. }
  assert (Hsp : splitPoint (file s1)
                  (if done then G
                   else if keyValue >=? median then Some (g, offset - N / 2 - 1)
                        else Some (P, offset)) O).
  { destruct done.
    + destruct Hd as (Hlv2 & g0 & go & -> & gd & Hgd & Hgo).
      exists g0, go. split; [done|].
      destruct (decide (0 <= go)) as [Hge|Hlt].
      * specialize (Hgo Hge).
        assert (Hl2 : level gd = 2).
        { eapply leaf_child_level; [by eapply Hnl|done|]. by exists leaf. }
        exists gd. split; [|done]. rewrite Hother; [done| | |].
        -- intros ->. assert (gd = pd) by congruence. subst gd. lia.
        -- eapply HUlv; [done|lia].
        -- apply Hgout. eauto.
      * destruct Hext as (_ & _ & Hnlx). destruct (Hnlx _ _ Hgd) as (gd' & Hgd' & _).
        exists gd'. split; [done|]. lia.
    + destruct Hd as (-> & -> & i & p & rest0 & nd & Heq & Hnd & Hci).
      inversion Heq; subst i p rest0. assert (nd = pd) as -> by congruence.
      pose proof (half_bounds N HN) as Hm.
      pose proof (splitNonLeaf_Some N pd left right ltac:(lia) Hsplit)
        as (_ & _ & _ & Hpnl & _ & Hpnr).
      destruct (Z.geb_spec keyValue median) as [Hge|Hlt].
      * exists g, (offset - N / 2 - 1). split; [done|]. exists right. split; [done|].
        intros Hpos. rewrite Hpnr. destruct (decide _) as [_|]; [|lia].
        rewrite <- Hoff. f_equal. lia.
      * exists P, offset. split; [done|]. exists left. split; [done|]. intros _.
        rewrite Hpnl. destruct (decide _) as [Hin|]; [|done]. exfalso.
        apply childIndex_Some in Hci as (_ & Hbelow & _); [|lia].
        destruct (Hbelow (N / 2)) as (k & Hk' & Hle); [lia|].
        assert (k = median) by congruence. lia. }
  eapply (IH true _ s1 G' s' P (lv + 1)); try done; try lia.
  split; [lia|done].
Qed.

(** ** The leaf split and the insertion keep the structure *)

Lemma setEntry_length i k r l l' :
  setEntry i k r l = Some l' ->
  length (keyArray l') = length (keyArray l)
  /\ length (ridArray l') = length (ridArray l).
Proof.
  unfold setEntry. intros H.
  destruct (put (keyArray l) i k) as [ka|] eqn:Hk; [|done].
  destruct (put (ridArray l) i r) as [ra|] eqn:Hr; [|done].
  simpl in H. inversion H; subst; simpl.
  split; eapply put_length; eauto.
Qed.

Lemma shiftLeafLoop_length fuel j l l' :
  shiftLeafLoop fuel j l = Some l' ->
  length (keyArray l') = length (keyArray l)
  /\ length (ridArray l') = length (ridArray l).
Proof.
  revert j l. induction fuel as [|fuel IH]; intros j l H; simpl in H.
  - by inversion H.
  - destruct (at_ (ridArray l) (j - 1)) as [r|]; [|done].
    destruct (at_ (keyArray l) (j - 1)) as [k|]; [|done]. simpl in H.
    destruct (setEntry j k r l) as [d|] eqn:Hd; [|done]. simpl in H.
    apply IH in H as [? ?]. apply setEntry_length in Hd as [? ?]. split; congruence.
Qed.

Lemma moveLeafLoop_length fuel i j l r l' r' :
  moveLeafLoop fuel i j l r = Some (l', r') ->
  (length (keyArray l') = length (keyArray l)
   /\ length (ridArray l') = length (ridArray l))
  /\ (length (keyArray r') = length (keyArray r)
      /\ length (ridArray r') = length (ridArray r)).
Proof.
  revert i j l r. induction fuel as [|fuel IH]; intros i j l r H; simpl in H.
  - by inversion H.
  - destruct (at_ (keyArray l) i) as [k|]; [|done].
    destruct (at_ (ridArray l) i) as [rd|]; [|done]. simpl in H.
    destruct (setEntry j k rd r) as [right'|] eqn:Hright; [|done]. simpl in H.
    destruct (setEntry i 0 zeroRid l) as [left'|] eqn:Hleft; [|done]. simpl in H.
    apply IH in H as [[? ?] [? ?]].
    apply setEntry_length in Hright as [? ?]. apply setEntry_length in Hleft as [? ?].
    repeat split; congruence.
Qed.

(** A leaf on which the positioning loop runs to the end has every slot
    occupied. *)
Lemma full_leaf_occupied L keyValue leaf a :
  0 <= L ->
  length (keyArray leaf) = Z.to_nat L -> length (ridArray leaf) = Z.to_nat L ->
  leafPosition L true keyValue leaf = Some (a, L) ->
  forall j, 0 <= j < L ->
    exists r, at_ (ridArray leaf) j = Some r /\ page_number r <> Page.INVALID_NUMBER.
Proof.
  intros HL Hkl Hrl Hpos j Hj. unfold leafPosition in Hpos.
  destruct (leafLoop_unset L keyValue leaf Hkl Hrl true (Z.to_nat L) 0)
    as (a' & e & He & _ & Hfirst & _); [lia|lia|intros; lia|].
  rewrite Hpos in He. inversion He; subst a' e.
  destruct (Hfirst eq_refl) as (_ & _ & Hocc).
  destruct (at_in_range (ridArray leaf) j) as [r Hr]; [lia|].
  exists r. split; [done|]. intros Hz. apply (Hocc j Hj). by exists r.
Qed.

Lemma pageAt_setPage_cases f p d q x :
  pageAt (setPage f p d) q = Some x ->
  (q = p /\ x = d) \/ (q <> p /\ pageAt f q = Some x).
Proof.
  intros H. destruct (decide (q = p)) as [->|Hne].
  - left. split; [done|]. rewrite pageAt_setPage_eq in H; [congruence|].
    apply pageAt_is_Some_le. rewrite <- (setPage_length f p d).
    apply pageAt_is_Some_le. eauto.
  - right. by rewrite pageAt_setPage_ne in H.
Qed.

Lemma pageAt_snoc_cases f q x :
  pageAt (f ++ [BlankPage]) q = Some x ->
  (q = S (length f) /\ x = BlankPage) \/ pageAt f q = Some x.
Proof.
  intros H. destruct (decide (q <= length f)%nat).
  - right. by rewrite pageAt_app in H.
  - left. assert (Hq : is_Some (pageAt (f ++ [BlankPage]) q)) by eauto.
    apply pageAt_is_Some_le in Hq. rewrite length_app in Hq. simpl in Hq.
    assert (q = S (length f)) as -> by lia. split; [done|].
    rewrite pageAt_blank in H; [congruence|repeat constructor|].
    rewrite length_app; simpl; lia.
Qed.

(** Rewriting a leaf by a well-formed leaf keeps the structure. *)
Lemma leafWrite_structure L N firstLeaf f root p l l' :
  structureOk L N firstLeaf f root ->
  pageAt f p = Some (LeafPage l) ->
  leafOk L (bool_decide (p = firstLeaf)) l' ->
  structureOk L N firstLeaf (setPage f p (LeafPage l')) root.
Proof.
  intros (Hnl & Hlf & Hroot & Hleft) Hp Hl'.
  pose proof (extends_setPage_leaf f p l l' Hp) as Hext.
  split; [|split; [|split]].
  - intros q n Hq. apply pageAt_setPage_cases in Hq as [[_ ?]|[_ Hq]]; [done|].
    eauto using nonLeafOk_extends.
  - intros q m Hq. apply pageAt_setPage_cases in Hq as [[-> Hd]|[_ Hq]]; [|eauto].
    by inversion Hd; subst.
  - destruct Hroot as [n Hn]. destruct Hext as (_ & _ & Hnlx).
    destruct (Hnlx _ _ Hn) as (n' & Hn' & _). eauto.
  - eauto using leftmostLeaf_extends.
Qed.

Lemma slot_rid l j : snd (slot l j) = at_ (ridArray l) j.
Proof. done. Qed.

(** The split of a full leaf under the slot that the loop over the path
    left keeps the structure. *)
Lemma splitLeaf_structure L N firstLeaf keyValue O lastPage insertAt G s out s' leaf :
  2 <= L -> 3 <= N ->
  structureOk L N firstLeaf (file s) (rootPageNum s) ->
  pageAt (file s) O = Some (LeafPage leaf) ->
  (forall j, 0 <= j < L ->
     exists r, at_ (ridArray leaf) j = Some r /\ page_number r <> Page.INVALID_NUMBER) ->
  splitPoint (file s) G O ->
  splitLeaf L N keyValue O lastPage insertAt G s = (Return out, s') ->
  structureOk L N firstLeaf (file s') (rootPageNum s').
Proof.
  intros HL HN Hst HO Hfull (parent & offset & -> & gd & Hgd & Hgo) H.
  pose proof Hst as (Hnl & Hlf & Hroot & Hleft).
  unfold splitLeaf in H.
  apply bindM_Return in H as ([parent' offset'] & ? & [Heq ->]%defined_Return & H).
  inversion Heq; subst parent' offset'. clear Heq.
  apply bindM_Return in H as (pd & ? & [Hpd ->]%asNonLeaf_Return & H).
  apply bindM_Return in H as (pd1 & ? & [Hopen ->]%defined_Return & H).
  apply bindM_Return in H as (leaf' & ? & [Hleaf ->]%asLeaf_Return & H).
  apply bindM_Return in H as (median & ? & [Hmed ->]%defined_Return & H).
  apply bindM_Return in H as (pd2 & ? & [Hkey ->]%defined_Return & H).
  apply bindM_Return in H as (R & s1 & [-> ->]%allocPage_Return & H).
  apply bindM_Return in H as (pd3 & ? & [Hpno ->]%defined_Return & H).
  apply bindM_Return in H as (? & ? & [Hw1 ->]%writePage_Return & H).
  apply bindM_Return in H as ([leafO leafR] & ? & [Hmove ->]%defined_Return & H).
  apply bindM_Return in H as (? & ? & [Hw2 ->]%writePage_Return & H).
  apply bindM_Return in H as (? & ? & [Hw3 ->]%writePage_Return & H).
  assert (pd = gd) as -> by congruence. assert (leaf' = leaf) as -> by congruence.
  clear Hpd Hleaf.
  run_all. simpl in *.
  set (f := file s) in *. set (R := S (length f)) in *.
  set (m := L / 2) in *.
  assert (Hm : 1 <= m < L).
  { subst m. split; [apply Z.div_le_lower_bound; lia|apply Z.div_lt_upper_bound; lia]. }
  pose proof (Hnl _ _ Hgd) as Hgdok.
  pose proof Hgdok as (Hgkl & Hgpl & _ & Hgch).
  assert (Hins : childInserted N offset median R gd pd3).
  { eapply childInserted_intro; [lia|done|done|]. right. done. }
  pose proof Hins as (k & _ & Hoff & _ & (Hlv3 & _) & Hpn3 & _).
  specialize (Hgo ltac:(lia)).
  assert (Hl2 : level gd = 2).
  { eapply leaf_child_level; [done|done|]. by exists leaf. }
  assert (HOlt := pageAt_lt _ _ (ex_intro _ _ HO)).
  assert (HPlt := pageAt_lt _ _ (ex_intro _ _ Hgd)).
  assert (HneOP : O <> parent) by (intros ->; congruence).
  assert (HOnz : O <> Page.INVALID_NUMBER) by (unfold Page.INVALID_NUMBER; lia).
  assert (HRnz : R <> Page.INVALID_NUMBER) by done.
  set (f1 := setPage (f ++ [BlankPage]) parent (NonLeafPage pd3)) in *.
  set (f2 := setPage f1 O (LeafPage leafO)) in *.
  set (f3 := setPage f2 R (LeafPage leafR)) in *.
  assert (Hext : extends f f3).
  { eapply extends_trans; [apply (extends_app f [BlankPage])|].
    eapply extends_trans.
    { eapply (extends_setPage_nonLeaf _ parent gd pd3); [|done|].
      - rewrite pageAt_app; [done|lia].
      - rewrite Hpn3. destruct (decide _); [lia|]. destruct (decide _); [lia|done]. }
    eapply extends_trans.
    { eapply (extends_setPage_leaf _ O leaf). unfold f1.
      rewrite pageAt_setPage_ne by done. rewrite pageAt_app; [done|lia]. }
    apply extends_setPage_blank. unfold f2, f1.
    rewrite !pageAt_setPage_ne by (subst R; lia).
    apply pageAt_blank; [repeat constructor|]. rewrite length_app; simpl. subst R. lia. }
  assert (H3R : pageAt f3 R = Some (LeafPage leafR)).
  { apply pageAt_setPage_eq. done. }
  apply moveLeafLoop_length in Hmove as Hlens. simpl in Hlens.
  destruct Hlens as [[HlOk HlOr] [HlRk HlRr]].
  rewrite length_replicate in HlRk. rewrite length_replicate in HlRr.
  apply moveLeafLoop_Some in Hmove as (_ & _ & HslO & HslR). simpl in *.
  rewrite Z2Nat.id in HslO, HslR by lia.
  pose proof (Hlf _ _ HO) as (Hlk & Hlr & Hfirst).
  split; [|split; [|split]].
  - intros q n Hq.
    apply pageAt_setPage_cases in Hq as [[_ ?]|[_ Hq]]; [done|].
    apply pageAt_setPage_cases in Hq as [[_ ?]|[_ Hq]]; [done|].
    apply pageAt_setPage_cases in Hq as [[_ Hd]|[_ Hq]].
    + inversion Hd; subst n.
      eapply (childInserted_ok N f3 gd pd3 offset median R O); try done; try lia.
      * intros i c Hc Hnz. destruct (Hgch _ _ Hc Hnz) as [Hpre Hok].
        split; [done|]. eauto using childOk_extends.
      * left. split; [done|]. by exists leafR.
    + apply pageAt_snoc_cases in Hq as [[_ ?]|Hq]; [done|].
      eauto using nonLeafOk_extends.
  - intros q l Hq.
    apply pageAt_setPage_cases in Hq as [[-> Hd]|[HqR Hq]].
    { inversion Hd; subst l. split; [done|]. split; [done|]. intros _.
      pose proof (HslR 0) as H0. destruct (decide _) in H0; [|lia].
      destruct (Hfull (m + (0 - 0))) as (r & Hr & Hnz); [lia|].
      exists r. split; [|done]. rewrite <- slot_rid, H0. done. }
    apply pageAt_setPage_cases in Hq as [[-> Hd]|[HqO Hq]].
    { inversion Hd; subst l. split; [congruence|]. split; [congruence|]. intros Hnf.
      destruct (Hfirst Hnf) as (r & Hr & Hnz). exists r. split; [|done].
      rewrite <- slot_rid, HslO. destruct (decide _); [lia|]. done. }
    apply pageAt_setPage_cases in Hq as [[_ ?]|[_ Hq]]; [done|].
    apply pageAt_snoc_cases in Hq as [[_ ?]|Hq]; [done|]. eauto.
  - destruct Hroot as [n Hn]. destruct Hext as (_ & _ & Hnlx).
    destruct (Hnlx _ _ Hn) as (n' & Hn' & _). eauto.
  - eauto using leftmostLeaf_extends.
Qed.

(** ** An insert keeps the structure *)

Lemma descent_structure L N firstLeaf keyValue rootPage s out s' :
  2 <= L -> 3 <= N ->
  structureOk L N firstLeaf (file s) (rootPageNum s) ->
  rootPage = rootPageNum s ->
  getPageNoAndOffsetOfKeyInsert L N keyValue rootPage true s = (Return out, s') ->
  structureOk L N firstLeaf (file s') (rootPageNum s').
Proof.
  intros HL HN Hst -> H. pose proof Hst as (Hnl & Hlf & Hroot & Hleft).
  unfold getPageNoAndOffsetOfKeyInsert in H.
  apply bindM_Return in H as (s0 & ? & [-> ->]%get_Return & H).
  apply bindM_Return in H as (rootData & ? & [Hrd ->]%asNonLeaf_Return & H).
  apply bindM_Return in H as ([[c l] path] & s2 & Hw & H).
  assert (Hlv2 : 2 <= level rootData).
  { destruct (Hnl _ _ Hrd) as (_ & _ & (c1 & Hc1 & Hnz) & Hch).
    destruct (Hch _ _ Hc1 Hnz) as [_ Hok]. by eapply childOk_level. }
  eapply (walk_path N _ keyValue _ [] s c l path s2 (level rootData) (rootPageNum s)
            (file s)) in Hw; [| |done| |done|done].
  2:{ intros p nd i ch Hp Hi Hnz. destruct (Hnl _ _ Hp) as (_ & _ & _ & Hch).
      by destruct (Hch _ _ Hi Hnz). }
  2:{ right. split; [done|]. eauto. }
  destruct Hw as (-> & Hf2 & Hr2 & Hll & Hpath & Htop & Hhead).
  rewrite Z2Nat.id in Hll, Hpath by lia.
  replace (level rootData - (level rootData - 1)) with 1 in Hll, Hpath by lia.
  destruct Hhead as (i & p & rest & nd & -> & Hnd & Hci); [lia|].
  apply bindM_Return in H as (leaf & ? & [Hleaf ->]%leafView_Return & H).
  rewrite Hf2 in Hleaf. apply (leafView_leaf _ _ _ _ Hll) in Hleaf. rewrite <- Hf2 in Hleaf.
  apply bindM_Return in H as ([a e] & ? & [Hpos ->]%defined_Return & H).
  destruct (decide (e = L)) as [->|Hne].
  2:{ run_all. simpl. by rewrite Hf2, Hr2. }
  apply bindM_Return in H as (G & s3 & Hprop & H).
  rewrite <- Hf2, <- Hr2 in *.
  eapply (propagate_structure L N firstLeaf keyValue l leaf) in Hprop
    as (Hst3 & Hsp & HO3); [| |done|done|done| | |]; try done; try lia.
  - eapply splitLeaf_structure in H; try done.
    destruct (Hlf _ _ Hleaf) as (Hkl & Hrl & _).
    eapply full_leaf_occupied; [lia|done|done|done].
  - unfold pathTop. unfold topIsRoot in Htop.
    destruct (list.last ((i, p) :: rest)) as [[? ?]|]; done.
  - simpl. split; [done|]. split; [done|]. eauto 10.
Qed.

(** Placing an entry with a valid record id in a leaf keeps it well
    formed. *)
Lemma insertIntoLeaf_ok L first keyValue rid insertAt eor l l' :
  page_number rid <> Page.INVALID_NUMBER ->
  leafOk L first l ->
  insertIntoLeaf keyValue rid insertAt eor l = Some l' ->
  leafOk L first l'.
Proof.
  intros Hrid (Hkl & Hrl & Hfirst) H. unfold insertIntoLeaf in H.
  destruct (shiftLeafLoop _ _ _) as [d|] eqn:Hshift; [|done]. simpl in H.
  pose proof (shiftLeafLoop_length _ _ _ _ Hshift) as [? ?].
  pose proof (setEntry_length _ _ _ _ _ H) as [? ?].
  apply shiftLeafLoop_Some in Hshift as [_ Hs1].
  pose proof (setEntry_Some _ _ _ _ _ H) as [_ Hs2].
  split; [congruence|]. split; [congruence|]. intros Hnf.
  destruct (Hfirst Hnf) as (r & Hr & Hnz).
  destruct (decide (0 = insertAt)) as [<-|Hne].
  - exists rid. split; [|done]. rewrite <- slot_rid, Hs2. by destruct (decide _).
  - assert (Hin : 0 < insertAt).
    { unfold setEntry in H. destruct (put (keyArray d) insertAt keyValue) eqn:Hp; [|done].
      apply put_Some in Hp. lia. }
    exists r. split; [|done]. rewrite <- slot_rid, Hs2. destruct (decide _); [lia|].
    rewrite Hs1. destruct (decide _); [lia|]. done.
Qed.

(** The index as the constructor leaves it. *)
Lemma freshIndex_state N :
  file (freshIndex N)
    = [MetaPage (mkMeta [] 0 INTEGER 2%nat); NonLeafPage (setLevel 1 (zeroNonLeaf N))]
  /\ rootPageNum (freshIndex N) = 2%nat.
Proof. done. Qed.

(** The first insert builds a root of level 2 over an empty left leaf
    (page 3) and a right leaf (page 4) that holds the entry. *)
Lemma firstInsert_structure L N keyValue rid m s s' :
  1 <= L -> 1 <= N ->
  page_number rid <> Page.INVALID_NUMBER ->
  file s = [MetaPage m; NonLeafPage (setLevel 1 (zeroNonLeaf N))] ->
  rootPageNum s = 2%nat ->
  insertEntry L N keyValue rid s = (Return tt, s') ->
  structureOk L N 3%nat (file s') (rootPageNum s').
Proof.
  intros HL HN Hrid Hfile Hroot H. unfold insertEntry, insertKeyTemplate in H.
  apply bindM_Return in H as (s0 & ? & [-> ->]%get_Return & H).
  apply bindM_Return in H as (rootPage & ? & (-> & _ & ->)%readPage_Return & H).
  apply bindM_Return in H as (rd & ? & [Hrd ->]%asNonLeaf_Return & H).
  apply bindM_Return in H as (first & ? & [Hfirst ->]%defined_Return & H).
  simpl in Hrd. rewrite Hroot, Hfile in Hrd. inversion Hrd; subst rd. clear Hrd.
  assert (first = Page.INVALID_NUMBER) as ->.
  { change (at_ (pageNoArray (zeroNonLeaf N)) 0 = Some first) in Hfirst.
    destruct (zeroNonLeaf_pageNo N 0) as [Hz|Hz]; rewrite Hfirst in Hz;
      by inversion Hz. }
  destruct (decide _) as [_|]; [|done].
  apply bindM_Return in H as (lessKey & ? & [-> ->]%allocPage_Return & H).
  apply bindM_Return in H as (rd1 & ? & [Hrd1 ->]%defined_Return & H).
  apply bindM_Return in H as (greaterKey & ? & [-> ->]%allocPage_Return & H).
  apply bindM_Return in H as (rd2 & ? & [Hrd2 ->]%defined_Return & H).
  apply bindM_Return in H as (? & ? & [_ ->]%writePage_Return & H).
  apply bindM_Return in H as (? & ? & ->%unPinPage_Return & H).
  apply bindM_Return in H as (right & ? & [Hright ->]%defined_Return & H).
  apply bindM_Return in H as (? & ? & [_ ->]%writePage_Return & H).
  apply bindM_Return in H as (? & ? & ->%unPinPage_Return & H).
  apply bindM_Return in H as (rd3 & ? & [Hrd3 ->]%defined_Return & H).
  apply bindM_Return in H as (? & ? & [_ ->]%writePage_Return & H).
  apply unPinPage_Return in H. subst s'. simpl. rewrite Hroot, Hfile. simpl.
  set (left := setRightSib 4%nat (zeroLeaf L)).
  assert (Hf' : setPage (setPage (setPage [MetaPage m; NonLeafPage (setLevel 1 (zeroNonLeaf N));
                    BlankPage; BlankPage] 3%nat (LeafPage left)) 4%nat (LeafPage right))
                  2%nat (NonLeafPage rd3)
                = [MetaPage m; NonLeafPage rd3; LeafPage left; LeafPage right]) by done.
  rewrite Hf'. clear Hf'.
  rewrite ?Hfile in Hrd1. rewrite ?Hfile in Hrd2. simpl in Hrd1, Hrd2.
  pose proof (setPageNo_shape _ _ _ _ Hrd1) as (_ & Hk1 & Hp1).
  pose proof (setPageNo_shape _ _ _ _ Hrd2) as (_ & Hk2 & Hp2).
  pose proof (setKey_shape _ _ _ _ Hrd3) as (_ & Hk3 & Hp3).
  apply setPageNo_at in Hrd1 as (_ & _ & Ha1).
  apply setPageNo_at in Hrd2 as (_ & _ & Ha2).
  apply setKey_at in Hrd3 as (Hlv3 & Hpn3 & _).
  simpl in *. rewrite length_replicate in Hk1. rewrite length_replicate in Hp1.
  assert (Hat : forall j, at_ (pageNoArray rd3) j =
            if decide (j = 1) then Some 4%nat
            else if decide (j = 0) then Some 3%nat
            else at_ (pageNoArray (zeroNonLeaf N)) j).
  { intros j. rewrite Hpn3, Ha2, Ha1, !Hfile. done. }
  set (f' := [MetaPage m; NonLeafPage rd3; LeafPage left; LeafPage right]).
  assert (H3 : pageAt f' 3%nat = Some (LeafPage left)) by done.
  assert (H4 : pageAt f' 4%nat = Some (LeafPage right)) by done.
  assert (H2 : pageAt f' 2%nat = Some (NonLeafPage rd3)) by done.
  split; [|split; [|split]].
  - intros p n Hp.
    assert (n = rd3) as ->.
    { destruct p as [|[|[|[|[|p]]]]]; unfold pageAt, f' in Hp; simpl in Hp;
        by inversion Hp. }
    split; [congruence|]. split; [congruence|]. split.
    + exists 4%nat. split; [|done]. rewrite Hat. done.
    + intros i c Hc Hnz. rewrite Hat in Hc.
      assert (Hi : (i = 1 /\ c = 4%nat) \/ (i = 0 /\ c = 3%nat)).
      { destruct (decide (i = 1)); [left; split; congruence|].
        destruct (decide (i = 0)); [right; split; congruence|].
        destruct (zeroNonLeaf_pageNo N i) as [Hz|Hz]; rewrite Hc in Hz;
          inversion Hz; subst; done. }
      split.
      * intros j Hj. rewrite Hat.
        destruct (decide (j = 1)); [by exists 4%nat|].
        destruct (decide (j = 0)); [by exists 3%nat|lia].
      * left. split; [done|].
        destruct Hi as [[_ ->]|[_ ->]]; [by exists right|by exists left].
  - intros p l Hp.
    assert ((p = 3%nat /\ l = left) \/ (p = 4%nat /\ l = right)) as [[-> ->]|[-> ->]].
    { destruct p as [|[|[|[|[|p]]]]]; unfold pageAt, f' in Hp; simpl in Hp;
        try done; [left|right]; by inversion Hp. }
    + split; [apply length_replicate|]. split; [apply length_replicate|]. done.
    + pose proof (setEntry_length _ _ _ _ _ Hright) as [Hl1 Hl2]. simpl in Hl1, Hl2.
      rewrite length_replicate in Hl1. rewrite length_replicate in Hl2.
      split; [done|]. split; [done|]. intros _. exists rid. split; [|done].
      apply setEntry_Some in Hright as [_ Hs]. rewrite <- slot_rid, Hs. done.
  - by exists rd3.
  - eapply leftmost_down; [exact H2|by rewrite Hat|]. by eapply leftmost_here.
Qed.

(** An insert into an index with data keeps the structure. *)
Lemma insertEntry_structure L N firstLeaf keyValue rid s s' :
  2 <= L -> 3 <= N ->
  page_number rid <> Page.INVALID_NUMBER ->
  structureOk L N firstLeaf (file s) (rootPageNum s) ->
  insertEntry L N keyValue rid s = (Return tt, s') ->
  structureOk L N firstLeaf (file s') (rootPageNum s').
Proof.
  intros HL HN Hrid Hst H. pose proof Hst as (Hnl & Hlf & Hroot & Hleft).
  unfold insertEntry, insertKeyTemplate in H.
  apply bindM_Return in H as (s0 & ? & [-> ->]%get_Return & H).
  apply bindM_Return in H as (rootPage & ? & (-> & _ & ->)%readPage_Return & H).
  apply bindM_Return in H as (rd & ? & [Hrd ->]%asNonLeaf_Return & H).
  apply bindM_Return in H as (first & ? & [Hfirst ->]%defined_Return & H).
  simpl in Hrd.
  destruct (decide (first = Page.INVALID_NUMBER)) as [->|Hnz].
  { exfalso. destruct (Hnl _ _ Hrd) as (_ & _ & (c1 & Hc1 & Hnz1) & Hch).
    destruct (Hch _ _ Hc1 Hnz1) as [Hpre _].
    destruct (Hpre 0) as (c0 & Hc0 & Hnz0); [lia|]. congruence. }
  apply bindM_Return in H as ([[[dataPageNum insertAt] eor] prev] & s1 & Hd & H).
  eapply (descent_structure L N firstLeaf) in Hd; [|done|done|done|done].
  apply bindM_Return in H as (tempPage & ? & (-> & _ & ->)%readPage_Return & H).
  apply bindM_Return in H as (leaf & ? & [Hleaf ->]%asLeaf_Return & H).
  apply bindM_Return in H as (leaf' & ? & [Hins ->]%defined_Return & H).
  apply bindM_Return in H as (? & ? & [_ ->]%writePage_Return & H).
  apply unPinPage_Return in H. subst s'. simpl in *.
  eapply leafWrite_structure; [done|done|].
  eapply insertIntoLeaf_ok; [done| |done].
  destruct Hd as (_ & Hlf1 & _). eauto.
Qed.

(** Every run of inserts on a new index that returns leaves, once an entry
    is in, a well-structured index whose first leaf is page 3. *)
Lemma insertAll_cons L N k r rest s :
  insertAll L N ((k, r) :: rest) s
  = bindM (insertEntry L N k r) (fun _ => insertAll L N rest) s.
Proof. done. Qed.

Lemma insertAll_structure L N entries : forall s s',
  2 <= L -> 3 <= N ->
  Forall (fun e => page_number (snd e) <> Page.INVALID_NUMBER) entries ->
  structureOk L N 3%nat (file s) (rootPageNum s) ->
  insertAll L N entries s = (Return tt, s') ->
  structureOk L N 3%nat (file s') (rootPageNum s').
Proof.
  induction entries as [|[k r] rest IH]; intros s s' HL HN Hrids Hst H.
  - apply ret_Return in H as [_ ->]. done.
  - rewrite insertAll_cons in H. apply bindM_Return in H as ([] & s1 & H1 & H).
    inversion Hrids as [|? ? Hr Hrest]; subst. simpl in Hr.
    eapply IH; [done|done|done| |done].
    eapply insertEntry_structure; [| | |done|done]; done.
Qed.

Lemma insertAll_fresh_structure L N k r rest s' :
  2 <= L -> 3 <= N ->
  Forall (fun e => page_number (snd e) <> Page.INVALID_NUMBER) ((k, r) :: rest) ->
  insertAll L N ((k, r) :: rest) (freshIndex N) = (Return tt, s') ->
  structureOk L N 3%nat (file s') (rootPageNum s').
Proof.
  intros HL HN Hrids H. rewrite insertAll_cons in H.
  apply bindM_Return in H as ([] & s1 & H1 & H).
  inversion Hrids as [|? ? Hr Hrest]; subst. simpl in Hr.
  destruct (freshIndex_state N) as [Hf Hroot].
  assert (HL1 : 1 <= L) by lia. assert (HN1 : 1 <= N) by lia.
  pose proof (firstInsert_structure L N k r _ (freshIndex N) s1 HL1 HN1 Hr Hf Hroot H1)
    as Hst1.
  exact (insertAll_structure L N rest s1 s' HL HN Hrest Hst1 H).
Qed.

(** ** Levels and occupancy of every reachable index *)

Lemma child_at n c :
  c ∈ children n ->
  exists i, at_ (pageNoArray n) i = Some c /\ c <> Page.INVALID_NUMBER.
Proof.
  unfold children. intros [Hnz Hin]%list_elem_of_filter.
  apply list_elem_of_lookup in Hin as [i Hi]. exists (Z.of_nat i).
  split; [|done]. apply at_Some. split; [lia|]. by rewrite Nat2Z.id.
Qed.

Lemma structure_child L N firstLeaf f root p n c :
  structureOk L N firstLeaf f root ->
  pageAt f p = Some (NonLeafPage n) -> c ∈ children n ->
  childOk f (level n) c.
Proof.
  intros (Hnl & _) Hp Hc. apply child_at in Hc as (i & Hi & Hnz).
  destruct (Hnl _ _ Hp) as (_ & _ & _ & Hch). by destruct (Hch _ _ Hi Hnz).
Qed.

Lemma structure_depth L N firstLeaf f root p k q :
  structureOk L N firstLeaf f root ->
  pathTo f p k q -> isLeafPage f q ->
  forall n, pageAt f p = Some (NonLeafPage n) -> Z.of_nat k = level n - 1.
Proof.
  intros Hst Hpath [lq Hq]. induction Hpath as [p|p n c k q Hp Hc Hpath IH].
  - intros n Hn. congruence.
  - intros n' Hn'. assert (n' = n) as -> by congruence.
    destruct (structure_child _ _ _ _ _ _ _ _ Hst Hp Hc)
      as [[Hl2 [lc Hlc]]|[Hgt (nc & Hnc & Hlv)]].
    + inversion Hpath as [|? nc ? ? ? Hnc]; subst; [lia|congruence].
    + specialize (IH Hq nc Hnc). lia.
Qed.

Lemma structure_levels L N firstLeaf s :
  structureOk L N firstLeaf (file s) (rootPageNum s) -> levelDiscipline 2 s.
Proof.
  intros Hst. split.
  - intros p n c Hp Hc.
    destruct (structure_child _ _ _ _ _ _ _ _ Hst Hp Hc)
      as [[Hl2 [lc Hlc]]|[Hgt (nc & Hnc & Hlv)]].
    + split; [|done]. split; [by exists lc|done].
    + split; [|eauto]. split; [lia|]. intros [lc Hlc]. congruence.
  - intros root k q Hroot Hpath Hq.
    pose proof (structure_depth _ _ _ _ _ _ _ _ Hst Hpath Hq root Hroot). lia.
Qed.

Lemma structure_occupancy L N firstLeaf s :
  2 <= L ->
  structureOk L N firstLeaf (file s) (rootPageNum s) ->
  occupancy (fun p => p = firstLeaf) s.
Proof.
  intros HL (Hnl & Hlf & _) p Hp. unfold holdsKey.
  destruct (pageAt (file s) p) as [[m|n|l|]|] eqn:E; try done.
  - destruct (Hnl _ _ E) as (_ & _ & (c1 & Hc1 & Hnz1) & Hch).
    destruct (Hch _ _ Hc1 Hnz1) as [Hpre _].
    destruct (Hpre 0) as (c0 & Hc0 & Hnz0); [lia|].
    apply at_Some in Hc0 as [_ Hc0]. apply at_Some in Hc1 as [_ Hc1].
    unfold children. destruct (pageNoArray n) as [|a0 [|a1 rest]]; try done.
    simpl in Hc0, Hc1. inversion Hc0; inversion Hc1; subst.
    rewrite !filter_cons_True by done. simpl. lia.
  - destruct (Hlf _ _ E) as (Hkl & Hrl & Hfirst).
    destruct Hfirst as (r & Hr & Hnz); [by apply bool_decide_eq_false|].
    apply at_Some in Hr as [_ Hr]. unfold leafEntries.
    destruct (ridArray l) as [|r0 rs]; [done|]. simpl in Hr. inversion Hr; subst r0.
    destruct (keyArray l) as [|k0 ks]; [simpl in Hkl; lia|].
    simpl. rewrite filter_cons_True by done. done.
Qed.

(** X1.  The levels.  In every index reached from a new one by a run
    of inserts that return (at least one of them, record ids with a page
    number other than 0), with at least 2 slots per leaf and 3 keys per
    non-leaf: a non-leaf has level 2 exactly when its children are leaves,
    the children of a non-leaf of any other level are non-leaves of the level
    below it, and every leaf is [level root - 1] steps below the root; so the
    level decreases by 1 along every path, is 2 at the parent of a leaf, and
    all leaves are at the same depth. *)
Theorem levels_count_from_two (LEAFSIZE NONLEAFSIZE : Z)
    (entries : list (Z * RecordId)) (s' : BTreeIndex) :
  2 <= LEAFSIZE -> 3 <= NONLEAFSIZE ->
  entries <> [] ->
  Forall (fun e => page_number (snd e) <> Page.INVALID_NUMBER) entries ->
  insertAll LEAFSIZE NONLEAFSIZE entries (freshIndex NONLEAFSIZE) = (Return tt, s') ->
  levelDiscipline 2 s'.
Proof.
  intros HL HN Hne Hrids H. destruct entries as [|[k r] rest]; [done|].
  eapply structure_levels. eapply insertAll_fresh_structure; done.
Qed.

Lemma levels_count_from_two_witness : levelDiscipline 2 scenarioRootSplit.
Proof.
  apply (levels_count_from_two 3 3 (entries1 [10; 20; 30; 40; 50; 60]%nat)).
  - lia.
  - lia.
  - vm_compute. discriminate.
  - vm_compute. repeat constructor; discriminate.
  - vm_compute. reflexivity.
Defined.

(** X2.  The occupancy.  In every index reached from a new one by a run
    of inserts that return (at least one of them, record ids with a page
    number other than 0), with at least 2 slots per leaf and 3 keys per
    non-leaf: page 3, the left leaf that the first insert creates empty, is
    the leftmost leaf of the tree, and every node but this leaf holds at
    least one key; so does the root. *)
Theorem every_node_but_first_leaf_holds_key (LEAFSIZE NONLEAFSIZE : Z)
    (entries : list (Z * RecordId)) (s' : BTreeIndex) :
  2 <= LEAFSIZE -> 3 <= NONLEAFSIZE ->
  entries <> [] ->
  Forall (fun e => page_number (snd e) <> Page.INVALID_NUMBER) entries ->
  insertAll LEAFSIZE NONLEAFSIZE entries (freshIndex NONLEAFSIZE) = (Return tt, s') ->
  leftmostLeaf (file s') (rootPageNum s') 3%nat
  /\ occupancy (fun p => p = 3%nat) s'
  /\ holdsKey (file s') (rootPageNum s').
Proof.
  intros HL HN Hne Hrids H. destruct entries as [|[k r] rest]; [done|].
  pose proof (insertAll_fresh_structure _ _ _ _ _ _ HL HN Hrids H) as Hst.
  pose proof (structure_occupancy _ _ _ _ HL Hst) as Hocc.
  destruct Hst as (_ & Hlf & [n Hn] & Hleft).
  split; [done|]. split; [done|]. apply Hocc. intros Heq.
  assert (Hl : isLeafPage (file s') 3%nat).
  { clear -Hleft. induction Hleft; [by eexists|done]. }
  destruct Hl as [l Hl]. congruence.
Qed.

Lemma every_node_but_first_leaf_holds_key_witness :
  leftmostLeaf (file scenarioRootSplit) (rootPageNum scenarioRootSplit) 3%nat
  /\ occupancy (fun p => p = 3%nat) scenarioRootSplit
  /\ holdsKey (file scenarioRootSplit) (rootPageNum scenarioRootSplit).
Proof.
  apply (every_node_but_first_leaf_holds_key 3 3 (entries1 [10; 20; 30; 40; 50; 60]%nat)).
  - lia.
  - lia.
  - vm_compute. discriminate.
  - vm_compute. repeat constructor; discriminate.
  - vm_compute. reflexivity.
Defined.

(** ** The round trip: the scan over the chain of leaves *)

Lemma asLeaf_run p s l :
  pageAt (file s) p = Some (LeafPage l) -> asLeaf p s = (Return l, s).
Proof. unfold asLeaf. by intros ->. Qed.

Lemma leafView_run L p s l :
  pageAt (file s) p = Some (LeafPage l) -> leafView L p s = (Return l, s).
Proof. unfold leafView. by intros ->. Qed.

Lemma asNonLeaf_run p s n :
  pageAt (file s) p = Some (NonLeafPage n) -> asNonLeaf p s = (Return n, s).
Proof. unfold asNonLeaf. by intros ->. Qed.

Lemma readPage_run p s :
  is_Some (pageAt (file s) p) ->
  BufMgr.readPage p s = (Return p, withBuf (p :: pinned s) (events s ++ [EvRead p]) s).
Proof. unfold BufMgr.readPage. by intros [d ->]. Qed.

Lemma defined_run {A} (o : option A) a s : o = Some a -> defined o s = (Return a, s).
Proof. by intros ->. Qed.

Lemma unPinPage_run p d s :
  BufMgr.unPinPage p d s
  = (Return tt, withBuf (unpinOne p (pinned s)) (events s ++ [EvUnPin p d]) s).
Proof. done. Qed.

Lemma leftmostLeaf_leaf f p q l :
  leftmostLeaf f p q -> pageAt f p = Some (LeafPage l) -> q = p.
Proof. intros H Hp. inversion H; subst; [done|congruence]. Qed.

(** With a key below the first key of every non-leaf, the walk goes down
    the first children. *)
Lemma walk_leftmost N f keyValue q n : forall cur path s,
  file s = f ->
  (forall p nd, pageAt f p = Some (NonLeafPage nd) ->
     nonLeafOk N f nd /\ childIndex N keyValue nd = Some 0) ->
  leftmostLeaf f cur q ->
  pageLevel f cur (Z.of_nat n + 1) ->
  exists path' s', walk N n keyValue cur cur path s = (Return (q, q, path'), s').
Proof.
  induction n as [|n IH]; intros cur path s Hf Hnl Hleft Hlv.
  - destruct Hlv as [[_ [l Hl]]|[? _]]; [|lia].
    rewrite (leftmostLeaf_leaf _ _ _ _ Hleft Hl). simpl. by eexists _, _.
  - destruct Hlv as [[? _]|[_ (nd & Hnd & Hlv)]]; [lia|].
    inversion Hleft as [? l Hl|? nd' c ? Hnd' Hc Hleft']; subst; [congruence|].
    assert (nd' = nd) as -> by congruence.
    destruct (Hnl _ _ Hnd) as [(_ & _ & _ & Hch) Hci].
    assert (Hcp : is_Some (pageAt (file s) c)).
    { inversion Hleft'; eauto. }
    assert (Hnz : c <> Page.INVALID_NUMBER).
    { intros ->. destruct Hcp as [? Hcp]. by rewrite pageAt_zero in Hcp. }
    destruct (Hch _ _ Hc Hnz) as [_ Hok].
    simpl.
    erewrite bindM_run by (by apply asNonLeaf_run).
    erewrite bindM_run by (by apply defined_run).
    erewrite bindM_run by apply unPinPage_run.
    erewrite bindM_run by (by apply defined_run).
    erewrite bindM_run by (by apply readPage_run).
    apply IH; try done.
    destruct Hok as [[Hl2 Hleaf]|[Hgt (n' & Hn' & Hl')]].
    + left. split; [lia|done].
    + right. split; [lia|]. exists n'. split; [done|lia].
Qed.

Lemma leafHolds_slot0 L l es :
  1 <= L -> leafHolds L l es ->
  slot l 0 = match es with
             | e :: _ => (Some (fst e), Some (snd e))
             | [] => (Some 0, Some zeroRid)
             end.
Proof.
  intros HL (_ & _ & _ & _ & Hs). rewrite (Hs 0) by lia. by destruct es.
Qed.

(** In read-only mode, on a leaf whose first slot is empty or holds a key
    that is not below the search key, the positioning stops at slot 0. *)
Lemma leafPosition_first L keyValue l es :
  1 <= L -> leafHolds L l es ->
  match es with e :: _ => keyValue <= fst e | [] => True end ->
  leafPosition L false keyValue l = Some (0, 0).
Proof.
  intros HL Hl Hes. pose proof (leafHolds_slot0 _ _ _ HL Hl) as H0.
  destruct Hl as (_ & _ & _ & Hvalid & _).
  unfold leafPosition. destruct (Z.to_nat L) as [|fuel] eqn:E; [lia|]. simpl.
  unfold slot in H0. destruct es as [|e es].
  - inversion H0 as [[Hk Hr]]. rewrite Hr. simpl. by destruct (decide _).
  - inversion H0 as [[Hk Hr]]. rewrite Hr. simpl.
    apply Forall_cons in Hvalid as [He _]. unfold validRid in He.
    destruct (decide _) as [|_]; [done|]. rewrite Hk. simpl.
    destruct (Z.gtb_spec keyValue (fst e)); [lia|].
    by destruct (decide _).
Qed.

(** The descent of a scan whose lower bound is below every key ends on the
    first leaf, at slot 0, and changes nothing but the pins. *)
Lemma descent_leftmost L N f keyValue s firstLeaf leaf es :
  1 <= L ->
  file s = f ->
  structureOk L N firstLeaf f (rootPageNum s) ->
  (forall p nd, pageAt f p = Some (NonLeafPage nd) -> childIndex N keyValue nd = Some 0) ->
  pageAt f firstLeaf = Some (LeafPage leaf) ->
  leafHolds L leaf es ->
  match es with e :: _ => keyValue <= fst e | [] => True end ->
  exists pins evs,
    getPageNoAndOffsetOfKeyInsert L N keyValue (rootPageNum s) false s
    = (Return (firstLeaf, 0, 0, firstLeaf), withBuf pins evs s).
Proof.
  intros HL Hf (Hnl & Hlf & [rd Hrd] & Hleft) Hci Hleaf Hholds Hes.
  unfold getPageNoAndOffsetOfKeyInsert.
  erewrite bindM_run by reflexivity.
  erewrite bindM_run by (apply asNonLeaf_run; by rewrite Hf).
  assert (Hlv : 2 <= level rd).
  { destruct (Hnl _ _ Hrd) as (_ & _ & (c1 & Hc1 & Hnz) & Hch).
    destruct (Hch _ _ Hc1 Hnz) as [_ Hok]. by eapply childOk_level. }
  destruct (walk_leftmost N f keyValue firstLeaf (Z.to_nat (level rd - 1))
              (rootPageNum s) [] s Hf) as (path' & s' & Hw); [|done| |].
  { intros p nd Hp. split; eauto. }
  { right. split; [lia|]. exists rd. split; [done|lia]. }
  erewrite bindM_run by exact Hw. cbv beta iota.
  apply walk_Return in Hw as (_ & evs & -> & _).
  erewrite bindM_run by (apply leafView_run; simpl; by rewrite Hf).
  erewrite bindM_run by (apply defined_run; by eapply leafPosition_first).
  cbv beta iota. destruct (decide (0 = L)); [lia|].
  erewrite bindM_run by apply unPinPage_run.
  unfold ret. eexists _, _. f_equal. 
Qed.

(** [startScanTemplate] with a lower bound below every key: the cursor is
    left on slot 0 of the first leaf, or of its right sibling when the first
    leaf is empty. *)
Lemma startScanTemplate_first L N f lowVal highVal s firstLeaf leaf es :
  1 <= L ->
  file s = f ->
  structureOk L N firstLeaf f (rootPageNum s) ->
  (forall p nd, pageAt f p = Some (NonLeafPage nd) -> childIndex N lowVal nd = Some 0) ->
  pageAt f firstLeaf = Some (LeafPage leaf) ->
  leafHolds L leaf es ->
  match es with
  | e :: _ => lowVal < fst e < highVal
  | [] => is_Some (pageAt f (rightSibPageNo leaf))
          /\ zeroInRange lowVal (lowOp s) highVal (highOp s)
  end ->
  exists s',
    startScanTemplate L N lowVal highVal s = (Return tt, s')
    /\ scanExecuting s' = scanExecuting s
    /\ cursorAt s' f highVal (highOp s)
         (Some (match es with _ :: _ => firstLeaf | [] => rightSibPageNo leaf end)) 0.
Proof.
  intros HL Hf Hst Hci Hleaf Hholds Hes.
  pose proof Hst as (Hnl & Hlf & [rd Hrd] & Hleft).
  pose proof (leafHolds_slot0 _ _ _ HL Hholds) as H0. unfold slot in H0.
  unfold startScanTemplate.
  erewrite bindM_run by reflexivity.
  erewrite bindM_run by reflexivity.
  erewrite bindM_run by (apply readPage_run; simpl; rewrite Hf; eauto).
  edestruct (descent_leftmost L N f lowVal
               (withBuf (rootPageNum s :: pinned s) (events s ++ [EvRead (rootPageNum s)])
                        (withBounds lowVal highVal s)) firstLeaf leaf es)
    as (pins & evs & Hd); try done.
  { destruct es as [|e ?]; [done|lia]. }
  simpl in Hd. erewrite bindM_run by exact Hd. cbv beta iota.
  destruct (decide (firstLeaf = firstLeaf)) as [_|]; [|done].
  erewrite bindM_run by (apply readPage_run; simpl; rewrite Hf; eauto).
  erewrite bindM_run by reflexivity.
  erewrite bindM_run by (apply leafView_run; simpl; by rewrite Hf).
  destruct es as [|e es].
  - inversion H0 as [[Hk Hr]]. destruct Hes as (Hsib & Hgt & Hhi & Hlt).
    erewrite bindM_run by (by apply defined_run).
    destruct (decide (page_number zeroRid = Page.INVALID_NUMBER)) as [_|]; [|done].
    assert (Hnz : rightSibPageNo leaf <> Page.INVALID_NUMBER).
    { intros Hz. rewrite Hz in Hsib. destruct Hsib as [? Hsib].
      by rewrite pageAt_zero in Hsib. }
    destruct (decide (Page.INVALID_NUMBER = rightSibPageNo leaf)) as [|_]; [done|].
    unfold moveToSibling.
    erewrite bindM_run.
    2:{ erewrite bindM_run by reflexivity.
        erewrite bindM_run by apply unPinPage_run.
        erewrite bindM_run by reflexivity.
        erewrite bindM_run by (apply readPage_run; simpl; by rewrite Hf).
        reflexivity. }
    erewrite bindM_run.
    2:{ erewrite bindM_run by reflexivity. simpl.
        destruct (decide (lowOp s = GT)) as [HGT|]; [|reflexivity].
        erewrite bindM_run by (apply leafView_run; simpl; by rewrite Hf).
        erewrite bindM_run by (by apply defined_run).
        destruct (decide (0 = lowVal)) as [<-|]; [by specialize (Hgt HGT)|].
        reflexivity. }
    erewrite bindM_run by reflexivity.
    erewrite bindM_run by (apply leafView_run; simpl; by rewrite Hf).
    erewrite bindM_run by (by apply defined_run).
    simpl. destruct (Z.gtb_spec 0 highVal); [lia|].
    destruct (bool_decide (highOp s = LT)) eqn:Hop; simpl.
    + apply bool_decide_eq_true in Hop. specialize (Hlt Hop).
      rewrite bool_decide_eq_false_2 by done. eexists. split; [reflexivity|]. done.
    + eexists. split; [reflexivity|]. done.
  - inversion H0 as [[Hk Hr]]. destruct Hholds as (_ & _ & _ & Hvalid & _).
    apply Forall_cons in Hvalid as [He _]. unfold validRid in He.
    erewrite bindM_run by (by apply defined_run).
    destruct (decide (page_number (snd e) = Page.INVALID_NUMBER)); [done|].
    erewrite bindM_run by reflexivity.
    erewrite bindM_run.
    2:{ erewrite bindM_run by reflexivity. simpl.
        destruct (decide (lowOp s = GT)) as [HGT|]; [|reflexivity].
        erewrite bindM_run by (apply leafView_run; simpl; by rewrite Hf).
        erewrite bindM_run by (by apply defined_run).
        destruct (decide (fst e = lowVal)); [lia|]. reflexivity. }
    erewrite bindM_run by reflexivity.
    erewrite bindM_run by (apply leafView_run; simpl; by rewrite Hf).
    erewrite bindM_run by (by apply defined_run).
    simpl. destruct (Z.gtb_spec (fst e) highVal); [lia|].
    rewrite (bool_decide_eq_false_2 (fst e = highVal)) by lia.
    rewrite andb_false_r. eexists. split; [reflexivity|]. done.
Qed.

(** [scanNextTemplate] on an entry that passes the upper bound returns its
    record id and moves the cursor to the next entry, which is the first one
    of the right sibling when the leaf has no more. *)
Lemma scanNextTemplate_entry L f highVal highOpParm s p l es j e :
  cursorAt s f highVal highOpParm (Some p) j ->
  pageAt f p = Some (LeafPage l) -> leafHolds L l es ->
  0 <= j -> es !! Z.to_nat j = Some e ->
  ~ upperFails highOpParm (fst e) highVal ->
  (rightSibPageNo l = Page.INVALID_NUMBER \/ is_Some (pageAt f (rightSibPageNo l))) ->
  exists s',
    scanNextTemplate L s = (Return (snd e), s')
    /\ scanExecuting s' = scanExecuting s
    /\ cursorAt s' f highVal highOpParm
         (if decide (Z.of_nat (length es) = j + 1)
          then (if decide (rightSibPageNo l = Page.INVALID_NUMBER) then None
                else Some (rightSibPageNo l))
          else Some p)
         (if decide (Z.of_nat (length es) = j + 1) then 0 else j + 1).
Proof.
  intros (Hf & Hhv & Hho & Hcp & Hne) Hp (Hkl & Hrl & Hlen & Hvalid & Hslots) Hj He Hlt Hsib.
  assert (HjL : j < Z.of_nat (length es)).
  { apply lookup_lt_Some in He. lia. }
  pose proof (Hslots j ltac:(lia)) as Hsj. rewrite He in Hsj. unfold slot in Hsj.
  inversion Hsj as [[Hk Hr]]. clear Hsj.
  unfold scanNextTemplate. erewrite bindM_run by reflexivity. rewrite Hcp.
  erewrite bindM_run by (apply asLeaf_run; by rewrite Hf).
  rewrite Hne. erewrite bindM_run by (by apply defined_run).
  rewrite Hhv, Hho. rewrite upperFails_dec in Hlt.
  destruct (bool_decide (highOpParm = LT) && (fst e >=? highVal)); [done|].
  destruct (bool_decide (highOpParm = LTE) && (fst e >? highVal)); [done|].
  erewrite bindM_run by (by apply defined_run).
  assert (Hlast : exists s1,
    (if decide (j + 1 = L) then ret true
     else bindM (defined (at_ (ridArray l) (j + 1)))
            (fun r => ret (bool_decide (page_number r = Page.INVALID_NUMBER)))) s
    = (Return (bool_decide (Z.of_nat (length es) = j + 1)), s1) /\ s1 = s).
  { exists s. split; [|done]. destruct (decide (j + 1 = L)) as [HjL'|HjL'].
    - rewrite bool_decide_eq_true_2 by lia. done.
    - pose proof (Hslots (j + 1) ltac:(lia)) as Hs1. unfold slot in Hs1.
      destruct (es !! Z.to_nat (j + 1)) as [e'|] eqn:He'.
      + inversion Hs1 as [[Hk' Hr']]. erewrite bindM_run by (by apply defined_run).
        apply lookup_lt_Some in He' as Hlt'.
        rewrite (bool_decide_eq_false_2 (Z.of_nat (length es) = j + 1)) by lia.
        eapply Forall_lookup_1 in Hvalid; [|exact He']. unfold validRid in Hvalid.
        unfold ret. by rewrite bool_decide_eq_false_2.
      + inversion Hs1 as [[Hk' Hr']]. erewrite bindM_run by (by apply defined_run).
        apply lookup_ge_None in He'.
        rewrite (bool_decide_eq_true_2 (Z.of_nat (length es) = j + 1)) by lia.
        done. }
  destruct Hlast as (s1 & Hlast & ->).
  erewrite bindM_run by exact Hlast.
  destruct (decide (Z.of_nat (length es) = j + 1)) as [Hend|Hmore].
  - rewrite bool_decide_eq_true_2 by done.
    destruct (decide (rightSibPageNo l = Page.INVALID_NUMBER)) as [Hz|Hnz].
    + erewrite bindM_run.
      2:{ erewrite bindM_run by reflexivity.
          erewrite bindM_run by apply unPinPage_run.
          erewrite bindM_run by reflexivity.
          destruct (decide (rightSibPageNo l = Page.INVALID_NUMBER)); [|done].
          reflexivity. }
      unfold ret. eexists. split; [reflexivity|]. done.
    + destruct Hsib as [?|Hsib]; [done|].
      erewrite bindM_run.
      2:{ erewrite bindM_run by reflexivity.
          erewrite bindM_run by apply unPinPage_run.
          erewrite bindM_run by reflexivity.
          destruct (decide (rightSibPageNo l = Page.INVALID_NUMBER)); [done|].
          erewrite bindM_run by (apply readPage_run; simpl; by rewrite Hf).
          reflexivity. }
      unfold ret. eexists. split; [reflexivity|]. done.
  - rewrite bool_decide_eq_false_2 by done.
    erewrite bindM_run by reflexivity.
    unfold ret. eexists. split; [reflexivity|]. split; [done|].
    repeat split; try done. simpl. by rewrite Hne.
Qed.

Lemma scanNext_entry L f highVal highOpParm s p l es j e :
  scanExecuting s = true ->
  cursorAt s f highVal highOpParm (Some p) j ->
  pageAt f p = Some (LeafPage l) -> leafHolds L l es ->
  0 <= j -> es !! Z.to_nat j = Some e ->
  fst e < highVal ->
  (rightSibPageNo l = Page.INVALID_NUMBER \/ is_Some (pageAt f (rightSibPageNo l))) ->
  exists s',
    scanNext L s = (Return (snd e), s')
    /\ scanExecuting s' = true
    /\ cursorAt s' f highVal highOpParm
         (if decide (Z.of_nat (length es) = j + 1)
          then (if decide (rightSibPageNo l = Page.INVALID_NUMBER) then None
                else Some (rightSibPageNo l))
          else Some p)
         (if decide (Z.of_nat (length es) = j + 1) then 0 else j + 1).
Proof.
  intros Hact Hcur Hp Hholds Hj He Hlt Hsib.
  destruct (scanNextTemplate_entry L f highVal highOpParm s p l es j e)
    as (s' & Hrun & Hact' & Hcur'); try done.
  { intros [[_ ?]|[_ ?]]; lia. }
  exists s'. unfold scanNext. erewrite bindM_run by reflexivity. rewrite Hact.
  split; [done|]. split; [congruence|done].
Qed.

Lemma scanNext_done L s :
  scanExecuting s = true -> currentPageData s = None ->
  scanNext L s = (Throw IndexScanCompletedException, s).
Proof.
  intros Hact Hcp. unfold scanNext. erewrite bindM_run by reflexivity. rewrite Hact.
  by apply scanNextTemplate_null.
Qed.

Lemma drain_cons L fuel s r s1 out s2 :
  scanNext L s = (Return r, s1) ->
  drain L fuel s1 = (Return out, s2) ->
  drain L (S fuel) s = (Return (r :: out), s2).
Proof.
  intros H1 H2. simpl. rewrite H1. erewrite bindM_run by exact H2. done.
Qed.

(** The scan of the entries of one leaf from slot [j] on. *)
Lemma drain_leaf L f highVal highOpParm p l es n : forall j s,
  scanExecuting s = true ->
  cursorAt s f highVal highOpParm (Some p) j ->
  pageAt f p = Some (LeafPage l) -> leafHolds L l es ->
  0 <= j -> (Z.to_nat j + S n = length es)%nat ->
  Forall (fun e => fst e < highVal) es ->
  (rightSibPageNo l = Page.INVALID_NUMBER \/ is_Some (pageAt f (rightSibPageNo l))) ->
  exists s1,
    scanExecuting s1 = true
    /\ cursorAt s1 f highVal highOpParm
         (if decide (rightSibPageNo l = Page.INVALID_NUMBER) then None
          else Some (rightSibPageNo l)) 0
    /\ forall fuel out s2,
         drain L fuel s1 = (Return out, s2) ->
         drain L (S n + fuel) s = (Return (map snd (drop (Z.to_nat j) es) ++ out), s2).
Proof.
  induction n as [|n IH]; intros j s Hact Hcur Hp Hholds Hj Hn Hhigh Hsib.
  - destruct (lookup_lt_is_Some_2 es (Z.to_nat j)) as [e He]; [lia|].
    edestruct (scanNext_entry L f highVal highOpParm s p l es j e)
      as (s1 & Hrun & Hact1 & Hcur1); try done.
    { eapply Forall_lookup_1 in Hhigh; [|exact He]. done. }
    destruct (decide (Z.of_nat (length es) = j + 1)); [|lia].
    exists s1. split; [done|]. split; [done|]. intros fuel out s2 Hd.
    rewrite (drop_S _ _ _ He). rewrite drop_ge by lia. cbn [map app Nat.add].
    by eapply drain_cons.
  - destruct (lookup_lt_is_Some_2 es (Z.to_nat j)) as [e He]; [lia|].
    edestruct (scanNext_entry L f highVal highOpParm s p l es j e)
      as (s1 & Hrun & Hact1 & Hcur1); try done.
    { eapply Forall_lookup_1 in Hhigh; [|exact He]. done. }
    destruct (decide (Z.of_nat (length es) = j + 1)); [lia|].
    destruct (IH (j + 1) s1) as (s2 & Hact2 & Hcur2 & Hrest); try done; try lia.
    exists s2. split; [done|]. split; [done|]. intros fuel out s3 Hd.
    rewrite (drop_S _ _ _ He). cbn [map app Nat.add]. eapply drain_cons; [done|].
    replace (S (Z.to_nat j)) with (Z.to_nat (j + 1)) by lia. by apply Hrest.
Qed.

Lemma drain_end L fuel s :
  scanExecuting s = true -> currentPageData s = None ->
  drain L (S fuel) s = (Return [], s).
Proof. intros Hact Hcp. simpl. by rewrite scanNext_done. Qed.

(** The scan of a chain of non-empty leaves from the first slot of its
    first leaf. *)
Lemma drain_chain L g f highVal highOpParm c : forall p s,
  scanExecuting s = true ->
  cursorAt s f highVal highOpParm (Some p) 0 ->
  linked g f (p :: c) ->
  (forall a l, a ∈ p :: c -> pageAt f a = Some (LeafPage l) ->
     leafHolds L l (entriesOf g a) /\ entriesOf g a <> []
     /\ Forall (fun e => fst e < highVal) (entriesOf g a)) ->
  exists s', forall fuel,
    (length (concat (map (entriesOf g) (p :: c))) < fuel)%nat ->
    drain L fuel s = (Return (map snd (concat (map (entriesOf g) (p :: c)))), s').
Proof.
  induction c as [|b c IH]; intros p s Hact Hcur [(l & Hl & Hlink) Hrest] Hleaves.
  - destruct (Hleaves p l) as (Hholds & Hne & Hhigh); [apply list_elem_of_here|done|].
    destruct (entriesOf g p) as [|e es] eqn:Hes; [done|].
    destruct (drain_leaf L f highVal highOpParm p l (e :: es) (length es) 0 s)
      as (s1 & Hact1 & Hcur1 & Hd); try done; try by left.
    destruct (decide _) in Hcur1; [|done].
    exists s1. intros fuel Hfuel.
    change (concat (map (entriesOf g) [p])) with (entriesOf g p ++ []) in *.
    rewrite app_nil_r in *. rewrite Hes in *.
    change (length (e :: es)) with (S (length es)) in Hfuel.
    replace fuel with (S (length es) + S (fuel - S (S (length es))))%nat by lia.
    rewrite <- (app_nil_r (map snd (e :: es))). apply Hd.
    apply drain_end; [done|]. by destruct Hcur1 as (_ & _ & _ & ? & _).
  - destruct Hlink as (Hsib & _).
    pose proof Hrest as [(lb & Hlb & _) _].
    destruct (Hleaves p l) as (Hholds & Hne & Hhigh); [apply list_elem_of_here|done|].
    destruct (entriesOf g p) as [|e es] eqn:Hes; [done|].
    destruct (drain_leaf L f highVal highOpParm p l (e :: es) (length es) 0 s)
      as (s1 & Hact1 & Hcur1 & Hd); try done.
    { right. rewrite Hsib. eauto. }
    assert (Hnz : rightSibPageNo l <> Page.INVALID_NUMBER).
    { rewrite Hsib. intros Hz. rewrite Hz in Hlb. by rewrite pageAt_zero in Hlb. }
    destruct (decide _) in Hcur1; [done|]. rewrite Hsib in Hcur1.
    destruct (IH b s1 Hact1 Hcur1 Hrest) as (s' & Hall).
    { intros a la Ha. apply Hleaves. by apply list_elem_of_further. }
    exists s'. intros fuel Hfuel.
    change (concat (map (entriesOf g) (p :: b :: c)))
      with (entriesOf g p ++ concat (map (entriesOf g) (b :: c))) in *.
    rewrite Hes in *. rewrite length_app in Hfuel. rewrite map_app.
    change (length (e :: es)) with (S (length es)) in Hfuel.
    replace fuel with (S (length es) + (fuel - S (length es)))%nat by lia.
    apply Hd. apply Hall. lia.
Qed.

Lemma endScan_run s :
  scanExecuting s = true ->
  exists s', endScan s = (Return tt, s')
    /\ file s' = file s /\ rootPageNum s' = rootPageNum s.
Proof.
  intros Hact. unfold endScan. erewrite bindM_run by reflexivity. rewrite Hact.
  destruct (currentPageData s).
  - erewrite bindM_run by apply unPinPage_run. by eexists.
  - erewrite bindM_run by reflexivity. by eexists.
Qed.

(** [startScan] with a lower bound below every key. *)
Lemma startScan_first L N f lowVal lowOpParm highVal highOpParm s firstLeaf leaf es :
  1 <= L ->
  file s = f ->
  structureOk L N firstLeaf f (rootPageNum s) ->
  (forall p nd, pageAt f p = Some (NonLeafPage nd) -> childIndex N lowVal nd = Some 0) ->
  pageAt f firstLeaf = Some (LeafPage leaf) ->
  leafHolds L leaf es ->
  (lowOpParm = GT \/ lowOpParm = GTE) -> (highOpParm = LT \/ highOpParm = LTE) ->
  lowVal <= highVal ->
  match es with
  | e :: _ => lowVal < fst e < highVal
  | [] => is_Some (pageAt f (rightSibPageNo leaf))
          /\ zeroInRange lowVal lowOpParm highVal highOpParm
  end ->
  exists s',
    startScan L N lowVal lowOpParm highVal highOpParm s = (Return tt, s')
    /\ scanExecuting s' = true
    /\ cursorAt s' f highVal highOpParm
         (Some (match es with _ :: _ => firstLeaf | [] => rightSibPageNo leaf end)) 0.
Proof.
  intros HL Hf Hst Hci Hleaf Hholds Hlo Hho Hrange Hes.
  unfold startScan. erewrite bindM_run by reflexivity.
  assert (Hend : exists s0, (if scanExecuting s then endScan else ret tt) s = (Return tt, s0)
                   /\ file s0 = f /\ rootPageNum s0 = rootPageNum s).
  { destruct (scanExecuting s) eqn:Hact.
    - destruct (endScan_run s Hact) as (s0 & ? & ? & ?). exists s0.
      split; [done|]. split; congruence.
    - by exists s. }
  destruct Hend as (s0 & Hend & Hf0 & Hr0).
  erewrite bindM_run by exact Hend.
  replace (negb (bool_decide (lowOpParm = GT) || bool_decide (lowOpParm = GTE))
           || negb (bool_decide (highOpParm = LT) || bool_decide (highOpParm = LTE)))
    with false.
  2:{ destruct Hlo as [-> | ->], Hho as [-> | ->]; done. }
  destruct (Z.gtb_spec lowVal highVal); [lia|].
  erewrite bindM_run by reflexivity.
  destruct (startScanTemplate_first L N f lowVal highVal
              (withOps lowOpParm highOpParm s0) firstLeaf leaf es)
    as (s1 & Hrun & Hact1 & Hcur1); try done.
  { simpl. by rewrite Hr0. }
  erewrite bindM_run by exact Hrun.
  eexists. split; [reflexivity|]. split; [done|]. done.
Qed.

(** ** The round trip: what a full scan of a well-formed index returns *)

Lemma sortedByKey_app es1 es2 :
  sortedByKey es1 -> sortedByKey es2 ->
  (forall x y, x ∈ es1 -> y ∈ es2 -> fst x <= fst y) ->
  sortedByKey (es1 ++ es2).
Proof.
  unfold sortedByKey. intros H1 H2 Hcross. induction H1 as [|x es1 Hs IH Hx]; [done|].
  simpl. constructor.
  - apply IH. intros a b Ha Hb. apply Hcross; [by apply list_elem_of_further|done].
  - apply Forall_app. split; [done|]. apply Forall_forall. intros y Hy.
    apply Hcross; [apply list_elem_of_here|done].
Qed.

Lemma sortedByKey_app_inv es1 es2 :
  sortedByKey (es1 ++ es2) ->
  sortedByKey es1 /\ sortedByKey es2
  /\ (forall x y, x ∈ es1 -> y ∈ es2 -> fst x <= fst y).
Proof.
  unfold sortedByKey. induction es1 as [|x es1 IH]; simpl; intros H.
  - split; [constructor|]. split; [done|]. intros x y Hx. by apply elem_of_nil in Hx.
  - inversion H as [|? ? Hs Hx]; subst. destruct (IH Hs) as (H1 & H2 & Hc).
    apply Forall_app in Hx as [Hx1 Hx2].
    split; [by constructor|]. split; [done|].
    intros a b Ha Hb. apply elem_of_cons in Ha as [->|Ha]; [|by apply Hc].
    rewrite Forall_forall in Hx2. by apply Hx2.
Qed.

(** The entries of a chain of leaves are in key order, when every leaf
    but the first holds an entry. *)
Lemma chain_sorted g f c : forall a,
  linked g f (a :: c) ->
  (forall b, b ∈ a :: c ->
     sortedByKey (entriesOf g b)
     /\ Forall (fun e => aboveLow (lowOf g b) (fst e) /\ belowHigh (highOf g b) (fst e))
               (entriesOf g b)) ->
  (forall b, b ∈ c -> entriesOf g b <> []) ->
  sortedByKey (concat (map (entriesOf g) (a :: c)))
  /\ (entriesOf g a <> [] ->
      Forall (fun e => aboveLow (lowOf g a) (fst e)) (concat (map (entriesOf g) (a :: c)))).
Proof.
  induction c as [|b c IH]; intros a [(l & Hl & Hlink) Hrest] Hleaves Hne.
  - destruct (Hleaves a) as [Hs Hb]; [apply list_elem_of_here|].
    simpl. rewrite app_nil_r. split; [done|]. intros _.
    eapply Forall_impl; [exact Hb|]. by intros e [? _].
  - destruct Hlink as (_ & x & Hhi & Hlo).
    destruct (Hleaves a) as [Hs Hb]; [apply list_elem_of_here|].
    destruct (IH b Hrest) as [Hsr Hbr].
    { intros d Hd. apply Hleaves. by apply list_elem_of_further. }
    { intros d Hd. apply Hne. by apply list_elem_of_further. }
    specialize (Hbr (Hne b ltac:(apply list_elem_of_here))).
    rewrite Hlo in Hbr. rewrite Hhi in Hb.
    rewrite Forall_forall in Hb. rewrite Forall_forall in Hbr.
    change (concat (map (entriesOf g) (a :: b :: c)))
      with (entriesOf g a ++ concat (map (entriesOf g) (b :: c))).
    split.
    + apply sortedByKey_app; [done|done|]. intros e1 e2 H1 H2.
      destruct (Hb _ H1) as [_ Hle]. specialize (Hbr _ H2). simpl in *. lia.
    + intros Hna. apply Forall_app. split.
      * apply Forall_forall. intros e He. by destruct (Hb _ He).
      * apply Forall_forall. intros e He. specialize (Hbr _ He). simpl in Hbr.
        destruct (entriesOf g a) as [|e0 es] eqn:Hes; [done|].
        destruct (Hb e0) as [Hlow Hhigh]; [apply list_elem_of_here|].
        destruct (lowOf g a); simpl in *; [lia|done].
Qed.

Lemma chain_entry g c a e :
  a ∈ c -> e ∈ entriesOf g a -> e ∈ concat (map (entriesOf g) c).
Proof.
  intros Ha He. induction c as [|b c IH]; [by apply elem_of_nil in Ha|].
  simpl. apply elem_of_app. apply elem_of_cons in Ha as [->|Ha]; auto.
Qed.

(** A key below every key of the index is below the first key of every
    non-leaf. *)
Lemma childIndex_below L N firstLeaf entries f root lowVal p nd :
  1 <= N ->
  structureOk L N firstLeaf f root -> sepOk entries f ->
  Forall (fun e => lowVal < fst e) entries ->
  pageAt f p = Some (NonLeafPage nd) ->
  childIndex N lowVal nd = Some 0.
Proof.
  intros HN (Hnl & _) Hsep Hlow Hp.
  destruct (Hnl _ _ Hp) as (Hkl & _ & (c1 & Hc1 & Hnz) & _).
  destruct (at_in_range (nlKeyArray nd) 0) as [x Hx]; [lia|].
  assert (Hin : x ∈ map fst entries).
  { eapply Hsep; [done| |done]. unfold nextValid.
    change (0 + 1) with 1. rewrite Hc1. by apply bool_decide_eq_true_2. }
  apply list_elem_of_fmap in Hin as (e & -> & He).
  rewrite Forall_forall in Hlow. specialize (Hlow _ He).
  unfold childIndex. rewrite Hx. simpl. destruct (Z.ltb_spec lowVal (fst e)); [done|lia].
Qed.

Lemma leaf_not_first_holds L N firstLeaf f root g a l :
  1 <= L ->
  structureOk L N firstLeaf f root -> leavesOk L g f ->
  pageAt f a = Some (LeafPage l) -> a <> firstLeaf ->
  entriesOf g a <> [].
Proof.
  intros HL (_ & Hlf & _) Hleaves Ha Hne Hes.
  destruct (Hlf _ _ Ha) as (_ & _ & Hocc).
  destruct Hocc as (r & Hr & Hnz); [by apply bool_decide_eq_false|].
  destruct (Hleaves _ _ Ha) as (Hholds & _).
  pose proof (leafHolds_slot0 _ _ _ HL Hholds) as H0. rewrite Hes in H0.
  unfold slot in H0. inversion H0 as [[Hk Hr']]. rewrite Hr in Hr'.
  inversion Hr'; subst r. done.
Qed.

Lemma linked_leaf g f c a :
  linked g f c -> a ∈ c -> exists l, pageAt f a = Some (LeafPage l).
Proof.
  induction c as [|b c IH]; intros Hl Ha; [by apply elem_of_nil in Ha|].
  destruct Hl as [(l & Hl & _) Hrest].
  apply elem_of_cons in Ha as [->|Ha]; eauto.
Qed.

(** The full scan of a well-formed index returns the record ids of the
    entries of its leaves, in the order of the chain. *)
Lemma scanAll_indexOk L N entries g s lowVal lowOpParm highVal highOpParm fuel firstLeaf :
  1 <= L -> 1 <= N -> entries <> [] ->
  indexOk L N firstLeaf entries g (file s) (rootPageNum s) ->
  (lowOpParm = GT \/ lowOpParm = GTE) -> (highOpParm = LT \/ highOpParm = LTE) ->
  Forall (fun e => lowVal < fst e < highVal) entries ->
  (entriesOf g firstLeaf <> [] \/ zeroInRange lowVal lowOpParm highVal highOpParm) ->
  (length entries < fuel)%nat ->
  exists s',
    scanAll L N fuel lowVal lowOpParm highVal highOpParm s
    = (Return (map snd (concat (map (entriesOf g) (leafChain g)))), s').
Proof.
  intros HL HN Hne (Hst & Hedges & Hroot & Hleaves & Hnodup & [rest Hchain] & Hlinked
                    & Hsep & Hperm) Hlo Hho Hrange Hguard Hfuel.
  rewrite Hchain in *.
  assert (Hin : forall a e, a ∈ firstLeaf :: rest -> e ∈ entriesOf g a ->
                  lowVal < fst e < highVal).
  { intros a e Ha He. rewrite Forall_forall in Hrange. apply Hrange.
    rewrite <- Hperm. by eapply chain_entry. }
  destruct (linked_leaf _ _ _ firstLeaf Hlinked) as [leaf Hleaf];
    [apply list_elem_of_here|].
  destruct (Hleaves _ _ Hleaf) as (Hholds & _).
  assert (Hrestne : forall a, a ∈ rest -> entriesOf g a <> []).
  { intros a Ha. destruct (linked_leaf _ _ _ a Hlinked) as [l Hl];
      [by apply list_elem_of_further|].
    eapply (leaf_not_first_holds L N firstLeaf (file s) (rootPageNum s) g a l); try done.
    intros ->. apply NoDup_cons in Hnodup as [Hnot _]. done. }
  assert (Hall : forall a l, a ∈ firstLeaf :: rest -> pageAt (file s) a = Some (LeafPage l) ->
            leafHolds L l (entriesOf g a)
            /\ Forall (fun e => fst e < highVal) (entriesOf g a)).
  { intros a l Ha Hl. destruct (Hleaves _ _ Hl) as (? & _). split; [done|].
    apply Forall_forall. intros e He. by destruct (Hin a e Ha He). }
  assert (Hbounds : lowVal <= highVal).
  { destruct entries as [|e ?]; [done|]. apply Forall_cons in Hrange as [? _]. lia. }
  unfold scanAll.
  destruct (startScan_first L N (file s) lowVal lowOpParm highVal highOpParm s
              firstLeaf leaf (entriesOf g firstLeaf))
    as (s1 & Hrun & Hact & Hcur); try done.
  { intros p nd Hp. eapply childIndex_below; try done.
    eapply Forall_impl; [exact Hrange|]. simpl. intros; lia. }
  { destruct (entriesOf g firstLeaf) as [|e es] eqn:Hes.
    - destruct Hguard as [?|Hguard]; [done|]. split; [|done].
      destruct rest as [|b rest'].
      + simpl in Hperm. rewrite Hes in Hperm. simpl in Hperm.
        apply Permutation_nil_l in Hperm. done.
      + destruct Hlinked as [(l & Hl & Hsib & _) [(lb & Hlb & _) _]].
        assert (l = leaf) as -> by congruence. rewrite Hsib. eauto.
    - apply (Hin firstLeaf); [apply list_elem_of_here|]. rewrite Hes.
      apply list_elem_of_here. }
  erewrite bindM_run by exact Hrun.
  destruct (entriesOf g firstLeaf) as [|e es] eqn:Hes.
  - destruct rest as [|b rest'].
    { simpl in Hperm. rewrite Hes in Hperm. simpl in Hperm.
      apply Permutation_nil_l in Hperm. done. }
    pose proof Hlinked as [(l & Hl & Hsib & _) Hlinked'].
    assert (l = leaf) as -> by congruence. rewrite Hsib in Hcur.
    destruct (drain_chain L g (file s) highVal highOpParm rest' b s1 Hact Hcur Hlinked')
      as (s' & Hd).
    { intros a l Ha Hl'. destruct (Hall a l) as [? ?]; [by apply list_elem_of_further|done|].
      split; [done|]. split; [|done]. by apply Hrestne. }
    exists s'.
    change (concat (map (entriesOf g) (firstLeaf :: b :: rest')))
      with (entriesOf g firstLeaf ++ concat (map (entriesOf g) (b :: rest'))) in *.
    rewrite Hes in *. apply Hd.
    apply Permutation_length in Hperm. rewrite length_app in Hperm.
    change (length (@nil (Z * RecordId))) with 0%nat in Hperm. lia.
  - destruct (drain_chain L g (file s) highVal highOpParm rest firstLeaf s1 Hact Hcur Hlinked)
      as (s' & Hd).
    { intros a l Ha Hl'. destruct (Hall a l) as [? ?]; [done|done|].
      split; [done|]. split; [|done].
      apply elem_of_cons in Ha as [->|Ha]; [by rewrite Hes|by apply Hrestne]. }
    exists s'. apply Hd. apply Permutation_length in Hperm. lia.
Qed.

(** The entries of the chain of leaves are in key order. *)
Lemma indexOk_sorted L N firstLeaf entries g f root :
  1 <= L ->
  indexOk L N firstLeaf entries g f root ->
  sortedByKey (concat (map (entriesOf g) (leafChain g))).
Proof.
  intros HL (Hst & Hedges & Hroot & Hleaves & Hnodup & [rest Hchain] & Hlinked & _).
  rewrite Hchain in *.
  eapply chain_sorted; [done| |].
  - intros b Hb. destruct (linked_leaf _ _ _ b Hlinked Hb) as [l Hl].
    destruct (Hleaves _ _ Hl) as (_ & ? & ? & _). done.
  - intros a Ha. destruct (linked_leaf _ _ _ a Hlinked) as [l Hl];
      [by apply list_elem_of_further|].
    eapply (leaf_not_first_holds L N firstLeaf f root g a l); try done.
    intros ->. apply NoDup_cons in Hnodup as [Hnot _]. done.
Qed.

(** ** The round trip: the bounds along the edges, when a child is inserted *)

Lemma nextValid_true n i : nextValid n i = true <-> validAt n (i + 1).
Proof.
  unfold nextValid, validAt. destruct (at_ (pageNoArray n) (i + 1)) as [c|].
  - rewrite bool_decide_eq_true. split; [eauto|]. intros (c' & Hc & ?). congruence.
  - split; [done|]. intros (c' & Hc & _). done.
Qed.

Lemma nextValid_false n i : nextValid n i = false <-> ~ validAt n (i + 1).
Proof. rewrite <- nextValid_true. by destruct (nextValid n i). Qed.

Lemma nonLeafOk_prefixValid N f n : nonLeafOk N f n -> prefixValid n.
Proof.
  intros (_ & _ & _ & Hch) i (c & Hc & Hnz) j Hj.
  destruct (Hch _ _ Hc Hnz) as [Hpre _]. by apply Hpre.
Qed.

(** Splits on the tests of a goal and closes the arithmetic. *)
Ltac crunch :=
  repeat first [case_decide | case_bool_decide];
  try lia; try done; try (f_equal; lia); try (f_equal; f_equal; lia).

Section ChildInserted.

Variables (N uo median : Z) (gnew below U : PageId) (base up : NonLeafNodeInt) (k : Z).

Hypothesis size : length (pageNoArray base) = Z.to_nat (N + 1).
Hypothesis first_invalid : firstInvalid N base uo = Some k.
Hypothesis bounds : 0 <= uo <= k /\ k <= N.
Hypothesis children_up : forall j, at_ (pageNoArray up) j =
  if decide (j = uo + 1) then Some gnew
  else if decide (uo + 1 < j <= k) then at_ (pageNoArray base) (j - 1)
  else at_ (pageNoArray base) j.
Hypothesis keys_up : forall j, at_ (nlKeyArray up) j =
  if decide (j = uo) then Some median
  else if decide (uo < j < k) then at_ (nlKeyArray base) (j - 1)
  else at_ (nlKeyArray base) j.
Hypothesis prefix : prefixValid base.
Hypothesis below_at : at_ (pageNoArray base) uo = Some below.
Hypothesis below_valid : below <> Page.INVALID_NUMBER.
Hypothesis gnew_valid : gnew <> Page.INVALID_NUMBER.

Lemma base_valid_iff j : validAt base j <-> 0 <= j < k.
Proof.
  pose proof (firstInvalid_Some _ _ _ _ first_invalid) as (_ & _ & Hvalid & Hzero).
  assert (Huo : uo < k).
  { destruct (decide (uo = k)) as [Heq|]; [|lia]. rewrite <- Heq in Hzero.
    rewrite Hzero in below_at by lia. congruence. }
  split.
  - intros Hj. pose proof Hj as (c & Hc & Hnz).
    pose proof (nonzero_entry_in_range _ _ _ Hc) as Hr. split; [lia|].
    destruct (decide (j < k)); [done|]. exfalso.
    destruct (prefix j Hj k) as (c' & Hc' & Hnz'); [lia|].
    rewrite Hzero in Hc' by lia. congruence.
  - intros Hj. destruct (decide (uo <= j)); [apply Hvalid; lia|].
    apply (prefix uo); [by exists below|lia].
Qed.

Lemma uo_below_k : uo < k.
Proof. assert (H : validAt base uo) by (by exists below). apply base_valid_iff in H. lia. Qed.

Lemma up_valid_iff j : validAt up j <-> 0 <= j <= k.
Proof.
  pose proof uo_below_k as Huo'.
  unfold validAt. rewrite children_up.
  destruct (decide (j = uo + 1)) as [->|].
  { split; [lia|]. intros _. by exists gnew. }
  destruct (decide (uo + 1 < j <= k)).
  { fold (validAt base (j - 1)). rewrite base_valid_iff. lia. }
  fold (validAt base j). rewrite base_valid_iff.
  pose proof (firstInvalid_Some _ _ _ _ first_invalid) as (_ & _ & _ & Hzero).
  assert (Huo : uo < k).
  { destruct (decide (uo = k)) as [Heq|]; [|lia]. rewrite <- Heq in Hzero.
    rewrite Hzero in below_at by lia. congruence. }
  lia.
Qed.

Lemma nextValid_base j : nextValid base j = bool_decide (0 <= j + 1 < k).
Proof.
  destruct (nextValid base j) eqn:E.
  - apply nextValid_true, base_valid_iff in E. by rewrite bool_decide_eq_true_2.
  - apply nextValid_false in E. rewrite base_valid_iff in E.
    by rewrite bool_decide_eq_false_2.
Qed.

Lemma nextValid_up j : nextValid up j = bool_decide (0 <= j + 1 <= k).
Proof.
  destruct (nextValid up j) eqn:E.
  - apply nextValid_true, up_valid_iff in E. by rewrite bool_decide_eq_true_2.
  - apply nextValid_false in E. rewrite up_valid_iff in E.
    by rewrite bool_decide_eq_false_2.
Qed.

Variables g0 g' : Ghost.

Hypothesis base_edges : forall i c,
  at_ (pageNoArray base) i = Some c -> c <> Page.INVALID_NUMBER -> edgeOk g0 U base i c.
Hypothesis new_ghost :
  parentOf g' gnew = Some (U, uo + 1) /\ lowOf g' gnew = Some median
  /\ highOf g' gnew = highOf g0 below.
Hypothesis below_ghost :
  parentOf g' below = Some (U, uo) /\ lowOf g' below = lowOf g0 below
  /\ highOf g' below = Some median.
Hypothesis other_ghost : forall j c,
  at_ (pageNoArray base) j = Some c -> c <> Page.INVALID_NUMBER -> j <> uo ->
  parentOf g' c = Some (U, if decide (uo < j) then j + 1 else j)
  /\ lowOf g' c = lowOf g0 c /\ highOf g' c = highOf g0 c.
Hypothesis node_ghost : lowOf g' U = lowOf g0 U /\ highOf g' U = highOf g0 U.

(** Every edge of the non-leaf with the child inserted is as the bounds
    ask. *)
Lemma childInserted_edges j c :
  at_ (pageNoArray up) j = Some c -> c <> Page.INVALID_NUMBER -> edgeOk g' U up j c.
Proof.
  intros Hc Hnz. pose proof uo_below_k as Huo.
  assert (Hjv : 0 <= j <= k) by (apply up_valid_iff; by exists c).
  destruct new_ghost as (Hpg & Hlg & Hhg). destruct below_ghost as (Hpb & Hlb & Hhb).
  destruct node_ghost as (HlU & HhU).
  unfold edgeOk. rewrite nextValid_up, !keys_up.
  rewrite children_up in Hc.
  destruct (decide (j = uo + 1)) as [->|Hne1].
  - (* the new child *)
    inversion Hc; subst c. rewrite Hpg, Hlg, Hhg.
    destruct (base_edges _ _ below_at below_valid) as (_ & _ & Hhb0).
    rewrite Hhb0, nextValid_base, HhU.
    replace (uo + 1 - 1) with uo by lia.
    split; [done|]. split; crunch.
  - destruct (decide (uo + 1 < j <= k)) as [Hhi|Hlo].
    + (* a child that has moved one slot to the right *)
      destruct (base_edges _ _ Hc Hnz) as (_ & Hl0 & Hh0).
      destruct (other_ghost _ _ Hc Hnz) as (Hp' & Hl' & Hh'); [lia|].
      rewrite Hp', Hl', Hh', Hl0, Hh0, nextValid_base, HhU.
      replace (j - 1 + 1) with j by lia.
      split; [crunch|]. split; crunch.
    + assert (Hj : j <= uo) by lia.
      destruct (decide (j = uo)) as [->|Hne].
      * (* the child that was split *)
        assert (c = below) as -> by congruence.
        destruct (base_edges _ _ below_at below_valid) as (_ & Hl0 & _).
        rewrite Hpb, Hlb, Hhb, Hl0, HlU.
        split; [done|]. split; crunch.
      * (* a child to the left *)
        destruct (base_edges _ _ Hc Hnz) as (_ & Hl0 & Hh0).
        destruct (other_ghost _ _ Hc Hnz Hne) as (Hp' & Hl' & Hh').
        rewrite Hp', Hl', Hh', Hl0, Hh0, nextValid_base, HlU, HhU.
        split; [crunch|]. split; crunch.
Qed.

(** The keys between the children of the non-leaf with the child
    inserted are the key that came up and keys that were there. *)
Lemma childInserted_sep j x :
  nextValid up j = true -> at_ (nlKeyArray up) j = Some x ->
  x = median \/ exists j', nextValid base j' = true /\ at_ (nlKeyArray base) j' = Some x.
Proof.
  rewrite nextValid_up, keys_up. intros Hv%bool_decide_eq_true Hx.
  pose proof uo_below_k as Huo.
  destruct (decide (j = uo)); [left; congruence|]. right.
  destruct (decide (uo < j < k)).
  - exists (j - 1). rewrite nextValid_base. split; [|done].
    apply bool_decide_eq_true_2. lia.
  - exists j. rewrite nextValid_base. split; [|done].
    apply bool_decide_eq_true_2. lia.
Qed.

Hypothesis keys_size : length (nlKeyArray base) = Z.to_nat N.
Hypothesis base_keys : nodeKeysOk g0 U base.
Hypothesis median_within :
  aboveLow (lowOf g0 below) median /\ belowHigh (highOf g0 below) median.

Lemma base_key j : 0 <= j < N -> exists x, at_ (nlKeyArray base) j = Some x.
Proof. intros Hj. apply at_in_range. rewrite keys_size. lia. Qed.

Lemma nextValid_base_true j : 0 <= j + 1 < k -> nextValid base j = true.
Proof. intros Hj. rewrite nextValid_base. by apply bool_decide_eq_true_2. Qed.

(** The keys to the left of the slot are not above the key that came up. *)
Lemma median_above j x : 0 <= j < uo -> at_ (nlKeyArray base) j = Some x -> x <= median.
Proof.
  intros Hj Hx. pose proof uo_below_k as Huo.
  destruct (base_edges _ _ below_at below_valid) as (_ & Hl0 & _).
  destruct median_within as [Hlo _]. rewrite Hl0 in Hlo.
  destruct (decide (uo = 0)); [lia|].
  destruct (base_key (uo - 1)) as [y Hy]; [lia|]. rewrite Hy in Hlo. simpl in Hlo.
  destruct base_keys as [_ Hsorted].
  pose proof (Hsorted j (uo - 1) x y ltac:(lia) (nextValid_base_true (uo - 1) ltac:(lia)) Hx Hy).
  lia.
Qed.

(** The keys from the slot on are not below it. *)
Lemma median_below j x :
  uo <= j -> j + 1 < k -> at_ (nlKeyArray base) j = Some x -> median <= x.
Proof.
  intros Hj Hjk Hx.
  pose proof (firstInvalid_Some _ _ _ _ first_invalid) as (Huk & _).
  destruct (base_edges _ _ below_at below_valid) as (_ & _ & Hh0).
  destruct median_within as [_ Hhi]. rewrite Hh0 in Hhi.
  rewrite (nextValid_base_true uo) in Hhi by lia.
  destruct (base_key uo) as [y Hy]; [lia|]. rewrite Hy in Hhi. simpl in Hhi.
  destruct base_keys as [_ Hsorted].
  pose proof (Hsorted uo j y x ltac:(lia) (nextValid_base_true j ltac:(lia)) Hy Hx).
  lia.
Qed.

Lemma aboveLow_le b x y : aboveLow b x -> x <= y -> aboveLow b y.
Proof. destruct b; simpl; lia. Qed.

Lemma belowHigh_le b x y : belowHigh b y -> x <= y -> belowHigh b x.
Proof. destruct b; simpl; lia. Qed.

(** The keys of the non-leaf with the child inserted are within its bounds
    and in order. *)
Lemma childInserted_keys : nodeKeysOk g' U up.
Proof.
  pose proof uo_below_k as Huo.
  destruct node_ghost as (HlU & HhU). destruct base_keys as [Hwithin Hsorted].
  destruct (base_edges _ _ below_at below_valid) as (_ & Hl0 & Hh0).
  assert (Hmed : aboveLow (lowOf g0 U) median /\ belowHigh (highOf g0 U) median).
  { destruct median_within as [Hlo Hhi]. rewrite Hl0 in Hlo. rewrite Hh0 in Hhi. split.
    - destruct (decide (uo = 0)); [done|].
      destruct (base_key (uo - 1)) as [y Hy]; [lia|]. rewrite Hy in Hlo. simpl in Hlo.
      destruct (Hwithin (uo - 1) y (nextValid_base_true (uo - 1) ltac:(lia)) Hy) as [H1 _].
      by eapply aboveLow_le.
    - destruct (nextValid base uo) eqn:E; [|done].
      rewrite nextValid_base in E. apply bool_decide_eq_true in E.
      destruct (base_key uo) as [y Hy]; [lia|]. rewrite Hy in Hhi. simpl in Hhi.
      destruct (Hwithin uo y (nextValid_base_true uo ltac:(lia)) Hy) as [_ H1].
      by eapply belowHigh_le. }
  split.
  - intros i x Hv Hx. rewrite HlU, HhU.
    rewrite nextValid_up in Hv. apply bool_decide_eq_true in Hv.
    assert (Hi : 0 <= i) by (apply (at_length (nlKeyArray up) i); eauto).
    rewrite keys_up in Hx. destruct (decide (i = uo)) as [->|].
    { inversion Hx; subst x. done. }
    destruct (decide (uo < i < k)).
    + apply (Hwithin (i - 1) x); [|done]. apply nextValid_base_true. lia.
    + apply (Hwithin i x); [|done]. apply nextValid_base_true. lia.
  - intros i j x y Hij Hv Hx Hy.
    rewrite nextValid_up in Hv. apply bool_decide_eq_true in Hv.
    rewrite keys_up in Hx, Hy.
    destruct (decide (i = uo)) as [->|Hi].
    + inversion Hx; subst x. destruct (decide (j = uo)) as [->|Hj].
      * inversion Hy. lia.
      * destruct (decide (uo < j < k)); [|lia].
        apply (median_below (j - 1) y); [lia|lia|done].
    + destruct (decide (uo < i < k)).
      * destruct (decide (j = uo)); [lia|]. destruct (decide (uo < j < k)); [|lia].
        apply (Hsorted (i - 1) (j - 1) x y); [lia| |done|done].
        apply nextValid_base_true. lia.
      * destruct (decide (j = uo)) as [->|Hj].
        { inversion Hy; subst y. apply (median_above i x); [lia|done]. }
        destruct (decide (uo < j < k)).
        -- apply (Hsorted i (j - 1) x y); [lia| |done|done].
           apply nextValid_base_true. lia.
        -- apply (Hsorted i j x y); [lia| |done|done].
           apply nextValid_base_true. lia.
Qed.

End ChildInserted.

(** ** The round trip: the bounds along the edges, when a non-leaf is split *)

Section NodeSplit.

Variables (N median : Z) (P gnew : PageId) (pd left right : NonLeafNodeInt).

Local Abbreviation m := (N / 2).

Hypothesis size_N : 3 <= N.
Hypothesis size : length (pageNoArray pd) = Z.to_nat (N + 1).
Hypothesis full : forall j, 0 <= j <= N -> validAt pd j.
Hypothesis median_key : at_ (nlKeyArray pd) m = Some median.
Hypothesis keys_left : forall x, at_ (nlKeyArray left) x =
  if decide (m <= x < N) then Some 0 else at_ (nlKeyArray pd) x.
Hypothesis children_left : forall x, at_ (pageNoArray left) x =
  if decide (m + 1 <= x <= N) then Some Page.INVALID_NUMBER else at_ (pageNoArray pd) x.
Hypothesis keys_right : forall x, at_ (nlKeyArray right) x =
  if decide (0 <= x < N - m - 1) then at_ (nlKeyArray pd) (m + 1 + x)
  else at_ (nlKeyArray (zeroNonLeaf N)) x.
Hypothesis children_right : forall x, at_ (pageNoArray right) x =
  if decide (0 <= x < N - m) then at_ (pageNoArray pd) (m + 1 + x)
  else at_ (pageNoArray (zeroNonLeaf N)) x.

Lemma pd_valid_iff j : validAt pd j <-> 0 <= j <= N.
Proof.
  split; [|apply full]. intros (c & Hc & _).
  pose proof (nonzero_entry_in_range _ _ _ Hc) as Hr. rewrite size in Hr. lia.
Qed.

Lemma left_valid_iff j : validAt left j <-> 0 <= j <= m.
Proof.
  pose proof (half_bounds N size_N) as Hm.
  unfold validAt. rewrite children_left. destruct (decide (m + 1 <= j <= N)).
  - split; [|lia]. intros (c & Hc & Hnz). congruence.
  - fold (validAt pd j). rewrite pd_valid_iff. lia.
Qed.

Lemma right_valid_iff x : validAt right x <-> 0 <= x < N - m.
Proof.
  pose proof (half_bounds N size_N) as Hm.
  unfold validAt. rewrite children_right. destruct (decide (0 <= x < N - m)).
  - fold (validAt pd (m + 1 + x)). rewrite pd_valid_iff. lia.
  - split; [|lia]. intros (c & Hc & Hnz).
    destruct (zeroNonLeaf_pageNo N x) as [Hz|Hz]; rewrite Hc in Hz; by inversion Hz.
Qed.

Lemma nextValid_pd j : nextValid pd j = bool_decide (0 <= j + 1 <= N).
Proof.
  destruct (nextValid pd j) eqn:E.
  - apply nextValid_true, pd_valid_iff in E. by rewrite bool_decide_eq_true_2.
  - apply nextValid_false in E. rewrite pd_valid_iff in E.
    by rewrite bool_decide_eq_false_2.
Qed.

Lemma nextValid_left j : nextValid left j = bool_decide (0 <= j + 1 <= m).
Proof.
  destruct (nextValid left j) eqn:E.
  - apply nextValid_true, left_valid_iff in E. by rewrite bool_decide_eq_true_2.
  - apply nextValid_false in E. rewrite left_valid_iff in E.
    by rewrite bool_decide_eq_false_2.
Qed.

Lemma nextValid_right j : nextValid right j = bool_decide (0 <= j + 1 < N - m).
Proof.
  destruct (nextValid right j) eqn:E.
  - apply nextValid_true, right_valid_iff in E. by rewrite bool_decide_eq_true_2.
  - apply nextValid_false in E. rewrite right_valid_iff in E.
    by rewrite bool_decide_eq_false_2.
Qed.

Variables g0 g' : Ghost.

Hypothesis pd_edges : forall i c,
  at_ (pageNoArray pd) i = Some c -> c <> Page.INVALID_NUMBER -> edgeOk g0 P pd i c.
Hypothesis kept_ghost : forall i c,
  at_ (pageNoArray pd) i = Some c -> c <> Page.INVALID_NUMBER -> i <= m ->
  parentOf g' c = Some (P, i) /\ lowOf g' c = lowOf g0 c /\ highOf g' c = highOf g0 c.
Hypothesis moved_ghost : forall i c,
  at_ (pageNoArray pd) i = Some c -> c <> Page.INVALID_NUMBER -> m < i ->
  parentOf g' c = Some (gnew, i - m - 1)
  /\ lowOf g' c = lowOf g0 c /\ highOf g' c = highOf g0 c.
Hypothesis node_ghost :
  lowOf g' P = lowOf g0 P /\ highOf g' P = Some median
  /\ lowOf g' gnew = Some median /\ highOf g' gnew = highOf g0 P.

Lemma left_edges i c :
  at_ (pageNoArray left) i = Some c -> c <> Page.INVALID_NUMBER -> edgeOk g' P left i c.
Proof.
  intros Hc Hnz. pose proof (half_bounds N size_N) as Hm.
  assert (Hi : 0 <= i <= m) by (apply left_valid_iff; by exists c).
  rewrite children_left in Hc. destruct (decide (m + 1 <= i <= N)); [lia|].
  destruct (pd_edges _ _ Hc Hnz) as (_ & Hl0 & Hh0).
  destruct (kept_ghost _ _ Hc Hnz) as (Hp' & Hl' & Hh'); [lia|].
  destruct node_ghost as (HlP & HhP & _).
  unfold edgeOk. rewrite Hp', Hl', Hh', Hl0, Hh0, nextValid_pd, nextValid_left, !keys_left,
    HlP, HhP.
  split; [done|]. split; crunch. replace i with m by lia. done.
Qed.

Lemma right_edges x c :
  at_ (pageNoArray right) x = Some c -> c <> Page.INVALID_NUMBER ->
  edgeOk g' gnew right x c.
Proof.
  intros Hc Hnz. pose proof (half_bounds N size_N) as Hm.
  assert (Hx : 0 <= x < N - m) by (apply right_valid_iff; by exists c).
  rewrite children_right in Hc. destruct (decide (0 <= x < N - m)); [|lia].
  destruct (pd_edges _ _ Hc Hnz) as (_ & Hl0 & Hh0).
  destruct (moved_ghost _ _ Hc Hnz) as (Hp' & Hl' & Hh'); [lia|].
  destruct node_ghost as (_ & _ & Hlg & Hhg).
  unfold edgeOk. rewrite Hp', Hl', Hh', Hl0, Hh0, nextValid_pd, nextValid_right,
    !keys_right, Hlg, Hhg.
  replace (m + 1 + x - 1) with (m + x) by lia.
  split; [f_equal; f_equal; lia|]. split; crunch.
  replace (m + x) with m by lia. done.
Qed.

Lemma left_sep j x :
  nextValid left j = true -> at_ (nlKeyArray left) j = Some x ->
  nextValid pd j = true /\ at_ (nlKeyArray pd) j = Some x.
Proof.
  pose proof (half_bounds N size_N) as Hm.
  rewrite nextValid_left, nextValid_pd, keys_left. intros Hv%bool_decide_eq_true Hx.
  destruct (decide (m <= j < N)); [lia|]. split; [|done].
  apply bool_decide_eq_true_2. lia.
Qed.

Lemma right_sep j x :
  nextValid right j = true -> at_ (nlKeyArray right) j = Some x ->
  nextValid pd (m + 1 + j) = true /\ at_ (nlKeyArray pd) (m + 1 + j) = Some x.
Proof.
  pose proof (half_bounds N size_N) as Hm.
  rewrite nextValid_right, nextValid_pd. intros Hv%bool_decide_eq_true Hx.
  assert (Hj : 0 <= j) by (apply (at_length (nlKeyArray right) j); eauto).
  rewrite keys_right in Hx.
  destruct (decide (0 <= j < N - m - 1)); [|lia]. split; [|done].
  apply bool_decide_eq_true_2. lia.
Qed.

Hypothesis keys_size : length (nlKeyArray pd) = Z.to_nat N.
Hypothesis pd_keys : nodeKeysOk g0 P pd.

Lemma nextValid_pd_true j : 0 <= j + 1 <= N -> nextValid pd j = true.
Proof. intros Hj. rewrite nextValid_pd. by apply bool_decide_eq_true_2. Qed.

(** The keys of the left half are within its bounds and in order. *)
Lemma left_keys : nodeKeysOk g' P left.
Proof.
  pose proof (half_bounds N size_N) as Hm.
  destruct node_ghost as (HlP & HhP & _). destruct pd_keys as [Hwithin Hsorted]. split.
  - intros i x Hv Hx. rewrite HlP, HhP.
    rewrite nextValid_left in Hv. apply bool_decide_eq_true in Hv.
    assert (Hi : 0 <= i) by (apply (at_length (nlKeyArray left) i); eauto).
    rewrite keys_left in Hx. destruct (decide (m <= i < N)); [lia|].
    split.
    + apply (Hwithin i x); [|done]. apply nextValid_pd_true. lia.
    + simpl. apply (Hsorted i m x median); [lia| |done|done].
      apply nextValid_pd_true. lia.
  - intros i j x y Hij Hv Hx Hy.
    rewrite nextValid_left in Hv. apply bool_decide_eq_true in Hv.
    rewrite keys_left in Hx, Hy.
    destruct (decide (m <= i < N)); [lia|]. destruct (decide (m <= j < N)); [lia|].
    apply (Hsorted i j x y); [lia| |done|done]. apply nextValid_pd_true. lia.
Qed.

(** The keys of the right half are within its bounds and in order. *)
Lemma right_keys : nodeKeysOk g' gnew right.
Proof.
  pose proof (half_bounds N size_N) as Hm.
  destruct node_ghost as (_ & _ & Hlg & Hhg). destruct pd_keys as [Hwithin Hsorted]. split.
  - intros i x Hv Hx. rewrite Hlg, Hhg.
    rewrite nextValid_right in Hv. apply bool_decide_eq_true in Hv.
    assert (Hi : 0 <= i) by (apply (at_length (nlKeyArray right) i); eauto).
    rewrite keys_right in Hx. destruct (decide (0 <= i < N - m - 1)); [|lia].
    split.
    + simpl. apply (Hsorted m (m + 1 + i) median x); [lia| |done|done].
      apply nextValid_pd_true. lia.
    + apply (Hwithin (m + 1 + i) x); [|done]. apply nextValid_pd_true. lia.
  - intros i j x y Hij Hv Hx Hy.
    rewrite nextValid_right in Hv. apply bool_decide_eq_true in Hv.
    rewrite keys_right in Hx, Hy.
    destruct (decide (0 <= i < N - m - 1)); [|lia].
    destruct (decide (0 <= j < N - m - 1)); [|lia].
    apply (Hsorted (m + 1 + i) (m + 1 + j) x y); [lia| |done|done].
    apply nextValid_pd_true. lia.
Qed.

End NodeSplit.

(** ** The round trip: the split of a non-leaf keeps the bounds *)

Ltac gcrunch :=
  repeat case_decide; try done; try lia; try tauto; try congruence;
  try (f_equal; f_equal; lia).

Lemma childInserted_edgesOk N uo median gnew below U base up g0 g' :
  childInserted N uo median gnew base up ->
  length (pageNoArray base) = Z.to_nat (N + 1) ->
  prefixValid base ->
  at_ (pageNoArray base) uo = Some below -> below <> Page.INVALID_NUMBER ->
  gnew <> Page.INVALID_NUMBER ->
  (forall i c, at_ (pageNoArray base) i = Some c -> c <> Page.INVALID_NUMBER ->
     edgeOk g0 U base i c) ->
  parentOf g' gnew = Some (U, uo + 1) /\ lowOf g' gnew = Some median
    /\ highOf g' gnew = highOf g0 below ->
  parentOf g' below = Some (U, uo) /\ lowOf g' below = lowOf g0 below
    /\ highOf g' below = Some median ->
  (forall j c, at_ (pageNoArray base) j = Some c -> c <> Page.INVALID_NUMBER -> j <> uo ->
     parentOf g' c = Some (U, if decide (uo < j) then j + 1 else j)
     /\ lowOf g' c = lowOf g0 c /\ highOf g' c = highOf g0 c) ->
  lowOf g' U = lowOf g0 U /\ highOf g' U = highOf g0 U ->
  forall j c, at_ (pageNoArray up) j = Some c -> c <> Page.INVALID_NUMBER ->
    edgeOk g' U up j c.
Proof.
  intros (k & Hk & Hb1 & Hb2 & _ & Hpn & Hkey) Hsize Hpre Hbelow Hbnz Hgnz He Hn Hbl Ho Hu.
  eapply (childInserted_edges N uo median gnew below U base up k); eauto.
Qed.

Lemma childInserted_sepOk N uo median gnew below base up j x :
  childInserted N uo median gnew base up ->
  length (pageNoArray base) = Z.to_nat (N + 1) ->
  prefixValid base ->
  at_ (pageNoArray base) uo = Some below -> below <> Page.INVALID_NUMBER ->
  gnew <> Page.INVALID_NUMBER ->
  nextValid up j = true -> at_ (nlKeyArray up) j = Some x ->
  x = median \/ exists j', nextValid base j' = true /\ at_ (nlKeyArray base) j' = Some x.
Proof.
  intros (k & Hk & Hb1 & Hb2 & _ & Hpn & Hkey) Hsize Hpre Hbelow Hbnz Hgnz.
  eapply (childInserted_sep N uo median gnew below base up k); eauto.
Qed.

Lemma childInserted_keysOk N uo median gnew below U base up g0 g' :
  childInserted N uo median gnew base up ->
  length (pageNoArray base) = Z.to_nat (N + 1) ->
  length (nlKeyArray base) = Z.to_nat N ->
  prefixValid base ->
  at_ (pageNoArray base) uo = Some below -> below <> Page.INVALID_NUMBER ->
  gnew <> Page.INVALID_NUMBER ->
  (forall i c, at_ (pageNoArray base) i = Some c -> c <> Page.INVALID_NUMBER ->
     edgeOk g0 U base i c) ->
  lowOf g' U = lowOf g0 U /\ highOf g' U = highOf g0 U ->
  nodeKeysOk g0 U base ->
  aboveLow (lowOf g0 below) median /\ belowHigh (highOf g0 below) median ->
  nodeKeysOk g' U up.
Proof.
  intros (k & Hk & Hb1 & Hb2 & _ & Hpn & Hkey) Hsize Hksize Hpre Hbelow Hbnz Hgnz He Hu
    Hkeys Hmed.
  eapply (childInserted_keys N uo median gnew below U base up k); eauto.
Qed.

Lemma nodeKeysOk_ext g g' p n :
  lowOf g' p = lowOf g p -> highOf g' p = highOf g p ->
  nodeKeysOk g p n -> nodeKeysOk g' p n.
Proof. unfold nodeKeysOk. intros -> ->. done. Qed.

Lemma structure_child_page L N firstLeaf f root p n i c :
  structureOk L N firstLeaf f root ->
  pageAt f p = Some (NonLeafPage n) ->
  at_ (pageNoArray n) i = Some c -> c <> Page.INVALID_NUMBER ->
  is_Some (pageAt f c).
Proof.
  intros (Hnl & _) Hp Hc Hnz. destruct (Hnl _ _ Hp) as (_ & _ & _ & Hch).
  destruct (Hch _ _ Hc Hnz) as [_ [[_ [l Hl]]|[_ (n' & Hn' & _)]]]; eauto.
Qed.

Lemma edges_unique g f p n i c p' n' i' :
  edgesOk g f ->
  pageAt f p = Some (NonLeafPage n) -> at_ (pageNoArray n) i = Some c ->
  pageAt f p' = Some (NonLeafPage n') -> at_ (pageNoArray n') i' = Some c ->
  c <> Page.INVALID_NUMBER -> p = p' /\ i = i'.
Proof.
  intros He Hp Hc Hp' Hc' Hnz.
  destruct (He _ _ _ _ Hp Hc Hnz) as (H1 & _).
  destruct (He _ _ _ _ Hp' Hc' Hnz) as (H2 & _).
  rewrite H1 in H2. by inversion H2.
Qed.

(** Splitting the full non-leaf [P] keeps the bounds along the edges, the
    keys between children among the keys of the entries, and everything
    about the leaves. *)
Lemma splitStep_index L N firstLeaf entries f root root1 P pd offset left right median
    base up uo U gnew blanks g :
  3 <= N ->
  structureOk L N firstLeaf f root ->
  edgesOk g f -> rootOk g root -> sepOk entries f -> keysOk g f ->
  pageAt f P = Some (NonLeafPage pd) ->
  0 <= offset <= N ->
  firstInvalid N pd offset = Some (N + 1) ->
  splitNonLeaf N pd = Some (left, right) ->
  at_ (nlKeyArray pd) (N / 2) = Some median ->
  (pageAt f U = Some (NonLeafPage base) /\ blanks = [BlankPage] /\ root1 = root
   /\ at_ (pageNoArray base) uo = Some P /\ level base = level pd + 1
   \/ U = S (length f) /\ blanks = [BlankPage; BlankPage] /\ root1 = U /\ P = root
      /\ setPageNo 0 P (setLevel (level pd + 1) (zeroNonLeaf N)) = Some base /\ uo = 0) ->
  gnew = length (f ++ blanks) ->
  childInserted N uo median gnew base up ->
  let f1 := setPage (setPage (setPage (f ++ blanks) P (NonLeafPage left))
                       U (NonLeafPage up)) gnew (NonLeafPage right) in
  let g0 := if decide (U = S (length f)) then newRootGhost g P U else g in
  let g' := splitGhost g0 P U gnew uo median (N / 2) in
  edgesOk g' f1 /\ rootOk g' root1 /\ sepOk entries f1 /\ sameLeaves f f1 g g'
  /\ keysOk g' f1.
Proof.
  intros HN Hst Hedges Hroot Hsep Hkeys HP Ho Hfull Hsplit Hmed HU Hg Hins f1 g0 g'.
  pose proof (splitStep_structure L N firstLeaf f root root1 P pd offset left right median
                base up uo U gnew blanks HN Hst HP Ho Hfull Hsplit HU Hg Hins) as Hstep.
  fold f1 in Hstep.
  destruct Hstep as (Hst1 & Hext & Hother & H1P & H1U & H1g & HPU & HPg & HUg & Hgnew
                     & HupP & Hlvup).
  pose proof Hst as (Hnl & Hlf & Hrootp & Hleft).
  pose proof (Hnl _ _ HP) as Hpdok. pose proof Hpdok as (Hpkl & Hppl & _ & Hpch).
  pose proof (half_bounds N HN) as Hm.
  pose proof (pageAt_lt _ _ (ex_intro _ _ HP)) as HPlt.
  assert (HPnz : P <> Page.INVALID_NUMBER) by (unfold Page.INVALID_NUMBER; lia).
  assert (Hgnz : gnew <> Page.INVALID_NUMBER) by (unfold Page.INVALID_NUMBER; lia).
  assert (Hpfull : forall j, 0 <= j <= N -> validAt pd j).
  { intros j Hj. destruct (full_children N f pd offset ltac:(lia) Hpdok Ho Hfull j Hj)
      as (c & Hc & Hnz & _). by exists c. }
  pose proof (splitNonLeaf_Some N pd left right ltac:(lia) Hsplit)
    as (_ & _ & Hkl & Hpl & Hkr & Hpr).
  assert (Hinf : forall q, is_Some (pageAt f q) -> q <> gnew).
  { intros q Hq ->. apply pageAt_lt in Hq. lia. }
  assert (Hcases : forall q d, pageAt f1 q = Some d ->
            (q = P /\ d = NonLeafPage left) \/ (q = U /\ d = NonLeafPage up)
            \/ (q = gnew /\ d = NonLeafPage right)
            \/ (q <> P /\ q <> U /\ q <> gnew /\ pageAt f q = Some d)).
  { intros q d Hq. destruct (decide (q = P)) as [->|H1]; [left; split; congruence|].
    destruct (decide (q = U)) as [->|H2]; [right; left; split; congruence|].
    destruct (decide (q = gnew)) as [->|H3]; [right; right; left; split; congruence|].
    right; right; right. rewrite Hother in Hq by done. done. }
  (* the edges before the split, with the new root in place when there is one *)
  assert (HUf : (pageAt f U = Some (NonLeafPage base) /\ U <> S (length f))
                \/ (U = S (length f) /\ P = root /\ uo = 0
                    /\ forall j, at_ (pageNoArray base) j =
                         if decide (j = 0) then Some P
                         else at_ (pageNoArray (zeroNonLeaf N)) j)).
  { destruct HU as [(HUb & _)|(-> & _ & _ & -> & Hb & ->)].
    - left. split; [done|]. pose proof (pageAt_lt _ _ (ex_intro _ _ HUb)). lia.
    - right. split; [done|]. split; [done|]. split; [done|].
      apply setPageNo_at in Hb as (_ & _ & Hb). exact Hb. }
  assert (Hbklen : length (nlKeyArray base) = Z.to_nat N).
  { destruct HU as [(HUb & _)|(_ & _ & _ & _ & Hb & _)].
    - by destruct (Hnl _ _ HUb) as (? & _).
    - apply setPageNo_at in Hb as (_ & Hb & _). rewrite Hb. simpl. apply length_replicate. }
  assert (Hbase : length (pageNoArray base) = Z.to_nat (N + 1) /\ prefixValid base
                  /\ at_ (pageNoArray base) uo = Some P
                  /\ (forall i c, at_ (pageNoArray base) i = Some c ->
                        c <> Page.INVALID_NUMBER -> is_Some (pageAt f c))).
  { destruct HU as [(HUb & _ & _ & HbP & _)|(-> & _ & _ & -> & Hb & ->)].
    - pose proof (Hnl _ _ HUb) as Hbok. split; [by destruct Hbok as (_ & ? & _)|].
      split; [by eapply nonLeafOk_prefixValid|]. split; [done|].
      intros i c Hc Hnz. by eapply structure_child_page.
    - pose proof (setPageNo_shape _ _ _ _ Hb) as (_ & _ & Hlen).
      apply setPageNo_at in Hb as (_ & _ & Hb).
      assert (Hone : forall i c, at_ (pageNoArray base) i = Some c ->
                c <> Page.INVALID_NUMBER -> i = 0 /\ c = root).
      { intros i c Hc Hnz. rewrite Hb in Hc. destruct (decide (i = 0)); [split; congruence|].
        change (pageNoArray (setLevel (level pd + 1) (zeroNonLeaf N)))
          with (pageNoArray (zeroNonLeaf N)) in Hc.
        destruct (zeroNonLeaf_pageNo N i) as [Hz|Hz]; rewrite Hc in Hz;
          inversion Hz; subst; done. }
      split. { rewrite Hlen. simpl. apply length_replicate. }
      split. { intros i (c & Hc & Hnz) j Hj. destruct (Hone _ _ Hc Hnz) as [-> ->].
               assert (j = 0) as -> by lia. by exists root. }
      split. { rewrite Hb. by destruct (decide (0 = 0)). }
      intros i c Hc Hnz. destruct (Hone _ _ Hc Hnz) as [_ ->]. eauto. }
  destruct Hbase as (Hblen & Hbpre & HbP & Hbin).
  assert (Hnoroot : forall p n i, pageAt f p = Some (NonLeafPage n) ->
            at_ (pageNoArray n) i = Some root -> False).
  { intros p n i Hp Hc. destruct Hroot as (Hpr0 & _).
    assert (Hrnz : root <> Page.INVALID_NUMBER).
    { intros Hz. destruct Hrootp as [rn Hrn]. rewrite Hz in Hrn.
      by rewrite pageAt_zero in Hrn. }
    destruct (Hedges _ _ _ _ Hp Hc Hrnz) as (Hpar & _). congruence. }
  assert (Ef : forall p n i c, p <> U -> pageAt f p = Some (NonLeafPage n) ->
            at_ (pageNoArray n) i = Some c -> c <> Page.INVALID_NUMBER ->
            edgeOk g0 p n i c).
  { intros p n i c HpU Hp Hc Hnz. pose proof (Hedges _ _ _ _ Hp Hc Hnz) as He.
    unfold g0. case_decide as HUnew; [|done].
    destruct HUf as [[_ ?]|(_ & -> & _)]; [done|].
    assert (HcU : c <> U).
    { intros ->. pose proof (structure_child_page _ _ _ _ _ _ _ _ _ Hst Hp Hc Hnz) as Hin.
      apply pageAt_lt in Hin. lia. }
    assert (Hcr : c <> root) by (intros ->; eauto).
    destruct He as (H1 & H2 & H3). unfold edgeOk, newRootGhost; simpl.
    gcrunch. }
  assert (EU : forall i c, at_ (pageNoArray base) i = Some c -> c <> Page.INVALID_NUMBER ->
            edgeOk g0 U base i c).
  { intros i c Hc Hnz. unfold g0.
    destruct HUf as [[HUb HUold]|(HUnew & -> & -> & Hb)].
    - rewrite decide_False by done. by apply Hedges with (p := U).
    - rewrite decide_True by done.
      rewrite Hb in Hc. destruct (decide (i = 0)) as [->|].
      2:{ destruct (zeroNonLeaf_pageNo N i) as [Hz|Hz]; rewrite Hc in Hz;
            inversion Hz; subst; done. }
      inversion Hc; subst c. destruct Hroot as (Hr1 & Hr2 & Hr3).
      unfold edgeOk, newRootGhost; simpl.
      assert (HrU : root <> U) by (intros Heq; rewrite Heq in HPU; done).
      rewrite (decide_False (P := root = U)) by done.
      rewrite !(decide_True (P := root = root)) by done.
      rewrite !(decide_True (P := U = U)) by done. rewrite Hr2, Hr3.
      split; [done|]. split; [by case_decide|].
      assert (Hnv : nextValid base 0 = false).
      { apply nextValid_false. intros (c' & Hc' & Hnz'). rewrite Hb in Hc'.
        destruct (decide (0 + 1 = 0)); [lia|].
        destruct (zeroNonLeaf_pageNo N (0 + 1)) as [Hz|Hz]; rewrite Hc' in Hz;
          inversion Hz; subst; done. }
      rewrite Hnv. by case_decide. }
  assert (Hg0P : parentOf g0 P = Some (U, uo)).
  { by destruct (EU _ _ HbP HPnz) as (? & _). }
  assert (Hpdedges : forall i c, at_ (pageNoArray pd) i = Some c ->
            c <> Page.INVALID_NUMBER -> edgeOk g0 P pd i c).
  { intros i c Hc Hnz. by apply Ef. }
  assert (Hpdchild : forall i c, at_ (pageNoArray pd) i = Some c ->
            c <> Page.INVALID_NUMBER -> c <> gnew /\ c <> P).
  { intros i c Hc Hnz. split.
    - apply Hinf. by eapply structure_child_page.
    - intros ->. destruct (Hpdedges _ _ Hc Hnz) as (Hpar & _). congruence. }
  assert (Hnode : lowOf g' P = lowOf g0 P /\ highOf g' P = Some median
                  /\ lowOf g' gnew = Some median /\ highOf g' gnew = highOf g0 P).
  { unfold g', splitGhost; simpl. gcrunch. }
  assert (Hg0 : forall q, q <> U -> lowOf g0 q = lowOf g q /\ highOf g0 q = highOf g q).
  { intros q Hq. unfold g0. case_decide; [|done]. unfold newRootGhost; simpl.
    by rewrite !decide_False by done. }
  assert (Hpdkeys : nodeKeysOk g0 P pd).
  { destruct (Hg0 P HPU) as [? ?]. eapply nodeKeysOk_ext; [done|done|]. by eapply Hkeys. }
  assert (Hmedin : aboveLow (lowOf g0 P) median /\ belowHigh (highOf g0 P) median).
  { destruct Hpdkeys as [Hwithin _]. apply (Hwithin (N / 2)); [|done].
    apply nextValid_true. apply Hpfull. lia. }
  assert (Hbasekeys : nodeKeysOk g0 U base).
  { destruct HUf as [[HUb HUold]|(HUnew & _ & _ & Hb)].
    - unfold g0. rewrite decide_False by done. by eapply Hkeys.
    - assert (Hnv : forall i, 0 <= i -> nextValid base i = true -> False).
      { intros i Hi Hv. apply nextValid_true in Hv as (c' & Hc' & Hnz').
        rewrite Hb in Hc'. destruct (decide (i + 1 = 0)); [lia|].
        destruct (zeroNonLeaf_pageNo N (i + 1)) as [Hz|Hz]; rewrite Hc' in Hz;
          inversion Hz; subst; done. }
      split.
      + intros i x Hv Hx. exfalso. apply (Hnv i); [|done].
        apply (at_length (nlKeyArray base) i); eauto.
      + intros i j x y Hij Hv _ _. exfalso. apply (Hnv j); [lia|done]. }
  split; [|split; [|split; [|split]]].
  - (* the edges *)
    intros p n i c Hp Hc Hnz.
    destruct (Hcases _ _ Hp) as [[-> Hd]|[[-> Hd]|[[-> Hd]|(HpP & HpU & Hpg & Hd)]]].
    + inversion Hd; subst n.
      eapply (left_edges N median P gnew pd left HN Hppl Hpfull Hmed Hkl Hpl g0 g');
        try done.
      intros i' c' Hc' Hnz' Hi'. destruct (Hpdchild _ _ Hc' Hnz') as [Hcg HcP].
      destruct (Hpdedges _ _ Hc' Hnz') as (Hpar & _).
      unfold g', splitGhost; simpl. rewrite Hpar. gcrunch.
    + inversion Hd; subst n.
      eapply (childInserted_edgesOk N uo median gnew P U base up g0 g'); try done.
      * unfold g', splitGhost; simpl. gcrunch.
      * unfold g', splitGhost; simpl. rewrite Hg0P. gcrunch.
      * intros j c' Hc' Hnz' Hj. destruct (EU _ _ Hc' Hnz') as (Hpar & _).
        assert (Hcg : c' <> gnew) by (apply Hinf; eauto).
        assert (HcP : c' <> P).
        { intros ->. rewrite Hg0P in Hpar. inversion Hpar. done. }
        unfold g', splitGhost; simpl. rewrite Hpar. gcrunch.
      * unfold g', splitGhost; simpl. gcrunch.
    + inversion Hd; subst n.
      eapply (right_edges N median P gnew pd right HN Hppl Hpfull Hmed Hkr Hpr g0 g');
        try done.
      intros i' c' Hc' Hnz' Hi'. destruct (Hpdchild _ _ Hc' Hnz') as [Hcg HcP].
      destruct (Hpdedges _ _ Hc' Hnz') as (Hpar & _).
      unfold g', splitGhost; simpl. rewrite Hpar. gcrunch.
    + destruct (Ef _ _ _ _ HpU Hd Hc Hnz) as (Hpar & Hlo & Hhi).
      assert (Hcg : c <> gnew) by (apply Hinf; by eapply structure_child_page).
      assert (HcP : c <> P).
      { intros ->. rewrite Hg0P in Hpar. inversion Hpar. done. }
      unfold edgeOk, g', splitGhost; simpl. rewrite Hpar, Hlo, Hhi. gcrunch.
  - (* the root *)
    assert (Hr0 : parentOf g0 root1 = None /\ lowOf g0 root1 = None
                  /\ highOf g0 root1 = None /\ root1 <> gnew /\ root1 <> P).
    { unfold g0. destruct HU as [(HUb & _ & -> & _)|(-> & _ & -> & -> & _)].
      - assert (HUn : U <> S (length f)).
        { pose proof (pageAt_lt _ _ (ex_intro _ _ HUb)). lia. }
        rewrite decide_False by done.
        destruct Hroot as (? & ? & ?). split; [done|]. split; [done|]. split; [done|].
        split; [apply Hinf; destruct Hrootp; eauto|].
        intros ->. unfold g0 in Hg0P. rewrite decide_False in Hg0P by done. congruence.
      - rewrite decide_True by done. unfold newRootGhost; simpl.
        rewrite !decide_True by done.
        split; [done|]. split; [done|]. split; [done|]. split; [lia|lia]. }
    destruct Hr0 as (Hr1 & Hr2 & Hr3 & Hr4 & Hr5).
    unfold rootOk, g', splitGhost; simpl. rewrite Hr1, Hr2, Hr3. gcrunch.
  - (* the keys between children *)
    intros p n i x Hp Hv Hx.
    destruct (Hcases _ _ Hp) as [[-> Hd]|[[-> Hd]|[[-> Hd]|(HpP & HpU & Hpg & Hd)]]].
    + inversion Hd; subst n.
      destruct (left_sep N pd left HN Hppl Hpfull Hkl Hpl i x Hv Hx) as [Hv' Hx']. eauto.
    + inversion Hd; subst n.
      destruct (childInserted_sepOk N uo median gnew P base up i x Hins Hblen Hbpre HbP
                  HPnz Hgnz Hv Hx) as [->|(j' & Hv' & Hx')].
      * eapply (Hsep P pd (N / 2)); [done| |done].
        apply nextValid_true. apply Hpfull. lia.
      * destruct HUf as [[HUb _]|(_ & _ & _ & Hb)]; [eauto|].
        exfalso. apply nextValid_true in Hv' as (c' & Hc' & Hnz').
        rewrite Hb in Hc'.
        assert (Hj' : 0 <= j') by (apply (at_length (nlKeyArray base) j'); eauto).
        destruct (decide (j' + 1 = 0)); [lia|].
        destruct (zeroNonLeaf_pageNo N (j' + 1)) as [Hz|Hz]; rewrite Hc' in Hz;
          inversion Hz; subst; done.
    + inversion Hd; subst n.
      destruct (right_sep N pd right HN Hppl Hpfull Hkr Hpr i x Hv Hx) as [Hv' Hx']. eauto.
    + eauto.
  - (* the leaves *)
    assert (Hleafq : forall q l, pageAt f q = Some (LeafPage l) ->
              q <> P /\ q <> U /\ q <> gnew).
    { intros q l Hq. split; [intros ->; congruence|]. split; [|apply Hinf; eauto].
      intros ->. destruct HUf as [[HUb _]|(-> & _)]; [congruence|].
      pose proof (pageAt_lt _ _ (ex_intro _ _ Hq)). lia. }
    split; [|split; [|split]].
    + intros q l. split.
      * intros Hq. destruct (Hcases _ _ Hq) as [[_ ?]|[[_ ?]|[[_ ?]|(_ & _ & _ & ?)]]]; done.
      * intros Hq. destruct (Hleafq _ _ Hq) as (? & ? & ?). by rewrite Hother.
    + intros q l Hq. destruct (Hleafq _ _ Hq) as (? & ? & ?).
      unfold g', splitGhost, g0; simpl.
      rewrite !(decide_False (P := q = gnew)) by done.
      rewrite !(decide_False (P := q = P)) by done.
      case_decide; [|done]. unfold newRootGhost; simpl. by rewrite !decide_False by done.
    + unfold g', splitGhost, g0; simpl. by case_decide.
    + unfold g', splitGhost, g0; simpl. by case_decide.
  - (* the keys of the non-leaves *)
    intros p n Hp.
    destruct (Hcases _ _ Hp) as [[-> Hd]|[[-> Hd]|[[-> Hd]|(HpP & HpU & Hpg & Hd)]]].
    + inversion Hd; subst n.
      by eapply (left_keys N median P gnew pd left HN Hppl Hpfull Hmed Hkl Hpl g0 g').
    + inversion Hd; subst n.
      eapply (childInserted_keysOk N uo median gnew P U base up g0 g'); try done.
      unfold g', splitGhost; simpl. gcrunch.
    + inversion Hd; subst n.
      by eapply (right_keys N median P gnew pd right HN Hppl Hpfull Hmed Hkr Hpr g0 g').
    + destruct (Hg0 p HpU) as [Hl0 Hh0].
      eapply (nodeKeysOk_ext g); [| |by eapply Hkeys].
      * unfold g', splitGhost; simpl. rewrite decide_False by done. done.
      * unfold g', splitGhost; simpl. rewrite !decide_False by done. done.
Qed.

(** ** The round trip: the loop over the saved path keeps the bounds *)

Lemma sameLeaves_refl f g : sameLeaves f f g g.
Proof. done. Qed.

Lemma sameLeaves_trans f f1 f2 g g1 g2 :
  sameLeaves f f1 g g1 -> sameLeaves f1 f2 g1 g2 -> sameLeaves f f2 g g2.
Proof.
  intros (H1 & H2 & H3 & H4) (K1 & K2 & K3 & K4). split; [|split; [|split]].
  - intros q l. rewrite K1. apply H1.
  - intros q l Hq. destruct (H2 _ _ Hq) as [<- <-]. apply (K2 q l). by apply H1.
  - congruence.
  - congruence.
Qed.

(** One split on the way up the saved path: the full non-leaf [P] is split
    under [U], the node above it on the path or the new root. *)
Lemma propagate_split_index L N firstLeaf entries keyValue O leaf offset P rest (done : bool)
    G s s1 below lv g0 pd left right median base up uo U g blanks :
  3 <= N ->
  structureOk L N firstLeaf (file s) (rootPageNum s) ->
  boundsOk entries g0 (file s) (rootPageNum s) ->
  pageAt (file s) O = Some (LeafPage leaf) ->
  pathLevels (file s) below lv ((offset, P) :: rest) ->
  pathTop ((offset, P) :: rest) (rootPageNum s) ->
  1 <= lv ->
  (if done then 2 <= lv /\ splitAt (file s) G O
   else below = O /\ lv = 1
        /\ exists i p rest0 nd, (offset, P) :: rest = (i, p) :: rest0
             /\ pageAt (file s) p = Some (NonLeafPage nd)
             /\ childIndex N keyValue nd = Some i) ->
  pageAt (file s) P = Some (NonLeafPage pd) ->
  firstInvalid N pd offset = Some (N + 1) ->
  splitNonLeaf N pd = Some (left, right) ->
  at_ (nlKeyArray pd) (N / 2) = Some median ->
  (rest = [] /\ U = S (length (file s)) /\ blanks = [BlankPage; BlankPage]
   /\ setPageNo 0 P (setLevel (level pd + 1) (zeroNonLeaf N)) = Some base
   /\ uo = 0 /\ rootPageNum s1 = U
   \/ exists rest', rest = (uo, U) :: rest'
        /\ pageAt (file s) U = Some (NonLeafPage base)
        /\ blanks = [BlankPage] /\ rootPageNum s1 = rootPageNum s) ->
  g = length (file s ++ blanks) ->
  childInserted N uo median g base up ->
  file s1 = setPage (setPage (setPage (file s ++ blanks) P (NonLeafPage left))
                       U (NonLeafPage up)) g (NonLeafPage right) ->
  exists g1,
    structureOk L N firstLeaf (file s1) (rootPageNum s1)
    /\ boundsOk entries g1 (file s1) (rootPageNum s1)
    /\ sameLeaves (file s) (file s1) g0 g1
    /\ pageAt (file s1) O = Some (LeafPage leaf)
    /\ pathLevels (file s1) P (lv + 1) rest
    /\ pathTop rest (rootPageNum s1)
    /\ splitAt (file s1)
         (if done then G
          else if keyValue >=? median then Some (g, offset - N / 2 - 1)
               else Some (P, offset)) O
    /\ (forall q, q <> P -> q <> U -> q <> g -> pageAt (file s1) q = pageAt (file s) q)
    /\ pageAt (file s1) P = Some (NonLeafPage left)
    /\ pageAt (file s1) U = Some (NonLeafPage up)
    /\ pageAt (file s1) g = Some (NonLeafPage right)
    /\ (done = true -> forall gp go, G = Some (gp, go) ->
          pageAt (file s1) gp = pageAt (file s) gp)
    /\ P <> U /\ P <> g /\ U <> g /\ O <> U /\ O <> g
    /\ at_ (pageNoArray up) uo = Some P
    /\ at_ (pageNoArray up) (uo + 1) = Some g
    /\ level up = lv + 2.
Proof.
  intros HN Hst Hbd HO Hpath Htop Hlv Hd HP Hk Hsplit Hmed HU Hg Hins Hf1.
  pose proof Hst as (Hnl & Hlf & Hroot & Hleft).
  destruct Hpath as [(pd' & HP' & Hoff & Hlvpd) Hrest].
  assert (pd' = pd) as -> by congruence.
  pose proof (Hnl _ _ HP) as Hpdok.
  assert (Horange : 0 <= offset <= N).
  { pose proof (nonzero_entry_in_range _ _ _ Hoff) as Hr.
    destruct Hpdok as (_ & Hpl & _). rewrite Hpl in Hr. lia. }
  destruct (pathTop_cons _ _ _ _ Htop) as [Htop1 Htop2].
  assert (HU' : pageAt (file s) U = Some (NonLeafPage base) /\ blanks = [BlankPage]
                /\ rootPageNum s1 = rootPageNum s
                /\ at_ (pageNoArray base) uo = Some P /\ level base = level pd + 1
                \/ U = S (length (file s)) /\ blanks = [BlankPage; BlankPage]
                   /\ rootPageNum s1 = U /\ P = rootPageNum s
                   /\ setPageNo 0 P (setLevel (level pd + 1) (zeroNonLeaf N)) = Some base
                   /\ uo = 0).
  { destruct HU as [(-> & -> & -> & Hb & -> & Hr1)|(rest' & -> & HUb & -> & Hr1)].
    - right. repeat split; try done; by apply Htop1.
    - left. destruct Hrest as [(b' & Hb' & Hbo & Hbl) _].
      assert (b' = base) as -> by congruence.
      repeat split; try done. lia. }
  pose proof (splitStep_structure L N firstLeaf (file s) (rootPageNum s) (rootPageNum s1)
                P pd offset left right median base up uo U g blanks
                HN Hst HP Horange Hk Hsplit HU' Hg Hins) as Hstep.
  destruct Hbd as (Hedges & Hrootg & Hsep & Hkeys).
  pose proof (splitStep_index L N firstLeaf entries (file s) (rootPageNum s) (rootPageNum s1)
                P pd offset left right median base up uo U g blanks g0
                HN Hst Hedges Hrootg Hsep Hkeys HP Horange Hk Hsplit Hmed HU' Hg Hins)
    as Hindex.
  simpl in Hstep, Hindex. rewrite <- Hf1 in Hstep, Hindex.
  destruct Hstep as (Hs1 & Hext & Hother & H1P & H1U & H1g & HPU & HPg & HUg & Hgnew
                     & HupP & Hlvup).
  destruct Hindex as (Hedges1 & Hroot1 & Hsep1 & Hsame1 & Hkeys1).
  assert (HUlv : forall q n, pageAt (file s) q = Some (NonLeafPage n) ->
                   level n <> lv + 2 -> q <> U).
  { intros q n Hq Hne ->. destruct HU' as [(HUb & _ & _ & _ & Hlb)|(-> & _)].
    - assert (n = base) by congruence. subst n. lia.
    - pose proof (pageAt_lt _ _ (ex_intro _ _ Hq)). lia. }
  assert (Hgout : forall q, is_Some (pageAt (file s) q) -> q <> g).
  { intros q Hq ->. apply pageAt_lt in Hq. lia. }
  assert (HO1 : pageAt (file s1) O = Some (LeafPage leaf)).
  { rewrite Hother; [done| | |].
    - intros ->. congruence.
    - intros ->. destruct HU' as [(HUb & _)|(-> & _)]; [congruence|].
      pose proof (pageAt_lt _ _ (ex_intro _ _ HO)). lia.
    - apply Hgout. eauto. }
  assert (Hpath1 : pathLevels (file s1) P (lv + 1) rest).
  { destruct HU as [(-> & _)|(rest' & -> & HUb & _ & _)]; [done|].
    destruct Hrest as [(b' & Hb' & Hbo & Hbl) Hrest']. split.
    + exists up. split; [done|]. split; [done|]. lia.
    + eapply pathLevels_unchanged; [|exact Hrest'].
      intros q n Hq Hlt. rewrite Hother; [done| | |].
      * intros ->. assert (n = pd) by congruence. subst n. lia.
      * eapply HUlv; [done|lia].
      * apply Hgout. eauto. }
  assert (Htop' : pathTop rest (rootPageNum s1)).
  { destruct HU as [(-> & _)|(rest' & -> & _ & _ & ->)]; done. }
  assert (HGsame : done = true -> forall gp go, G = Some (gp, go) ->
            pageAt (file s1) gp = pageAt (file s) gp).
  { intros -> gp go ->. destruct Hd as (Hlv2 & gp' & go' & gd & Heq & Hgd & Hgo).
    inversion Heq; subst gp' go'.
    assert (Hl2 : level gd = 2).
    { eapply leaf_child_level; [by eapply Hnl|done|]. by exists leaf. }
    apply Hother.
    - intros ->. assert (gd = pd) by congruence. subst gd. lia.
    - eapply HUlv; [done|lia].
    - apply Hgout. eauto. }
  pose proof (half_bounds N HN) as Hm.
  assert (Hsp : splitAt (file s1)
                  (if done then G
                   else if keyValue >=? median then Some (g, offset - N / 2 - 1)
                        else Some (P, offset)) O).
  { destruct done.
    + destruct Hd as (Hlv2 & gp & go & gd & -> & Hgd & Hgo).
      exists gp, go, gd. split; [done|]. split; [|done].
      by rewrite (HGsame eq_refl gp go eq_refl).
    + destruct Hd as (-> & -> & i & p & rest0 & nd & Heq & Hnd & Hci).
      inversion Heq; subst i p rest0. assert (nd = pd) as -> by congruence.
      pose proof (splitNonLeaf_Some N pd left right ltac:(lia) Hsplit)
        as (_ & _ & _ & Hpnl & _ & Hpnr).
      apply childIndex_Some in Hci as (_ & Hbelow & Habove); [|lia].
      destruct (Z.geb_spec keyValue median) as [Hge|Hlt].
      * exists g, (offset - N / 2 - 1), right. split; [done|]. split; [done|].
        assert (Hom : N / 2 < offset).
        { destruct (decide (N / 2 < offset)) as [|Hle]; [done|]. exfalso.
          destruct (Habove ltac:(lia)) as [Hinv|(x & Hx & Hkx)].
          - destruct (full_children N (file s) pd offset ltac:(lia) Hpdok Horange Hk
                        (offset + 1) ltac:(lia)) as (c & Hc & Hnz & _). congruence.
          - destruct (Hkeys _ _ HP) as [_ Hsorted].
            assert (Hv : nextValid pd (N / 2) = true).
            { apply nextValid_true.
              destruct (full_children N (file s) pd offset ltac:(lia) Hpdok Horange Hk
                          (N / 2 + 1) ltac:(lia)) as (c & Hc & Hnz & _). by exists c. }
            pose proof (Hsorted offset (N / 2) x median ltac:(lia) Hv Hx Hmed). lia. }
        rewrite Hpnr. rewrite decide_True by lia.
        rewrite <- Hoff. f_equal. lia.
      * exists P, offset, left. split; [done|]. split; [done|].
        rewrite Hpnl. destruct (decide (N / 2 + 1 <= offset <= N)) as [Hin|]; [|done].
        exfalso.
        destruct (Hbelow (N / 2)) as (x & Hk' & Hle); [lia|].
        assert (x = median) by congruence. lia. }
  eexists. split; [exact Hs1|].
  split; [exact (conj Hedges1 (conj Hroot1 (conj Hsep1 Hkeys1)))|].
  split; [exact Hsame1|]. do 8 (split; [done|]). split; [done|].
  do 3 (split; [done|]).
  split.
  { intros ->. destruct HU' as [(HUb & _)|(HUeq & _)]; [congruence|].
    pose proof (pageAt_lt _ _ (ex_intro _ _ HO)). lia. }
  split; [apply Hgout; eauto|]. split; [done|]. split; [|lia].
  destruct Hins as (k & _ & _ & _ & _ & Hpu & _). rewrite Hpu.
  by rewrite decide_True by done.
Qed.

Lemma propagate_index L N firstLeaf entries keyValue O leaf path :
  forall done G s G' s' below lv g,
  3 <= N ->
  structureOk L N firstLeaf (file s) (rootPageNum s) ->
  boundsOk entries g (file s) (rootPageNum s) ->
  pageAt (file s) O = Some (LeafPage leaf) ->
  pathLevels (file s) below lv path ->
  pathTop path (rootPageNum s) ->
  1 <= lv ->
  (if done : bool then 2 <= lv /\ splitAt (file s) G O
   else below = O /\ lv = 1
        /\ exists i p rest nd, path = (i, p) :: rest
             /\ pageAt (file s) p = Some (NonLeafPage nd)
             /\ childIndex N keyValue nd = Some i) ->
  propagate N keyValue path done G s = (Return G', s') ->
  exists g',
    structureOk L N firstLeaf (file s') (rootPageNum s')
    /\ boundsOk entries g' (file s') (rootPageNum s')
    /\ sameLeaves (file s) (file s') g g'
    /\ splitAt (file s') G' O
    /\ pageAt (file s') O = Some (LeafPage leaf).
Proof.
  induction path as [|[offset P] rest IH];
    intros done G s G' s' below lv g0 HN Hst Hbd HO Hpath Htop Hlv Hd H.
  { simpl in H. apply ret_Return in H as [-> ->]. destruct done.
    - destruct Hd. exists g0. done.
    - destruct Hd as (_ & _ & (? & ? & ? & ? & ? & _)). done. }
  pose proof Hst as (Hnl & Hlf & Hroot & Hleft).
  apply propagate_cons in H; [|lia|].
  2:{ intros n p Hp. by destruct (Hnl _ _ Hp) as (_ & ? & _). }
  destruct H as (pd & k & HP & Hk & H).
  destruct H as [(Hne & Hf & Hr & _ & ->)|(-> & H)].
  { exists g0. rewrite Hf, Hr. split; [done|]. split; [done|]. split; [done|].
    split; [|done]. destruct done.
    - destruct Hd. done.
    - destruct Hd as (-> & _). destruct Hpath as [(pd' & HP' & Hoff & _) _].
      assert (pd' = pd) as -> by congruence. exists P, offset, pd. done. }
  destruct H as (s1 & left & right & median & base & up & uo & U & g & blanks
                 & Hsplit & Hmed & HU & Hg & Hins & Hf1 & _ & Hrec).
  destruct (propagate_split_index L N firstLeaf entries keyValue O leaf offset P rest done
              G s s1 below lv g0 pd left right median base up uo U g blanks
              HN Hst Hbd HO Hpath Htop Hlv Hd HP Hk Hsplit Hmed HU Hg Hins Hf1)
    as (g1 & Hs1 & Hbd1 & Hsame1 & HO1 & Hpath1 & Htop' & Hsp & _).
  assert (Hlv1 : 1 <= lv + 1) by lia.
  assert (Hlv2 : 2 <= lv + 1) by lia.
  destruct (IH true _ s1 G' s' P (lv + 1) _ HN Hs1 Hbd1
              HO1 Hpath1 Htop' Hlv1 (conj Hlv2 Hsp) Hrec)
    as (g' & Hst' & Hbd' & Hsame' & Hsp' & HO').
  exists g'. split; [done|]. split; [done|]. split; [|done].
  by eapply sameLeaves_trans.
Qed.

(** ** The round trip: the walk ends on the leaf whose bounds hold the key *)

Lemma walk_bounds N n keyValue g f : forall cur path s c l path' s',
  0 <= N -> edgesOk g f -> file s = f ->
  (forall p nd, pageAt f p = Some (NonLeafPage nd) ->
     length (pageNoArray nd) = Z.to_nat (N + 1)) ->
  walk N n keyValue cur cur path s = (Return (c, l, path'), s') ->
  (forall x, lowOf g cur = Some x -> x <= keyValue) ->
  (forall x, highOf g cur = Some x -> keyValue < x) ->
  (forall x, lowOf g l = Some x -> x <= keyValue)
  /\ (forall x, highOf g l = Some x -> keyValue < x).
Proof.
  induction n as [|n IH]; intros cur path s c l path' s' HN Hedges Hf Hlen H Hlo Hhi;
    simpl in H.
  - apply ret_Return in H as [H ->]. inversion H; subst c l path'. done.
  - apply bindM_Return in H as (nd & ? & [Hnd ->]%asNonLeaf_Return & H).
    apply bindM_Return in H as (i & ? & [Hi ->]%defined_Return & H).
    apply bindM_Return in H as (? & s1 & ->%unPinPage_Return & H).
    apply bindM_Return in H as (child & ? & [Hchild ->]%defined_Return & H).
    apply bindM_Return in H as (? & s2 & (-> & Hread & ->)%readPage_Return & H).
    simpl in Hread. rewrite Hf in Hnd.
    assert (Hnz : child <> Page.INVALID_NUMBER).
    { intros ->. destruct Hread as [? Hx]. by rewrite pageAt_zero in Hx. }
    destruct (Hedges _ _ _ _ Hnd Hchild Hnz) as (_ & Hl & Hh).
    apply childIndex_Some in Hi as (Hirange & Hbelow & Habove); [|done].
    pose proof (fun Hfile => IH child _ _ _ _ _ _ HN Hedges Hfile Hlen H) as IH'.
    apply IH'; [done| |].
    + intros y Hy. rewrite Hl in Hy. destruct (decide (i = 0)); [by apply Hlo|].
      destruct (Hbelow (i - 1)) as (k & Hk & Hle); [lia|]. congruence.
    + intros y Hy. rewrite Hh in Hy. destruct (nextValid nd i) eqn:E; [|by apply Hhi].
      apply nextValid_true in E as (c' & Hc' & Hnz').
      pose proof (nonzero_entry_in_range _ _ _ Hc') as Hr. rewrite (Hlen _ _ Hnd) in Hr.
      destruct (Habove ltac:(lia)) as [Hinv|(k & Hk & Hlt)]; congruence.
Qed.

(** ** The round trip: the place of a key in a leaf *)

Lemma sorted_lookup (es : list (Z * RecordId)) i j x y :
  sortedByKey es -> (i <= j)%nat -> es !! i = Some x -> es !! j = Some y ->
  fst x <= fst y.
Proof.
  intros Hs. revert i j. induction Hs as [|e es Hs IH Hall]; intros i j Hij Hx Hy; [done|].
  destruct i as [|i], j as [|j]; simpl in *; try lia.
  - inversion Hx; inversion Hy; subst. lia.
  - inversion Hx; subst. rewrite Forall_forall in Hall.
    apply (Hall y). by eapply list_elem_of_lookup_2.
  - eapply (IH i j); [lia|done|done].
Qed.

Lemma leafHolds_unoccupied L l es j :
  leafHolds L l es -> 0 <= j < L ->
  unoccupied l j <-> Z.of_nat (length es) <= j.
Proof.
  intros (_ & _ & _ & Hvalid & Hs) Hj. specialize (Hs j Hj). unfold slot in Hs.
  unfold unoccupied. destruct (es !! Z.to_nat j) as [e|] eqn:E.
  - inversion Hs as [[Hk Hr]]. apply lookup_lt_Some in E as Hlt.
    split; [|lia]. intros (r & Hr' & Hz). rewrite Hr in Hr'. inversion Hr'; subst r.
    rewrite Forall_forall in Hvalid. exfalso.
    apply (Hvalid e); [by eapply list_elem_of_lookup_2|done].
  - inversion Hs as [[Hk Hr]]. apply lookup_ge_None in E.
    split; [lia|]. intros _. by exists zeroRid.
Qed.

Lemma leafHolds_key L l es j e :
  leafHolds L l es -> es !! Z.to_nat j = Some e -> 0 <= j ->
  at_ (keyArray l) j = Some (fst e).
Proof.
  intros (_ & _ & Hlen & _ & Hs) He Hj. apply lookup_lt_Some in He as Hlt.
  specialize (Hs j ltac:(lia)). rewrite He in Hs. unfold slot in Hs. by inversion Hs.
Qed.

Lemma leafPosition_holds L keyValue l es a e :
  0 <= L -> leafHolds L l es -> sortedByKey es ->
  leafPosition L true keyValue l = Some (a, e) ->
  e = Z.of_nat (length es) /\ insertPos keyValue es a.
Proof.
  intros HL Hholds Hsorted Hpos. pose proof Hholds as (Hkl & Hrl & Hlen & Hvalid & Hs).
  unfold leafPosition in Hpos.
  destruct (leafLoop_unset L keyValue l Hkl Hrl true (Z.to_nat L) 0)
    as (a' & e' & He & Ha & Hfirst & _); [lia|lia|intros; lia|].
  rewrite Hpos in He. inversion He; subst a' e'. clear He.
  destruct (Hfirst eq_refl) as (Herange & Heocc & Hebefore).
  destruct Ha as (Harange & Haat & Habefore).
  assert (Hee : e = Z.of_nat (length es)).
  { destruct (decide (Z.of_nat (length es) < e)) as [Hlt|].
    - exfalso. apply (Hebefore (Z.of_nat (length es))); [lia|].
      apply (leafHolds_unoccupied L l es); [done|lia|lia].
    - destruct (decide (e < L)) as [HeL|]; [|lia].
      apply (leafHolds_unoccupied L l es) in Heocc; [lia|done|lia|done]. }
  split; [done|].
  assert (Hale : a <= Z.of_nat (length es)).
  { destruct (decide (Z.of_nat (length es) < a)) as [Hlt|]; [|lia]. exfalso.
    apply (Habefore (Z.of_nat (length es))); [lia|]. left.
    apply (leafHolds_unoccupied L l es); [done|lia|lia]. }
  split; [lia|]. split.
  - apply Forall_lookup. intros i x Hx. apply lookup_take_Some in Hx as [Hx Hi].
    pose proof (leafHolds_key L l es (Z.of_nat i) x Hholds) as Hk.
    rewrite Nat2Z.id in Hk. specialize (Hk Hx ltac:(lia)).
    destruct (decide (fst x < keyValue)); [done|]. exfalso.
    apply (Habefore (Z.of_nat i)); [lia|]. right. exists (fst x). split; [done|lia].
  - apply Forall_lookup. intros i x Hx. rewrite lookup_drop in Hx.
    apply lookup_lt_Some in Hx as Hlt.
    assert (HaL : a < L) by lia.
    destruct (Haat HaL) as [Hu|(k & Hk & Hle)].
    { apply (leafHolds_unoccupied L l es) in Hu; [lia|done|lia]. }
    destruct (lookup_lt_is_Some_2 es (Z.to_nat a)) as [y Hy]; [lia|].
    rewrite (leafHolds_key L l es a y Hholds Hy ltac:(lia)) in Hk. inversion Hk; subst k.
    pose proof (sorted_lookup es (Z.to_nat a) (Z.to_nat a + i) y x Hsorted ltac:(lia) Hy Hx).
    lia.
Qed.

(** ** The round trip: what is kept when no leaf changes *)

Lemma sameLeaves_leavesOk L f f' g g' :
  sameLeaves f f' g g' -> leavesOk L g f -> leavesOk L g' f'.
Proof.
  intros (H1 & H2 & H3 & H4) Hl q l Hq. apply H1 in Hq.
  destruct (H2 _ _ Hq) as [Hlo Hhi]. rewrite H3, H4, Hlo, Hhi. by apply Hl.
Qed.

Lemma sameLeaves_linked f f' g g' c :
  sameLeaves f f' g g' -> linked g f c -> linked g' f' c.
Proof.
  intros (H1 & H2 & H3 & H4). induction c as [|a rest IH]; [done|].
  intros [(l & Hl & Hnext) Hrest]. split; [|by apply IH].
  exists l. split; [by apply H1|]. destruct rest as [|b rest']; [done|].
  destruct Hnext as (Hsib & x & Hx & Hy). split; [done|]. exists x.
  destruct Hrest as [(lb & Hlb & _) _].
  destruct (H2 _ _ Hl) as [_ ->]. destruct (H2 _ _ Hlb) as [-> _]. done.
Qed.

Lemma sepOk_cons e entries f : sepOk entries f -> sepOk (e :: entries) f.
Proof.
  intros H p n i x Hp Hv Hx. simpl. apply list_elem_of_further. by eapply H.
Qed.

(** ** The round trip: an entry placed in a leaf *)

Lemma lookup_insert_at {A} (es : list A) (a : nat) (x : A) (j : nat) :
  (a <= length es)%nat ->
  (take a es ++ x :: drop a es) !! j
  = if decide (j < a)%nat then es !! j
    else if decide (j = a) then Some x else es !! (j - 1)%nat.
Proof.
  intros Ha. assert (Hlen : length (take a es) = a) by (rewrite length_take; lia).
  destruct (decide (j < a)%nat).
  - rewrite lookup_app_l by lia. apply lookup_take_lt. done.
  - rewrite lookup_app_r by lia. rewrite Hlen. destruct (decide (j = a)) as [->|].
    + by rewrite Nat.sub_diag.
    + destruct (j - a)%nat as [|k] eqn:E; [lia|]. simpl. rewrite lookup_drop.
      f_equal. lia.
Qed.

Lemma insertIntoLeaf_holds L keyValue rid a l l' es :
  leafHolds L l es -> Z.of_nat (length es) < L -> 0 <= a <= Z.of_nat (length es) ->
  page_number rid <> Page.INVALID_NUMBER ->
  insertIntoLeaf keyValue rid a (Z.of_nat (length es)) l = Some l' ->
  leafHolds L l' (take (Z.to_nat a) es ++ (keyValue, rid) :: drop (Z.to_nat a) es)
  /\ rightSibPageNo l' = rightSibPageNo l.
Proof.
  intros (Hkl & Hrl & Hlen & Hvalid & Hs) Hroom Ha Hrid H. unfold insertIntoLeaf in H.
  destruct (shiftLeafLoop _ _ _) as [d|] eqn:Hshift; [|done]. simpl in H.
  pose proof (shiftLeafLoop_length _ _ _ _ Hshift) as [? ?].
  pose proof (setEntry_length _ _ _ _ _ H) as [? ?].
  apply shiftLeafLoop_Some in Hshift as [Hsib1 Hs1].
  pose proof (setEntry_Some _ _ _ _ _ H) as [Hsib2 Hs2].
  split; [|congruence].
  split; [congruence|]. split; [congruence|]. split.
  { rewrite length_app. simpl. rewrite length_take, length_drop. lia. }
  split.
  { apply Forall_app. split; [by apply Forall_take|].
    constructor; [done|by apply Forall_drop]. }
  intros j Hj. rewrite Hs2, lookup_insert_at by lia.
  destruct (decide (j = a)) as [->|Hne].
  { destruct (decide (_ < _)%nat); [lia|]. by destruct (decide (_ = _)). }
  rewrite Hs1. rewrite Z2Nat.id by lia.
  destruct (decide (Z.to_nat j < Z.to_nat a)%nat).
  { destruct (decide (_ < j <= _)); [lia|]. by apply Hs. }
  destruct (decide (Z.to_nat j = Z.to_nat a)); [lia|].
  destruct (decide (_ < j <= _)) as [Hin|Hout].
  - rewrite (Hs (j - 1)) by lia. by replace (Z.to_nat (j - 1)) with (Z.to_nat j - 1)%nat by lia.
  - rewrite (Hs j) by lia.
    rewrite (proj2 (lookup_ge_None es (Z.to_nat j))) by lia.
    rewrite (proj2 (lookup_ge_None es (Z.to_nat j - 1)%nat)) by lia. done.
Qed.

Lemma insertPos_sorted keyValue rid es a :
  sortedByKey es -> insertPos keyValue es a ->
  sortedByKey (take (Z.to_nat a) es ++ (keyValue, rid) :: drop (Z.to_nat a) es).
Proof.
  intros Hs (Ha & Hbefore & Hafter).
  rewrite <- (take_drop (Z.to_nat a) es) in Hs.
  apply sortedByKey_app_inv in Hs as (Hs1 & Hs2 & Hcross).
  rewrite Forall_forall in Hbefore. rewrite Forall_forall in Hafter.
  apply sortedByKey_app; [done| |].
  - constructor; [done|]. apply Forall_forall. intros y Hy.
    specialize (Hafter _ Hy). unfold keyLe. simpl. lia.
  - intros x y Hx Hy. specialize (Hbefore _ Hx).
    apply elem_of_cons in Hy as [->|Hy]; [simpl; lia|].
    specialize (Hafter _ Hy). lia.
Qed.

Lemma concat_insert {A} (E E' : PageId -> list A) (p : PageId) (x : A) (c : list PageId) :
  NoDup c -> p ∈ c ->
  (forall q, q <> p -> E' q = E q) -> E' p ≡ₚ x :: E p ->
  concat (map E' c) ≡ₚ x :: concat (map E c).
Proof.
  intros Hnd Hp Hother Hat. induction c as [|b c IH]; [by apply elem_of_nil in Hp|].
  apply NoDup_cons in Hnd as [Hb Hnd]. simpl.
  destruct (decide (b = p)) as [->|Hne].
  - rewrite Hat. simpl. f_equiv. f_equiv.
    clear IH Hp Hnd. induction c as [|d c IH]; [done|]. simpl.
    rewrite Hother; [|intros ->; apply Hb; apply list_elem_of_here].
    f_equiv. apply IH. intros Hin. apply Hb. by apply list_elem_of_further.
  - apply elem_of_cons in Hp as [?|Hp]; [done|].
    rewrite (Hother b) by done. rewrite (IH Hnd Hp).
    by rewrite Permutation_middle.
Qed.

(** Placing an entry in the leaf whose bounds hold its key, at its place
    among the entries of the leaf, keeps the index well formed. *)
Lemma leafInsert_index L N firstLeaf entries g f root p l l' keyValue rid a k0 :
  2 <= L ->
  indexOk L N firstLeaf entries g f root -> keysOk g f ->
  firstLeafOk firstLeaf k0 g -> (p = firstLeaf -> keyValue < k0) ->
  pageAt f p = Some (LeafPage l) ->
  Z.of_nat (length (entriesOf g p)) < L ->
  insertPos keyValue (entriesOf g p) a ->
  aboveLow (lowOf g p) keyValue -> belowHigh (highOf g p) keyValue ->
  page_number rid <> Page.INVALID_NUMBER ->
  insertIntoLeaf keyValue rid a (Z.of_nat (length (entriesOf g p))) l = Some l' ->
  let g' := insertGhost g p (Z.to_nat a) (keyValue, rid) in
  let f' := setPage f p (LeafPage l') in
  indexOk L N firstLeaf ((keyValue, rid) :: entries) g' f' root /\ keysOk g' f'
  /\ firstLeafOk firstLeaf k0 g'.
Proof.
  intros HL (Hst & Hedges & Hroot & Hleaves & Hnodup & Hchain & Hlinked & Hsep & Hperm)
    Hkeys (Hf1 & Hf2 & Hf3) Hfk Hp Hroom Hpos Hlo Hhi Hrid Hins g' f'.
  pose proof Hst as (Hnl & Hlf & _).
  destruct (Hleaves _ _ Hp) as (Hholds & Hsorted & Hwithin & Hin).
  destruct (insertIntoLeaf_holds L keyValue rid a l l' _ Hholds Hroom (proj1 Hpos) Hrid Hins)
    as [Hholds' Hsib].
  assert (Hnon : forall q n, pageAt f' q = Some (NonLeafPage n) ->
                   pageAt f q = Some (NonLeafPage n)).
  { intros q n Hq. apply pageAt_setPage_cases in Hq as [[_ ?]|[_ Hq]]; done. }
  assert (Hleaf : forall q m, pageAt f' q = Some (LeafPage m) ->
                    (q = p /\ m = l') \/ (q <> p /\ pageAt f q = Some (LeafPage m))).
  { intros q m Hq. apply pageAt_setPage_cases in Hq as [[-> Hd]|[? Hq]]; [|by right].
    left. split; [done|]. by inversion Hd. }
  assert (Hp' : pageAt f' p = Some (LeafPage l')).
  { apply pageAt_setPage_eq. eauto. }
  split; [|split; [intros q n Hq; exact (Hkeys q n (Hnon _ _ Hq))|]].
  2:{ unfold firstLeafOk, g', insertGhost; simpl.
      destruct (decide (firstLeaf = p)) as [->|Hne]; [|done].
      split; [|split; [|done]].
      - apply Forall_app. split; [by apply Forall_take|].
        constructor; [simpl; by apply Hfk|by apply Forall_drop].
      - intros Hnil. apply app_nil in Hnil as [_ Hx]. done. }
  split; [|split; [|split; [|split; [|split; [|split; [|split; [|split]]]]]]].
  - eapply leafWrite_structure; [done|done|].
    eapply insertIntoLeaf_ok; [done| |done]. eauto.
  - intros q n i c Hq Hc Hnz. exact (Hedges q n i c (Hnon _ _ Hq) Hc Hnz).
  - done.
  - intros q m Hq. destruct (Hleaf _ _ Hq) as [[-> ->]|[Hne Hq']].
    + unfold g', insertGhost; simpl. rewrite decide_True by done.
      split; [done|]. split; [by apply insertPos_sorted|]. split; [|done].
      apply Forall_app. split; [by apply Forall_take|].
      constructor; [done|by apply Forall_drop].
    + unfold g', insertGhost; simpl. rewrite decide_False by done. by apply Hleaves.
  - done.
  - done.
  - change (leafChain g') with (leafChain g). clear Hchain Hnodup Hperm Hin.
    induction (leafChain g) as [|b c IH]; [done|].
    destruct Hlinked as [(m & Hm & Hnext) Hrest]. split; [|by apply IH].
    destruct (decide (b = p)) as [->|Hne].
    + exists l'. split; [done|]. assert (m = l) as -> by congruence. by rewrite Hsib.
    + exists m. split; [|done]. unfold f'. by rewrite pageAt_setPage_ne.
  - apply sepOk_cons. intros q n i x Hq. exact (Hsep q n i x (Hnon _ _ Hq)).
  - change (leafChain g') with (leafChain g).
    rewrite (concat_insert (entriesOf g) (entriesOf g') p (keyValue, rid)); try done.
    + by rewrite Hperm.
    + intros q Hq. unfold g', insertGhost; simpl. by rewrite decide_False.
    + unfold g', insertGhost; simpl. rewrite decide_True by done.
      rewrite <- Permutation_middle. by rewrite take_drop.
Qed.

(** ** The round trip: the chain of leaves when a leaf is split *)

Section SplitChain.

Variables O R : PageId.

Local Abbreviation splitChain :=
  (flat_map (fun q : PageId => if decide (q = O) then [O; R] else [q])).

Lemma splitChain_cons a c :
  splitChain (a :: c) = (if decide (a = O) then [O; R] else [a]) ++ splitChain c.
Proof. done. Qed.

Lemma splitChain_elem x c : x ∈ splitChain c <-> x ∈ c \/ (x = R /\ O ∈ c).
Proof.
  induction c as [|a c IH].
  - simpl. split; [by intros ?%elem_of_nil|]. intros [?%elem_of_nil|[_ ?%elem_of_nil]]; done.
  - rewrite splitChain_cons, elem_of_app, IH, !elem_of_cons.
    destruct (decide (a = O)) as [->|Hne].
    + rewrite !elem_of_cons, elem_of_nil. intuition (subst; auto; congruence).
    + rewrite elem_of_cons, elem_of_nil. intuition (subst; auto; congruence).
Qed.

Lemma splitChain_NoDup c : NoDup c -> R ∉ c -> NoDup (splitChain c).
Proof.
  induction c as [|a c IH]; intros Hnd HR; [constructor|].
  apply NoDup_cons in Hnd as [Ha Hnd]. apply not_elem_of_cons in HR as [HRa HR].
  rewrite splitChain_cons. destruct (decide (a = O)) as [->|Hne].
  - simpl. apply NoDup_cons. split.
    + rewrite elem_of_cons, splitChain_elem. intuition (subst; auto; congruence).
    + apply NoDup_cons. split; [|by apply IH].
      rewrite splitChain_elem. intuition (subst; auto; congruence).
  - simpl. apply NoDup_cons. split; [|by apply IH].
    rewrite splitChain_elem. intuition (subst; auto; congruence).
Qed.

Lemma splitChain_head a c : exists rest, splitChain (a :: c) = a :: rest.
Proof.
  rewrite splitChain_cons. destruct (decide (a = O)) as [->|]; simpl; eauto.
Qed.

Lemma splitChain_concat {A} (E E' : PageId -> list A) (m : nat) c :
  R ∉ c -> O <> R ->
  E' R = drop m (E O) -> E' O = take m (E O) ->
  (forall q, q <> O -> q <> R -> E' q = E q) ->
  concat (map E' (splitChain c)) = concat (map E c).
Proof.
  intros HR HOR HER HEO Hother. induction c as [|a c IH]; [done|].
  apply not_elem_of_cons in HR as [HRa HR].
  rewrite splitChain_cons. destruct (decide (a = O)) as [->|Hne]; simpl.
  - rewrite HER, HEO, IH by done. rewrite app_assoc, take_drop. done.
  - rewrite IH by done. rewrite Hother by done. done.
Qed.

Lemma splitChain_linked g g' f f' leaf leafO leafR median c :
  NoDup c -> R ∉ c -> linked g f c ->
  pageAt f O = Some (LeafPage leaf) ->
  pageAt f' O = Some (LeafPage leafO) -> pageAt f' R = Some (LeafPage leafR) ->
  rightSibPageNo leafO = R -> rightSibPageNo leafR = rightSibPageNo leaf ->
  (forall q l, q <> O -> q <> R -> pageAt f q = Some (LeafPage l) ->
     pageAt f' q = Some (LeafPage l)) ->
  (forall q, q <> R -> lowOf g' q = lowOf g q) ->
  (forall q, q <> R -> q <> O -> highOf g' q = highOf g q) ->
  highOf g' O = Some median -> lowOf g' R = Some median -> highOf g' R = highOf g O ->
  linked g' f' (splitChain c).
Proof.
  intros Hnd HR Hl HO HO' HR' HsibO HsibR Hother Hlow Hhigh HhO HlR HhR.
  induction c as [|a c IH]; [done|].
  apply NoDup_cons in Hnd as [Ha Hnd]. apply not_elem_of_cons in HR as [HRa HR].
  destruct Hl as [(l & Hla & Hnext) Hrest]. specialize (IH Hnd HR Hrest).
  rewrite splitChain_cons. destruct (decide (a = O)) as [->|Hne]; simpl.
  - assert (l = leaf) as -> by congruence.
    split; [exists leafO; split; [done|]; split; [done|]; by exists median|].
    split; [|done]. exists leafR. split; [done|].
    destruct c as [|b c']; [simpl; congruence|].
    destruct Hnext as (Hsib & x & Hx & Hy).
    destruct (splitChain_head b c') as [rest ->].
    split; [congruence|]. exists x. rewrite HhR. split; [done|].
    rewrite Hlow; [done|]. intros ->. apply HR. apply list_elem_of_here.
  - split; [|done]. exists l. split; [by apply Hother|].
    destruct c as [|b c']; [done|].
    destruct Hnext as (Hsib & x & Hx & Hy).
    destruct (splitChain_head b c') as [rest ->].
    split; [done|]. exists x. rewrite Hhigh by done. split; [done|].
    rewrite Hlow; [done|]. intros ->. apply HR. apply list_elem_of_here.
Qed.

End SplitChain.

(** ** The round trip: the halves of a split leaf *)

Lemma leafHolds_take L leaf leafO es m :
  leafHolds L leaf es -> 0 <= m <= L ->
  length (keyArray leafO) = length (keyArray leaf) ->
  length (ridArray leafO) = length (ridArray leaf) ->
  (forall x, 0 <= x < L ->
     slot leafO x = if decide (m <= x < L) then (Some 0, Some zeroRid) else slot leaf x) ->
  leafHolds L leafO (take (Z.to_nat m) es).
Proof.
  intros (Hkl & Hrl & Hlen & Hvalid & Hs) Hm Hk Hr Hsl.
  split; [congruence|]. split; [congruence|]. split; [rewrite length_take; lia|].
  split; [by apply Forall_take|]. intros j Hj. rewrite Hsl by done.
  destruct (decide (m <= j < L)).
  - by rewrite lookup_take_ge by lia.
  - rewrite lookup_take_lt by lia. by apply Hs.
Qed.

Lemma leafHolds_drop L leaf leafR es m :
  leafHolds L leaf es -> 0 <= m <= L ->
  length (keyArray leafR) = Z.to_nat L ->
  length (ridArray leafR) = Z.to_nat L ->
  (forall x, 0 <= x < L ->
     slot leafR x = if decide (0 <= x < L - m) then slot leaf (m + x)
                    else (Some 0, Some zeroRid)) ->
  leafHolds L leafR (drop (Z.to_nat m) es).
Proof.
  intros (Hkl & Hrl & Hlen & Hvalid & Hs) Hm Hk Hr Hsl.
  split; [done|]. split; [done|]. split; [rewrite length_drop; lia|].
  split; [by apply Forall_drop|]. intros j Hj. rewrite Hsl, lookup_drop by done.
  destruct (decide (0 <= j < L - m)).
  - rewrite (Hs (m + j)) by lia. by replace (Z.to_nat (m + j)) with (Z.to_nat m + Z.to_nat j)%nat by lia.
  - by rewrite (proj2 (lookup_ge_None es (Z.to_nat m + Z.to_nat j)%nat)) by lia.
Qed.

Lemma sorted_take (es : list (Z * RecordId)) n : sortedByKey es -> sortedByKey (take n es).
Proof.
  intros Hs. rewrite <- (take_drop n es) in Hs. by apply sortedByKey_app_inv in Hs as (? & _).
Qed.

Lemma sorted_drop (es : list (Z * RecordId)) n : sortedByKey es -> sortedByKey (drop n es).
Proof.
  intros Hs. rewrite <- (take_drop n es) in Hs.
  by apply sortedByKey_app_inv in Hs as (_ & ? & _).
Qed.

(** The place of the key in the half of the full leaf that takes it. *)
Lemma insertPos_right keyValue es a m em :
  sortedByKey es -> insertPos keyValue es a ->
  0 <= m -> es !! Z.to_nat m = Some em -> fst em < keyValue ->
  insertPos keyValue (drop (Z.to_nat m) es) (a - m).
Proof.
  intros Hs (Ha & Hbefore & Hafter) Hm Hem Hlt.
  apply lookup_lt_Some in Hem as Hmlt.
  assert (Hma : m < a).
  { destruct (decide (m < a)); [done|]. exfalso.
    rewrite Forall_lookup in Hafter.
    specialize (Hafter (Z.to_nat m - Z.to_nat a)%nat em). rewrite lookup_drop in Hafter.
    replace (Z.to_nat a + (Z.to_nat m - Z.to_nat a))%nat with (Z.to_nat m) in Hafter by lia.
    specialize (Hafter Hem). lia. }
  split; [rewrite length_drop; lia|]. split.
  - apply Forall_lookup. intros i x Hx. apply lookup_take_Some in Hx as [Hx Hi].
    rewrite lookup_drop in Hx. rewrite Forall_lookup in Hbefore.
    apply (Hbefore (Z.to_nat m + i)%nat x). rewrite lookup_take_lt by lia. done.
  - rewrite drop_drop. by replace (Z.to_nat m + Z.to_nat (a - m))%nat with (Z.to_nat a) by lia.
Qed.

Lemma insertPos_left keyValue es a m em :
  sortedByKey es -> insertPos keyValue es a ->
  0 <= m -> es !! Z.to_nat m = Some em -> keyValue <= fst em ->
  insertPos keyValue (take (Z.to_nat m) es) a.
Proof.
  intros Hs (Ha & Hbefore & Hafter) Hm Hem Hle.
  apply lookup_lt_Some in Hem as Hmlt.
  assert (Ham : a <= m).
  { destruct (decide (a <= m)); [done|]. exfalso.
    rewrite Forall_lookup in Hbefore.
    specialize (Hbefore (Z.to_nat m) em). rewrite lookup_take_lt in Hbefore by lia.
    specialize (Hbefore Hem). lia. }
  split; [rewrite length_take; lia|]. split.
  - rewrite take_take. by replace (Z.to_nat a `min` Z.to_nat m)%nat with (Z.to_nat a) by lia.
  - apply Forall_lookup. intros i x Hx. rewrite lookup_drop in Hx.
    apply lookup_take_Some in Hx as [Hx Hi]. rewrite Forall_lookup in Hafter.
    apply (Hafter i x). by rewrite lookup_drop.
Qed.

(** ** The round trip: the split of a leaf keeps the index well formed *)

Lemma splitLeaf_index L N firstLeaf entries keyValue O a G s out s' leaf g k0 :
  2 <= L -> 3 <= N ->
  indexOk L N firstLeaf entries g (file s) (rootPageNum s) -> keysOk g (file s) ->
  firstLeafOk firstLeaf k0 g ->
  pageAt (file s) O = Some (LeafPage leaf) ->
  L <= Z.of_nat (length (entriesOf g O)) ->
  insertPos keyValue (entriesOf g O) a ->
  aboveLow (lowOf g O) keyValue -> belowHigh (highOf g O) keyValue ->
  splitAt (file s) G O ->
  splitLeaf L N keyValue O O a G s = (Return out, s') ->
  exists g' p a' l',
    out = (p, a', Z.of_nat (length (entriesOf g' p)), O)
    /\ indexOk L N firstLeaf entries g' (file s') (rootPageNum s') /\ keysOk g' (file s')
    /\ pageAt (file s') p = Some (LeafPage l')
    /\ Z.of_nat (length (entriesOf g' p)) < L
    /\ insertPos keyValue (entriesOf g' p) a'
    /\ aboveLow (lowOf g' p) keyValue /\ belowHigh (highOf g' p) keyValue
    /\ firstLeafOk firstLeaf k0 g' /\ (p = firstLeaf -> keyValue < k0).
Proof.
  intros HL HN Hidx Hkeys Hfirst HO Hfull Hpos Hlo Hhi
    (parent & offset & gd & -> & Hgd & Hgo) H.
  pose proof Hidx as (Hst & Hedges & Hrootg & Hleaves & Hnodup & Hchain & Hlinked & Hsep
                      & Hperm).
  destruct (Hleaves _ _ HO) as (Hholds & Hsorted & Hwithin & Hin).
  assert (Hocc : forall j, 0 <= j < L ->
            exists r, at_ (ridArray leaf) j = Some r /\ page_number r <> Page.INVALID_NUMBER).
  { intros j Hj. destruct (lookup_lt_is_Some_2 (entriesOf g O) (Z.to_nat j)) as [e He]; [lia|].
    destruct Hholds as (_ & _ & _ & Hvalid & Hs). specialize (Hs j Hj). rewrite He in Hs.
    unfold slot in Hs. inversion Hs as [[Hk Hr]]. exists (snd e). split; [done|].
    rewrite Forall_forall in Hvalid. apply Hvalid. by eapply list_elem_of_lookup_2. }
  assert (Hsp : splitPoint (file s) (Some (parent, offset)) O).
  { exists parent, offset. split; [done|]. exists gd. done. }
  pose proof (splitLeaf_structure L N firstLeaf keyValue O O a _ s out s' leaf
                HL HN Hst HO Hocc Hsp H) as Hst'.
  pose proof Hst as (Hnl & Hlf & Hroot & Hleft).
  unfold splitLeaf in H.
  apply bindM_Return in H as ([parent' offset'] & ? & [Heq ->]%defined_Return & H).
  inversion Heq; subst parent' offset'. clear Heq.
  apply bindM_Return in H as (pd & ? & [Hpd ->]%asNonLeaf_Return & H).
  apply bindM_Return in H as (pd1 & ? & [Hopen ->]%defined_Return & H).
  apply bindM_Return in H as (leaf' & ? & [Hleaf ->]%asLeaf_Return & H).
  apply bindM_Return in H as (median & ? & [Hmed ->]%defined_Return & H).
  apply bindM_Return in H as (pd2 & ? & [Hkey ->]%defined_Return & H).
  apply bindM_Return in H as (R & s1 & [-> ->]%allocPage_Return & H).
  apply bindM_Return in H as (pd3 & ? & [Hpno ->]%defined_Return & H).
  apply bindM_Return in H as (? & ? & [Hw1 ->]%writePage_Return & H).
  apply bindM_Return in H as ([leafO leafR] & ? & [Hmove ->]%defined_Return & H).
  apply bindM_Return in H as (? & ? & [Hw2 ->]%writePage_Return & H).
  apply bindM_Return in H as (? & ? & [Hw3 ->]%writePage_Return & H).
  assert (pd = gd) as -> by congruence. assert (leaf' = leaf) as -> by congruence.
  clear Hpd Hleaf.
  run_all. simpl in *.
  repeat match goal with u : () |- _ => clear u end.
  set (f := file s) in *. set (R := S (length f)) in *.
  set (m := L / 2) in *.
  assert (Hm : 1 <= m < L).
  { subst m. split; [apply Z.div_le_lower_bound; lia|apply Z.div_lt_upper_bound; lia]. }
  assert (Hmdef : L = 2 * m + L mod 2) by (unfold m; apply Z.div_mod; lia).
  set (es := entriesOf g O) in *.
  assert (Hlen : Z.of_nat (length es) = L) by (destruct Hholds as (_ & _ & ? & _); lia).
  destruct (lookup_lt_is_Some_2 es (Z.to_nat m)) as [em Hem]; [lia|].
  assert (Hmedian : fst em = median).
  { pose proof (leafHolds_key L leaf es m em Hholds Hem ltac:(lia)) as Hk. congruence. }
  assert (Hemin : em ∈ es) by (by eapply list_elem_of_lookup_2).
  pose proof (Hnl _ _ Hgd) as Hgdok. pose proof Hgdok as (Hgkl & Hgpl & _ & Hgch).
  assert (Hins : childInserted N offset median R gd pd3).
  { eapply childInserted_intro; [lia|done|done|]. right. done. }
  assert (HOlt := pageAt_lt _ _ (ex_intro _ _ HO)).
  assert (HPlt := pageAt_lt _ _ (ex_intro _ _ Hgd)).
  assert (HneOP : O <> parent) by (intros ->; congruence).
  assert (HOnz : O <> Page.INVALID_NUMBER) by (unfold Page.INVALID_NUMBER; lia).
  assert (HRnz : R <> Page.INVALID_NUMBER) by done.
  assert (HOR : O <> R) by (subst R; lia).
  assert (HPR : parent <> R) by (subst R; lia).
  set (f3 := setPage (setPage (setPage (f ++ [BlankPage]) parent (NonLeafPage pd3)) O
                        (LeafPage leafO)) R (LeafPage leafR)) in *.
  assert (H3R : pageAt f3 R = Some (LeafPage leafR)) by (by apply pageAt_setPage_eq).
  assert (H3O : pageAt f3 O = Some (LeafPage leafO)).
  { unfold f3. rewrite pageAt_setPage_ne by done. by apply pageAt_setPage_eq. }
  assert (H3P : pageAt f3 parent = Some (NonLeafPage pd3)).
  { unfold f3. rewrite !pageAt_setPage_ne by done. by apply pageAt_setPage_eq. }
  assert (H3other : forall q, q <> parent -> q <> O -> q <> R ->
            pageAt f3 q = pageAt (f ++ [BlankPage]) q).
  { intros. unfold f3. by rewrite !pageAt_setPage_ne. }
  assert (Hinf : forall q, is_Some (pageAt f q) -> q <> R).
  { intros q Hq ->. apply pageAt_lt in Hq. subst R. lia. }
  assert (Hcases : forall q d, pageAt f3 q = Some d ->
            (q = parent /\ d = NonLeafPage pd3) \/ (q = O /\ d = LeafPage leafO)
            \/ (q = R /\ d = LeafPage leafR)
            \/ (q <> parent /\ q <> O /\ q <> R /\ pageAt f q = Some d)).
  { intros q d Hq. destruct (decide (q = parent)) as [->|H1]; [left; split; congruence|].
    destruct (decide (q = O)) as [->|H2]; [right; left; split; congruence|].
    destruct (decide (q = R)) as [->|H3]; [right; right; left; split; congruence|].
    right; right; right. rewrite H3other in Hq by done.
    apply pageAt_snoc_cases in Hq as [[? _]|Hq]; done. }
  assert (Hkeep : forall q d, q <> parent -> q <> O -> pageAt f q = Some d ->
            pageAt f3 q = Some d).
  { intros q d H1 H2 Hq. rewrite H3other; [by apply pageAt_app_blank|done|done|].
    apply Hinf. eauto. }
  (* the halves *)
  apply moveLeafLoop_length in Hmove as Hlens. simpl in Hlens.
  destruct Hlens as [[HlOk HlOr] [HlRk HlRr]].
  rewrite length_replicate in HlRk. rewrite length_replicate in HlRr.
  apply moveLeafLoop_Some in Hmove as (HsibO & HsibR & HslO & HslR). simpl in *.
  rewrite Z2Nat.id in HslO, HslR by lia.
  assert (HholdsO : leafHolds L leafO (take (Z.to_nat m) es)).
  { eapply (leafHolds_take L leaf); [done|lia|done|done|].
    intros x Hx. rewrite HslO.
    destruct (decide (m <= x < m + (L - m))), (decide (m <= x < L)); try lia; done. }
  assert (HholdsR : leafHolds L leafR (drop (Z.to_nat m) es)).
  { eapply (leafHolds_drop L leaf); [done|lia|done|done|].
    intros x Hx. rewrite HslR.
    destruct (decide (0 <= x < 0 + (L - m))), (decide (0 <= x < L - m)); try lia.
    - by replace (m + (x - 0)) with (m + x) by lia.
    - by apply slot_zeroLeaf. }
  (* the bounds after the split *)
  set (g' := leafSplitGhost g O parent R offset median (Z.to_nat m)).
  assert (HparO : parentOf g O = Some (parent, offset)).
  { by destruct (Hedges _ _ _ _ Hgd Hgo HOnz) as (? & _). }
  assert (HgR : parentOf g' R = Some (parent, offset + 1) /\ lowOf g' R = Some median
                /\ highOf g' R = highOf g O).
  { unfold g', leafSplitGhost; simpl. by rewrite !decide_True by done. }
  assert (HgO : parentOf g' O = Some (parent, offset) /\ lowOf g' O = lowOf g O
                /\ highOf g' O = Some median).
  { unfold g', leafSplitGhost; simpl. rewrite HparO.
    rewrite !(decide_False (P := O = R)) by done.
    rewrite (decide_True (P := O = O)) by done.
    rewrite decide_False by lia. done. }
  assert (HeR : entriesOf g' R = drop (Z.to_nat m) es).
  { unfold g', leafSplitGhost; simpl. by rewrite decide_True by done. }
  assert (HeO : entriesOf g' O = take (Z.to_nat m) es).
  { unfold g', leafSplitGhost; simpl. rewrite decide_False by done.
    by rewrite decide_True by done. }
  assert (Hglow : forall q, q <> R -> lowOf g' q = lowOf g q).
  { intros q Hq. unfold g', leafSplitGhost; simpl. by rewrite decide_False by done. }
  assert (Hghigh : forall q, q <> R -> q <> O -> highOf g' q = highOf g q).
  { intros q Hq Hq'. unfold g', leafSplitGhost; simpl. by rewrite !decide_False by done. }
  assert (Hgent : forall q, q <> O -> q <> R -> entriesOf g' q = entriesOf g q).
  { intros q Hq Hq'. unfold g', leafSplitGhost; simpl. by rewrite !decide_False by done. }
  assert (Hgpar : forall q p j, q <> R -> parentOf g q = Some (p, j) ->
            parentOf g' q = if decide (p = parent /\ offset < j) then Some (parent, j + 1)
                            else Some (p, j)).
  { intros q p j Hq Hpar. unfold g', leafSplitGhost; simpl. rewrite Hpar.
    rewrite decide_False by done. done. }
  assert (HRout : R ∉ leafChain g).
  { intros HRin. destruct (linked_leaf _ _ _ R Hlinked HRin) as [l Hl].
    apply (Hinf R); eauto. }
  assert (Hnonleaf : forall q n, pageAt f q = Some (NonLeafPage n) -> q <> R /\ q <> O).
  { intros q n Hq. split; [apply Hinf; eauto|]. intros ->. congruence. }
  assert (Hchild : forall q n i c, pageAt f q = Some (NonLeafPage n) ->
            at_ (pageNoArray n) i = Some c -> c <> Page.INVALID_NUMBER -> c <> R).
  { intros q n i c Hq Hc Hnz. apply Hinf. by eapply structure_child_page. }
  assert (Hmedwithin : aboveLow (lowOf g O) median /\ belowHigh (highOf g O) median).
  { rewrite Forall_forall in Hwithin. rewrite <- Hmedian. by apply Hwithin. }
  assert (Hmedentry : median ∈ map fst entries).
  { rewrite <- Hperm, <- Hmedian. apply list_elem_of_fmap_2.
    by eapply chain_entry. }
  destruct (Hnonleaf _ _ Hgd) as [_ HPO].
  assert (Hidx' : indexOk L N firstLeaf entries g' f3 (rootPageNum s) /\ keysOk g' f3).
  { split; [split; [|split; [|split; [|split; [|split; [|split; [|split; [|split]]]]]]]|].
    - done.
    - (* the edges *)
      intros q n i c Hq Hc Hnz.
      destruct (Hcases _ _ Hq) as [[-> Hd]|[[_ Hd]|[[_ Hd]|(HqP & HqO & HqR & Hq')]]];
        [|done|done|].
      + inversion Hd; subst n.
        eapply (childInserted_edgesOk N offset median R O parent gd pd3 g g'); try done.
        * by eapply nonLeafOk_prefixValid.
        * intros i' c' Hc' Hnz'. by eapply Hedges.
        * intros j c' Hc' Hnz' Hj. destruct (Hedges _ _ _ _ Hgd Hc' Hnz') as (Hpar & _).
          assert (Hc'R : c' <> R) by (by eapply Hchild).
          assert (Hc'O : c' <> O).
          { intros ->. rewrite HparO in Hpar. inversion Hpar. done. }
          rewrite (Hgpar c' parent j) by done.
          rewrite Hglow, Hghigh by done. split; [|done].
          destruct (decide (offset < j)).
          -- by rewrite decide_True by done.
          -- by rewrite decide_False by lia.
        * split; [by apply Hglow|by apply Hghigh].
      + destruct (Hedges _ _ _ _ Hq' Hc Hnz) as (Hpar & Hl & Hh).
        assert (HcR : c <> R) by (by eapply Hchild).
        assert (HcO : c <> O).
        { intros ->. rewrite HparO in Hpar. inversion Hpar. done. }
        unfold edgeOk. rewrite (Hgpar c q i) by done.
        rewrite decide_False by (intros [? _]; done).
        rewrite (Hglow c), (Hglow q), (Hghigh c), (Hghigh q) by done. done.
    - (* the root *)
      destruct Hroot as [rn Hrn]. destruct (Hnonleaf _ _ Hrn) as [HrR HrO].
      destruct Hrootg as (Hr1 & Hr2 & Hr3). unfold rootOk.
      rewrite Hglow, Hghigh by done. split; [|done].
      unfold g', leafSplitGhost; simpl. rewrite Hr1. by rewrite decide_False by done.
    - (* the leaves *)
      intros q l Hq.
      destruct (Hcases _ _ Hq) as [[_ Hd]|[[-> Hd]|[[-> Hd]|(HqP & HqO & HqR & Hq')]]];
        [done| | |].
      + inversion Hd; subst l. rewrite HeO. destruct HgO as (_ & -> & ->).
        split; [done|]. split; [by apply sorted_take|]. split.
        * apply Forall_lookup. intros i x Hx. apply lookup_take_Some in Hx as [Hx Hi].
          rewrite Forall_forall in Hwithin.
          destruct (Hwithin x) as [? _]; [by eapply list_elem_of_lookup_2|].
          split; [done|]. simpl. rewrite <- Hmedian.
          apply (sorted_lookup es i (Z.to_nat m) x em); [done|lia|done|done].
        * unfold g', leafSplitGhost; simpl. apply splitChain_elem. by left.
      + inversion Hd; subst l. rewrite HeR. destruct HgR as (_ & -> & ->).
        split; [done|]. split; [by apply sorted_drop|]. split.
        * apply Forall_lookup. intros i x Hx. rewrite lookup_drop in Hx.
          rewrite Forall_forall in Hwithin.
          destruct (Hwithin x) as [_ ?]; [by eapply list_elem_of_lookup_2|].
          split; [|done]. simpl. rewrite <- Hmedian.
          apply (sorted_lookup es (Z.to_nat m) (Z.to_nat m + i) em x); [done|lia|done|done].
        * unfold g', leafSplitGhost; simpl. apply splitChain_elem. by right.
      + destruct (Hleaves _ _ Hq') as (H1 & H2 & H3 & H4).
        rewrite Hgent, Hglow, Hghigh by done.
        split; [done|]. split; [done|]. split; [done|].
        unfold g', leafSplitGhost; simpl. apply splitChain_elem. by left.
    - unfold g', leafSplitGhost; simpl. by apply splitChain_NoDup.
    - destruct Hchain as [rest Hrest]. unfold g', leafSplitGhost; simpl. rewrite Hrest.
      apply splitChain_head.
    - unfold g', leafSplitGhost at 2; simpl.
      eapply (splitChain_linked O R g g' f f3 leaf leafO leafR median); try done.
      + intros q l HqO HqR Hq. apply Hkeep; [|done|done]. intros ->. congruence.
      + by destruct HgO as (_ & _ & ?).
      + by destruct HgR as (_ & ? & _).
      + by destruct HgR as (_ & _ & ?).
    - (* the keys between children *)
      intros q n i x Hq Hv Hx.
      destruct (Hcases _ _ Hq) as [[-> Hd]|[[_ Hd]|[[_ Hd]|(HqP & HqO & HqR & Hq')]]];
        [|done|done|by eapply Hsep].
      inversion Hd; subst n.
      destruct (childInserted_sepOk N offset median R O gd pd3 i x Hins Hgpl
                  (nonLeafOk_prefixValid _ _ _ Hgdok) Hgo HOnz HRnz Hv Hx)
        as [->|(j' & Hv' & Hx')]; [done|by eapply Hsep].
    - unfold g', leafSplitGhost at 2; simpl.
      rewrite (splitChain_concat O R (entriesOf g) (entriesOf g') (Z.to_nat m)); done.
    - (* the keys of the non-leaves *)
      intros q n Hq.
      destruct (Hcases _ _ Hq) as [[-> Hd]|[[_ Hd]|[[_ Hd]|(HqP & HqO & HqR & Hq')]]];
        [|done|done|].
      + inversion Hd; subst n.
        eapply (childInserted_keysOk N offset median R O parent gd pd3 g g'); try done.
        * by eapply nonLeafOk_prefixValid.
        * intros i' c' Hc' Hnz'. by eapply Hedges.
        * split; [by apply Hglow|by apply Hghigh].
        * by eapply Hkeys.
      + eapply (nodeKeysOk_ext g); [by apply Hglow|by apply Hghigh|by eapply Hkeys]. }
  destruct Hidx' as [Hidx' Hkeys'].
  assert (HFR : firstLeaf <> R).
  { destruct Hchain as [rest Hrest]. intros Heq. apply HRout. rewrite Hrest, <- Heq.
    apply list_elem_of_here. }
  assert (HmedF : O = firstLeaf -> median < k0).
  { intros <-. destruct Hfirst as (Hf1 & _). rewrite Forall_forall in Hf1.
    rewrite <- Hmedian. by apply Hf1. }
  assert (Hfirst' : firstLeafOk firstLeaf k0 g').
  { destruct Hfirst as (Hf1 & Hf2 & Hf3). destruct (decide (firstLeaf = O)) as [->|HFO].
    - unfold firstLeafOk. rewrite HeO. destruct HgO as (_ & _ & ->).
      split; [by apply Forall_take|]. split.
      + intros Hnil. apply (f_equal length) in Hnil. rewrite length_take in Hnil.
        simpl in Hnil. lia.
      + exists median. split; [done|]. specialize (HmedF eq_refl). lia.
    - unfold firstLeafOk. rewrite Hgent, Hghigh by done. done. }
  destruct (Z.gtb_spec keyValue median) as [Hgt|Hle].
  - exists g', R, (a - m), leafR. rewrite HeR, length_drop.
    destruct HgR as (_ & -> & ->).
    split.
    { assert (Heor : (if decide (L `rem` 2 = 0) then m else m + 1)
                     = Z.of_nat (length es - Z.to_nat m)).
      { rewrite Z.rem_mod_nonneg by lia. pose proof (Z.mod_pos_bound L 2 ltac:(lia)).
        destruct (decide (L mod 2 = 0)); lia. }
      by rewrite Heor. }
    split; [done|]. split; [done|]. split; [done|].
    split; [lia|]. split; [|split; [simpl; lia|split; [done|split; [done|]]]].
    + apply (insertPos_right keyValue es a m em); [done|done|lia|done|lia].
    + intros Heq. by destruct HFR.
  - exists g', O, a, leafO. rewrite HeO, length_take.
    destruct HgO as (_ & -> & ->).
    split. { by replace (Z.of_nat (Z.to_nat m `min` length es)) with m by lia. }
    split; [done|]. split; [done|]. split; [done|].
    split; [lia|]. split; [|split; [done|split; [simpl; lia|split; [done|]]]].
    + apply (insertPos_left keyValue es a m em); [done|done|lia|done|lia].
    + intros Heq. specialize (HmedF Heq). lia.
Qed.

(** ** The round trip: the descent of an insert keeps the index well formed *)

Lemma aboveLow_spec b k : aboveLow b k <-> forall x, b = Some x -> x <= k.
Proof.
  destruct b as [y|]; simpl; split; try done.
  - intros H x Hx. inversion Hx; subst. done.
  - intros H. by apply H.
Qed.

Lemma belowHigh_strict b k : (forall x, b = Some x -> k < x) -> belowHigh b k.
Proof. destruct b as [y|]; simpl; [|done]. intros H. specialize (H y eq_refl). lia. Qed.

Lemma sameLeaves_first firstLeaf k0 f f' g g' l :
  sameLeaves f f' g g' -> pageAt f firstLeaf = Some (LeafPage l) ->
  firstLeafOk firstLeaf k0 g -> firstLeafOk firstLeaf k0 g'.
Proof.
  intros (_ & H2 & H3 & _) Hl (Hf1 & Hf2 & Hf3). destruct (H2 _ _ Hl) as [_ Hh].
  unfold firstLeafOk. rewrite H3, Hh. done.
Qed.

Lemma descent_index L N firstLeaf entries keyValue rootPage s out s' g k0 :
  2 <= L -> 3 <= N ->
  indexOk L N firstLeaf entries g (file s) (rootPageNum s) -> keysOk g (file s) ->
  firstLeafOk firstLeaf k0 g ->
  rootPage = rootPageNum s ->
  getPageNoAndOffsetOfKeyInsert L N keyValue rootPage true s = (Return out, s') ->
  exists g' p a' prev l',
    out = (p, a', Z.of_nat (length (entriesOf g' p)), prev)
    /\ indexOk L N firstLeaf entries g' (file s') (rootPageNum s') /\ keysOk g' (file s')
    /\ pageAt (file s') p = Some (LeafPage l')
    /\ Z.of_nat (length (entriesOf g' p)) < L
    /\ insertPos keyValue (entriesOf g' p) a'
    /\ aboveLow (lowOf g' p) keyValue /\ belowHigh (highOf g' p) keyValue
    /\ firstLeafOk firstLeaf k0 g' /\ (p = firstLeaf -> keyValue < k0).
Proof.
  intros HL HN Hidx Hkeys Hfirst -> H.
  pose proof Hidx as (Hst & Hedges & Hrootg & Hleaves & Hnodup & Hchain & Hlinked & Hsep
                      & Hperm).
  pose proof Hst as (Hnl & Hlf & Hroot & Hleft).
  unfold getPageNoAndOffsetOfKeyInsert in H.
  apply bindM_Return in H as (s0 & ? & [-> ->]%get_Return & H).
  apply bindM_Return in H as (rootData & ? & [Hrd ->]%asNonLeaf_Return & H).
  apply bindM_Return in H as ([[c l] path] & s2 & Hw & H).
  assert (Hlv2 : 2 <= level rootData).
  { destruct (Hnl _ _ Hrd) as (_ & _ & (c1 & Hc1 & Hnz) & Hch).
    destruct (Hch _ _ Hc1 Hnz) as [_ Hok]. by eapply childOk_level. }
  pose proof Hw as Hwb.
  eapply (walk_bounds N _ keyValue g (file s)) in Hwb; [|lia|done|done| | |].
  2:{ intros p nd Hp. by destruct (Hnl _ _ Hp) as (_ & ? & _). }
  2:{ destruct Hrootg as (_ & Hr & _). rewrite Hr. done. }
  2:{ destruct Hrootg as (_ & _ & Hr). rewrite Hr. done. }
  destruct Hwb as [Hlow Hhigh].
  eapply (walk_path N _ keyValue _ [] s c l path s2 (level rootData) (rootPageNum s)
            (file s)) in Hw; [| |done| |done|done].
  2:{ intros p nd i ch Hp Hi Hnz. destruct (Hnl _ _ Hp) as (_ & _ & _ & Hch).
      by destruct (Hch _ _ Hi Hnz). }
  2:{ right. split; [done|]. eauto. }
  destruct Hw as (-> & Hf2 & Hr2 & Hll & Hpath & Htop & Hhead).
  rewrite Z2Nat.id in Hll, Hpath by lia.
  replace (level rootData - (level rootData - 1)) with 1 in Hll, Hpath by lia.
  destruct Hhead as (i & p & rest & nd & -> & Hnd & Hci); [lia|].
  apply bindM_Return in H as (leaf & ? & [Hleaf ->]%leafView_Return & H).
  apply bindM_Return in H as ([a e] & ? & [Hpos ->]%defined_Return & H).
  rewrite Hf2 in Hleaf. apply (leafView_leaf _ _ _ _ Hll) in Hleaf.
  destruct (Hleaves _ _ Hleaf) as (Hholds & Hsorted & Hwithin & Hin).
  destruct (leafPosition_holds L keyValue leaf _ a e ltac:(lia) Hholds Hsorted Hpos)
    as [-> Hipos].
  assert (Hklo : aboveLow (lowOf g l) keyValue) by (by apply aboveLow_spec).
  assert (Hkhi : belowHigh (highOf g l) keyValue) by (by apply belowHigh_strict).
  destruct (decide (Z.of_nat (length (entriesOf g l)) = L)) as [Hfull|Hne].
  2:{ run_all. simpl. rewrite Hf2, Hr2. exists g, l, a, l, leaf.
      destruct Hholds as (_ & _ & ? & _).
      split; [done|]. split; [done|]. split; [done|]. split; [done|].
      split; [lia|]. split; [done|]. split; [done|]. split; [done|]. split; [done|].
      intros ->. destruct Hfirst as (_ & _ & h & Hh & Hle). specialize (Hhigh _ Hh). lia. }
  apply bindM_Return in H as (G & s3 & Hprop & H).
  rewrite <- Hf2, <- Hr2 in *.
  eapply (propagate_index L N firstLeaf entries keyValue l leaf _ false None s2 G s3 l 1 g)
    in Hprop; [|done|done|done|done|done| |lia|].
  2:{ unfold pathTop. unfold topIsRoot in Htop.
      destruct (list.last ((i, p) :: rest)) as [[? ?]|]; done. }
  2:{ simpl. split; [done|]. split; [done|]. eauto 10. }
  destruct Hprop as (g1 & Hst3 & (Hedges3 & Hroot3 & Hsep3 & Hkeys3) & Hsame & Hsp & HO3).
  pose proof Hsame as (Hs1 & Hs2 & Hs3 & Hs4).
  destruct (Hs2 _ _ Hleaf) as [Hl1 Hh1].
  assert (Hidx3 : indexOk L N firstLeaf entries g1 (file s3) (rootPageNum s3)).
  { split; [done|]. split; [done|]. split; [done|].
    split; [by eapply sameLeaves_leavesOk|]. rewrite Hs4.
    split; [done|]. split; [done|]. split; [by eapply sameLeaves_linked|].
    split; [done|]. by rewrite Hs3. }
  assert (Hfull1 : L <= Z.of_nat (length (entriesOf g1 l))) by (rewrite Hs3; lia).
  rewrite <- Hs3 in Hipos. rewrite <- Hl1 in Hklo. rewrite <- Hh1 in Hkhi.
  assert (Hfirst1 : firstLeafOk firstLeaf k0 g1).
  { destruct Hchain as [crest Hcrest].
    destruct (linked_leaf _ _ _ firstLeaf Hlinked) as [lf HlF];
      [rewrite Hcrest; apply list_elem_of_here|].
    by eapply sameLeaves_first. }
  destruct (splitLeaf_index L N firstLeaf entries keyValue l a G s3 out s' leaf g1 k0
              HL HN Hidx3 Hkeys3 Hfirst1 HO3 Hfull1 Hipos Hklo Hkhi Hsp H)
    as (g' & p' & a' & l' & Hout & Hidx' & Hkeys' & Hp' & Hroom & Hpos' & Hlo' & Hhi'
        & Hfirst' & Hpk).
  exists g', p', a', l, l'. done.
Qed.

(** An insert into an index with data keeps it well formed, with the
    entry among its entries. *)
Lemma insertEntry_index L N firstLeaf entries keyValue rid s s' g k0 :
  2 <= L -> 3 <= N ->
  page_number rid <> Page.INVALID_NUMBER ->
  indexOk L N firstLeaf entries g (file s) (rootPageNum s) -> keysOk g (file s) ->
  firstLeafOk firstLeaf k0 g ->
  insertEntry L N keyValue rid s = (Return tt, s') ->
  exists g',
    indexOk L N firstLeaf ((keyValue, rid) :: entries) g' (file s') (rootPageNum s')
    /\ keysOk g' (file s') /\ firstLeafOk firstLeaf k0 g'.
Proof.
  intros HL HN Hrid Hidx Hkeys HfirstOk H.
  pose proof Hidx as (Hst & _). pose proof Hst as (Hnl & Hlf & Hroot & Hleft).
  unfold insertEntry, insertKeyTemplate in H.
  apply bindM_Return in H as (s0 & ? & [-> ->]%get_Return & H).
  apply bindM_Return in H as (rootPage & ? & (-> & _ & ->)%readPage_Return & H).
  apply bindM_Return in H as (rd & ? & [Hrd ->]%asNonLeaf_Return & H).
  apply bindM_Return in H as (first & ? & [Hfirst ->]%defined_Return & H).
  simpl in Hrd.
  destruct (decide (first = Page.INVALID_NUMBER)) as [->|Hnz].
  { exfalso. destruct (Hnl _ _ Hrd) as (_ & _ & (c1 & Hc1 & Hnz1) & Hch).
    destruct (Hch _ _ Hc1 Hnz1) as [Hpre _].
    destruct (Hpre 0) as (c0 & Hc0 & Hnz0); [lia|]. congruence. }
  apply bindM_Return in H as ([[[dataPageNum insertAt] eor] prev] & s1 & Hd & H).
  eapply (descent_index L N firstLeaf entries keyValue _ _ _ s1 g k0) in Hd;
    [|done|done|done|done|done|done].
  destruct Hd as (g1 & p & a' & prev' & l1 & Hout & Hidx1 & Hkeys1 & Hp & Hroom & Hpos
                  & Hlo & Hhi & Hfirst1 & Hpk).
  inversion Hout; subst dataPageNum insertAt eor prev'. clear Hout.
  apply bindM_Return in H as (tempPage & ? & (-> & _ & ->)%readPage_Return & H).
  apply bindM_Return in H as (leaf & ? & [Hleaf ->]%asLeaf_Return & H).
  apply bindM_Return in H as (leaf' & ? & [Hins ->]%defined_Return & H).
  apply bindM_Return in H as (? & ? & [_ ->]%writePage_Return & H).
  apply unPinPage_Return in H. subst s'. simpl in *.
  assert (leaf = l1) as -> by congruence.
  exists (insertGhost g1 p (Z.to_nat a') (keyValue, rid)).
  by apply (leafInsert_index L N firstLeaf entries g1 (file s1) (rootPageNum s1) p l1 leaf'
              keyValue rid a' k0).
Qed.

(** ** The round trip: the first insert builds a well-formed index *)

Lemma firstInsert_index L N keyValue rid m s s' :
  1 <= L -> 1 <= N ->
  page_number rid <> Page.INVALID_NUMBER ->
  file s = [MetaPage m; NonLeafPage (setLevel 1 (zeroNonLeaf N))] ->
  rootPageNum s = 2%nat ->
  insertEntry L N keyValue rid s = (Return tt, s') ->
  indexOk L N 3%nat [(keyValue, rid)] (firstGhost keyValue rid) (file s') (rootPageNum s')
  /\ keysOk (firstGhost keyValue rid) (file s')
  /\ firstLeafOk 3%nat keyValue (firstGhost keyValue rid).
Proof.
  intros HL HN Hrid Hfile Hroot H.
  pose proof (firstInsert_structure L N keyValue rid m s s' HL HN Hrid Hfile Hroot H) as Hst.
  unfold insertEntry, insertKeyTemplate in H.
  apply bindM_Return in H as (s0 & ? & [-> ->]%get_Return & H).
  apply bindM_Return in H as (rootPage & ? & (-> & _ & ->)%readPage_Return & H).
  apply bindM_Return in H as (rd & ? & [Hrd ->]%asNonLeaf_Return & H).
  apply bindM_Return in H as (first & ? & [Hfirst ->]%defined_Return & H).
  simpl in Hrd. rewrite Hroot, Hfile in Hrd. inversion Hrd; subst rd. clear Hrd.
  assert (first = Page.INVALID_NUMBER) as ->.
  { change (at_ (pageNoArray (zeroNonLeaf N)) 0 = Some first) in Hfirst.
    destruct (zeroNonLeaf_pageNo N 0) as [Hz|Hz]; rewrite Hfirst in Hz;
      by inversion Hz. }
  destruct (decide _) as [_|]; [|done].
  apply bindM_Return in H as (lessKey & ? & [-> ->]%allocPage_Return & H).
  apply bindM_Return in H as (rd1 & ? & [Hrd1 ->]%defined_Return & H).
  apply bindM_Return in H as (greaterKey & ? & [-> ->]%allocPage_Return & H).
  apply bindM_Return in H as (rd2 & ? & [Hrd2 ->]%defined_Return & H).
  apply bindM_Return in H as (? & ? & [_ ->]%writePage_Return & H).
  apply bindM_Return in H as (? & ? & ->%unPinPage_Return & H).
  apply bindM_Return in H as (right & ? & [Hright ->]%defined_Return & H).
  apply bindM_Return in H as (? & ? & [_ ->]%writePage_Return & H).
  apply bindM_Return in H as (? & ? & ->%unPinPage_Return & H).
  apply bindM_Return in H as (rd3 & ? & [Hrd3 ->]%defined_Return & H).
  apply bindM_Return in H as (? & ? & [_ ->]%writePage_Return & H).
  apply unPinPage_Return in H. subst s'. simpl in Hst |- *.
  rewrite Hroot, Hfile in Hst |- *. simpl in Hst |- *.
  repeat match goal with u : () |- _ => clear u end.
  set (left := setRightSib 4%nat (zeroLeaf L)) in *.
  assert (Hf' : setPage (setPage (setPage [MetaPage m; NonLeafPage (setLevel 1 (zeroNonLeaf N));
                    BlankPage; BlankPage] 3%nat (LeafPage left)) 4%nat (LeafPage right))
                  2%nat (NonLeafPage rd3)
                = [MetaPage m; NonLeafPage rd3; LeafPage left; LeafPage right]) by done.
  rewrite Hf' in Hst |- *. clear Hf'.
  rewrite ?Hfile in Hrd1. rewrite ?Hfile in Hrd2. simpl in Hrd1, Hrd2.
  apply setPageNo_at in Hrd1 as (_ & Hk1 & Ha1).
  apply setPageNo_at in Hrd2 as (_ & Hk2 & Ha2).
  apply setKey_at in Hrd3 as (Hlv3 & Hpn3 & Hkey3).
  simpl in *.
  assert (Hat : forall j, at_ (pageNoArray rd3) j =
            if decide (j = 1) then Some 4%nat
            else if decide (j = 0) then Some 3%nat
            else at_ (pageNoArray (zeroNonLeaf N)) j).
  { intros j. rewrite Hpn3, Ha2, Ha1, !Hfile. done. }
  set (f' := [MetaPage m; NonLeafPage rd3; LeafPage left; LeafPage right]) in *.
  set (g := firstGhost keyValue rid).
  assert (Hnon : forall q n, pageAt f' q = Some (NonLeafPage n) -> q = 2%nat /\ n = rd3).
  { intros q n Hq. destruct q as [|[|[|[|[|q]]]]]; unfold pageAt, f' in Hq; simpl in Hq;
      try done. by inversion Hq. }
  assert (Hlf : forall q l, pageAt f' q = Some (LeafPage l) ->
                  (q = 3%nat /\ l = left) \/ (q = 4%nat /\ l = right)).
  { intros q l Hq. destruct q as [|[|[|[|[|q]]]]]; unfold pageAt, f' in Hq; simpl in Hq;
      try done; [left|right]; by inversion Hq. }
  assert (Hchild : forall i c, at_ (pageNoArray rd3) i = Some c -> c <> Page.INVALID_NUMBER ->
                     (i = 1 /\ c = 4%nat) \/ (i = 0 /\ c = 3%nat)).
  { intros i c Hc Hnz. rewrite Hat in Hc.
    destruct (decide (i = 1)); [left; split; congruence|].
    destruct (decide (i = 0)); [right; split; congruence|].
    destruct (zeroNonLeaf_pageNo N i) as [Hz|Hz]; rewrite Hc in Hz;
      inversion Hz; subst; done. }
  assert (Hnv : forall i, nextValid rd3 i = true -> i = 0 \/ i = -1).
  { intros i Hv. apply nextValid_true in Hv as (c & Hc & Hnz).
    destruct (Hchild _ _ Hc Hnz) as [[? _]|[? _]]; lia. }
  assert (Hnv0 : nextValid rd3 0 = true).
  { apply nextValid_true. exists 4%nat. split; [|done]. by rewrite Hat. }
  assert (Hnv1 : nextValid rd3 1 = false).
  { destruct (nextValid rd3 1) eqn:E; [|done]. apply Hnv in E. lia. }
  assert (Hk0 : at_ (nlKeyArray rd3) 0 = Some keyValue).
  { rewrite Hkey3. by rewrite decide_True by done. }
  assert (Hkneg : forall x, at_ (nlKeyArray rd3) (-1) = Some x -> False).
  { intros x Hx. assert (0 <= -1) by (apply (at_length (nlKeyArray rd3) (-1)); eauto). lia. }
  assert (HslotL : forall j, 0 <= j < L -> slot left j = (Some 0, Some zeroRid)).
  { intros j Hj. by apply slot_zeroLeaf. }
  pose proof (setEntry_length _ _ _ _ _ Hright) as [HlR1 HlR2]. simpl in HlR1, HlR2.
  rewrite length_replicate in HlR1. rewrite length_replicate in HlR2.
  apply setEntry_Some in Hright as [HsibR HslR].
  split; [split; [|split; [|split; [|split; [|split; [|split; [|split; [|split]]]]]]]|split].
  11:{ split; [constructor|]. split; [done|]. exists keyValue. split; [done|lia]. }
  - done.
  - intros q n i c Hq Hc Hnz. destruct (Hnon _ _ Hq) as [-> ->].
    destruct (Hchild _ _ Hc Hnz) as [[-> ->]|[-> ->]].
    + split; [done|]. split; [|by rewrite Hnv1].
      rewrite decide_False by done. change (1 - 1) with 0. by rewrite Hk0.
    + split; [done|]. split; [done|]. by rewrite Hnv0, Hk0.
  - done.
  - assert (HE3 : entriesOf g 3%nat = []) by done.
    assert (HE4 : entriesOf g 4%nat = [(keyValue, rid)]) by done.
    assert (HL4 : lowOf g 4%nat = Some keyValue) by done.
    assert (HH4 : highOf g 4%nat = None) by done.
    intros q l Hq. destruct (Hlf _ _ Hq) as [[-> ->]|[-> ->]]; [rewrite HE3|rewrite HE4, HL4, HH4].
    + split.
      { split; [apply length_replicate|]. split; [apply length_replicate|].
        split; [simpl; lia|]. split; [constructor|]. intros j Hj.
        rewrite HslotL by done. by rewrite lookup_nil. }
      split; [constructor|]. split; [constructor|].
      apply list_elem_of_here.
    + split.
      { split; [done|]. split; [done|]. split; [simpl; lia|].
        split; [by repeat constructor|]. intros j Hj. rewrite HslR.
        destruct (decide (j = 0)) as [->|]; [done|].
        change (zeroLeaf L) with (setRightSib Page.INVALID_NUMBER (zeroLeaf L)).
        rewrite slot_zeroLeaf by done.
        destruct (Z.to_nat j) as [|j'] eqn:E; [lia|]. done. }
      split; [by repeat constructor|]. split.
      { constructor; [|constructor]. simpl. split; [lia|done]. }
      apply list_elem_of_further, list_elem_of_here.
  - apply NoDup_cons. split; [|apply NoDup_singleton].
    intros Hin. apply list_elem_of_singleton in Hin. done.
  - by exists [4%nat].
  - split; [|split; [|done]].
    + exists left. split; [done|]. split; [done|]. by exists keyValue.
    + exists right. split; [done|]. done.
  - intros q n i x Hq Hv Hx. destruct (Hnon _ _ Hq) as [-> ->].
    destruct (Hnv _ Hv) as [->| ->]; [|by destruct (Hkneg x)].
    rewrite Hk0 in Hx. inversion Hx; subst x. apply list_elem_of_here.
  - done.
  - intros q n Hq. destruct (Hnon _ _ Hq) as [-> ->]. split.
    + intros i x Hv Hx. done.
    + intros i j x y Hij Hv Hx Hy. destruct (Hnv _ Hv) as [->| ->]; [|lia].
      assert (i = 0) as -> by lia. rewrite Hk0 in Hx, Hy. inversion Hx; inversion Hy; lia.
Qed.

(** ** The round trip: every run of inserts builds a well-formed index *)

Lemma insertAll_index L N firstLeaf k0 rest : forall entries s s' g,
  2 <= L -> 3 <= N ->
  Forall (fun e => page_number (snd e) <> Page.INVALID_NUMBER) rest ->
  indexOk L N firstLeaf entries g (file s) (rootPageNum s) -> keysOk g (file s) ->
  firstLeafOk firstLeaf k0 g ->
  insertAll L N rest s = (Return tt, s') ->
  exists g',
    indexOk L N firstLeaf (rev rest ++ entries) g' (file s') (rootPageNum s')
    /\ keysOk g' (file s') /\ firstLeafOk firstLeaf k0 g'.
Proof.
  induction rest as [|[k r] rest IH]; intros entries s s' g HL HN Hrids Hidx Hkeys Hfirst H.
  - apply ret_Return in H as [_ ->]. exists g. done.
  - rewrite insertAll_cons in H. apply bindM_Return in H as ([] & s1 & H1 & H).
    apply Forall_cons in Hrids as [Hr Hrest]. simpl in Hr.
    destruct (insertEntry_index L N firstLeaf entries k r s s1 g k0 HL HN Hr Hidx Hkeys
                Hfirst H1) as (g1 & Hidx1 & Hkeys1 & Hfirst1).
    destruct (IH _ s1 s' g1 HL HN Hrest Hidx1 Hkeys1 Hfirst1 H)
      as (g' & Hidx' & Hkeys' & Hfirst').
    exists g'. simpl. rewrite <- app_assoc. done.
Qed.

Lemma indexOk_perm L N firstLeaf entries entries' g f root :
  entries ≡ₚ entries' ->
  indexOk L N firstLeaf entries g f root -> indexOk L N firstLeaf entries' g f root.
Proof.
  intros Hp (H1 & H2 & H3 & H4 & H5 & H6 & H7 & H8 & H9).
  repeat (split; [done|]). split.
  - intros p n i x Hq Hv Hx. rewrite <- Hp. by eapply H8.
  - by rewrite <- Hp.
Qed.

Lemma insertAll_fresh_index L N k r rest s' :
  2 <= L -> 3 <= N ->
  Forall (fun e => page_number (snd e) <> Page.INVALID_NUMBER) ((k, r) :: rest) ->
  insertAll L N ((k, r) :: rest) (freshIndex N) = (Return tt, s') ->
  exists g,
    indexOk L N 3%nat ((k, r) :: rest) g (file s') (rootPageNum s')
    /\ keysOk g (file s') /\ firstLeafOk 3%nat k g.
Proof.
  intros HL HN Hrids H. rewrite insertAll_cons in H.
  apply bindM_Return in H as ([] & s1 & H1 & H).
  apply Forall_cons in Hrids as [Hr Hrest]. simpl in Hr.
  destruct (freshIndex_state N) as [Hf Hroot].
  assert (HL1 : 1 <= L) by lia. assert (HN1 : 1 <= N) by lia.
  pose proof (firstInsert_index L N k r _ (freshIndex N) s1 HL1 HN1 Hr Hf Hroot H1)
    as (Hidx1 & Hkeys1 & Hfirst1).
  destruct (insertAll_index L N 3%nat k rest [(k, r)] s1 s' _ HL HN Hrest Hidx1 Hkeys1
              Hfirst1 H) as (g' & Hidx' & Hkeys' & Hfirst').
  exists g'. split; [|done]. eapply indexOk_perm; [|exact Hidx'].
  rewrite Permutation_app_comm. simpl. by rewrite <- Permutation_rev.
Qed.

(** ** The entries of the chain of leaves, read off the pages *)

Lemma filter_zip_holds (ks : list Z) : forall (rs : list RecordId) (es : list (Z * RecordId)),
  length ks = length rs -> (length es <= length ks)%nat ->
  Forall validRid es ->
  (forall j, (j < length ks)%nat ->
     (ks !! j, rs !! j) = match es !! j with
                          | Some e => (Some (fst e), Some (snd e))
                          | None => (Some 0, Some zeroRid)
                          end) ->
  filter (fun e => page_number (snd e) <> Page.INVALID_NUMBER) (zip ks rs) = es.
Proof.
  induction ks as [|k ks IH]; intros rs es Hlen Hle Hvalid Hs.
  - destruct es; [done|simpl in Hle; lia].
  - destruct rs as [|r rs]; [done|]. simpl.
    pose proof (Hs 0%nat ltac:(simpl; lia)) as H0. simpl in H0.
    destruct es as [|e es].
    + inversion H0; subst k r. rewrite filter_cons_False by (simpl; tauto).
      apply IH; [simpl in Hlen; lia|simpl; lia|done|].
      intros j Hj. apply (Hs (S j)). simpl. lia.
    + inversion H0; subst k r. apply Forall_cons in Hvalid as [He Hvalid].
      rewrite filter_cons_True by done. destruct e as [k r]. simpl. f_equal.
      apply IH; [simpl in Hlen; lia|simpl in Hle; lia|done|].
      intros j Hj. apply (Hs (S j)). simpl. lia.
Qed.

Lemma leafHolds_entries L l es : 0 <= L -> leafHolds L l es -> leafEntries l = es.
Proof.
  intros HL (Hkl & Hrl & Hlen & Hvalid & Hs). unfold leafEntries.
  apply filter_zip_holds; [congruence|lia|done|].
  intros j Hj. specialize (Hs (Z.of_nat j) ltac:(lia)). rewrite Nat2Z.id in Hs.
  rewrite <- Hs. unfold slot, at_.
  destruct (Z.ltb_spec (Z.of_nat j) 0); [lia|]. by rewrite Nat2Z.id.
Qed.

Lemma chainEntries_linked L g f c : forall a fuel,
  0 <= L -> linked g f (a :: c) ->
  (forall b l, b ∈ a :: c -> pageAt f b = Some (LeafPage l) -> leafHolds L l (entriesOf g b)) ->
  (length (a :: c) <= fuel)%nat ->
  chainEntries f fuel a = concat (map (entriesOf g) (a :: c)).
Proof.
  induction c as [|b c IH]; intros a fuel HL [(l & Hl & Hnext) Hrest] Hholds Hfuel.
  - destruct fuel as [|fuel]; [simpl in Hfuel; lia|]. simpl. rewrite Hl, Hnext.
    rewrite (leafHolds_entries L l (entriesOf g a)); [|done|].
    2:{ apply Hholds; [apply list_elem_of_here|done]. }
    destruct fuel; simpl; by rewrite ?pageAt_zero.
  - destruct fuel as [|fuel]; [simpl in Hfuel; lia|].
    destruct Hnext as [Hsib _].
    change (chainEntries f (S fuel) a)
      with (match pageAt f a with
            | Some (LeafPage l) => leafEntries l ++ chainEntries f fuel (rightSibPageNo l)
            | _ => []
            end).
    rewrite Hl, Hsib.
    rewrite (leafHolds_entries L l (entriesOf g a)); [|done|].
    2:{ apply Hholds; [apply list_elem_of_here|done]. }
    rewrite (IH b fuel); [done|done|done| |simpl in *; lia].
    intros d ld Hd. apply Hholds. by apply list_elem_of_further.
Qed.

Lemma chain_length (f : list PageData) (c : list PageId) :
  NoDup c -> (forall a, a ∈ c -> is_Some (pageAt f a)) -> (length c <= length f)%nat.
Proof.
  intros Hnd Hin.
  assert (Hsub : c ⊆+ seq 1 (length f)).
  { apply NoDup_submseteq; [done|]. intros a Ha. apply elem_of_seq.
    pose proof (pageAt_lt _ _ (Hin a Ha)). lia. }
  apply submseteq_length in Hsub. by rewrite length_seq in Hsub.
Qed.

(** ** The first leaf and the key of the first insert *)

Lemma firstLeaf_empty_bound L N firstLeaf entries g f root k0 :
  1 <= L ->
  indexOk L N firstLeaf entries g f root -> firstLeafOk firstLeaf k0 g ->
  entriesOf g firstLeaf = [] -> Forall (fun e => k0 <= fst e) entries.
Proof.
  intros HL Hidx (_ & Hf2 & _) Hempty.
  pose proof Hidx as (Hst & _ & _ & Hleaves & Hnodup & [rest Hchain] & Hlinked & _ & Hperm).
  rewrite Hchain in *. rewrite <- Hperm. simpl. rewrite Hempty. simpl.
  destruct rest as [|b c]; [constructor|].
  destruct Hlinked as [(l & Hl & Hsib & x & Hx & Hy) Hrest].
  rewrite (Hf2 Hempty) in Hx. inversion Hx; subst x.
  apply NoDup_cons in Hnodup as [HF Hnodup].
  assert (Hne : forall d, d ∈ b :: c -> entriesOf g d <> []).
  { intros d Hd. destruct (linked_leaf _ _ _ d Hrest Hd) as [ld Hld].
    eapply (leaf_not_first_holds L N firstLeaf f root g d ld); try done.
    intros ->. done. }
  destruct (chain_sorted g f c b Hrest) as [_ Hlow].
  { intros d Hd. destruct (linked_leaf _ _ _ d Hrest Hd) as [ld Hld].
    destruct (Hleaves _ _ Hld) as (_ & ? & ? & _). done. }
  { intros d Hd. apply Hne. by apply list_elem_of_further. }
  specialize (Hlow (Hne b ltac:(apply list_elem_of_here))).
  rewrite Hy in Hlow. eapply Forall_impl; [exact Hlow|]. done.
Qed.

Lemma firstLeaf_holds_iff L N firstLeaf entries g f root k0 :
  1 <= L ->
  indexOk L N firstLeaf entries g f root -> firstLeafOk firstLeaf k0 g ->
  entriesOf g firstLeaf <> [] <-> exists e, e ∈ entries /\ fst e < k0.
Proof.
  intros HL Hidx Hfirst. split.
  - intros Hne. destruct (entriesOf g firstLeaf) as [|e es] eqn:E; [done|].
    exists e. destruct Hfirst as (Hf1 & _). rewrite E in Hf1.
    apply Forall_cons in Hf1 as [He _]. split; [|done].
    destruct Hidx as (_ & _ & _ & _ & _ & [rest Hchain] & _ & _ & Hperm).
    rewrite <- Hperm. apply (chain_entry g _ firstLeaf).
    + rewrite Hchain. apply list_elem_of_here.
    + rewrite E. apply list_elem_of_here.
  - intros (e & He & Hlt) Hempty.
    pose proof (firstLeaf_empty_bound L N firstLeaf entries g f root k0 HL Hidx Hfirst Hempty)
      as Hall.
    rewrite Forall_forall in Hall. specialize (Hall _ He). lia.
Qed.

(** ** A scan that starts on an empty first leaf *)

Lemma bindM_throw {A B} (m : M A) (k : A -> M B) s e s1 :
  m s = (Throw e, s1) -> bindM m k s = (Throw e, s1).
Proof. unfold bindM. intros ->. done. Qed.

(** [startScanTemplate] with a lower bound below every key, on an index
    whose first leaf is empty: the test of the upper bound reads slot 0 or 1
    of the first leaf, which holds key 0, not the entry under the cursor. *)
Lemma startScanTemplate_stale L N f lowVal highVal s firstLeaf leaf :
  2 <= L ->
  file s = f ->
  structureOk L N firstLeaf f (rootPageNum s) ->
  (forall p nd, pageAt f p = Some (NonLeafPage nd) -> childIndex N lowVal nd = Some 0) ->
  pageAt f firstLeaf = Some (LeafPage leaf) ->
  leafHolds L leaf [] ->
  is_Some (pageAt f (rightSibPageNo leaf)) ->
  (highVal < 0 \/ (highOp s = LT /\ highVal = 0)) ->
  exists s', startScanTemplate L N lowVal highVal s = (Throw NoSuchKeyFoundException, s').
Proof.
  intros HL Hf Hst Hci Hleaf Hholds Hsib Hhigh.
  pose proof Hst as (Hnl & Hlf & [rd Hrd] & Hleft).
  assert (Hslot : forall j, 0 <= j < L ->
            at_ (keyArray leaf) j = Some 0 /\ at_ (ridArray leaf) j = Some zeroRid).
  { intros j Hj. destruct Hholds as (_ & _ & _ & _ & Hs). specialize (Hs j Hj).
    rewrite lookup_nil in Hs. unfold slot in Hs. by inversion Hs. }
  destruct (Hslot 0 ltac:(lia)) as [Hk0 Hr0]. destruct (Hslot 1 ltac:(lia)) as [Hk1 Hr1].
  assert (Hnz : rightSibPageNo leaf <> Page.INVALID_NUMBER).
  { intros Hz. rewrite Hz in Hsib. destruct Hsib as [? Hsib].
    by rewrite pageAt_zero in Hsib. }
  edestruct (descent_leftmost L N f lowVal
               (withBuf (rootPageNum s :: pinned s) (events s ++ [EvRead (rootPageNum s)])
                        (withBounds lowVal highVal s)) firstLeaf leaf [])
    as (pins & evs & Hd); try done; [lia|].
  destruct s as [f0 pins0 evs0 hp rp se ne cpn cpd lv hv lop hop]. simpl in *. subst f0.
  unfold startScanTemplate.
  erewrite bindM_run by reflexivity.
  erewrite bindM_run by reflexivity.
  erewrite bindM_run by (apply readPage_run; simpl; eauto).
  erewrite bindM_run by exact Hd. cbv beta iota.
  destruct (decide (firstLeaf = firstLeaf)) as [_|]; [|done].
  erewrite bindM_run by (apply readPage_run; simpl; eauto).
  erewrite bindM_run by reflexivity.
  erewrite bindM_run by (by apply leafView_run).
  erewrite bindM_run by (by apply defined_run).
  destruct (decide (page_number zeroRid = Page.INVALID_NUMBER)) as [_|]; [|done].
  destruct (decide (Page.INVALID_NUMBER = rightSibPageNo leaf)) as [|_]; [done|].
  unfold moveToSibling.
  erewrite bindM_run.
  2:{ erewrite bindM_run by reflexivity.
      erewrite bindM_run by apply unPinPage_run.
      erewrite bindM_run by reflexivity.
      erewrite bindM_run by (by apply readPage_run).
      reflexivity. }
  simpl.
  assert (Hfinal : forall k : Z,
            k = 0 ->
            ((k >? highVal) = true
             \/ ((k >? highVal) = false
                 /\ bool_decide (hop = LT) && bool_decide (k = highVal) = true))).
  { intros k ->. destruct Hhigh as [Hneg|[-> ->]].
    - left. by apply Z.gtb_lt.
    - right. split; [done|]. by rewrite !bool_decide_eq_true_2. }
  destruct (decide (lop = GT)) as [HGT|HnGT]; [destruct (decide (0 = lowVal)) as [H0|H0]|].
  - erewrite bindM_run.
    2:{ erewrite bindM_run by reflexivity. simpl. rewrite decide_True by done.
        erewrite bindM_run by (by apply leafView_run).
        erewrite bindM_run by (by apply defined_run).
        rewrite decide_True by done. rewrite decide_False by lia. reflexivity. }
    erewrite bindM_run by reflexivity.
    erewrite bindM_run by (by apply leafView_run).
    erewrite bindM_run by (by apply defined_run).
    simpl. destruct (Hfinal 0 eq_refl) as [->|[-> ->]].
    + erewrite bindM_run by apply unPinPage_run. by eexists.
    + erewrite bindM_run by apply unPinPage_run. by eexists.
  - erewrite bindM_run.
    2:{ erewrite bindM_run by reflexivity. simpl. rewrite decide_True by done.
        erewrite bindM_run by (by apply leafView_run).
        erewrite bindM_run by (by apply defined_run).
        rewrite decide_False by done. reflexivity. }
    erewrite bindM_run by reflexivity.
    erewrite bindM_run by (by apply leafView_run).
    erewrite bindM_run by (by apply defined_run).
    simpl. destruct (Hfinal 0 eq_refl) as [->|[-> ->]].
    + erewrite bindM_run by apply unPinPage_run. by eexists.
    + erewrite bindM_run by apply unPinPage_run. by eexists.
  - erewrite bindM_run.
    2:{ erewrite bindM_run by reflexivity. simpl. rewrite decide_False by done.
        reflexivity. }
    erewrite bindM_run by reflexivity.
    erewrite bindM_run by (by apply leafView_run).
    erewrite bindM_run by (by apply defined_run).
    simpl. destruct (Hfinal 0 eq_refl) as [->|[-> ->]].
    + erewrite bindM_run by apply unPinPage_run. by eexists.
    + erewrite bindM_run by apply unPinPage_run. by eexists.
Qed.

Lemma startScan_stale L N f lowVal lowOpParm highVal highOpParm s firstLeaf leaf :
  2 <= L ->
  file s = f ->
  structureOk L N firstLeaf f (rootPageNum s) ->
  (forall p nd, pageAt f p = Some (NonLeafPage nd) -> childIndex N lowVal nd = Some 0) ->
  pageAt f firstLeaf = Some (LeafPage leaf) ->
  leafHolds L leaf [] ->
  is_Some (pageAt f (rightSibPageNo leaf)) ->
  (lowOpParm = GT \/ lowOpParm = GTE) -> (highOpParm = LT \/ highOpParm = LTE) ->
  lowVal <= highVal ->
  (highVal < 0 \/ (highOpParm = LT /\ highVal = 0)) ->
  exists s',
    startScan L N lowVal lowOpParm highVal highOpParm s
    = (Throw NoSuchKeyFoundException, s').
Proof.
  intros HL Hf Hst Hci Hleaf Hholds Hsib Hlo Hho Hrange Hhigh.
  unfold startScan. erewrite bindM_run by reflexivity.
  assert (Hend : exists s0, (if scanExecuting s then endScan else ret tt) s = (Return tt, s0)
                   /\ file s0 = f /\ rootPageNum s0 = rootPageNum s).
  { destruct (scanExecuting s) eqn:Hact.
    - destruct (endScan_run s Hact) as (s0 & ? & ? & ?). exists s0.
      split; [done|]. split; congruence.
    - by exists s. }
  destruct Hend as (s0 & Hend & Hf0 & Hr0).
  erewrite bindM_run by exact Hend.
  replace (negb (bool_decide (lowOpParm = GT) || bool_decide (lowOpParm = GTE))
           || negb (bool_decide (highOpParm = LT) || bool_decide (highOpParm = LTE)))
    with false.
  2:{ destruct Hlo as [-> | ->], Hho as [-> | ->]; done. }
  destruct (Z.gtb_spec lowVal highVal); [lia|].
  erewrite bindM_run by reflexivity.
  destruct (startScanTemplate_stale L N f lowVal highVal
              (withOps lowOpParm highOpParm s0) firstLeaf leaf)
    as (s1 & Hrun); try done.
  { simpl. by rewrite Hr0. }
  erewrite bindM_throw by exact Hrun. by eexists.
Qed.

(** The first leaf is empty, and has a right sibling, when no key is below
    the key of the first insert. *)
Lemma firstLeaf_empty L N firstLeaf entries g f root k0 :
  1 <= L -> entries <> [] ->
  indexOk L N firstLeaf entries g f root -> firstLeafOk firstLeaf k0 g ->
  Forall (fun e => k0 <= fst e) entries ->
  exists leaf, pageAt f firstLeaf = Some (LeafPage leaf)
    /\ leafHolds L leaf [] /\ is_Some (pageAt f (rightSibPageNo leaf)).
Proof.
  intros HL Hne Hidx Hfirst Hall.
  assert (Hempty : entriesOf g firstLeaf = []).
  { destruct (entriesOf g firstLeaf) as [|e es] eqn:E; [done|]. exfalso.
    destruct (proj1 (firstLeaf_holds_iff L N firstLeaf entries g f root k0 HL Hidx Hfirst))
      as (e' & He' & Hlt); [by rewrite E|].
    rewrite Forall_forall in Hall. specialize (Hall _ He'). lia. }
  destruct Hidx as (_ & _ & _ & Hleaves & _ & [rest Hchain] & Hlinked & _ & Hperm).
  rewrite Hchain in *.
  destruct Hlinked as [(leaf & Hleaf & Hnext) Hrest].
  destruct (Hleaves _ _ Hleaf) as (Hholds & _). rewrite Hempty in Hholds.
  exists leaf. split; [done|]. split; [done|].
  destruct rest as [|b c].
  - simpl in Hperm. rewrite Hempty in Hperm. simpl in Hperm.
    apply Permutation_nil_l in Hperm. done.
  - destruct Hnext as [-> _]. destruct Hrest as [(lb & Hlb & _) _]. eauto.
Qed.

(** ** A scan that starts past the first entry *)

(** [scanNextTemplate] with the cursor on the first unoccupied slot of a
    leaf: when key 0 passes the upper bound, the record id of the empty slot
    is returned and the cursor moves to the right sibling. *)
Lemma scanNextTemplate_blank L f highVal highOpParm s p l es j :
  cursorAt s f highVal highOpParm (Some p) j ->
  pageAt f p = Some (LeafPage l) -> leafHolds L l es ->
  j = Z.of_nat (length es) -> j < L ->
  ~ upperFails highOpParm 0 highVal ->
  (rightSibPageNo l = Page.INVALID_NUMBER \/ is_Some (pageAt f (rightSibPageNo l))) ->
  exists s',
    scanNextTemplate L s = (Return zeroRid, s')
    /\ scanExecuting s' = scanExecuting s
    /\ cursorAt s' f highVal highOpParm
         (if decide (rightSibPageNo l = Page.INVALID_NUMBER) then None
          else Some (rightSibPageNo l)) 0.
Proof.
  intros (Hf & Hhv & Hho & Hcp & Hne) Hp (Hkl & Hrl & Hlen & Hvalid & Hslots) Hj HjL Hlt Hsib.
  assert (Hblank : forall i, j <= i < L ->
            at_ (keyArray l) i = Some 0 /\ at_ (ridArray l) i = Some zeroRid).
  { intros i Hi. pose proof (Hslots i ltac:(lia)) as Hs.
    rewrite (proj2 (lookup_ge_None es (Z.to_nat i))) in Hs by lia.
    unfold slot in Hs. by inversion Hs. }
  destruct (Hblank j ltac:(lia)) as [Hk Hr].
  unfold scanNextTemplate. erewrite bindM_run by reflexivity. rewrite Hcp.
  erewrite bindM_run by (apply asLeaf_run; by rewrite Hf).
  rewrite Hne. erewrite bindM_run by (by apply defined_run).
  rewrite Hhv, Hho. rewrite upperFails_dec in Hlt.
  destruct (bool_decide (highOpParm = LT) && (0 >=? highVal)); [done|].
  destruct (bool_decide (highOpParm = LTE) && (0 >? highVal)); [done|].
  erewrite bindM_run by (by apply defined_run).
  assert (Hlast :
    (if decide (j + 1 = L) then ret true
     else bindM (defined (at_ (ridArray l) (j + 1)))
            (fun r => ret (bool_decide (page_number r = Page.INVALID_NUMBER)))) s
    = (Return true, s)).
  { destruct (decide (j + 1 = L)) as [HjL'|HjL']; [done|].
    destruct (Hblank (j + 1) ltac:(lia)) as [_ Hr1].
    erewrite bindM_run by (by apply defined_run). done. }
  erewrite bindM_run by exact Hlast.
  destruct (decide (rightSibPageNo l = Page.INVALID_NUMBER)) as [Hz|Hnz].
  - erewrite bindM_run.
    2:{ erewrite bindM_run by reflexivity.
        erewrite bindM_run by apply unPinPage_run.
        erewrite bindM_run by reflexivity.
        destruct (decide (rightSibPageNo l = Page.INVALID_NUMBER)); [|done].
        reflexivity. }
    unfold ret. eexists. split; [reflexivity|]. done.
  - destruct Hsib as [?|Hsib]; [done|].
    erewrite bindM_run.
    2:{ erewrite bindM_run by reflexivity.
        erewrite bindM_run by apply unPinPage_run.
        erewrite bindM_run by reflexivity.
        destruct (decide (rightSibPageNo l = Page.INVALID_NUMBER)); [done|].
        erewrite bindM_run by (apply readPage_run; simpl; by rewrite Hf).
        reflexivity. }
    unfold ret. eexists. split; [reflexivity|]. done.
Qed.

Lemma scanNext_blank L f highVal highOpParm s p l es j :
  scanExecuting s = true ->
  cursorAt s f highVal highOpParm (Some p) j ->
  pageAt f p = Some (LeafPage l) -> leafHolds L l es ->
  j = Z.of_nat (length es) -> j < L ->
  0 < highVal ->
  (rightSibPageNo l = Page.INVALID_NUMBER \/ is_Some (pageAt f (rightSibPageNo l))) ->
  exists s',
    scanNext L s = (Return zeroRid, s')
    /\ scanExecuting s' = true
    /\ cursorAt s' f highVal highOpParm
         (if decide (rightSibPageNo l = Page.INVALID_NUMBER) then None
          else Some (rightSibPageNo l)) 0.
Proof.
  intros Hact Hcur Hp Hholds Hj HjL Hhigh Hsib.
  destruct (scanNextTemplate_blank L f highVal highOpParm s p l es j)
    as (s' & Hrun & Hact' & Hcur'); try done.
  { intros [[_ ?]|[_ ?]]; lia. }
  exists s'. unfold scanNext. erewrite bindM_run by reflexivity. rewrite Hact.
  split; [done|]. split; [congruence|done].
Qed.

(** The scan of a chain of non-empty leaves from slot [j] of its first
    leaf. *)
Lemma drain_chain_from L g f highVal highOpParm c p s j :
  scanExecuting s = true ->
  cursorAt s f highVal highOpParm (Some p) j ->
  0 <= j < Z.of_nat (length (entriesOf g p)) ->
  linked g f (p :: c) ->
  (forall a l, a ∈ p :: c -> pageAt f a = Some (LeafPage l) ->
     leafHolds L l (entriesOf g a) /\ entriesOf g a <> []
     /\ Forall (fun e => fst e < highVal) (entriesOf g a)) ->
  exists s', forall fuel,
    (length (concat (map (entriesOf g) (p :: c))) < fuel)%nat ->
    drain L fuel s
    = (Return (map snd (drop (Z.to_nat j) (entriesOf g p))
               ++ map snd (concat (map (entriesOf g) c))), s').
Proof.
  intros Hact Hcur Hj [(l & Hl & Hlink) Hrest] Hleaves.
  destruct (Hleaves p l) as (Hholds & Hne & Hhigh); [apply list_elem_of_here|done|].
  set (n := (length (entriesOf g p) - Z.to_nat j - 1)%nat).
  destruct c as [|b c].
  - destruct (drain_leaf L f highVal highOpParm p l (entriesOf g p) n j s)
      as (s1 & Hact1 & Hcur1 & Hd); try done; try lia; try by left.
    destruct (decide _) in Hcur1; [|done].
    exists s1. intros fuel Hfuel. simpl in Hfuel. rewrite app_nil_r in Hfuel.
    replace fuel with (S n + S (fuel - S (S n)))%nat by lia.
    apply Hd. apply drain_end; [done|]. by destruct Hcur1 as (_ & _ & _ & ? & _).
  - destruct Hlink as (Hsib & _).
    pose proof Hrest as [(lb & Hlb & _) _].
    destruct (drain_leaf L f highVal highOpParm p l (entriesOf g p) n j s)
      as (s1 & Hact1 & Hcur1 & Hd); try done; try lia.
    { right. rewrite Hsib. eauto. }
    assert (Hnz : rightSibPageNo l <> Page.INVALID_NUMBER).
    { rewrite Hsib. intros Hz. rewrite Hz in Hlb. by rewrite pageAt_zero in Hlb. }
    destruct (decide _) in Hcur1; [done|]. rewrite Hsib in Hcur1.
    destruct (drain_chain L g f highVal highOpParm c b s1 Hact1 Hcur1 Hrest) as (s' & Hall).
    { intros a la Ha. apply Hleaves. by apply list_elem_of_further. }
    exists s'. intros fuel Hfuel.
    change (concat (map (entriesOf g) (p :: b :: c)))
      with (entriesOf g p ++ concat (map (entriesOf g) (b :: c))) in Hfuel.
    rewrite length_app in Hfuel.
    replace fuel with (S n + (fuel - S n))%nat by lia.
    apply Hd. apply Hall. lia.
Qed.

(** [startScanTemplate] with lower bound 0 and operator [GT], on an index
    whose first leaf is empty: key 0 of the empty slot equals the bound, so
    the cursor, already on the right sibling, is moved on to slot 1. *)
Lemma startScanTemplate_skip L N f highVal s firstLeaf leaf :
  2 <= L ->
  file s = f ->
  structureOk L N firstLeaf f (rootPageNum s) ->
  (forall p nd, pageAt f p = Some (NonLeafPage nd) -> childIndex N 0 nd = Some 0) ->
  pageAt f firstLeaf = Some (LeafPage leaf) ->
  leafHolds L leaf [] ->
  is_Some (pageAt f (rightSibPageNo leaf)) ->
  lowOp s = GT -> 0 < highVal ->
  exists s',
    startScanTemplate L N 0 highVal s = (Return tt, s')
    /\ scanExecuting s' = scanExecuting s
    /\ cursorAt s' f highVal (highOp s) (Some (rightSibPageNo leaf)) 1.
Proof.
  intros HL Hf Hst Hci Hleaf Hholds Hsib HGT Hhigh.
  pose proof Hst as (Hnl & Hlf & [rd Hrd] & Hleft).
  assert (Hslot : forall j, 0 <= j < L ->
            at_ (keyArray leaf) j = Some 0 /\ at_ (ridArray leaf) j = Some zeroRid).
  { intros j Hj. destruct Hholds as (_ & _ & _ & _ & Hs). specialize (Hs j Hj).
    rewrite lookup_nil in Hs. unfold slot in Hs. by inversion Hs. }
  destruct (Hslot 0 ltac:(lia)) as [Hk0 Hr0]. destruct (Hslot 1 ltac:(lia)) as [Hk1 Hr1].
  assert (Hnz : rightSibPageNo leaf <> Page.INVALID_NUMBER).
  { intros Hz. rewrite Hz in Hsib. destruct Hsib as [? Hsib].
    by rewrite pageAt_zero in Hsib. }
  edestruct (descent_leftmost L N f 0
               (withBuf (rootPageNum s :: pinned s) (events s ++ [EvRead (rootPageNum s)])
                        (withBounds 0 highVal s)) firstLeaf leaf [])
    as (pins & evs & Hd); try done; [lia|].
  destruct s as [f0 pins0 evs0 hp rp se ne cpn cpd lv hv lop hop]. simpl in *. subst f0 lop.
  unfold startScanTemplate.
  erewrite bindM_run by reflexivity.
  erewrite bindM_run by reflexivity.
  erewrite bindM_run by (apply readPage_run; simpl; eauto).
  erewrite bindM_run by exact Hd. cbv beta iota.
  destruct (decide (firstLeaf = firstLeaf)) as [_|]; [|done].
  erewrite bindM_run by (apply readPage_run; simpl; eauto).
  erewrite bindM_run by reflexivity.
  erewrite bindM_run by (by apply leafView_run).
  erewrite bindM_run by (by apply defined_run).
  destruct (decide (page_number zeroRid = Page.INVALID_NUMBER)) as [_|]; [|done].
  destruct (decide (Page.INVALID_NUMBER = rightSibPageNo leaf)) as [|_]; [done|].
  unfold moveToSibling.
  erewrite bindM_run.
  2:{ erewrite bindM_run by reflexivity.
      erewrite bindM_run by apply unPinPage_run.
      erewrite bindM_run by reflexivity.
      erewrite bindM_run by (by apply readPage_run).
      reflexivity. }
  simpl.
  erewrite bindM_run.
  2:{ erewrite bindM_run by reflexivity. simpl. rewrite decide_True by done.
      erewrite bindM_run by (by apply leafView_run).
      erewrite bindM_run by (by apply defined_run).
      rewrite decide_True by done. rewrite decide_False by lia. reflexivity. }
  erewrite bindM_run by reflexivity.
  erewrite bindM_run by (by apply leafView_run).
  erewrite bindM_run by (by apply defined_run).
  simpl. destruct (Z.gtb_spec 0 highVal); [lia|].
  rewrite (bool_decide_eq_false_2 (0 = highVal)) by lia. rewrite andb_false_r.
  eexists. split; [reflexivity|]. done.
Qed.

Lemma startScan_skip L N f highVal highOpParm s firstLeaf leaf :
  2 <= L ->
  file s = f ->
  structureOk L N firstLeaf f (rootPageNum s) ->
  (forall p nd, pageAt f p = Some (NonLeafPage nd) -> childIndex N 0 nd = Some 0) ->
  pageAt f firstLeaf = Some (LeafPage leaf) ->
  leafHolds L leaf [] ->
  is_Some (pageAt f (rightSibPageNo leaf)) ->
  (highOpParm = LT \/ highOpParm = LTE) ->
  0 < highVal ->
  exists s',
    startScan L N 0 GT highVal highOpParm s = (Return tt, s')
    /\ scanExecuting s' = true
    /\ cursorAt s' f highVal highOpParm (Some (rightSibPageNo leaf)) 1.
Proof.
  intros HL Hf Hst Hci Hleaf Hholds Hsib Hho Hhigh.
  unfold startScan. erewrite bindM_run by reflexivity.
  assert (Hend : exists s0, (if scanExecuting s then endScan else ret tt) s = (Return tt, s0)
                   /\ file s0 = f /\ rootPageNum s0 = rootPageNum s).
  { destruct (scanExecuting s) eqn:Hact.
    - destruct (endScan_run s Hact) as (s0 & ? & ? & ?). exists s0.
      split; [done|]. split; congruence.
    - by exists s. }
  destruct Hend as (s0 & Hend & Hf0 & Hr0).
  erewrite bindM_run by exact Hend.
  replace (negb (bool_decide (GT = GT) || bool_decide (GT = GTE))
           || negb (bool_decide (highOpParm = LT) || bool_decide (highOpParm = LTE)))
    with false.
  2:{ destruct Hho as [-> | ->]; done. }
  destruct (Z.gtb_spec 0 highVal); [lia|].
  erewrite bindM_run by reflexivity.
  destruct (startScanTemplate_skip L N f highVal
              (withOps GT highOpParm s0) firstLeaf leaf)
    as (s1 & Hrun & Hact1 & Hcur1); try done.
  { simpl. by rewrite Hr0. }
  erewrite bindM_run by exact Hrun.
  eexists. split; [reflexivity|]. split; [done|]. done.
Qed.

(** The scan with lower bound 0 and operator [GT] of a well-formed index
    whose first leaf is empty. *)
Lemma scanAll_skip L N entries g s highVal highOpParm fuel firstLeaf :
  2 <= L -> 1 <= N -> entries <> [] ->
  indexOk L N firstLeaf entries g (file s) (rootPageNum s) ->
  (highOpParm = LT \/ highOpParm = LTE) ->
  Forall (fun e => 0 < fst e < highVal) entries ->
  entriesOf g firstLeaf = [] ->
  (length entries < fuel)%nat ->
  let es := concat (map (entriesOf g) (leafChain g)) in
  exists leaf lb s',
    pageAt (file s) firstLeaf = Some (LeafPage leaf) /\ leafEntries leaf = []
    /\ pageAt (file s) (rightSibPageNo leaf) = Some (LeafPage lb)
    /\ leafEntries lb <> [] /\ leafEntries lb = take (length (leafEntries lb)) es
    /\ scanAll L N fuel 0 GT highVal highOpParm s
       = (Return ((if decide (length (leafEntries lb) = 1%nat) then [zeroRid] else [])
                  ++ map snd (tail es)), s').
Proof.
  intros HL HN Hne (Hst & Hedges & Hroot & Hleaves & Hnodup & [rest Hchain] & Hlinked
                    & Hsep & Hperm) Hho Hrange Hempty Hfuel es.
  subst es. rewrite Hchain in *.
  assert (Hin : forall a e, a ∈ firstLeaf :: rest -> e ∈ entriesOf g a ->
                  0 < fst e < highVal).
  { intros a e Ha He. rewrite Forall_forall in Hrange. apply Hrange.
    rewrite <- Hperm. by eapply chain_entry. }
  apply NoDup_cons in Hnodup as [HFrest Hnodup].
  assert (Hrestne : forall a, a ∈ rest -> entriesOf g a <> []).
  { intros a Ha. destruct (linked_leaf _ _ _ a Hlinked) as [l Hl];
      [by apply list_elem_of_further|].
    eapply (leaf_not_first_holds L N firstLeaf (file s) (rootPageNum s) g a l); try done;
      [lia|]. intros ->. done. }
  assert (Hall : forall a l, a ∈ rest -> pageAt (file s) a = Some (LeafPage l) ->
            leafHolds L l (entriesOf g a) /\ entriesOf g a <> []
            /\ Forall (fun e => fst e < highVal) (entriesOf g a)).
  { intros a l Ha Hl. destruct (Hleaves _ _ Hl) as (? & _). split; [done|].
    split; [by apply Hrestne|].
    apply Forall_forall. intros e He.
    destruct (Hin a e) as [_ ?]; [by apply list_elem_of_further|done|done]. }
  assert (Hhigh : 0 < highVal).
  { destruct entries as [|e ?]; [done|]. apply Forall_cons in Hrange as [? _]. lia. }
  destruct Hlinked as [(leaf & Hleaf & Hnext) Hlinked].
  destruct (Hleaves _ _ Hleaf) as (Hholds & _). rewrite Hempty in Hholds.
  simpl in Hperm |- *. rewrite Hempty in Hperm |- *. simpl in Hperm |- *.
  destruct rest as [|b c].
  { simpl in Hperm. apply Permutation_nil_l in Hperm. done. }
  destruct Hnext as [Hsib _]. pose proof Hlinked as [(lb & Hlb & Hnextb) Hlinkedc].
  destruct (startScan_skip L N (file s) highVal highOpParm s firstLeaf leaf)
    as (s1 & Hrun & Hact & Hcur); try done.
  { intros p nd Hp. eapply (childIndex_below L N firstLeaf entries); try done.
    eapply Forall_impl; [exact Hrange|]. simpl. intros; lia. }
  { rewrite Hsib. eauto. }
  rewrite Hsib in Hcur.
  unfold scanAll. erewrite bindM_run by exact Hrun.
  destruct (Hall b lb) as (Hholdsb & Hneb & Hhighb); [apply list_elem_of_here|done|].
  assert (Hlenperm : length (concat (map (entriesOf g) (b :: c))) = length entries).
  { by apply Permutation_length. }
  change (concat (map (entriesOf g) (b :: c)))
    with (entriesOf g b ++ concat (map (entriesOf g) c)) in *.
  pose proof (leafHolds_entries L leaf [] ltac:(lia) Hholds) as Hlf0.
  pose proof (leafHolds_entries L lb _ ltac:(lia) Hholdsb) as Hles.
  assert (Hfirst : take (length (entriesOf g b))
                     (entriesOf g b ++ concat (map (entriesOf g) c)) = entriesOf g b).
  { by rewrite take_app_length. }
  exists leaf, lb. rewrite Hsib, Hles, Hfirst.
  destruct (entriesOf g b) as [|e1 [|e2 eb]] eqn:Eb; [done| |].
  - (* the cursor is on an empty slot *)
    assert (Hsibb : rightSibPageNo lb = Page.INVALID_NUMBER
                    \/ is_Some (pageAt (file s) (rightSibPageNo lb))).
    { destruct c as [|d c']; [by left|]. right. destruct Hnextb as [-> _].
      destruct Hlinkedc as [(ld & Hld & _) _]. eauto. }
    destruct (scanNext_blank L (file s) highVal highOpParm s1 b lb [e1] 1)
      as (s2 & Hstep & Hact2 & Hcur2); try done; try lia.
    simpl. destruct c as [|d c'].
    + assert (Hz : rightSibPageNo lb = Page.INVALID_NUMBER) by done.
      rewrite decide_True in Hcur2 by done.
      exists s2. do 5 (split; [done|]). simpl in Hfuel.
      destruct fuel as [|[|fuel]]; [lia|simpl in Hlenperm; lia|].
      eapply drain_cons; [exact Hstep|]. apply drain_end; [done|].
      by destruct Hcur2 as (_ & _ & _ & ? & _).
    + destruct Hnextb as [Hsibd _]. pose proof Hlinkedc as [(ld & Hld & _) _].
      assert (Hnzd : rightSibPageNo lb <> Page.INVALID_NUMBER).
      { rewrite Hsibd. intros Hz. rewrite Hz in Hld. by rewrite pageAt_zero in Hld. }
      rewrite decide_False in Hcur2 by done. rewrite Hsibd in Hcur2.
      destruct (drain_chain L g (file s) highVal highOpParm c' d s2 Hact2 Hcur2 Hlinkedc)
        as (s' & Hd).
      { intros a la Ha. apply Hall. by apply list_elem_of_further. }
      exists s'. do 5 (split; [done|]). destruct fuel as [|fuel]; [lia|].
      eapply drain_cons; [exact Hstep|]. apply Hd.
      rewrite length_app in Hlenperm. change (length [e1]) with 1%nat in Hlenperm. lia.
  - (* the cursor is on the second entry *)
    rewrite <- Eb in *.
    destruct (drain_chain_from L g (file s) highVal highOpParm c b s1 1 Hact Hcur)
      as (s' & Hd); [rewrite Eb; simpl; lia|done| |].
    { intros a la Ha. by apply Hall. }
    exists s'. do 5 (split; [done|]).
    rewrite decide_False by (rewrite Eb; simpl; lia). rewrite app_nil_l.
    replace (tail (entriesOf g b ++ concat (map (entriesOf g) c)))
      with (drop 1 (entriesOf g b) ++ concat (map (entriesOf g) c)) by (by rewrite Eb).
    rewrite map_app. apply Hd.
    change (concat (map (entriesOf g) (b :: c)))
      with (entriesOf g b ++ concat (map (entriesOf g) c)). lia.
Qed.

(** * Inserts return *)

(** ** The loops stay within the arrays *)

Lemma put_is_Some {A} (a : list A) (i : Z) (x : A) :
  0 <= i < Z.of_nat (length a) -> is_Some (put a i x).
Proof. intros H. rewrite put_in_range by done. eauto. Qed.

Lemma setKey_total i k n :
  0 <= i < Z.of_nat (length (nlKeyArray n)) -> exists n', setKey i k n = Some n'.
Proof. intros H. unfold setKey. rewrite put_in_range by done. simpl. eauto. Qed.

Lemma setPageNo_total i p n :
  0 <= i < Z.of_nat (length (pageNoArray n)) -> exists n', setPageNo i p n = Some n'.
Proof. intros H. unfold setPageNo. rewrite put_in_range by done. simpl. eauto. Qed.

Lemma setEntry_total i k r l :
  0 <= i < Z.of_nat (length (keyArray l)) -> 0 <= i < Z.of_nat (length (ridArray l)) ->
  exists l', setEntry i k r l = Some l'.
Proof.
  intros H1 H2. unfold setEntry. rewrite !put_in_range by done. simpl. eauto.
Qed.

Lemma firstInvalidLoop_total a fuel k :
  0 <= k -> k + Z.of_nat fuel <= Z.of_nat (length a) ->
  is_Some (firstInvalidLoop a fuel k).
Proof.
  revert k. induction fuel as [|fuel IH]; intros k Hk Hlen; simpl; [eauto|].
  destruct (at_in_range a k) as [p ->]; [lia|]. simpl.
  destruct (decide _); [eauto|]. apply IH; lia.
Qed.

Lemma firstInvalid_total N n offset :
  length (pageNoArray n) = Z.to_nat (N + 1) -> 0 <= offset <= N + 1 ->
  is_Some (firstInvalid N n offset).
Proof. intros Hlen Ho. apply firstInvalidLoop_total; lia. Qed.

Lemma shiftLoop_total N fuel : forall k n,
  length (nlKeyArray n) = Z.to_nat N -> length (pageNoArray n) = Z.to_nat (N + 1) ->
  k <= N -> is_Some (shiftLoop fuel k n).
Proof.
  induction fuel as [|fuel IH]; intros k n Hkl Hpl Hk; simpl; [eauto|].
  assert (H1 : exists n1, (if 0 <=? k - 1
                           then p ← at_ (pageNoArray n) (k - 1); setPageNo k p n
                           else Some n) = Some n1 /\ sameShape n n1).
  { destruct (Z.leb_spec 0 (k - 1)); [|eauto using sameShape_refl].
    destruct (at_in_range (pageNoArray n) (k - 1)) as [p ->]; [lia|]. simpl.
    destruct (setPageNo_total k p n) as [n1 Hn1]; [lia|].
    eauto using setPageNo_shape. }
  destruct H1 as (n1 & -> & (_ & Hkl1 & Hpl1)). simpl.
  assert (H2 : exists n2, (if 0 <=? k - 2
                           then x ← at_ (nlKeyArray n1) (k - 2); setKey (k - 1) x n1
                           else Some n1) = Some n2 /\ sameShape n1 n2).
  { destruct (Z.leb_spec 0 (k - 2)); [|eauto using sameShape_refl].
    destruct (at_in_range (nlKeyArray n1) (k - 2)) as [x ->]; [lia|]. simpl.
    destruct (setKey_total (k - 1) x n1) as [n2 Hn2]; [lia|].
    eauto using setKey_shape. }
  destruct H2 as (n2 & -> & (_ & Hkl2 & Hpl2)). simpl.
  apply IH; [congruence|congruence|lia].
Qed.

(** A slot can be opened in a non-leaf whose last child slot is free. *)
Lemma openSlot_total N offset n :
  length (nlKeyArray n) = Z.to_nat N -> length (pageNoArray n) = Z.to_nat (N + 1) ->
  0 <= offset <= N -> hasRoom N n ->
  (forall i c, at_ (pageNoArray n) i = Some c -> c <> Page.INVALID_NUMBER ->
     forall j, 0 <= j <= i ->
       exists c', at_ (pageNoArray n) j = Some c' /\ c' <> Page.INVALID_NUMBER) ->
  is_Some (openSlot N offset n).
Proof.
  intros Hkl Hpl Ho Hroom Hpre. unfold openSlot.
  destruct (firstInvalid_total N n offset) as [k Hk]; [done|lia|].
  rewrite Hk. simpl. apply (shiftLoop_total N); [done|done|].
  apply firstInvalid_Some in Hk as (Hle & Hmax & Hvalid & _).
  destruct (decide (k <= N)); [done|]. exfalso.
  destruct (Hvalid N) as (c & Hc & Hnz); [lia|]. unfold hasRoom in Hroom. congruence.
Qed.

Lemma moveNonLeafLoop_total N fuel : forall i j p r,
  length (nlKeyArray p) = Z.to_nat N -> length (pageNoArray p) = Z.to_nat (N + 1) ->
  length (nlKeyArray r) = Z.to_nat N -> length (pageNoArray r) = Z.to_nat (N + 1) ->
  0 <= i -> i + Z.of_nat fuel <= N -> 0 <= j -> j + Z.of_nat fuel <= N ->
  is_Some (moveNonLeafLoop fuel i j p r).
Proof.
  induction fuel as [|fuel IH]; intros i j p r Hpk Hpp Hrk Hrp Hi Hif Hj Hjf; simpl;
    [eauto|].
  destruct (at_in_range (nlKeyArray p) i) as [k ->]; [lia|]. simpl.
  destruct (setKey_total j k r) as [r1 Hr1]; [lia|]. rewrite Hr1. simpl.
  destruct (setKey_shape _ _ _ _ Hr1) as (_ & Hr1k & Hr1p).
  destruct (at_in_range (pageNoArray p) (i + 1)) as [c ->]; [lia|]. simpl.
  destruct (setPageNo_total (j + 1) c r1) as [r2 Hr2]; [lia|]. rewrite Hr2. simpl.
  destruct (setPageNo_shape _ _ _ _ Hr2) as (_ & Hr2k & Hr2p).
  destruct (setKey_total i 0 p) as [p1 Hp1]; [lia|]. rewrite Hp1. simpl.
  destruct (setKey_shape _ _ _ _ Hp1) as (_ & Hp1k & Hp1p).
  destruct (setPageNo_total (i + 1) Page.INVALID_NUMBER p1) as [p2 Hp2]; [lia|].
  rewrite Hp2. simpl.
  destruct (setPageNo_shape _ _ _ _ Hp2) as (_ & Hp2k & Hp2p).
  apply IH; try lia; congruence.
Qed.

(** A non-leaf of the declared sizes can be split. *)
Lemma splitNonLeaf_total N pd :
  1 <= N ->
  length (nlKeyArray pd) = Z.to_nat N -> length (pageNoArray pd) = Z.to_nat (N + 1) ->
  is_Some (splitNonLeaf N pd).
Proof.
  intros HN Hkl Hpl. unfold splitNonLeaf.
  assert (Hm : 0 <= N / 2 < N).
  { pose proof (Z.div_mod N 2 ltac:(lia)). pose proof (Z.mod_pos_bound N 2 ltac:(lia)). lia. }
  destruct (moveNonLeafLoop_total N (Z.to_nat (N - (N / 2 + 1))) (N / 2 + 1) 0 pd
              (setLevel (level pd) (zeroNonLeaf N))) as [[p1 r1] Hmv]; try done; try lia.
  { simpl. rewrite length_replicate. done. }
  { simpl. rewrite length_replicate. done. }
  rewrite Hmv. simpl.
  destruct (moveNonLeafLoop_shape _ _ _ _ _ _ _ Hmv) as [(_ & Hp1k & Hp1p) (_ & Hr1k & Hr1p)].
  simpl in Hr1k, Hr1p. rewrite length_replicate in Hr1k. rewrite length_replicate in Hr1p.
  destruct (at_in_range (pageNoArray p1) (N / 2 + 1)) as [c ->]; [lia|]. simpl.
  destruct (setPageNo_total 0 c r1) as [r2 ->]; [lia|]. simpl.
  destruct (setPageNo_total (N / 2 + 1) Page.INVALID_NUMBER p1) as [p2 Hp2]; [lia|].
  rewrite Hp2. simpl.
  destruct (setPageNo_shape _ _ _ _ Hp2) as (_ & Hp2k & Hp2p).
  destruct (setKey_total (N / 2) 0 p2) as [p3 ->]; [lia|]. simpl. eauto.
Qed.

Lemma childLoop_total N keyValue cur fuel : forall i,
  length (nlKeyArray cur) = Z.to_nat N -> length (pageNoArray cur) = Z.to_nat (N + 1) ->
  0 <= i -> i + Z.of_nat fuel <= N ->
  (exists c, at_ (pageNoArray cur) i = Some c /\ c <> Page.INVALID_NUMBER) ->
  exists i', childLoop keyValue cur fuel i = Some i'
    /\ exists c, at_ (pageNoArray cur) i' = Some c /\ c <> Page.INVALID_NUMBER.
Proof.
  induction fuel as [|fuel IH]; intros i Hkl Hpl Hi Hif Hv; simpl; [eauto|].
  destruct (at_in_range (pageNoArray cur) (i + 1)) as [p Hp]; [lia|]. rewrite Hp. simpl.
  destruct (decide (p = Page.INVALID_NUMBER)); [eauto|].
  destruct (at_in_range (nlKeyArray cur) i) as [k ->]; [lia|]. simpl.
  destruct (k <=? keyValue); [|eauto]. apply IH; try done; try lia. eauto.
Qed.

(** The walk finds a child at every well-formed non-leaf. *)
Lemma childIndex_total N f keyValue cur :
  1 <= N -> nonLeafOk N f cur ->
  exists i c, childIndex N keyValue cur = Some i
    /\ at_ (pageNoArray cur) i = Some c /\ c <> Page.INVALID_NUMBER.
Proof.
  intros HN (Hkl & Hpl & (c1 & Hc1 & Hnz1) & Hch). unfold childIndex.
  destruct (at_in_range (nlKeyArray cur) 0) as [k0 ->]; [lia|]. simpl.
  destruct (Hch _ _ Hc1 Hnz1) as [Hpre _].
  destruct (Hpre 0 ltac:(lia)) as (c0 & Hc0 & Hnz0).
  destruct (keyValue <? k0); [eauto|].
  destruct (childLoop_total N keyValue cur (Z.to_nat N) 0) as (i & Hi & c & Hc & Hnz);
    try done; try lia; eauto.
Qed.

Lemma leafLoop_total L insert keyValue d fuel : forall i a,
  length (keyArray d) = Z.to_nat L -> length (ridArray d) = Z.to_nat L ->
  0 <= i -> i + Z.of_nat fuel <= L ->
  is_Some (leafLoop L insert keyValue d fuel i a).
Proof.
  induction fuel as [|fuel IH]; intros i a Hkl Hrl Hi Hif; simpl; [eauto|].
  destruct (at_in_range (ridArray d) i) as [r ->]; [lia|]. simpl.
  destruct (decide _); [eauto|].
  destruct (at_in_range (keyArray d) i) as [k ->]; [lia|]. simpl.
  destruct (keyValue >? k); [apply IH; try done; lia|].
  destruct (decide _); [destruct insert; [apply IH; try done; lia|eauto]|].
  apply IH; try done; lia.
Qed.

Lemma moveLeafLoop_total L fuel : forall i j l r,
  length (keyArray l) = Z.to_nat L -> length (ridArray l) = Z.to_nat L ->
  length (keyArray r) = Z.to_nat L -> length (ridArray r) = Z.to_nat L ->
  0 <= i -> i + Z.of_nat fuel <= L -> 0 <= j -> j + Z.of_nat fuel <= L ->
  is_Some (moveLeafLoop fuel i j l r).
Proof.
  induction fuel as [|fuel IH]; intros i j l r Hlk Hlr Hrk Hrr Hi Hif Hj Hjf; simpl;
    [eauto|].
  destruct (at_in_range (keyArray l) i) as [k ->]; [lia|]. simpl.
  destruct (at_in_range (ridArray l) i) as [x ->]; [lia|]. simpl.
  destruct (setEntry_total j k x r) as [r1 Hr1]; [lia|lia|]. rewrite Hr1. simpl.
  destruct (setEntry_length _ _ _ _ _ Hr1) as [Hr1k Hr1r].
  destruct (setEntry_total i 0 (zeroRid) l) as [l1 Hl1]; [lia|lia|]. rewrite Hl1. simpl.
  destruct (setEntry_length _ _ _ _ _ Hl1) as [Hl1k Hl1r].
  apply IH; try lia; congruence.
Qed.

Lemma shiftLeafLoop_total L fuel : forall j l,
  length (keyArray l) = Z.to_nat L -> length (ridArray l) = Z.to_nat L ->
  Z.of_nat fuel <= j -> j < L ->
  is_Some (shiftLeafLoop fuel j l).
Proof.
  induction fuel as [|fuel IH]; intros j l Hk Hr Hfj HjL; simpl; [eauto|].
  destruct (at_in_range (ridArray l) (j - 1)) as [r ->]; [lia|]. simpl.
  destruct (at_in_range (keyArray l) (j - 1)) as [k ->]; [lia|]. simpl.
  destruct (setEntry_total j k r l) as [l1 Hl1]; [lia|lia|]. rewrite Hl1. simpl.
  destruct (setEntry_length _ _ _ _ _ Hl1) as [Hl1k Hl1r].
  apply IH; try lia; congruence.
Qed.

(** An entry can be put into a leaf that has a free slot. *)
Lemma insertIntoLeaf_total L keyValue rid a e l :
  length (keyArray l) = Z.to_nat L -> length (ridArray l) = Z.to_nat L ->
  0 <= a <= e -> e < L ->
  is_Some (insertIntoLeaf keyValue rid a e l).
Proof.
  intros Hk Hr Ha He. unfold insertIntoLeaf.
  destruct (shiftLeafLoop_total L (Z.to_nat (e - a)) e l) as [d Hd]; try done; try lia.
  rewrite Hd. simpl. destruct (shiftLeafLoop_length _ _ _ _ Hd) as [Hdk Hdr].
  destruct (setEntry_total a keyValue rid d) as [l' ->]; [lia|lia|]. eauto.
Qed.

(** ** The walk and the loop over the saved path return *)

Lemma writePage_run p d s :
  is_Some (pageAt (file s) p) ->
  writePage p d s = (Return tt, withFile (fun f => setPage f p d) s).
Proof. unfold writePage. by intros [x ->]. Qed.

Lemma allocPage_run s :
  BufMgr.allocPage s
  = (Return (S (length (file s))),
     withBuf (S (length (file s)) :: pinned s) (events s ++ [EvAlloc (S (length (file s)))])
             (withFile (fun f => f ++ [BlankPage]) s)).
Proof. done. Qed.

Lemma pageAt_snoc f d : pageAt (f ++ [d]) (S (length f)) = Some d.
Proof. unfold pageAt. by apply list_lookup_middle. Qed.

Lemma pageAt_grow f blanks p : is_Some (pageAt f p) -> is_Some (pageAt (f ++ blanks) p).
Proof. intros H. rewrite pageAt_app; [done|]. apply pageAt_lt in H. lia. Qed.

Lemma pageAt_setPage_is_Some f q d p :
  is_Some (pageAt f p) -> is_Some (pageAt (setPage f q d) p).
Proof.
  intros H. apply pageAt_is_Some_le. rewrite setPage_length. by apply pageAt_is_Some_le.
Qed.

Lemma pageAt_last_is_Some f d : is_Some (pageAt (f ++ [d]) (S (length f))).
Proof. rewrite pageAt_snoc. eauto. Qed.

Lemma walk_total L N firstLeaf f keyValue root : forall n cur path s lv,
  1 <= N -> structureOk L N firstLeaf f root -> file s = f ->
  pageLevel f cur lv -> Z.of_nat n = lv - 1 ->
  exists q path' s', walk N n keyValue cur cur path s = (Return (q, q, path'), s').
Proof.
  induction n as [|n IH]; intros cur path s lv HN Hst Hf Hlv Hn.
  { simpl. by eexists _, _, _. }
  destruct Hlv as [[? _]|[_ (nd & Hnd & Hlv)]]; [lia|].
  pose proof Hst as (Hnl & _). pose proof (Hnl _ _ Hnd) as Hok.
  destruct (childIndex_total N f keyValue nd HN Hok) as (i & c & Hi & Hc & Hnz).
  destruct Hok as (_ & _ & _ & Hch). destruct (Hch _ _ Hc Hnz) as [_ Hcok].
  assert (Hcp : is_Some (pageAt f c)).
  { destruct Hcok as [[_ [l Hl]]|[_ (n' & Hn' & _)]]; eauto. }
  simpl.
  erewrite bindM_run by (apply asNonLeaf_run; by rewrite Hf).
  erewrite bindM_run by (by apply defined_run).
  erewrite bindM_run by apply unPinPage_run.
  erewrite bindM_run by (by apply defined_run).
  erewrite bindM_run by (apply readPage_run; simpl; by rewrite Hf).
  apply (IH c _ _ (lv - 1)); try done; [|lia].
  destruct Hcok as [[Hl2 Hleaf]|[Hgt (n' & Hn' & Hl')]].
  - left. split; [lia|done].
  - right. split; [lia|]. exists n'. split; [done|lia].
Qed.

(** The release of the two halves after a split, in either order. *)
Lemma unpinHalves_run (c four : bool) left right s :
  exists pins evs,
    (if c then
       let* _ := BufMgr.unPinPage left true in
       if four then BufMgr.unPinPage right true else ret tt
     else
       let* _ := BufMgr.unPinPage right true in
       if four then BufMgr.unPinPage left true else ret tt) s
    = (Return tt, withBuf pins evs s).
Proof. destruct c, four; by eexists _, _. Qed.

(** One round of the loop over the saved path on a full non-leaf [P], when
    the node above it has a free child slot: the round splits [P] and goes
    on with the rest of the path. *)
Lemma propagate_split_run N keyValue offset P rest (done : bool) G s pd :
  3 <= N ->
  pageAt (file s) P = Some (NonLeafPage pd) ->
  length (nlKeyArray pd) = Z.to_nat N -> length (pageNoArray pd) = Z.to_nat (N + 1) ->
  firstInvalid N pd offset = Some (N + 1) ->
  match rest with
  | [] => True
  | (uo, U) :: _ =>
      exists base, pageAt (file s) U = Some (NonLeafPage base)
        /\ length (nlKeyArray base) = Z.to_nat N
        /\ length (pageNoArray base) = Z.to_nat (N + 1)
        /\ (forall i c, at_ (pageNoArray base) i = Some c -> c <> Page.INVALID_NUMBER ->
              forall j, 0 <= j <= i ->
                exists c', at_ (pageNoArray base) j = Some c' /\ c' <> Page.INVALID_NUMBER)
        /\ hasRoom N base
        /\ at_ (pageNoArray base) uo = Some P
  end ->
  exists left right median base up uo U g blanks root1,
    splitNonLeaf N pd = Some (left, right)
    /\ at_ (nlKeyArray pd) (N / 2) = Some median
    /\ (rest = [] /\ U = S (length (file s)) /\ blanks = [BlankPage; BlankPage]
        /\ setPageNo 0 P (setLevel (level pd + 1) (zeroNonLeaf N)) = Some base
        /\ uo = 0 /\ root1 = U
        \/ exists rest', rest = (uo, U) :: rest'
             /\ pageAt (file s) U = Some (NonLeafPage base)
             /\ blanks = [BlankPage] /\ root1 = rootPageNum s)
    /\ g = length (file s ++ blanks)
    /\ childInserted N uo median g base up
    /\ forall Q : Outcome (option (PageId * Z)) * BTreeIndex -> Prop,
         (forall s1,
            file s1 = setPage (setPage (setPage (file s ++ blanks) P (NonLeafPage left))
                                 U (NonLeafPage up)) g (NonLeafPage right) ->
            rootPageNum s1 = root1 ->
            Q (propagate N keyValue rest true
                 (if done then G
                  else if keyValue >=? median then Some (g, offset - N / 2 - 1)
                       else Some (P, offset)) s1)) ->
         Q (propagate N keyValue ((offset, P) :: rest) done G s).
Proof.
  intros HN HP Hkl Hpl Hk Hup. simpl.
  assert (HPnz : P <> Page.INVALID_NUMBER).
  { intros ->. by rewrite pageAt_zero in HP. }
  assert (Hm : 0 <= N / 2 < N) by (pose proof (half_bounds N HN); lia).
  destruct (splitNonLeaf_total N pd ltac:(lia) Hkl Hpl) as [[left right] Hsplit].
  destruct (at_in_range (nlKeyArray pd) (N / 2)) as [median Hmed]; [lia|].
  assert (Hdata : exists base uo U g blanks b1 b2 up,
    (rest = [] /\ U = S (length (file s)) /\ blanks = [BlankPage; BlankPage]
        /\ setPageNo 0 P (setLevel (level pd + 1) (zeroNonLeaf N)) = Some base
        /\ uo = 0 /\ g = S (length (file s ++ [BlankPage]))
        \/ exists rest', rest = (uo, U) :: rest'
             /\ pageAt (file s) U = Some (NonLeafPage base)
             /\ blanks = [BlankPage] /\ g = S (length (file s)))
    /\ openSlot N uo base = Some b1
    /\ setPageNo (uo + 1) g b1 = Some b2
    /\ setKey uo median b2 = Some up
    /\ length (pageNoArray base) = Z.to_nat (N + 1)).
  { assert (Hins : forall base uo (g : PageId),
      length (nlKeyArray base) = Z.to_nat N ->
      length (pageNoArray base) = Z.to_nat (N + 1) ->
      (forall i c, at_ (pageNoArray base) i = Some c -> c <> Page.INVALID_NUMBER ->
         forall j, 0 <= j <= i ->
           exists c', at_ (pageNoArray base) j = Some c' /\ c' <> Page.INVALID_NUMBER) ->
      hasRoom N base -> at_ (pageNoArray base) uo = Some P ->
      exists b1 b2 up, openSlot N uo base = Some b1
        /\ setPageNo (uo + 1) g b1 = Some b2 /\ setKey uo median b2 = Some up).
    { intros base uo g Hbk Hbp Hpre Hroom HuoP.
      assert (Huo : 0 <= uo < N).
      { pose proof (nonzero_entry_in_range _ _ _ HuoP) as Hr. rewrite Hbp in Hr.
        destruct (decide (uo = N)) as [->|]; [|lia]. unfold hasRoom in Hroom. congruence. }
      destruct (openSlot_total N uo base) as [b1 Hb1]; try done; [lia|].
      destruct (openSlot_shape _ _ _ _ Hb1) as (_ & Hb1k & Hb1p).
      destruct (setPageNo_total (uo + 1) g b1) as [b2 Hb2]; [lia|].
      destruct (setPageNo_shape _ _ _ _ Hb2) as (_ & Hb2k & Hb2p).
      destruct (setKey_total uo median b2) as [up Hupd]; [lia|]. eauto 10. }
    destruct rest as [|[uo U] rest'].
    - destruct (setPageNo_total 0 P (setLevel (level pd + 1) (zeroNonLeaf N)))
        as [base Hbase].
      { simpl. rewrite length_replicate. lia. }
      pose proof (setPageNo_shape _ _ _ _ Hbase) as (_ & Hbk & Hbp).
      simpl in Hbk, Hbp. rewrite length_replicate in Hbk. rewrite length_replicate in Hbp.
      pose proof (setPageNo_at _ _ _ _ Hbase) as (_ & _ & Hbat).
      assert (Hzero : forall i c, at_ (pageNoArray base) i = Some c ->
                c <> Page.INVALID_NUMBER -> i = 0).
      { intros i c Hc Hnz. rewrite Hbat in Hc. destruct (decide (i = 0)); [done|].
        change (pageNoArray (setLevel (level pd + 1) (zeroNonLeaf N)))
          with (pageNoArray (zeroNonLeaf N)) in Hc.
        destruct (zeroNonLeaf_pageNo N i) as [Hz|Hz]; rewrite Hc in Hz; by inversion Hz. }
      assert (Hb0 : at_ (pageNoArray base) 0 = Some P).
      { rewrite Hbat. by rewrite decide_True. }
      assert (Hpre : forall i c, at_ (pageNoArray base) i = Some c ->
                c <> Page.INVALID_NUMBER -> forall j, 0 <= j <= i ->
                exists c', at_ (pageNoArray base) j = Some c' /\ c' <> Page.INVALID_NUMBER).
      { intros i c Hc Hnz j Hj. rewrite (Hzero _ _ Hc Hnz) in Hj.
        assert (j = 0) as -> by lia. by exists P. }
      assert (Hroom : hasRoom N base).
      { unfold hasRoom. destruct (at_in_range (pageNoArray base) N) as [c Hc]; [lia|].
        destruct (decide (c = Page.INVALID_NUMBER)) as [->|Hnz]; [done|].
        pose proof (Hzero _ _ Hc Hnz). lia. }
      destruct (Hins base 0 (S (length (file s ++ [BlankPage]))) Hbk Hbp Hpre Hroom Hb0)
        as (b1 & b2 & up & H1 & H2 & H3).
      exists base, 0, (S (length (file s))), (S (length (file s ++ [BlankPage]))),
          [BlankPage; BlankPage], b1, b2, up. split; [left; done|]. done.
    - destruct Hup as (base & HU & Hbk & Hbp & Hpre & Hroom & HuoP).
      destruct (Hins base uo (S (length (file s))) Hbk Hbp Hpre Hroom HuoP)
        as (b1 & b2 & up & H1 & H2 & H3).
      exists base, uo, U, (S (length (file s))), [BlankPage], b1, b2, up.
      split; [right; eauto 10|]. done. }
  destruct Hdata as (base & uo & U & g & blanks & b1 & b2 & up & HU & Hb1 & Hb2 & Hupd & Hbp).
  assert (Hpivot : at_ (nlKeyArray up) uo = Some median).
  { apply setKey_at in Hupd as (_ & _ & ->). by rewrite decide_True. }
  assert (Hlr : is_Some (at_ (pageNoArray up) uo) /\ is_Some (at_ (pageNoArray up) (uo + 1))).
  { pose proof (setKey_shape _ _ _ _ Hupd) as (_ & _ & Hl1).
    pose proof (setPageNo_shape _ _ _ _ Hb2) as (_ & _ & Hl2).
    pose proof (setPageNo_Some _ _ _ _ Hb2) as Hr.
    assert (Hr' : 0 <= uo + 1 < Z.of_nat (length (pageNoArray b1))).
    { unfold setPageNo in Hb2. destruct (put (pageNoArray b1) (uo + 1) g) eqn:E; [|done].
      by apply put_Some in E as [? _]. }
    assert (Huo0 : 0 <= uo).
    { destruct HU as [(_ & _ & _ & _ & -> & _)|(rest' & _ & HUb & _)]; [done|].
      apply openSlot_Some in Hb1 as (k & _ & ? & _); [lia|lia]. }
    split; apply at_length; lia. }
  destruct Hlr as [[lft Hlft] [rgt Hrgt]].
  exists left, right, median, base, up, uo, U, g, blanks,
    (match rest with [] => U | _ => rootPageNum s end).
  split; [done|]. split; [done|]. split.
  { destruct HU as [(-> & -> & -> & Hbase & -> & ->)|(rest' & -> & HUb & -> & ->)].
    - left. done.
    - right. eauto 10. }
  split.
  { destruct HU as [(-> & -> & -> & Hbase & -> & ->)|(rest' & -> & HUb & -> & ->)];
      rewrite !length_app; simpl; lia. }
  split.
  { eapply childInserted_intro; [lia|done|done|]. left. done. }
  intros Q HQ.
  destruct s as [f0 pins0 evs0 hp rp se ne cpn cpd lv hv lop hop]. simpl in *.
  erewrite bindM_run by (apply readPage_run; simpl; eauto).
  erewrite bindM_run by (by apply asNonLeaf_run).
  erewrite bindM_run by (by apply defined_run).
  rewrite decide_True by done.
  destruct HU as [(-> & -> & -> & Hbase & -> & ->)|(rest' & -> & HUb & -> & ->)].
  - erewrite bindM_run.
    2:{ erewrite bindM_run by apply allocPage_run.
        erewrite bindM_run by reflexivity.
        erewrite bindM_run by (by apply defined_run).
        reflexivity. }
    cbv beta iota.
    erewrite bindM_run by (by apply defined_run).
    erewrite bindM_run by apply allocPage_run.
    erewrite bindM_run by (by apply defined_run).
    erewrite bindM_run by (by apply defined_run).
    erewrite bindM_run by (by apply defined_run).
    erewrite bindM_run by (by apply defined_run).
    cbv beta iota.
    erewrite bindM_run by (apply writePage_run; simpl; apply pageAt_grow, pageAt_grow; eauto).
    erewrite bindM_run by (by apply defined_run).
    erewrite bindM_run.
    2:{ apply writePage_run; simpl. apply pageAt_setPage_is_Some, pageAt_grow.
        apply pageAt_last_is_Some. }
    erewrite bindM_run.
    2:{ apply writePage_run; simpl. do 2 apply pageAt_setPage_is_Some.
        apply pageAt_last_is_Some. }
    erewrite bindM_run by apply unPinPage_run.
    erewrite bindM_run by (by apply defined_run).
    erewrite bindM_run by (by apply defined_run).
    edestruct unpinHalves_run as (pins & evs & Hun).
    erewrite bindM_run by exact Hun.
    destruct done; (apply HQ; simpl; [|done]; by rewrite <- app_assoc).
  - erewrite bindM_run.
    2:{ erewrite bindM_run by (apply readPage_run; simpl; eauto).
        erewrite bindM_run by (by apply asNonLeaf_run).
        reflexivity. }
    cbv beta iota.
    erewrite bindM_run by (by apply defined_run).
    erewrite bindM_run by apply allocPage_run.
    erewrite bindM_run by (by apply defined_run).
    erewrite bindM_run by (by apply defined_run).
    erewrite bindM_run by (by apply defined_run).
    erewrite bindM_run by (by apply defined_run).
    cbv beta iota.
    erewrite bindM_run by (apply writePage_run; simpl; apply pageAt_grow; eauto).
    erewrite bindM_run by (by apply defined_run).
    erewrite bindM_run.
    2:{ apply writePage_run; simpl. apply pageAt_setPage_is_Some, pageAt_grow. eauto. }
    erewrite bindM_run.
    2:{ apply writePage_run; simpl. do 2 apply pageAt_setPage_is_Some.
        apply pageAt_last_is_Some. }
    erewrite bindM_run by apply unPinPage_run.
    erewrite bindM_run by (by apply defined_run).
    erewrite bindM_run by (by apply defined_run).
    edestruct unpinHalves_run as (pins & evs & Hun).
    erewrite bindM_run by exact Hun.
    destruct done; (apply HQ; simpl; done).
Qed.

(** ** Room above the parents of the leaves *)

(** A well-formed non-leaf with an invalid child slot has room. *)
Lemma room_of_invalid N f n k :
  nonLeafOk N f n -> 0 <= k <= N ->
  at_ (pageNoArray n) k = Some Page.INVALID_NUMBER -> hasRoom N n.
Proof.
  intros (_ & Hpl & _ & Hch) Hk Hinv. unfold hasRoom.
  destruct (at_in_range (pageNoArray n) N) as [c Hc]; [lia|].
  destruct (decide (c = Page.INVALID_NUMBER)) as [->|Hnz]; [done|].
  destruct (Hch _ _ Hc Hnz) as [Hpre _].
  destruct (Hpre k Hk) as (c' & Hc' & Hnz'). congruence.
Qed.

(** Both halves of a split non-leaf have room. *)
Lemma split_halves_room N pd left right :
  3 <= N -> splitNonLeaf N pd = Some (left, right) ->
  hasRoom N left /\ hasRoom N right.
Proof.
  intros HN Hsplit. pose proof (half_bounds N HN) as Hm.
  apply splitNonLeaf_Some in Hsplit as (_ & _ & _ & Hl & _ & Hr); [|lia].
  unfold hasRoom. rewrite Hl, Hr. split.
  - by rewrite decide_True by lia.
  - rewrite decide_False by lia. simpl. apply at_replicate. lia.
Qed.

(** The new root made by a root split has room. *)
Lemma newRoot_room N P lv median g base up :
  3 <= N ->
  setPageNo 0 P (setLevel lv (zeroNonLeaf N)) = Some base ->
  childInserted N 0 median g base up -> hasRoom N up.
Proof.
  intros HN Hbase (k & Hk & _ & HkN & _ & Hpn & _).
  pose proof (setPageNo_at _ _ _ _ Hbase) as (_ & _ & Hbat).
  assert (Hz : forall i, 1 <= i <= N -> at_ (pageNoArray base) i = Some Page.INVALID_NUMBER).
  { intros i Hi. rewrite Hbat. rewrite decide_False by lia. simpl. apply at_replicate. lia. }
  unfold hasRoom. rewrite Hpn. rewrite decide_False by lia.
  destruct (decide (0 + 1 < N <= k)); apply Hz; lia.
Qed.

(** The loop over the saved path returns, and leaves room in every
    non-leaf above the parents of the leaves and in the non-leaf under
    which the leaf is to be split. *)
Lemma propagate_total L N firstLeaf entries keyValue O leaf path :
  forall done G s below lv g,
  3 <= N ->
  structureOk L N firstLeaf (file s) (rootPageNum s) ->
  boundsOk entries g (file s) (rootPageNum s) ->
  pageAt (file s) O = Some (LeafPage leaf) ->
  pathLevels (file s) below lv path ->
  pathTop path (rootPageNum s) ->
  1 <= lv ->
  (if done : bool then 2 <= lv /\ splitAt (file s) G O
   else below = O /\ lv = 1
        /\ exists i p rest nd, path = (i, p) :: rest
             /\ pageAt (file s) p = Some (NonLeafPage nd)
             /\ childIndex N keyValue nd = Some i) ->
  roomBut N (file s) (head (map snd path)) ->
  (done = true -> forall gp go gd, G = Some (gp, go) ->
     pageAt (file s) gp = Some (NonLeafPage gd) -> hasRoom N gd) ->
  exists G' s',
    propagate N keyValue path done G s = (Return G', s')
    /\ roomBut N (file s') None
    /\ (forall gp go gd, G' = Some (gp, go) ->
          pageAt (file s') gp = Some (NonLeafPage gd) -> hasRoom N gd).
Proof.
  induction path as [|[offset P] rest IH];
    intros done G s below lv g0 HN Hst Hbd HO Hpath Htop Hlv Hd Hroom HG.
  { destruct done.
    - exists G, s. split; [done|]. split; [done|]. by apply HG.
    - destruct Hd as (_ & _ & (? & ? & ? & ? & ? & _)). done. }
  pose proof Hst as (Hnl & Hlf & Hroot & Hleft).
  pose proof Hpath as [(pd & HP & Hoff & Hlvpd) Hrest].
  pose proof (Hnl _ _ HP) as Hpdok. pose proof Hpdok as (Hkl & Hpl & _ & Hch).
  assert (Horange : 0 <= offset <= N).
  { pose proof (nonzero_entry_in_range _ _ _ Hoff) as Hr. rewrite Hpl in Hr. lia. }
  destruct (firstInvalid_total N pd offset Hpl ltac:(lia)) as [k Hk].
  destruct (decide (k = N + 1)) as [->|Hne].
  - (* the non-leaf is full: it is split *)
    assert (Hup : match rest with
      | [] => True
      | (uo, U) :: _ =>
          exists base, pageAt (file s) U = Some (NonLeafPage base)
            /\ length (nlKeyArray base) = Z.to_nat N
            /\ length (pageNoArray base) = Z.to_nat (N + 1)
            /\ (forall i c, at_ (pageNoArray base) i = Some c ->
                  c <> Page.INVALID_NUMBER -> forall j, 0 <= j <= i ->
                  exists c', at_ (pageNoArray base) j = Some c'
                             /\ c' <> Page.INVALID_NUMBER)
            /\ hasRoom N base
            /\ at_ (pageNoArray base) uo = Some P
      end).
    { destruct rest as [|[uo U] rest']; [done|].
      destruct Hrest as [(base & HU & HuoP & Hlvb) _]. exists base.
      destruct (Hnl _ _ HU) as (Hbk & Hbp & _ & Hbch).
      split; [done|]. split; [done|]. split; [done|]. split.
      { intros i c Hc Hnz. by destruct (Hbch _ _ Hc Hnz). }
      split; [|done]. apply (Hroom U base HU); [lia|].
      simpl. intros Heq. inversion Heq; subst U.
      assert (base = pd) by congruence. subst base. lia. }
    destruct (propagate_split_run N keyValue offset P rest done G s pd HN HP Hkl Hpl Hk Hup)
      as (left & right & median & base & up & uo & U & g & blanks & root1
          & Hsplit & Hmed & HU & Hg & Hins & Hwp).
    apply Hwp. intros s1 Hf1 Hr1.
    assert (HU' : rest = [] /\ U = S (length (file s)) /\ blanks = [BlankPage; BlankPage]
              /\ setPageNo 0 P (setLevel (level pd + 1) (zeroNonLeaf N)) = Some base
              /\ uo = 0 /\ rootPageNum s1 = U
              \/ exists rest', rest = (uo, U) :: rest'
                   /\ pageAt (file s) U = Some (NonLeafPage base)
                   /\ blanks = [BlankPage] /\ rootPageNum s1 = rootPageNum s).
    { rewrite Hr1. destruct HU as [(? & ? & ? & ? & ? & ?)|(rest' & ? & ? & ? & ?)].
      - left. done.
      - right. exists rest'. done. }
    destruct (propagate_split_index L N firstLeaf entries keyValue O leaf offset P rest done
                G s s1 below lv g0 pd left right median base up uo U g blanks
                HN Hst Hbd HO Hpath Htop Hlv Hd HP Hk Hsplit Hmed HU' Hg Hins Hf1)
      as (g1 & Hs1 & Hbd1 & Hsame1 & HO1 & Hpath1 & Htop' & Hsp & Hother & H1P & H1U & H1g
          & HGsame & _).
    destruct (split_halves_room N pd left right HN Hsplit) as [Hroomleft Hroomright].
    assert (Hlv1 : 1 <= lv + 1) by lia.
    assert (Hlv2 : 2 <= lv + 1) by lia.
    apply (IH true _ s1 P (lv + 1) g1 HN Hs1 Hbd1 HO1 Hpath1 Htop' Hlv1 (conj Hlv2 Hsp)).
    + intros q n Hq Hl3 Hhead.
      destruct (decide (q = P)) as [->|HqP].
      { assert (n = left) by congruence. by subst n. }
      destruct (decide (q = g)) as [->|Hqg].
      { assert (n = right) by congruence. by subst n. }
      destruct (decide (q = U)) as [->|HqU].
      { assert (n = up) by congruence. subst n.
        destruct HU as [(_ & _ & _ & Hbase & -> & _)|(rest' & -> & _)].
        - by eapply newRoot_room.
        - by simpl in Hhead. }
      rewrite Hother in Hq by done. apply (Hroom q n Hq Hl3).
      simpl. congruence.
    + intros _ gp go gd HG1 Hgd. destruct done.
      * rewrite (HGsame eq_refl gp go HG1) in Hgd. by eapply HG.
      * destruct (keyValue >=? median); inversion HG1; subst gp go.
        -- assert (gd = right) by congruence. by subst gd.
        -- assert (gd = left) by congruence. by subst gd.
  - (* the non-leaf has room: the loop ends *)
    assert (Hpdroom : hasRoom N pd).
    { pose proof (firstInvalid_Some _ _ _ _ Hk) as (Hle & Hmax & _ & Hinv).
      apply (room_of_invalid N (file s) pd k Hpdok); [lia|]. apply Hinv. lia. }
    assert (HGsome : exists gp go, (if done then G else Some (P, offset)) = Some (gp, go)).
    { destruct done; [|eauto]. destruct Hd as (_ & gp & go & _ & -> & _). eauto. }
    destruct HGsome as (gp & go & HGsome).
    assert (Hrun : exists s', propagate N keyValue ((offset, P) :: rest) done G s
                              = (Return (if done then G else Some (P, offset)), s')
                              /\ file s' = file s).
    { simpl.
      erewrite bindM_run by (apply readPage_run; eauto).
      erewrite bindM_run by (by apply asNonLeaf_run).
      erewrite bindM_run by (by apply defined_run).
      rewrite decide_False by done. rewrite HGsome.
      destruct (decide (gp = P)).
      - erewrite bindM_run by reflexivity. by eexists.
      - erewrite bindM_run by apply unPinPage_run. by eexists. }
    destruct Hrun as (s' & Hrun & Hf'). exists (if done then G else Some (P, offset)), s'.
    split; [done|]. rewrite Hf'. split.
    + intros q n Hq Hl3 _. destruct (decide (q = P)) as [->|HqP].
      * assert (n = pd) by congruence. by subst n.
      * apply (Hroom q n Hq Hl3). simpl. congruence.
    + intros gp' go' gd HG' Hgd. destruct done.
      * by eapply HG.
      * inversion HG'; subst gp' go'. assert (gd = pd) by congruence. by subst gd.
Qed.

(** ** The split of a leaf and the descent return *)

Lemma roomBut_frame N f f' :
  (forall p n, pageAt f' p = Some (NonLeafPage n) -> 3 <= level n ->
               pageAt f p = Some (NonLeafPage n)) ->
  roomBut N f None -> roomBut N f' None.
Proof. intros Hframe Hroom p n Hp Hl3 _. by apply (Hroom p n); [apply Hframe| |]. Qed.

(** The split of a leaf under a non-leaf with room returns; it writes no
    non-leaf above the parents of the leaves. *)
Lemma splitLeaf_total L N firstLeaf keyValue O a G s leaf :
  2 <= L -> 3 <= N ->
  structureOk L N firstLeaf (file s) (rootPageNum s) ->
  pageAt (file s) O = Some (LeafPage leaf) ->
  splitAt (file s) G O ->
  (forall gp go gd, G = Some (gp, go) ->
     pageAt (file s) gp = Some (NonLeafPage gd) -> hasRoom N gd) ->
  exists out s',
    splitLeaf L N keyValue O O a G s = (Return out, s')
    /\ forall p n, pageAt (file s') p = Some (NonLeafPage n) -> 3 <= level n ->
                   pageAt (file s) p = Some (NonLeafPage n).
Proof.
  intros HL HN (Hnl & Hlf & _ & _) HO (gp & go & gd & -> & Hgd & Hgo) HG.
  pose proof (HG gp go gd eq_refl Hgd) as Hroom.
  pose proof (Hnl _ _ Hgd) as Hgdok. pose proof Hgdok as (Hgk & Hgp & _ & Hch).
  destruct (Hlf _ _ HO) as (Hlk & Hlr & _).
  assert (HOnz : O <> Page.INVALID_NUMBER).
  { intros ->. by rewrite pageAt_zero in HO. }
  assert (Hlv2 : level gd = 2).
  { apply (leaf_child_level N (file s) gd go O Hgdok Hgo). by exists leaf. }
  assert (Hgo' : 0 <= go < N).
  { pose proof (nonzero_entry_in_range _ _ _ Hgo) as Hr. rewrite Hgp in Hr.
    destruct (decide (go = N)) as [->|]; [|lia]. unfold hasRoom in Hroom. congruence. }
  destruct (openSlot_total N go gd) as [b1 Hb1]; try done; [lia| |].
  { intros i c Hc Hnz. by destruct (Hch _ _ Hc Hnz). }
  destruct (openSlot_shape _ _ _ _ Hb1) as (Hb1l & Hb1k & Hb1p).
  assert (Hm : 0 <= L / 2 < L).
  { split; [apply Z.div_pos; lia|apply Z.div_lt_upper_bound; lia]. }
  destruct (at_in_range (keyArray leaf) (L / 2)) as [median Hmed]; [lia|].
  destruct (setKey_total go median b1) as [b2 Hb2]; [lia|].
  destruct (setKey_shape _ _ _ _ Hb2) as (Hb2l & Hb2k & Hb2p).
  destruct (setPageNo_total (go + 1) (S (length (file s))) b2) as [b3 Hb3]; [lia|].
  destruct (setPageNo_shape _ _ _ _ Hb3) as (Hb3l & _ & _).
  destruct (moveLeafLoop_total L (Z.to_nat (L - L / 2)) (L / 2) 0
              (setRightSib (S (length (file s))) leaf)
              (setRightSib (rightSibPageNo leaf) (zeroLeaf L)))
    as [[l' r'] Hmv]; try done; try lia.
  { simpl. by rewrite length_replicate. }
  { simpl. by rewrite length_replicate. }
  destruct s as [f0 pins0 evs0 hp rp se ne cpn cpd lv hv lop hop]. simpl in *.
  unfold splitLeaf.
  erewrite bindM_run by (by apply defined_run). cbv beta iota.
  erewrite bindM_run by (by apply asNonLeaf_run).
  erewrite bindM_run by (by apply defined_run).
  erewrite bindM_run by (by apply asLeaf_run).
  erewrite bindM_run by (by apply defined_run).
  erewrite bindM_run by (by apply defined_run).
  erewrite bindM_run by apply allocPage_run.
  erewrite bindM_run by (by apply defined_run).
  erewrite bindM_run by (apply writePage_run; simpl; apply pageAt_grow; eauto).
  cbv zeta.
  erewrite bindM_run by (by apply defined_run). cbv beta iota.
  erewrite bindM_run.
  2:{ apply writePage_run; simpl. apply pageAt_setPage_is_Some, pageAt_grow. eauto. }
  erewrite bindM_run.
  2:{ apply writePage_run; simpl. do 2 apply pageAt_setPage_is_Some.
      apply pageAt_last_is_Some. }
  erewrite bindM_run by apply unPinPage_run.
  erewrite bindM_run by apply unPinPage_run.
  erewrite bindM_run by apply unPinPage_run.
  eexists _, _. split; [reflexivity|]. simpl. intros p n Hp Hl3.
  apply pageAt_setPage_cases in Hp as [[_ Hx]|[_ Hp]]; [done|].
  apply pageAt_setPage_cases in Hp as [[_ Hx]|[_ Hp]]; [done|].
  apply pageAt_setPage_cases in Hp as [[_ Hx]|[_ Hp]].
  { inversion Hx; subst n. lia. }
  apply pageAt_snoc_cases in Hp as [[_ Hx]|Hp]; done.
Qed.

(** The descent returns, in insert mode as in read-only mode, and leaves
    room above the parents of the leaves. *)
Lemma descent_total L N firstLeaf entries keyValue rootPage (insert : bool) s g :
  2 <= L -> 3 <= N ->
  indexOk L N firstLeaf entries g (file s) (rootPageNum s) -> keysOk g (file s) ->
  roomBut N (file s) None ->
  rootPage = rootPageNum s ->
  exists out s',
    getPageNoAndOffsetOfKeyInsert L N keyValue rootPage insert s = (Return out, s')
    /\ roomBut N (file s') None.
Proof.
  intros HL HN Hidx Hkeys Hroom ->.
  pose proof Hidx as (Hst & Hedges & Hrootg & Hleaves & Hnodup & Hchain & Hlinked & Hsep
                      & Hperm).
  pose proof Hst as (Hnl & Hlf & [rootData Hrd] & Hleft).
  assert (Hlv2 : 2 <= level rootData).
  { destruct (Hnl _ _ Hrd) as (_ & _ & (c1 & Hc1 & Hnz) & Hch).
    destruct (Hch _ _ Hc1 Hnz) as [_ Hok]. by eapply childOk_level. }
  assert (Hrl : pageLevel (file s) (rootPageNum s) (level rootData)).
  { right. split; [done|]. eauto. }
  destruct (walk_total L N firstLeaf (file s) keyValue (rootPageNum s)
              (Z.to_nat (level rootData - 1)) (rootPageNum s) [] s (level rootData))
    as (l & path & s2 & Hw); [lia|done|done|done|lia|].
  pose proof Hw as Hwp.
  eapply (walk_path N _ keyValue _ [] s l l path s2 (level rootData) (rootPageNum s)
            (file s)) in Hwp; [| |done| |done|done].
  2:{ intros p nd i ch Hp Hi Hnz. destruct (Hnl _ _ Hp) as (_ & _ & _ & Hch).
      by destruct (Hch _ _ Hi Hnz). }
  2:{ done. }
  destruct Hwp as (_ & Hf2 & Hr2 & Hll & Hpath & Htop & Hhead).
  rewrite Z2Nat.id in Hll, Hpath by lia.
  replace (level rootData - (level rootData - 1)) with 1 in Hll, Hpath by lia.
  destruct Hhead as (i & p & rest & nd & -> & Hnd & Hci); [lia|].
  destruct Hll as [[_ [leaf Hleaf]]|[? _]]; [|lia].
  destruct (Hlf _ _ Hleaf) as (Hlk & Hlr & _).
  destruct (leafLoop_total L insert keyValue leaf (Z.to_nat L) 0 L Hlk Hlr) as [[a e] Hpos];
    [lia|lia|].
  fold (leafPosition L insert keyValue leaf) in Hpos.
  unfold getPageNoAndOffsetOfKeyInsert.
  erewrite bindM_run by reflexivity.
  erewrite bindM_run by (by apply asNonLeaf_run).
  erewrite bindM_run by exact Hw. cbv beta iota.
  erewrite bindM_run by (apply leafView_run; by rewrite Hf2).
  erewrite bindM_run by (by apply defined_run). cbv beta iota.
  destruct (decide (e = L)) as [->|Hne].
  2:{ erewrite bindM_run by apply unPinPage_run. eexists _, _.
      split; [reflexivity|]. simpl. by rewrite Hf2. }
  rewrite <- Hf2, <- Hr2 in *.
  assert (Htop' : pathTop ((i, p) :: rest) (rootPageNum s2)).
  { unfold pathTop. unfold topIsRoot in Htop.
    destruct (list.last ((i, p) :: rest)) as [[? ?]|]; done. }
  assert (Hd : l = l /\ 1 = 1
               /\ exists i0 p0 rest0 nd0, (i, p) :: rest = (i0, p0) :: rest0
                    /\ pageAt (file s2) p0 = Some (NonLeafPage nd0)
                    /\ childIndex N keyValue nd0 = Some i0) by eauto 10.
  assert (Hbd : boundsOk entries g (file s2) (rootPageNum s2)) by done.
  destruct (propagate_total L N firstLeaf entries keyValue l leaf ((i, p) :: rest)
              false None s2 l 1 g HN Hst Hbd Hleaf Hpath Htop' ltac:(lia) Hd)
    as (G & s3 & Hprop & Hroom3 & HG3).
  { intros q n Hq Hl3 _. by apply (Hroom q n). }
  { done. }
  erewrite bindM_run by exact Hprop.
  eapply (propagate_index L N firstLeaf entries keyValue l leaf _ false None s2 G s3 l 1 g)
    in Hprop; [|done|done|done|done|done|done|lia|done].
  destruct Hprop as (g1 & Hst3 & _ & _ & Hsp & HO3).
  destruct (splitLeaf_total L N firstLeaf keyValue l a G s3 leaf HL HN Hst3 HO3 Hsp HG3)
    as (out & s' & Hsplit & Hframe).
  exists out, s'. split; [done|]. by eapply roomBut_frame.
Qed.

(** ** Inserts return *)

(** An insert into an index with data returns, and leaves room above the
    parents of the leaves. *)
Lemma insertEntry_total L N firstLeaf entries keyValue rid s g k0 :
  2 <= L -> 3 <= N ->
  indexOk L N firstLeaf entries g (file s) (rootPageNum s) -> keysOk g (file s) ->
  firstLeafOk firstLeaf k0 g ->
  roomBut N (file s) None ->
  exists s', insertEntry L N keyValue rid s = (Return tt, s')
             /\ roomBut N (file s') None.
Proof.
  intros HL HN Hidx Hkeys HfirstOk Hroom.
  pose proof Hidx as (Hst & _). pose proof Hst as (Hnl & Hlf & [rd Hrd] & Hleft).
  destruct (Hnl _ _ Hrd) as (_ & _ & (c1 & Hc1 & Hnz1) & Hch).
  destruct (Hch _ _ Hc1 Hnz1) as [Hpre _].
  destruct (Hpre 0) as (c0 & Hc0 & Hnz0); [lia|].
  set (sR := withBuf (rootPageNum s :: pinned s) (events s ++ [EvRead (rootPageNum s)]) s).
  destruct (descent_total L N firstLeaf entries keyValue (rootPageNum s) true sR g HL HN)
    as ([[[dataPageNum insertAt] eor] prev] & s1 & Hd & Hroom1); try done.
  pose proof Hd as Hdi.
  eapply (descent_index L N firstLeaf entries keyValue _ sR _ s1 g k0) in Hdi;
    [|done|done|done|done|done|done].
  destruct Hdi as (g1 & p & a' & prev' & l1 & Hout & Hidx1 & Hkeys1 & Hp & Hfree & Hpos
                   & _).
  inversion Hout; subst dataPageNum insertAt eor prev'. clear Hout.
  destruct Hidx1 as ((_ & Hlf1 & _) & _).
  destruct (Hlf1 _ _ Hp) as (Hlk & Hlr & _).
  destruct Hpos as (Ha & _).
  destruct (insertIntoLeaf_total L keyValue rid a' (Z.of_nat (length (entriesOf g1 p))) l1)
    as [l' Hins]; try done.
  unfold insertEntry, insertKeyTemplate.
  erewrite bindM_run by reflexivity.
  erewrite bindM_run by (apply readPage_run; eauto).
  erewrite bindM_run by (by apply asNonLeaf_run).
  erewrite bindM_run by (by apply defined_run).
  rewrite decide_False by done.
  erewrite bindM_run by exact Hd. cbv beta iota.
  erewrite bindM_run by (apply readPage_run; eauto).
  erewrite bindM_run by (by apply asLeaf_run).
  erewrite bindM_run by (by apply defined_run).
  erewrite bindM_run by (apply writePage_run; simpl; eauto).
  eexists. split; [reflexivity|]. simpl.
  eapply roomBut_frame; [|exact Hroom1].
  intros q n Hq _. apply pageAt_setPage_cases in Hq as [[_ Hx]|[_ Hq]]; done.
Qed.

(** The first insert into a new index returns. *)
Lemma firstInsert_total L N keyValue rid m s :
  1 <= L -> 1 <= N ->
  file s = [MetaPage m; NonLeafPage (setLevel 1 (zeroNonLeaf N))] ->
  rootPageNum s = 2%nat ->
  exists s', insertEntry L N keyValue rid s = (Return tt, s')
             /\ roomBut N (file s') None.
Proof.
  intros HL HN Hf Hr.
  destruct s as [f0 pins0 evs0 hp rp se ne cpn cpd lv hv lop hop]. simpl in *. subst f0 rp.
  assert (H0 : at_ (pageNoArray (setLevel 1 (zeroNonLeaf N))) 0 = Some Page.INVALID_NUMBER).
  { simpl. apply at_replicate. lia. }
  destruct (setPageNo_total 0 3%nat (setLevel 1 (zeroNonLeaf N))) as [r1 Hr1].
  { simpl. rewrite length_replicate. lia. }
  destruct (setPageNo_shape _ _ _ _ Hr1) as (Hr1l & Hr1k & Hr1p).
  simpl in Hr1l, Hr1k, Hr1p. rewrite length_replicate in Hr1k. rewrite length_replicate in Hr1p.
  destruct (setPageNo_total 1 4%nat r1) as [r2 Hr2]; [lia|].
  destruct (setPageNo_shape _ _ _ _ Hr2) as (Hr2l & Hr2k & Hr2p).
  destruct (setEntry_total 0 keyValue rid (zeroLeaf L)) as [dr Hdr].
  { simpl. rewrite length_replicate. lia. }
  { simpl. rewrite length_replicate. lia. }
  destruct (setKey_total 0 keyValue (setLevel 2 r2)) as [r3 Hr3]; [simpl; lia|].
  destruct (setKey_shape _ _ _ _ Hr3) as (Hr3l & _ & _). simpl in Hr3l.
  unfold insertEntry, insertKeyTemplate.
  erewrite bindM_run by reflexivity.
  erewrite bindM_run by (apply readPage_run; simpl; eauto).
  erewrite bindM_run by (by apply asNonLeaf_run).
  erewrite bindM_run by (by apply defined_run).
  rewrite decide_True by done.
  erewrite bindM_run by apply allocPage_run.
  erewrite bindM_run by (by apply defined_run).
  erewrite bindM_run by apply allocPage_run.
  erewrite bindM_run by (by apply defined_run).
  erewrite bindM_run by (apply writePage_run; simpl; eauto).
  erewrite bindM_run by apply unPinPage_run.
  erewrite bindM_run by (by apply defined_run).
  erewrite bindM_run by (apply writePage_run; simpl; eauto).
  erewrite bindM_run by apply unPinPage_run.
  erewrite bindM_run by (by apply defined_run).
  erewrite bindM_run by (apply writePage_run; simpl; eauto).
  eexists. split; [reflexivity|]. simpl.
  intros q n Hq Hl3 _.
  apply pageAt_setPage_cases in Hq as [[_ Hx]|[_ Hq]].
  { inversion Hx; subst n. lia. }
  apply pageAt_setPage_cases in Hq as [[_ Hx]|[_ Hq]]; [done|].
  apply pageAt_setPage_cases in Hq as [[_ Hx]|[_ Hq]]; [done|].
  destruct q as [|[|[|[|[|q]]]]]; try done.
  inversion Hq; subst n. simpl in Hl3. lia.
Qed.

(** A run of inserts into an index with data returns, and leaves room
    above the parents of the leaves. *)
Lemma insertAll_total L N firstLeaf k0 rest : forall entries s g,
  2 <= L -> 3 <= N ->
  Forall (fun e => page_number (snd e) <> Page.INVALID_NUMBER) rest ->
  indexOk L N firstLeaf entries g (file s) (rootPageNum s) -> keysOk g (file s) ->
  firstLeafOk firstLeaf k0 g ->
  roomBut N (file s) None ->
  exists s', insertAll L N rest s = (Return tt, s') /\ roomBut N (file s') None.
Proof.
  induction rest as [|[k r] rest IH]; intros entries s g HL HN Hrids Hidx Hkeys Hfirst Hroom.
  { by exists s. }
  apply Forall_cons in Hrids as [Hrid Hrids]. simpl in Hrid.
  destruct (insertEntry_total L N firstLeaf entries k r s g k0 HL HN Hidx Hkeys Hfirst Hroom)
    as (s1 & Hins & Hroom1).
  destruct (insertEntry_index L N firstLeaf entries k r s s1 g k0 HL HN Hrid Hidx Hkeys
              Hfirst Hins) as (g1 & Hidx1 & Hkeys1 & Hfirst1).
  destruct (IH _ s1 g1 HL HN Hrids Hidx1 Hkeys1 Hfirst1 Hroom1) as (s' & Hs' & Hroom').
  exists s'. split; [|done]. rewrite insertAll_cons. by erewrite bindM_run by exact Hins.
Qed.

(** A run of inserts into a new index returns, and leaves room above the
    parents of the leaves. *)
Lemma insertAll_fresh_total L N entries :
  2 <= L -> 3 <= N ->
  Forall (fun e => page_number (snd e) <> Page.INVALID_NUMBER) entries ->
  exists s', insertAll L N entries (freshIndex N) = (Return tt, s')
             /\ roomBut N (file s') None.
Proof.
  intros HL HN Hrids. destruct (freshIndex_state N) as [Hf Hr].
  destruct entries as [|[k r] rest].
  { exists (freshIndex N). split; [done|]. rewrite Hf. intros q n Hq Hl3 _.
    destruct q as [|[|[|q]]]; try done. inversion Hq; subst n. simpl in Hl3. lia. }
  destruct (firstInsert_total L N k r _ (freshIndex N) ltac:(lia) ltac:(lia) Hf Hr)
    as (s1 & Hins & Hroom1).
  pose proof Hrids as [Hrid Hrest]%Forall_cons. simpl in Hrid.
  destruct (firstInsert_index L N k r _ (freshIndex N) s1 ltac:(lia) ltac:(lia) Hrid Hf Hr
              Hins) as (Hidx1 & Hkeys1 & Hfirst1).
  destruct (insertAll_total L N 3%nat k rest _ s1 _ HL HN Hrest Hidx1 Hkeys1 Hfirst1 Hroom1)
    as (s' & Hs' & Hroom').
  exists s'. split; [|done]. rewrite insertAll_cons. by erewrite bindM_run by exact Hins.
Qed.

(** * A scan that starts on a full leaf *)

Lemma bindM_file {A B} (m : M A) (k : A -> M B) s t :
  fst (m s) = fst (m t) /\ file (snd (m s)) = file (snd (m t)) ->
  (forall a s1 t1, file s1 = file t1 -> fst (k a s1) = fst (k a t1)) ->
  fst (bindM m k s) = fst (bindM m k t).
Proof.
  unfold bindM. destruct (m s) as [o1 s1], (m t) as [o2 t1]. simpl.
  intros [-> Hf] Hk. destruct o2; auto.
Qed.

(** The pages the walk visits depend on the file only. *)
Lemma walk_file N n keyValue : forall cur last path s t,
  file s = file t ->
  fst (walk N n keyValue cur last path s) = fst (walk N n keyValue cur last path t).
Proof.
  induction n as [|n IH]; intros cur last path s t Hf; [done|].
  simpl. apply bindM_file.
  { unfold asNonLeaf. rewrite Hf. destruct (pageAt (file t) cur) as [[]|]; done. }
  intros nd s1 t1 Hf1. apply bindM_file.
  { destruct (childIndex N keyValue nd); done. }
  intros i s2 t2 Hf2. apply bindM_file; [done|].
  intros _ s3 t3 Hf3. apply bindM_file.
  { destruct (at_ (pageNoArray nd) i); done. }
  intros c s4 t4 Hf4. apply bindM_file.
  { unfold BufMgr.readPage. rewrite Hf4. destruct (pageAt (file t4) c); done. }
  intros p s5 t5 Hf5. by apply IH.
Qed.

(** On a full leaf whose keys are all below the key, the loop over the
    leaf runs to its end without setting [insertAt], in either mode. *)
Lemma leafLoop_all_below L insert keyValue d fuel : forall i,
  0 <= i -> i + Z.of_nat fuel = L ->
  (forall j, i <= j < L ->
     exists r k, at_ (ridArray d) j = Some r /\ page_number r <> Page.INVALID_NUMBER
                 /\ at_ (keyArray d) j = Some k /\ k < keyValue) ->
  leafLoop L insert keyValue d fuel i L = Some (L, L).
Proof.
  induction fuel as [|fuel IH]; intros i Hi Hfuel Hall; simpl.
  { by replace i with L by lia. }
  destruct (Hall i) as (r & k & -> & Hr & -> & Hk); [lia|]. simpl.
  rewrite decide_False by done.
  destruct (Z.gtb_spec keyValue k); [|lia].
  apply IH; [lia|lia|]. intros j Hj. apply Hall. lia.
Qed.

(** What the split of a leaf returns. *)
Lemma splitLeaf_out L N keyValue O a G s out s' leaf median :
  pageAt (file s) O = Some (LeafPage leaf) ->
  at_ (keyArray leaf) (L / 2) = Some median ->
  splitLeaf L N keyValue O O a G s = (Return out, s') ->
  out = (if keyValue >? median
         then (S (length (file s)), a - L / 2,
               if decide (L `rem` 2 = 0) then L / 2 else L / 2 + 1, O)
         else (O, a, L / 2, O))
  /\ rootPageNum s' = rootPageNum s
  /\ currentPageData s' = currentPageData s.
Proof.
  intros HO Hmed H. unfold splitLeaf in H.
  run_all; simpl in *; simplify_eq; done.
Qed.

(** Inserts leave the page handle of the scan alone. *)
Lemma propagate_cursor N keyValue path done G s G' s' :
  propagate N keyValue path done G s = (Return G', s') ->
  currentPageData s' = currentPageData s.
Proof.
  revert done G s. induction path as [|[offset parentPageId] rest IH];
    intros done G s H; simpl in H.
  - run_all. done.
  - run_all;
      try match goal with H : propagate _ _ _ _ _ _ = _ |- _ => apply IH in H end;
      simpl in *; congruence.
Qed.

Lemma walk_cursor N n keyValue : forall cur last path s r s',
  walk N n keyValue cur last path s = (Return r, s') ->
  currentPageData s' = currentPageData s.
Proof.
  induction n as [|n IH]; intros cur last path s r s' H; simpl in H.
  - run_all. done.
  - run_all. apply IH in H. simpl in *. congruence.
Qed.

Lemma descent_cursor L N keyValue rootPage insert s out s' :
  getPageNoAndOffsetOfKeyInsert L N keyValue rootPage insert s = (Return out, s') ->
  currentPageData s' = currentPageData s.
Proof.
  unfold getPageNoAndOffsetOfKeyInsert, splitLeaf. intros H.
  run_all;
    repeat match goal with
           | H : walk _ _ _ _ _ _ _ = _ |- _ => apply walk_cursor in H
           | H : propagate _ _ _ _ _ _ = _ |- _ => apply propagate_cursor in H
           end; simpl in *; congruence.
Qed.

Lemma insertEntry_cursor L N keyValue rid s s' :
  insertEntry L N keyValue rid s = (Return tt, s') ->
  currentPageData s' = currentPageData s.
Proof.
  unfold insertEntry, insertKeyTemplate. intros H.
  run_all;
    try match goal with
        | H : getPageNoAndOffsetOfKeyInsert _ _ _ _ _ _ = _ |- _ =>
            apply descent_cursor in H
        end; simpl in *; congruence.
Qed.

Lemma insertAll_cursor L N entries : forall s s',
  insertAll L N entries s = (Return tt, s') ->
  currentPageData s' = currentPageData s.
Proof.
  induction entries as [|[k r] rest IH]; intros s s' H.
  { simpl in H. by inversion H. }
  rewrite insertAll_cons in H. apply bindM_Return in H as ([] & s1 & H1 & H).
  apply insertEntry_cursor in H1. apply IH in H. congruence.
Qed.

(** The descent, in either mode, on a full leaf whose keys are all below
    the key: the leaf is split, and the page returned is the new leaf. *)
Lemma descent_splits_full_leaf L N firstLeaf entries keyValue insert s g p l path0 rd :
  2 <= L -> 3 <= N ->
  indexOk L N firstLeaf entries g (file s) (rootPageNum s) -> keysOk g (file s) ->
  roomBut N (file s) None ->
  pageAt (file s) (rootPageNum s) = Some (NonLeafPage rd) ->
  fst (walk N (Z.to_nat (level rd - 1)) keyValue (rootPageNum s) (rootPageNum s) [] s)
  = Return (p, p, path0) ->
  pageAt (file s) p = Some (LeafPage l) ->
  length (leafEntries l) = Z.to_nat L ->
  Forall (fun e => fst e < keyValue) (leafEntries l) ->
  exists a e s',
    getPageNoAndOffsetOfKeyInsert L N keyValue (rootPageNum s) insert s
    = (Return (length (file s'), a, e, p), s')
    /\ (length (file s) < length (file s'))%nat
    /\ currentPageData s' = currentPageData s.
Proof.
  intros HL HN Hidx Hkeys Hroom Hrd Hwalk Hleaf Hfull Hbelow.
  pose proof Hidx as (Hst & Hedges & Hrootg & Hleaves & Hnodup & Hchain & Hlinked & Hsep
                      & Hperm).
  pose proof Hst as (Hnl & Hlf & _ & Hleft).
  assert (Hlv2 : 2 <= level rd).
  { destruct (Hnl _ _ Hrd) as (_ & _ & (c1 & Hc1 & Hnz) & Hch).
    destruct (Hch _ _ Hc1 Hnz) as [_ Hok]. by eapply childOk_level. }
  assert (Hrl : pageLevel (file s) (rootPageNum s) (level rd)).
  { right. split; [done|]. eauto. }
  destruct (walk_total L N firstLeaf (file s) keyValue (rootPageNum s)
              (Z.to_nat (level rd - 1)) (rootPageNum s) [] s (level rd))
    as (q & path & s2 & Hw); [lia|done|done|done|lia|].
  rewrite Hw in Hwalk. simpl in Hwalk. inversion Hwalk; subst q path0. clear Hwalk.
  pose proof Hw as Hwp.
  eapply (walk_path N _ keyValue _ [] s p p path s2 (level rd) (rootPageNum s)
            (file s)) in Hwp; [| |done| |done|done].
  2:{ intros x nd i ch Hp Hi Hnz. destruct (Hnl _ _ Hp) as (_ & _ & _ & Hch).
      by destruct (Hch _ _ Hi Hnz). }
  2:{ done. }
  destruct Hwp as (_ & Hf2 & Hr2 & Hll & Hpath & Htop & Hhead).
  rewrite Z2Nat.id in Hll, Hpath by lia.
  replace (level rd - (level rd - 1)) with 1 in Hll, Hpath by lia.
  destruct Hhead as (i & pp & rest & nd & -> & Hnd & Hci); [lia|].
  destruct (Hleaves _ _ Hleaf) as (Hholds & _).
  pose proof (leafHolds_entries L l _ ltac:(lia) Hholds) as Hes.
  rewrite Hes in Hfull, Hbelow.
  pose proof Hholds as (Hlk & Hlr & _ & Hvalid & Hslots).
  assert (Hslot : forall j, 0 <= j < L ->
            exists r k, at_ (ridArray l) j = Some r /\ page_number r <> Page.INVALID_NUMBER
                        /\ at_ (keyArray l) j = Some k /\ k < keyValue).
  { intros j Hj. specialize (Hslots j Hj).
    destruct (lookup_lt_is_Some_2 (entriesOf g p) (Z.to_nat j)) as [e He]; [lia|].
    rewrite He in Hslots. unfold slot in Hslots. inversion Hslots as [[Hk Hr]].
    exists (snd e), (fst e). split; [done|]. split.
    { by apply (Forall_lookup_1 _ _ _ _ Hvalid He). }
    split; [done|]. by apply (Forall_lookup_1 _ _ _ _ Hbelow He). }
  assert (Hpos : leafPosition L insert keyValue l = Some (L, L)).
  { apply leafLoop_all_below; [lia|lia|]. intros j Hj. apply Hslot. lia. }
  assert (Hm : 0 <= L / 2 < L).
  { split; [apply Z.div_pos; lia|apply Z.div_lt_upper_bound; lia]. }
  destruct (Hslot (L / 2) Hm) as (_ & median & _ & _ & Hmed & Hmedlt).
  assert (Htop' : pathTop ((i, pp) :: rest) (rootPageNum s2)).
  { rewrite Hr2. unfold pathTop. unfold topIsRoot in Htop.
    destruct (list.last ((i, pp) :: rest)) as [[? ?]|]; done. }
  assert (Hd : p = p /\ 1 = 1
               /\ exists i0 p0 rest0 nd0, (i, pp) :: rest = (i0, p0) :: rest0
                    /\ pageAt (file s2) p0 = Some (NonLeafPage nd0)
                    /\ childIndex N keyValue nd0 = Some i0).
  { rewrite Hf2. eauto 10. }
  assert (Hst2 : structureOk L N firstLeaf (file s2) (rootPageNum s2))
    by (by rewrite Hf2, Hr2).
  assert (Hbd : boundsOk entries g (file s2) (rootPageNum s2))
    by (by rewrite Hf2, Hr2).
  assert (Hleaf2 : pageAt (file s2) p = Some (LeafPage l)) by (by rewrite Hf2).
  assert (Hpath2 : pathLevels (file s2) p 1 ((i, pp) :: rest)) by (by rewrite Hf2).
  destruct (propagate_total L N firstLeaf entries keyValue p l ((i, pp) :: rest)
              false None s2 p 1 g HN Hst2 Hbd Hleaf2 Hpath2 Htop' ltac:(lia) Hd)
    as (G & s3 & Hprop & Hroom3 & HG3).
  { rewrite Hf2. intros x n Hx Hl3 _. by apply (Hroom x n). }
  { done. }
  pose proof (propagate_length _ _ _ _ _ _ _ _ Hprop) as Hlen3.
  pose proof Hprop as Hpi.
  eapply (propagate_index L N firstLeaf entries keyValue p l _ false None s2 G s3 p 1 g)
    in Hpi; [|done|done|done|done|done|done|lia|done].
  destruct Hpi as (g1 & Hst3 & _ & _ & Hsp & HO3).
  destruct (splitLeaf_total L N firstLeaf keyValue p L G s3 l HL HN Hst3 HO3 Hsp HG3)
    as (out & s' & Hsplit & _).
  pose proof (splitLeaf_length _ _ _ _ _ _ _ _ _ _ Hsplit) as Hlen'.
  destruct (splitLeaf_out L N keyValue p L G s3 out s' l median HO3 Hmed Hsplit)
    as (Hout & _ & _).
  destruct (Z.gtb_spec keyValue median); [|lia].
  assert (Hrun : getPageNoAndOffsetOfKeyInsert L N keyValue (rootPageNum s) insert s
                 = (Return out, s')).
  { unfold getPageNoAndOffsetOfKeyInsert.
    erewrite bindM_run by reflexivity.
    erewrite bindM_run by (by apply asNonLeaf_run).
    erewrite bindM_run by exact Hw. cbv beta iota.
    erewrite bindM_run by (by apply leafView_run).
    erewrite bindM_run by (by apply defined_run). cbv beta iota.
    rewrite decide_True by done.
    erewrite bindM_run by exact Hprop. done. }
  rewrite Hf2 in Hlen3.
  exists (L - L / 2), (if decide (L `rem` 2 = 0) then L / 2 else L / 2 + 1), s'.
  split; [|split].
  - rewrite Hrun. rewrite Hout, Hlen'. done.
  - lia.
  - by apply descent_cursor in Hrun.
Qed.

Lemma endScan_clears s :
  scanExecuting s = true ->
  exists s', endScan s = (Return tt, s')
    /\ file s' = file s /\ rootPageNum s' = rootPageNum s /\ currentPageData s' = None.
Proof.
  intros Hact. unfold endScan. erewrite bindM_run by reflexivity. rewrite Hact.
  destruct (currentPageData s).
  - erewrite bindM_run by apply unPinPage_run. by eexists.
  - erewrite bindM_run by reflexivity. by eexists.
Qed.

(** [startScan] when the walk for the lower bound ends on a full leaf whose
    keys are all below the bound: the leaf is split, and as the page
    returned is the new leaf, not the one the walk ended on, no cursor is
    set. *)
Lemma startScan_splits_full_leaf L N firstLeaf entries g lowVal lowOpParm highVal highOpParm
    s p l path0 rd :
  2 <= L -> 3 <= N ->
  indexOk L N firstLeaf entries g (file s) (rootPageNum s) -> keysOk g (file s) ->
  roomBut N (file s) None ->
  (scanExecuting s = false -> currentPageData s = None) ->
  (lowOpParm = GT \/ lowOpParm = GTE) -> (highOpParm = LT \/ highOpParm = LTE) ->
  lowVal <= highVal ->
  pageAt (file s) (rootPageNum s) = Some (NonLeafPage rd) ->
  fst (walk N (Z.to_nat (level rd - 1)) lowVal (rootPageNum s) (rootPageNum s) [] s)
  = Return (p, p, path0) ->
  pageAt (file s) p = Some (LeafPage l) ->
  length (leafEntries l) = Z.to_nat L ->
  Forall (fun e => fst e < lowVal) (leafEntries l) ->
  exists s',
    startScan L N lowVal lowOpParm highVal highOpParm s = (Return tt, s')
    /\ (length (file s) < length (file s'))%nat
    /\ scanExecuting s' = true /\ currentPageData s' = None.
Proof.
  intros HL HN Hidx Hkeys Hroom Hcur Hlo Hho Hrange Hrd Hwalk Hleaf Hfull Hbelow.
  unfold startScan. erewrite bindM_run by reflexivity.
  assert (Hend : exists s0, (if scanExecuting s then endScan else ret tt) s = (Return tt, s0)
                   /\ file s0 = file s /\ rootPageNum s0 = rootPageNum s
                   /\ currentPageData s0 = None).
  { destruct (scanExecuting s) eqn:Hact.
    - by apply endScan_clears.
    - exists s. split; [done|]. split; [done|]. split; [done|]. by apply Hcur. }
  destruct Hend as (s0 & Hend & Hf0 & Hr0 & Hc0).
  erewrite bindM_run by exact Hend.
  replace (negb (bool_decide (lowOpParm = GT) || bool_decide (lowOpParm = GTE))
           || negb (bool_decide (highOpParm = LT) || bool_decide (highOpParm = LTE)))
    with false.
  2:{ destruct Hlo as [-> | ->], Hho as [-> | ->]; done. }
  destruct (Z.gtb_spec lowVal highVal); [lia|].
  erewrite bindM_run by reflexivity.
  set (s3 := withBuf (rootPageNum s0 :: pinned s0) (events s0 ++ [EvRead (rootPageNum s0)])
               (withBounds lowVal highVal (withOps lowOpParm highOpParm s0))).
  assert (Hf3 : file s3 = file s) by exact Hf0.
  assert (Hr3 : rootPageNum s3 = rootPageNum s) by exact Hr0.
  destruct (descent_splits_full_leaf L N firstLeaf entries lowVal false s3 g p l path0 rd)
    as (a & e & s' & Hd & Hlen & Hc'); try done.
  { by rewrite Hf3, Hr3. }
  { by rewrite Hf3. }
  { by rewrite Hf3. }
  { by rewrite Hf3, Hr3. }
  { rewrite Hr3. rewrite <- Hwalk. by apply walk_file. }
  { by rewrite Hf3. }
  rewrite Hf3 in Hlen.
  assert (Hp : (p <= length (file s))%nat).
  { apply pageAt_lt. eauto. }
  assert (Htemplate : startScanTemplate L N lowVal highVal (withOps lowOpParm highOpParm s0)
                      = (Return tt, s')).
  { unfold startScanTemplate.
    erewrite bindM_run by reflexivity.
    erewrite bindM_run by reflexivity.
    erewrite bindM_run.
    2:{ apply readPage_run. simpl. rewrite Hf0, Hr0. eauto. }
    erewrite bindM_run by exact Hd. cbv beta iota.
    rewrite decide_False by lia. done. }
  erewrite bindM_run by exact Htemplate.
  eexists. split; [reflexivity|]. simpl. split; [done|]. split; [done|].
  rewrite Hc'. exact Hc0.
Qed.

(** ** The pins of a descent, with and without a split *)

(** The walk holds one page: entered with [cur] pinned, it ends with the
    page it reached pinned. *)
Lemma walk_held N n keyValue : forall cur path s c l path' s',
  walk N n keyValue cur cur path s = (Return (c, l, path'), s') ->
  pinned s = [cur] -> pinned s' = [l].
Proof.
  induction n as [|n IH]; intros cur path s c l path' s' H Hpin; simpl in H.
  - run H. done.
  - run H. eapply IH in H; [done|]. simpl. rewrite Hpin. simpl.
    by case_decide.
Qed.

Lemma traced_trans s1 s2 s3 e1 e2 :
  traced s1 s2 e1 -> traced s2 s3 e2 -> traced s1 s3 (e1 ++ e2).
Proof.
  intros [He1 Hp1] [He2 Hp2]. split.
  - by rewrite He2, He1, app_assoc.
  - by rewrite Hp2, Hp1, pinsAfter_app.
Qed.

(** Closes [exists evs, traced s s' evs] where [s'] is written out from [s],
    or from a state [traced] from [s]. *)
Ltac traced_run :=
  unfold traced in *; simpl in *;
  repeat match goal with
         | H : events ?s' = _ /\ pinned ?s' = _ |- _ =>
             let He := fresh "He" in let Hp := fresh "Hp" in
             destruct H as [He Hp]; rewrite He, Hp
         end;
  eexists; split;
  [rewrite <- ?app_assoc; reflexivity
  |rewrite ?pinsAfter_app; reflexivity].

Lemma propagate_traced N keyValue path : forall done G s G' s',
  propagate N keyValue path done G s = (Return G', s') -> exists evs, traced s s' evs.
Proof.
  induction path as [|[offset P] rest IH]; intros done G s G' s' H; simpl in H.
  - run_all. exists []. split; simpl; [by rewrite app_nil_r|done].
  - run_all;
      try match goal with
          | H : propagate _ _ _ _ _ _ = _ |- _ => apply IH in H as [evsR H]
          end;
      traced_run.
Qed.

Lemma splitLeaf_traced L N keyValue dataPage lastPage insertAt G s out s' :
  splitLeaf L N keyValue dataPage lastPage insertAt G s = (Return out, s') ->
  exists evs, traced s s' evs.
Proof. unfold splitLeaf. intros H. run_all; traced_run. Qed.

(** The loop over the saved path, entered with the leaf [O] pinned, leaves
    pinned the leaf and the non-leaf under which it is to be split. *)
Lemma propagate_pins L N firstLeaf entries keyValue O leaf path :
  forall done G s G' s' below lv g,
  3 <= N ->
  structureOk L N firstLeaf (file s) (rootPageNum s) ->
  boundsOk entries g (file s) (rootPageNum s) ->
  pageAt (file s) O = Some (LeafPage leaf) ->
  pathLevels (file s) below lv path ->
  pathTop path (rootPageNum s) ->
  1 <= lv ->
  (if done : bool then 2 <= lv /\ splitAt (file s) G O
   else below = O /\ lv = 1
        /\ exists i p rest nd, path = (i, p) :: rest
             /\ pageAt (file s) p = Some (NonLeafPage nd)
             /\ childIndex N keyValue nd = Some i) ->
  pinned s = (if done then match G with Some (gp, _) => [gp; O] | None => [O] end
              else [O]) ->
  propagate N keyValue path done G s = (Return G', s') ->
  exists gp go, G' = Some (gp, go) /\ pinned s' = [gp; O].
Proof.
  induction path as [|[offset P] rest IH];
    intros done G s G' s' below lv g0 HN Hst Hbd HO Hpath Htop Hlv Hd Hpin H.
  { simpl in H. apply ret_Return in H as [-> ->]. destruct done.
    - destruct Hd as (_ & gp & go & gd & -> & _). by exists gp, go.
    - destruct Hd as (_ & _ & (? & ? & ? & ? & ? & _)). done. }
  pose proof Hst as (Hnl & Hlf & Hroot & Hleft).
  apply propagate_cons in H; [|lia|].
  2:{ intros n p Hp. by destruct (Hnl _ _ Hp) as (_ & ? & _). }
  destruct H as (pd & k & HP & Hk & H).
  destruct H as [(Hne & Hf & Hr & (gp & go & HG & Hp') & ->)|(-> & H)].
  { exists gp, go. split; [done|]. rewrite Hp'. destruct done.
    - destruct Hd as (Hlv2 & gp' & go' & gd & -> & Hgd & Hgo).
      inversion HG; subst gp' go'.
      assert (Hl2 : level gd = 2).
      { eapply leaf_child_level; [by eapply Hnl|done|]. by exists leaf. }
      destruct Hpath as [(pd' & HP' & _ & Hlvpd) _].
      assert (pd' = pd) as -> by congruence.
      case_decide; [|done]. subst gp.
      assert (gd = pd) by congruence. subst gd. lia.
    - inversion HG; subst gp go. rewrite Hpin. by case_decide. }
  destruct H as (s1 & left & right & median & base & up & uo & U & g & blanks
                 & Hsplit & Hmed & HU & Hg & Hins & Hf1 & Hp1 & Hrec).
  destruct (propagate_split_index L N firstLeaf entries keyValue O leaf offset P rest done
              G s s1 below lv g0 pd left right median base up uo U g blanks
              HN Hst Hbd HO Hpath Htop Hlv Hd HP Hk Hsplit Hmed HU Hg Hins Hf1)
    as (g1 & Hs1 & Hbd1 & Hsame1 & HO1 & Hpath1 & Htop' & Hsp & _ & _ & _ & _ & _
        & HPU & HPg & HUg & HOU & HOg & HupP & Hupg & Hlvup).
  rewrite HupP, Hupg in Hp1. cbv zeta in Hp1.
  assert (Hheld : unpinOne U (g :: U :: P :: pinned s) = g :: P :: pinned s).
  { simpl. repeat case_decide; first [done|congruence]. }
  rewrite Hheld in Hp1.
  assert (Hlv1 : 1 <= lv + 1) by lia.
  assert (Hlv2 : 2 <= lv + 1) by lia.
  eapply (IH true _ s1 G' s' P (lv + 1) g1 HN Hs1 Hbd1 HO1 Hpath1 Htop' Hlv1
            (conj Hlv2 Hsp)); [|exact Hrec].
  rewrite Hp1, Hpin. destruct done.
  - destruct Hd as (Hlv2' & gp & go & gd & -> & _).
    destruct (Z.geb_spec (level up) 4); [|lia].
    destruct (keyValue >=? median); repeat (simpl; case_decide); first [done|congruence].
  - destruct Hd as (_ & -> & _).
    destruct (Z.geb_spec (level up) 4); [lia|].
    destruct (keyValue >=? median); repeat (simpl; case_decide); first [done|congruence].
Qed.

(** The split of the leaf [O] under the non-leaf [gp], entered with the two
    pinned, leaves no page pinned. *)
Lemma splitLeaf_pins L N keyValue O a gp go s out s' :
  splitLeaf L N keyValue O O a (Some (gp, go)) s = (Return out, s') ->
  pinned s = [gp; O] -> gp <> O ->
  pinned s' = [] /\ snd out = O.
Proof.
  unfold splitLeaf. intros H Hpin Hne.
  apply bindM_Return in H as ([gp' go'] & ? & [HG ->]%defined_Return & H).
  inversion HG; subst gp' go'. clear HG.
  apply bindM_Return in H as (gd & ? & [Hgd ->]%asNonLeaf_Return & H).
  apply bindM_Return in H as (b1 & ? & [_ ->]%defined_Return & H).
  apply bindM_Return in H as (leaf & ? & [HO ->]%asLeaf_Return & H).
  pose proof (pageAt_lt _ _ (ex_intro _ _ Hgd)) as Hgplt.
  pose proof (pageAt_lt _ _ (ex_intro _ _ HO)) as HOlt.
  run_all; simpl; rewrite Hpin; split;
    [repeat (simpl; case_decide); try done; lia|by destruct (keyValue >? _)].
Qed.

(** The pins of a descent that returns: hand over hand down to the leaf,
    then either the one call that unpins the leaf, or the split, and no page
    pinned at the end. *)
Lemma descent_pins L N firstLeaf entries g keyValue (insert : bool) s out s' :
  2 <= L -> 3 <= N ->
  indexOk L N firstLeaf entries g (file s) (rootPageNum s) -> keysOk g (file s) ->
  pinned s = [rootPageNum s] ->
  getPageNoAndOffsetOfKeyInsert L N keyValue (rootPageNum s) insert s = (Return out, s') ->
  exists leaf evsWalk evsExit,
    snd out = leaf
    /\ traced s s' (evsWalk ++ evsExit)
    /\ handOverHand (rootPageNum s) (evsWalk ++ [EvUnPin leaf false])
    /\ (forall n, (length (pinsAfter (pinned s) (take n evsWalk)) <= 1)%nat)
    /\ pinsAfter (pinned s) evsWalk = [leaf]
    /\ (length (file s') = length (file s) -> evsExit = [EvUnPin leaf false])
    /\ pinned s' = [].
Proof.
  intros HL HN Hidx Hkeys Hpin H.
  pose proof Hidx as (Hst & Hedges & Hrootg & Hleaves & Hnodup & Hchain & Hlinked & Hsep
                      & Hperm).
  pose proof Hst as (Hnl & Hlf & [rootData Hrd] & Hleft).
  assert (Hlv2 : 2 <= level rootData).
  { destruct (Hnl _ _ Hrd) as (_ & _ & (c1 & Hc1 & Hnz) & Hch).
    destruct (Hch _ _ Hc1 Hnz) as [_ Hok]. by eapply childOk_level. }
  assert (Hrl : pageLevel (file s) (rootPageNum s) (level rootData)).
  { right. split; [done|]. eauto. }
  unfold getPageNoAndOffsetOfKeyInsert in H.
  apply bindM_Return in H as (s0 & ? & [-> ->]%get_Return & H).
  apply bindM_Return in H as (rootData' & ? & [Hrd' ->]%asNonLeaf_Return & H).
  assert (rootData' = rootData) as -> by congruence.
  apply bindM_Return in H as ([[c l] path] & s1 & Hw & H).
  pose proof (walk_held _ _ _ _ _ _ _ _ _ _ Hw Hpin) as Hheld.
  pose proof Hw as Hwp.
  eapply (walk_path N _ keyValue _ [] s c l path s1 (level rootData) (rootPageNum s)
            (file s)) in Hwp; [| |done| |done|done].
  2:{ intros p nd i ch Hp Hi Hnz. destruct (Hnl _ _ Hp) as (_ & _ & _ & Hch).
      by destruct (Hch _ _ Hi Hnz). }
  2:{ done. }
  destruct Hwp as (_ & Hf2 & Hr2 & Hll & Hpath & Htop & Hhead).
  rewrite Z2Nat.id in Hll, Hpath by lia.
  replace (level rootData - (level rootData - 1)) with 1 in Hll, Hpath by lia.
  destruct Hhead as (i0 & p0 & rest & nd & -> & Hnd & Hci); [lia|].
  pose proof Hw as Hwr. apply walk_Return in Hwr as (-> & evs & Hs1 & Htail).
  assert (Htr1 : traced s s1 evs).
  { rewrite Hs1. split; done. }
  assert (Hwalk : pinsAfter (pinned s) evs = [l]).
  { rewrite <- Hheld, Hs1. done. }
  assert (Hh : handOverHand (rootPageNum s) (evs ++ [EvUnPin l false])).
  { apply Htail. constructor. }
  destruct (handOverHand_pins _ _ Hh) as [Hb _].
  assert (Hbound : forall n, (length (pinsAfter (pinned s) (take n evs)) <= 1)%nat).
  { intros n. rewrite Hpin. destruct (decide (n <= length evs)%nat) as [Hle|Hgt].
    - specialize (Hb n). by rewrite take_app_le in Hb by lia.
    - rewrite take_ge by lia. specialize (Hb (length evs)).
      rewrite take_app_le in Hb by lia. by rewrite take_ge in Hb by lia. }
  apply bindM_Return in H as (leaf & ? & [Hleaf ->]%leafView_Return & H).
  rewrite Hf2 in Hleaf. apply (leafView_leaf _ _ _ _ Hll) in Hleaf. rewrite <- Hf2 in Hleaf.
  apply bindM_Return in H as ([a i] & ? & [Hpos ->]%defined_Return & H).
  exists l, evs.
  destruct (decide (i = L)) as [->|Hne].
  2:{ apply bindM_Return in H as (? & s2 & ->%unPinPage_Return & H).
      apply ret_Return in H as [-> ->].
      exists [EvUnPin l false]. split; [done|]. split.
      { eapply traced_trans; [exact Htr1|]. split; done. }
      do 4 (split; [done|]). simpl. rewrite Hheld. simpl. by case_decide. }
  apply bindM_Return in H as (G & s2 & Hp & H).
  rewrite <- Hf2, <- Hr2 in *.
  assert (Htop' : pathTop ((i0, p0) :: rest) (rootPageNum s1)).
  { unfold pathTop. unfold topIsRoot in Htop.
    destruct (list.last ((i0, p0) :: rest)) as [[? ?]|]; done. }
  assert (Hd : l = l /\ 1 = 1
               /\ exists i1 p1 rest1 nd1, (i0, p0) :: rest = (i1, p1) :: rest1
                    /\ pageAt (file s1) p1 = Some (NonLeafPage nd1)
                    /\ childIndex N keyValue nd1 = Some i1) by eauto 10.
  assert (Hbd : boundsOk entries g (file s1) (rootPageNum s1)) by done.
  destruct (propagate_traced _ _ _ _ _ _ _ _ Hp) as [evsP HtrP].
  pose proof (propagate_length _ _ _ _ _ _ _ _ Hp) as HlenP.
  destruct (propagate_pins L N firstLeaf entries keyValue l leaf _ false None s1 G s2 l 1 g
              HN Hst Hbd Hleaf Hpath Htop' ltac:(lia) Hd Hheld Hp)
    as (gp & go & -> & Hpin2).
  eapply (propagate_index L N firstLeaf entries keyValue l leaf _ false None s1 _ s2 l 1 g)
    in Hp; [|done|done|done|done|done|done|lia|done].
  destruct Hp as (g1 & Hst3 & _ & _ & (gp' & go' & gd & HG & Hgd & Hgo) & HO3).
  inversion HG; subst gp' go'. clear HG.
  assert (Hgl : gp <> l) by (intros ->; congruence).
  destruct (splitLeaf_traced _ _ _ _ _ _ _ _ _ _ H) as [evsS HtrS].
  pose proof (splitLeaf_length _ _ _ _ _ _ _ _ _ _ H) as HlenS.
  destruct (splitLeaf_pins _ _ _ _ _ _ _ _ _ _ H Hpin2 Hgl) as [Hend Hout].
  exists (evsP ++ evsS). split; [done|]. split.
  { eapply traced_trans; [exact Htr1|]. by eapply traced_trans. }
  do 3 (split; [done|]). split; [|done]. intros Heq. lia.
Qed.

(** The descent on the empty index: no step down, the root as [createRoot]
    left it read as a leaf with no entry, and the root unpinned. *)
Lemma blankNonLeaf_created N l : blankNonLeaf (setLevel l (zeroNonLeaf N)) = true.
Proof.
  unfold blankNonLeaf. simpl. apply andb_true_iff. split.
  - induction (Z.to_nat N) as [|n IH]; [done|exact IH].
  - induction (Z.to_nat (N + 1)) as [|n IH]; [done|exact IH].
Qed.

Lemma leafPosition_blank L insert keyValue n :
  1 <= L -> leafPosition L insert keyValue (nonLeafAsLeaf L n) = Some (0, 0).
Proof.
  intros HL. unfold leafPosition.
  destruct (Z.to_nat L) as [|k] eqn:Hk; [lia|]. simpl.
  rewrite ?at_replicate by lia. simpl. by rewrite decide_True by done.
Qed.

Lemma descent_empty L N keyValue (insert : bool) m s :
  1 <= L ->
  file s = [MetaPage m; NonLeafPage (setLevel 1 (zeroNonLeaf N))] ->
  rootPageNum s = 2%nat ->
  getPageNoAndOffsetOfKeyInsert L N keyValue 2%nat insert s
  = (Return (2%nat, 0, 0, 2%nat),
     withBuf (unpinOne 2%nat (pinned s)) (events s ++ [EvUnPin 2%nat false]) s).
Proof.
  intros HL Hf Hr. unfold getPageNoAndOffsetOfKeyInsert.
  erewrite bindM_run by reflexivity.
  erewrite bindM_run by (apply asNonLeaf_run; by rewrite Hf).
  change (Z.to_nat (level (setLevel 1 (zeroNonLeaf N)) - 1)) with 0%nat.
  erewrite bindM_run by reflexivity. cbv beta iota.
  erewrite bindM_run.
  2:{ unfold leafView. rewrite Hf. simpl. by rewrite blankNonLeaf_created. }
  erewrite bindM_run by (apply defined_run; by apply leafPosition_blank).
  cbv beta iota. rewrite decide_False by lia.
  erewrite bindM_run by apply unPinPage_run. by rewrite Hr.
Qed.

(** C8, as the code has it.  Every descent on an index built by inserts
    into a new index, the empty index included, entered with the root pinned
    by the caller, returns, in insert mode as in read-only mode.  On the way
    down it holds one page at a time: the page held is unpinned before the
    next page is read, down to the leaf, which is the page it returns as
    [lastPageNo].  A descent that allocates no page (no split) then unpins
    the leaf and makes no other call.  On exit no page remains pinned, with
    or without a split, in either mode. *)
Theorem descent_hand_over_hand (LEAFSIZE NONLEAFSIZE : Z)
    (entries : list (Z * RecordId)) (s0 s : BTreeIndex) (keyValue : Z) (insert : bool) :
  2 <= LEAFSIZE -> 3 <= NONLEAFSIZE ->
  Forall (fun e => page_number (snd e) <> Page.INVALID_NUMBER) entries ->
  insertAll LEAFSIZE NONLEAFSIZE entries (freshIndex NONLEAFSIZE) = (Return tt, s0) ->
  file s = file s0 -> rootPageNum s = rootPageNum s0 ->
  pinned s = [rootPageNum s] ->
  exists out s' leaf evsWalk evsExit,
    getPageNoAndOffsetOfKeyInsert LEAFSIZE NONLEAFSIZE keyValue (rootPageNum s) insert s
      = (Return out, s')
    /\ snd out = leaf
    /\ events s' = events s ++ evsWalk ++ evsExit
    /\ handOverHand (rootPageNum s) (evsWalk ++ [EvUnPin leaf false])
    /\ (forall n, (length (pinsAfter (pinned s) (take n evsWalk)) <= 1)%nat)
    /\ pinsAfter (pinned s) evsWalk = [leaf]
    /\ (length (file s') = length (file s) -> evsExit = [EvUnPin leaf false])
    /\ pinned s' = pinsAfter (pinned s) (evsWalk ++ evsExit)
    /\ pinned s' = [].
Proof.
  intros HL HN Hrids Hins Hf Hr Hpin.
  destruct entries as [|[k0 r0] rest].
  { apply ret_Return in Hins as [_ ->].
    destruct (freshIndex_state NONLEAFSIZE) as [Hf0 Hr0].
    rewrite Hf0 in Hf. rewrite Hr0 in Hr. rewrite Hr in *.
    eexists _, _, 2%nat, [], [EvUnPin 2%nat false].
    split; [by apply (descent_empty LEAFSIZE NONLEAFSIZE keyValue insert _ s ltac:(lia) Hf)|].
    simpl. rewrite Hpin. simpl. split; [done|]. split; [done|].
    split; [constructor|]. split; [intros n; rewrite take_nil; simpl; lia|].
    split; [done|]. split; [done|]. done. }
  destruct (insertAll_fresh_index LEAFSIZE NONLEAFSIZE k0 r0 rest s0 HL HN Hrids Hins)
    as (g & Hidx & Hkeys & _).
  destruct (insertAll_fresh_total LEAFSIZE NONLEAFSIZE ((k0, r0) :: rest) HL HN Hrids)
    as (s0' & Hins' & Hroom).
  assert (s0' = s0) as -> by congruence.
  rewrite <- Hf, <- Hr in Hidx. rewrite <- Hf in Hkeys, Hroom.
  destruct (descent_total LEAFSIZE NONLEAFSIZE 3%nat _ keyValue (rootPageNum s) insert s g
              HL HN Hidx Hkeys Hroom eq_refl) as (out & s' & Hd & _).
  destruct (descent_pins LEAFSIZE NONLEAFSIZE 3%nat _ g keyValue insert s out s'
              HL HN Hidx Hkeys Hpin Hd)
    as (leaf & evsWalk & evsExit & Hout & [Hev Hpins] & Hh & Hbound & Hwalk & Hexit & Hend).
  exists out, s', leaf, evsWalk, evsExit. done.
Qed.

Lemma descent_hand_over_hand_witness :
  exists out s' leaf evsWalk evsExit,
    getPageNoAndOffsetOfKeyInsert 3 3 40 (rootPageNum (rootRead scenario1)) true
      (rootRead scenario1) = (Return out, s')
    /\ snd out = leaf
    /\ events s' = events (rootRead scenario1) ++ evsWalk ++ evsExit
    /\ handOverHand (rootPageNum (rootRead scenario1)) (evsWalk ++ [EvUnPin leaf false])
    /\ (forall n, (length (pinsAfter (pinned (rootRead scenario1)) (take n evsWalk)) <= 1)%nat)
    /\ pinsAfter (pinned (rootRead scenario1)) evsWalk = [leaf]
    /\ (length (file s') = length (file (rootRead scenario1)) ->
        evsExit = [EvUnPin leaf false])
    /\ pinned s' = pinsAfter (pinned (rootRead scenario1)) (evsWalk ++ evsExit)
    /\ pinned s' = [].
Proof.
  apply (descent_hand_over_hand 3 3 (entries1 [10; 20; 30]%nat) scenario1
           (rootRead scenario1) 40 true).
  - lia.
  - lia.
  - vm_compute. repeat constructor; discriminate.
  - vm_compute. reflexivity.
  - vm_compute. reflexivity.
  - vm_compute. reflexivity.
  - vm_compute. reflexivity.
Defined.

(** C8, counterexamples ([LEAFSIZE = NONLEAFSIZE = 3]).  After the descent
    in insert mode for key 20 in the index that holds key 10, which returns
    leaf 4 reached from root 2, neither page of the path is pinned.  In the
    descent in insert mode for key 40 in the index that holds 10, 20, 30,
    which finds leaf 4 full, the root is read again while the leaf is still
    pinned, and after the fourth call (the allocation of page 5) three pages
    are pinned. *)
Lemma descent_unpins_path_and_split_pins_three :
  (fst (getPageNoAndOffsetOfKeyInsert 3 3 20 2%nat true (rootRead afterFirstInsert))
     = Return (4%nat, 1, 1, 4%nat)
   /\ ~ pathPinned [2%nat; 4%nat]
         (snd (getPageNoAndOffsetOfKeyInsert 3 3 20 2%nat true (rootRead afterFirstInsert))))
  /\ (let evs := [EvUnPin 2%nat false; EvRead 4%nat; EvRead 2%nat; EvAlloc 5%nat;
                  EvUnPin 4%nat true; EvUnPin 2%nat true; EvUnPin 5%nat true] in
      fst (getPageNoAndOffsetOfKeyInsert 3 3 40 2%nat true (rootRead scenario1))
        = Return (5%nat, 2, 2, 4%nat)
      /\ events (snd (getPageNoAndOffsetOfKeyInsert 3 3 40 2%nat true (rootRead scenario1)))
         = events (rootRead scenario1) ++ evs
      /\ pinned (rootRead scenario1) = [2%nat]
      /\ pinsAfter (pinned (rootRead scenario1)) (take 4 evs) = [5%nat; 2%nat; 4%nat]).
Proof.
  split.
  - split; [vm_compute; reflexivity|].
    intros H. specialize (H 2%nat). vm_compute in H.
    assert (Hin : 2%nat ∈ [2%nat; 4%nat]) by (apply list_elem_of_here).
    apply H in Hin. inversion Hin.
  - cbv zeta. split; [vm_compute; reflexivity|]. split; [vm_compute; reflexivity|].
    split; vm_compute; reflexivity.
Qed.

(** * Further properties of the insert and scan code *)

(** X3.  The first insert.  On every index whose root is a non-leaf with no
    child (as [createRoot] leaves it), [insertKeyTemplate] returns, having
    allocated two pages [A] and [B], the next two of the file: [A] is an empty
    leaf whose right sibling is [B]; [B] is a leaf that holds the entry in
    slot 0 and nothing else and has no right sibling; the root has level 2,
    the children [A] and [B] in slots 0 and 1, the key in slot 0 and is
    otherwise as it was; no other page is written, the root number is the
    same and so are the pins. *)
Theorem first_insert_builds_two_leaves (LEAFSIZE NONLEAFSIZE keyValue : Z) (rid : RecordId)
    (s : BTreeIndex) (rootData : NonLeafNodeInt) :
  1 <= LEAFSIZE -> 1 <= NONLEAFSIZE ->
  pageAt (file s) (rootPageNum s) = Some (NonLeafPage rootData) ->
  length (nlKeyArray rootData) = Z.to_nat NONLEAFSIZE ->
  length (pageNoArray rootData) = Z.to_nat (NONLEAFSIZE + 1) ->
  at_ (pageNoArray rootData) 0 = Some Page.INVALID_NUMBER ->
  let A := S (length (file s)) in
  let B := S (S (length (file s))) in
  exists s' rootData' right,
    insertKeyTemplate LEAFSIZE NONLEAFSIZE keyValue rid s = (Return tt, s')
    /\ length (file s') = B
    /\ pageAt (file s') A = Some (LeafPage (setRightSib B (zeroLeaf LEAFSIZE)))
    /\ pageAt (file s') B = Some (LeafPage right)
    /\ rightSibPageNo right = Page.INVALID_NUMBER
    /\ (forall j, slot right j = if decide (j = 0) then (Some keyValue, Some rid)
                                 else slot (zeroLeaf LEAFSIZE) j)
    /\ pageAt (file s') (rootPageNum s) = Some (NonLeafPage rootData')
    /\ level rootData' = 2
    /\ (forall j, at_ (pageNoArray rootData') j =
          if decide (j = 0) then Some A
          else if decide (j = 1) then Some B else at_ (pageNoArray rootData) j)
    /\ (forall j, at_ (nlKeyArray rootData') j =
          if decide (j = 0) then Some keyValue else at_ (nlKeyArray rootData) j)
    /\ (forall q, q <> rootPageNum s -> (q <= length (file s))%nat ->
          pageAt (file s') q = pageAt (file s) q)
    /\ rootPageNum s' = rootPageNum s
    /\ pinned s' = pinned s.
Proof.
  intros HL HN Hroot Hkl Hpl H0 A B.
  pose proof (pageAt_lt _ _ (ex_intro _ _ Hroot)) as Hrlt.
  destruct (put_in_range (pageNoArray rootData) 0 A) as []; [lia|].
  set (rd1 := mkNonLeaf (level rootData) (nlKeyArray rootData)
                (<[0%nat := A]> (pageNoArray rootData))).
  set (rd2 := mkNonLeaf (level rootData) (nlKeyArray rootData)
                (<[1%nat := B]> (<[0%nat := A]> (pageNoArray rootData)))).
  set (rd3 := mkNonLeaf 2 (<[0%nat := keyValue]> (nlKeyArray rootData))
                (<[1%nat := B]> (<[0%nat := A]> (pageNoArray rootData)))).
  set (right := mkLeaf (<[0%nat := keyValue]> (replicate (Z.to_nat LEAFSIZE) 0))
                  (<[0%nat := rid]> (replicate (Z.to_nat LEAFSIZE) zeroRid))
                  Page.INVALID_NUMBER).
  assert (H1 : setPageNo 0 A rootData = Some rd1).
  { unfold setPageNo. rewrite put_in_range by lia. done. }
  assert (H2 : setPageNo 1 B rd1 = Some rd2).
  { unfold setPageNo. simpl. rewrite put_in_range by (rewrite length_insert; lia). done. }
  assert (H3 : setKey 0 keyValue (setLevel 2 rd2) = Some rd3).
  { unfold setKey. simpl. rewrite put_in_range by lia. done. }
  assert (H4 : setEntry 0 keyValue rid (zeroLeaf LEAFSIZE) = Some right).
  { unfold setEntry. simpl. rewrite !put_in_range by (rewrite length_replicate; lia). done. }
  assert (HAB : A <> B) by (unfold A, B; lia).
  assert (HAr : A <> rootPageNum s) by (unfold A; lia).
  assert (HBr : B <> rootPageNum s) by (unfold B; lia).
  destruct s as [f pins evs hp rp se ne cpn cpd lv hv lop hop]. simpl in *.
  assert (Hin : forall q g, (1 <= q <= B)%nat -> length g = B -> is_Some (pageAt g q)).
  { intros q g Hq Hg. apply pageAt_is_Some_le. lia. }
  assert (Hlen2 : length ((f ++ [BlankPage]) ++ [BlankPage]) = B).
  { rewrite !length_app. simpl. unfold B. lia. }
  eexists _, rd3, right.
  split.
  { unfold insertKeyTemplate.
    erewrite bindM_run by reflexivity.
    erewrite bindM_run by (apply readPage_run; simpl; eauto).
    erewrite bindM_run by (by apply asNonLeaf_run).
    erewrite bindM_run by (by apply defined_run).
    destruct (decide (Page.INVALID_NUMBER = Page.INVALID_NUMBER)) as [_|]; [|done].
    erewrite bindM_run by reflexivity.
    erewrite bindM_run by (apply defined_run; exact H1).
    erewrite bindM_run by reflexivity.
    erewrite bindM_run.
    2:{ apply defined_run. simpl. rewrite length_app. simpl.
        replace (length f + 1)%nat with (S (length f)) by lia. exact H2. }
    simpl. rewrite !length_app. simpl.
    replace (length f + 1)%nat with (S (length f)) by lia.
    fold A. fold B.
    erewrite bindM_run.
    2:{ apply writePage_run. simpl. apply Hin; [unfold A, B; lia|done]. }
    erewrite bindM_run by apply unPinPage_run.
    erewrite bindM_run by (apply defined_run; exact H4).
    erewrite bindM_run.
    2:{ apply writePage_run. simpl. apply Hin; [unfold A, B; lia|].
        by rewrite setPage_length. }
    erewrite bindM_run by apply unPinPage_run.
    erewrite bindM_run by (apply defined_run; exact H3).
    erewrite bindM_run.
    2:{ apply writePage_run. simpl. apply Hin; [unfold B; lia|].
        by rewrite !setPage_length. }
    rewrite unPinPage_run. reflexivity. }
  simpl.
  split. { by rewrite !setPage_length. }
  split. { rewrite pageAt_setPage_ne by done. rewrite pageAt_setPage_ne by done.
           apply pageAt_setPage_eq. apply Hin; [unfold A, B; lia|done]. }
  split. { rewrite pageAt_setPage_ne by done. apply pageAt_setPage_eq.
           apply Hin; [unfold A, B; lia|]. by rewrite setPage_length. }
  split; [done|].
  split. { intros j. apply (setEntry_Some _ _ _ _ _ H4). }
  split. { apply pageAt_setPage_eq. apply Hin; [unfold B; lia|].
           by rewrite !setPage_length. }
  split; [done|].
  split. { intros j. apply setPageNo_at in H1 as (_ & _ & Ha1).
           apply setPageNo_at in H2 as (_ & _ & Ha2).
           change (pageNoArray rd3) with (pageNoArray rd2). rewrite Ha2, Ha1.
           destruct (decide (j = 1)), (decide (j = 0)); try lia; done. }
  split. { intros j. apply setKey_at in H3 as (_ & _ & Hk3). rewrite Hk3. done. }
  split. { intros q Hq Hle. rewrite !pageAt_setPage_ne by (done || unfold A, B; lia).
           rewrite <- app_assoc. by apply pageAt_app. }
  split; [done|].
  unfold B in *.
  repeat (simpl; destruct (decide _) as [?|?]; try lia; try done).
Qed.

Lemma first_insert_builds_two_leaves_witness :
  exists s' rootData' right,
    insertKeyTemplate 3 3 10 (rid1 10) (freshIndex 3) = (Return tt, s')
    /\ length (file s') = 4%nat
    /\ pageAt (file s') 3%nat = Some (LeafPage (setRightSib 4%nat (zeroLeaf 3)))
    /\ pageAt (file s') 4%nat = Some (LeafPage right)
    /\ rightSibPageNo right = Page.INVALID_NUMBER
    /\ (forall j, slot right j = if decide (j = 0) then (Some 10, Some (rid1 10))
                                 else slot (zeroLeaf 3) j)
    /\ pageAt (file s') 2%nat = Some (NonLeafPage rootData')
    /\ level rootData' = 2
    /\ (forall j, at_ (pageNoArray rootData') j =
          if decide (j = 0) then Some 3%nat
          else if decide (j = 1) then Some 4%nat
               else at_ (pageNoArray (setLevel 1 (zeroNonLeaf 3))) j)
    /\ (forall j, at_ (nlKeyArray rootData') j =
          if decide (j = 0) then Some 10 else at_ (nlKeyArray (setLevel 1 (zeroNonLeaf 3))) j)
    /\ (forall q, q <> 2%nat -> (q <= 2)%nat ->
          pageAt (file s') q = pageAt (file (freshIndex 3)) q)
    /\ rootPageNum s' = 2%nat
    /\ pinned s' = pinned (freshIndex 3).
Proof.
  apply (first_insert_builds_two_leaves 3 3 10 (rid1 10) (freshIndex 3)
           (setLevel 1 (zeroNonLeaf 3))).
  - lia.
  - lia.
  - vm_compute. reflexivity.
  - vm_compute. reflexivity.
  - vm_compute. reflexivity.
  - vm_compute. reflexivity.
Defined.

(** X4.  The split of a non-leaf.  With [m = NONLEAFSIZE / 2], whenever the
    split of a non-leaf returns: both halves have the level of the node; the
    left half keeps the keys of slots [0 .. m-1] and the children of slots
    [0 .. m] and its other slots are zeroed; the right half has the keys of
    slots [m+1 ..] and the children of slots [m+1 ..], from slot 0 on, and
    zeroes elsewhere; the key of slot [m] is in neither half. *)
Theorem nonleaf_split_halves (NONLEAFSIZE : Z) (node left right : NonLeafNodeInt) :
  1 <= NONLEAFSIZE ->
  splitNonLeaf NONLEAFSIZE node = Some (left, right) ->
  let m := NONLEAFSIZE / 2 in
  level left = level node /\ level right = level node
  /\ (forall x, at_ (nlKeyArray left) x =
        if decide (m <= x < NONLEAFSIZE) then Some 0 else at_ (nlKeyArray node) x)
  /\ (forall x, at_ (pageNoArray left) x =
        if decide (m + 1 <= x <= NONLEAFSIZE) then Some Page.INVALID_NUMBER
        else at_ (pageNoArray node) x)
  /\ (forall x, at_ (nlKeyArray right) x =
        if decide (0 <= x < NONLEAFSIZE - m - 1) then at_ (nlKeyArray node) (m + 1 + x)
        else at_ (nlKeyArray (zeroNonLeaf NONLEAFSIZE)) x)
  /\ (forall x, at_ (pageNoArray right) x =
        if decide (0 <= x < NONLEAFSIZE - m) then at_ (pageNoArray node) (m + 1 + x)
        else at_ (pageNoArray (zeroNonLeaf NONLEAFSIZE)) x).
Proof. intros HN H. by apply splitNonLeaf_Some. Qed.

Lemma nonleaf_split_halves_witness :
  let left := mkNonLeaf 2 [10; 0; 0] [3; 4; 0; 0]%nat in
  let right := mkNonLeaf 2 [30; 0; 0] [5; 6; 0; 0]%nat in
  let m := 3 / 2 in
  level left = level fullRoot /\ level right = level fullRoot
  /\ (forall x, at_ (nlKeyArray left) x =
        if decide (m <= x < 3) then Some 0 else at_ (nlKeyArray fullRoot) x)
  /\ (forall x, at_ (pageNoArray left) x =
        if decide (m + 1 <= x <= 3) then Some Page.INVALID_NUMBER
        else at_ (pageNoArray fullRoot) x)
  /\ (forall x, at_ (nlKeyArray right) x =
        if decide (0 <= x < 3 - m - 1) then at_ (nlKeyArray fullRoot) (m + 1 + x)
        else at_ (nlKeyArray (zeroNonLeaf 3)) x)
  /\ (forall x, at_ (pageNoArray right) x =
        if decide (0 <= x < 3 - m) then at_ (pageNoArray fullRoot) (m + 1 + x)
        else at_ (pageNoArray (zeroNonLeaf 3)) x).
Proof.
  apply (nonleaf_split_halves 3 fullRoot).
  - lia.
  - vm_compute. reflexivity.
Defined.

(** X5.  The split of the root.  When the loop over the saved path meets
    the root [P] (the path ends there) and the root is full, then, with [R]
    and [g] the next two pages of the file and [median] the key of slot
    [NONLEAFSIZE / 2] of the root: the cached root number becomes [R]; page
    [R] is a non-leaf one level above the old root, with the children [P] and
    [g] in slots 0 and 1, no other child, and [median] as its key 0; [P] and
    [g] hold the two halves of the old root; no other page of the file is
    written (the meta page neither); and the non-leaf and slot under which
    the leaf is then split are in the half on the side of the key. *)
Theorem root_split_builds_new_root (NONLEAFSIZE keyValue offset : Z) (P : PageId)
    (done : bool) (G G' : option (PageId * Z)) (s s' : BTreeIndex) (pd : NonLeafNodeInt) :
  0 <= NONLEAFSIZE ->
  (forall n p, pageAt (file s) p = Some (NonLeafPage n) ->
               length (pageNoArray n) = Z.to_nat (NONLEAFSIZE + 1)) ->
  pageAt (file s) P = Some (NonLeafPage pd) ->
  firstInvalid NONLEAFSIZE pd offset = Some (NONLEAFSIZE + 1) ->
  propagate NONLEAFSIZE keyValue [(offset, P)] done G s = (Return G', s') ->
  let R := S (length (file s)) in
  let g := S R in
  exists left right median up,
    splitNonLeaf NONLEAFSIZE pd = Some (left, right)
    /\ at_ (nlKeyArray pd) (NONLEAFSIZE / 2) = Some median
    /\ rootPageNum s' = R
    /\ length (file s') = g
    /\ pageAt (file s') R = Some (NonLeafPage up)
    /\ level up = level pd + 1
    /\ at_ (pageNoArray up) 0 = Some P
    /\ at_ (pageNoArray up) 1 = Some g
    /\ (forall j, 2 <= j <= NONLEAFSIZE -> at_ (pageNoArray up) j = Some Page.INVALID_NUMBER)
    /\ at_ (nlKeyArray up) 0 = Some median
    /\ pageAt (file s') P = Some (NonLeafPage left)
    /\ pageAt (file s') g = Some (NonLeafPage right)
    /\ (forall q, q <> P -> (q <= length (file s))%nat ->
          pageAt (file s') q = pageAt (file s) q)
    /\ G' = (if done then G
             else if keyValue >=? median then Some (g, offset - NONLEAFSIZE / 2 - 1)
                  else Some (P, offset)).
Proof.
  intros HN Hlen HP Hfull H R g.
  apply propagate_cons in H; [|done|done].
  destruct H as (pd' & k & HP' & Hk & H).
  assert (pd' = pd) as -> by congruence.
  assert (k = NONLEAFSIZE + 1) as -> by congruence.
  destruct H as [(? & _)|(_ & s1 & left & right & median & base & up & uo & U & g' & blanks
                          & Hsplit & Hmed & HU & Hg & Hins & Hf1 & _ & Hrec)]; [done|].
  destruct HU as [(_ & -> & -> & Hbase & -> & Hroot)|(rest' & ? & _)]; [|done].
  simpl in Hrec. apply ret_Return in Hrec as [-> ->].
  assert (g' = g) as ->.
  { rewrite Hg, length_app. simpl. unfold g, R. lia. }
  pose proof (pageAt_lt _ _ (ex_intro _ _ HP)) as HPlt.
  assert (Hblank : Forall (fun d => d = BlankPage) [BlankPage; BlankPage])
    by (repeat constructor).
  assert (HUin : is_Some (pageAt (file s ++ [BlankPage; BlankPage]) R)).
  { apply pageAt_is_Some_le. rewrite length_app. simpl. unfold R. lia. }
  assert (Hnew : forall q, (length (file s) < q <= length (file s ++ [BlankPage; BlankPage]))%nat
                   -> q = R \/ q = g).
  { intros q. rewrite length_app. simpl. unfold g, R. lia. }
  assert (HPR : P <> R) by (unfold R; lia).
  assert (HRg : R <> g) by (unfold g; lia).
  assert (Hgl : (length (file s) < g)%nat) by (unfold g, R; lia).
  destruct Hins as (k & Hk' & Huo & HkN & (Hlv & _) & Hpn & Hkey).
  apply setPageNo_at in Hbase as (Hlb & _ & Hbase).
  assert (Hb0 : forall j, 1 <= j <= NONLEAFSIZE ->
            at_ (pageNoArray base) j = Some Page.INVALID_NUMBER).
  { intros j Hj. rewrite Hbase. destruct (decide (j = 0)); [lia|].
    unfold setLevel, zeroNonLeaf. simpl. apply at_replicate. lia. }
  exists left, right, median, up.
  split; [done|]. split; [done|]. split; [done|].
  rewrite Hf1.
  split. { by apply threeWrites_length. }
  split. { apply threeWrites_U; eauto. }
  split. { simpl in Hlb. congruence. }
  split. { rewrite Hpn. destruct (decide (0 = 0 + 1)); [lia|].
           destruct (decide (0 + 1 < 0 <= k)); [lia|]. rewrite Hbase.
           by destruct (decide (0 = 0)). }
  split. { rewrite Hpn. by destruct (decide (1 = 0 + 1)). }
  split. { intros j Hj. rewrite Hpn. destruct (decide (j = 0 + 1)); [lia|].
           destruct (decide (0 + 1 < j <= k)); apply Hb0; lia. }
  split. { rewrite Hkey. by destruct (decide (0 = 0)). }
  split. { apply threeWrites_P; eauto. }
  split. { apply threeWrites_g; eauto. }
  split; [|done].
  intros q Hq Hle. apply threeWrites_other; eauto; lia.
Qed.

Lemma root_split_builds_new_root_witness :
  exists left right median up,
    splitNonLeaf 3 fullRoot = Some (left, right)
    /\ at_ (nlKeyArray fullRoot) (3 / 2) = Some median
    /\ rootPageNum (snd (propagate 3 60 [(3, 2%nat)] false None beforeRootSplit)) = 7%nat
    /\ length (file (snd (propagate 3 60 [(3, 2%nat)] false None beforeRootSplit))) = 8%nat
    /\ pageAt (file (snd (propagate 3 60 [(3, 2%nat)] false None beforeRootSplit))) 7%nat
       = Some (NonLeafPage up)
    /\ level up = level fullRoot + 1
    /\ at_ (pageNoArray up) 0 = Some 2%nat
    /\ at_ (pageNoArray up) 1 = Some 8%nat
    /\ (forall j, 2 <= j <= 3 -> at_ (pageNoArray up) j = Some Page.INVALID_NUMBER)
    /\ at_ (nlKeyArray up) 0 = Some median
    /\ pageAt (file (snd (propagate 3 60 [(3, 2%nat)] false None beforeRootSplit))) 2%nat
       = Some (NonLeafPage left)
    /\ pageAt (file (snd (propagate 3 60 [(3, 2%nat)] false None beforeRootSplit))) 8%nat
       = Some (NonLeafPage right)
    /\ (forall q, q <> 2%nat -> (q <= 6)%nat ->
          pageAt (file (snd (propagate 3 60 [(3, 2%nat)] false None beforeRootSplit))) q
          = pageAt (file beforeRootSplit) q)
    /\ Some (8%nat, 1) = (if false then None
                          else if 60 >=? median then Some (8%nat, 3 - 3 / 2 - 1)
                               else Some (2%nat, 3)).
Proof.
  apply (root_split_builds_new_root 3 60 3 2%nat false None (Some (8%nat, 1)) beforeRootSplit
           (snd (propagate 3 60 [(3, 2%nat)] false None beforeRootSplit)) fullRoot).
  - lia.
  - intros n p Hp. destruct p as [|[|[|[|[|[|[|p]]]]]]]; vm_compute in Hp;
      try discriminate; inversion Hp; reflexivity.
  - vm_compute. reflexivity.
  - vm_compute. reflexivity.
  - vm_compute. reflexivity.
Defined.

(** X6.  The cursor of a scan.  When the cursor is on slot [j] of a leaf
    that holds entries in its first slots, the entry of slot [j] passes the
    upper bound of the scan, and the right sibling is none or a page of the
    file, [scanNextTemplate] returns the record id of slot [j], writes no
    page and leaves the bounds as they are; the cursor moves to slot [j + 1]
    of the same leaf when that slot holds an entry; else it moves to slot 0
    of the right sibling, or the page handle becomes null when there is
    none. *)
Theorem scanNextTemplate_advances (LEAFSIZE : Z) (f : list PageData) (highVal : Z)
    (highOpParm : Operator) (s : BTreeIndex) (p : PageId) (l : LeafNodeInt)
    (es : list (Z * RecordId)) (j : Z) (e : Z * RecordId) :
  cursorAt s f highVal highOpParm (Some p) j ->
  pageAt f p = Some (LeafPage l) -> leafHolds LEAFSIZE l es ->
  0 <= j -> es !! Z.to_nat j = Some e ->
  ~ upperFails highOpParm (fst e) highVal ->
  (rightSibPageNo l = Page.INVALID_NUMBER \/ is_Some (pageAt f (rightSibPageNo l))) ->
  exists s',
    scanNextTemplate LEAFSIZE s = (Return (snd e), s')
    /\ scanExecuting s' = scanExecuting s
    /\ cursorAt s' f highVal highOpParm
         (if decide (Z.of_nat (length es) = j + 1)
          then (if decide (rightSibPageNo l = Page.INVALID_NUMBER) then None
                else Some (rightSibPageNo l))
          else Some p)
         (if decide (Z.of_nat (length es) = j + 1) then 0 else j + 1).
Proof. apply scanNextTemplate_entry. Qed.

Lemma scanNextTemplate_advances_witness :
  exists s',
    scanNextTemplate 3 scanning2 = (Return (rid1 10), s')
    /\ scanExecuting s' = scanExecuting scanning2
    /\ cursorAt s' (file scanning2) 40 LTE (Some 5%nat) 0.
Proof.
  apply (scanNextTemplate_advances 3 (file scanning2) 40 LTE scanning2 4%nat
           (mkLeaf [10; 0; 0] [rid1 10; zeroRid; zeroRid] 5%nat) [(10, rid1 10)] 0
           (10, rid1 10)).
  - vm_compute. repeat split; reflexivity.
  - vm_compute. reflexivity.
  - split; [reflexivity|]. split; [reflexivity|]. split; [simpl; lia|].
    split; [repeat constructor; discriminate|].
    intros j Hj. assert (j = 0 \/ j = 1 \/ j = 2) as [->|[->| ->]] by lia; reflexivity.
  - lia.
  - reflexivity.
  - intros [[? _]|[_ ?]]; [discriminate|simpl in *; lia].
  - right. vm_compute. eauto.
Defined.

(** * Inserts, then a scan *)

(** X7.  The round trip.  Insert any entries (at least one, record ids
    with a page number other than 0) into a new index with at least 2 slots
    per leaf and 3 keys per non-leaf, every insert returning.  Then a scan
    whose bounds lie strictly outside all keys, the lower operator [GT] or
    [GTE] and the upper [LT] or [LTE], followed by [scanNext] until
    [IndexScanCompleted] (more calls allowed than there are entries), returns
    the record id of every entry exactly once, in the order of the keys --
    provided that some key is below the key of the first insert, or that 0
    lies within the scan range as the operators read it. *)
Theorem full_scan_returns_entries_in_key_order (LEAFSIZE NONLEAFSIZE : Z)
    (k0 : Z) (r0 : RecordId) (rest : list (Z * RecordId)) (s : BTreeIndex)
    (lowVal : Z) (lowOpParm : Operator) (highVal : Z) (highOpParm : Operator) (fuel : nat) :
  2 <= LEAFSIZE -> 3 <= NONLEAFSIZE ->
  Forall (fun e => page_number (snd e) <> Page.INVALID_NUMBER) ((k0, r0) :: rest) ->
  insertAll LEAFSIZE NONLEAFSIZE ((k0, r0) :: rest) (freshIndex NONLEAFSIZE)
  = (Return tt, s) ->
  (lowOpParm = GT \/ lowOpParm = GTE) -> (highOpParm = LT \/ highOpParm = LTE) ->
  Forall (fun e => lowVal < fst e < highVal) ((k0, r0) :: rest) ->
  ((exists e, e ∈ rest /\ fst e < k0)
   \/ zeroInRange lowVal lowOpParm highVal highOpParm) ->
  (length ((k0, r0) :: rest) < fuel)%nat ->
  exists es s',
    scanAll LEAFSIZE NONLEAFSIZE fuel lowVal lowOpParm highVal highOpParm s
    = (Return (map snd es), s')
    /\ es ≡ₚ (k0, r0) :: rest /\ sortedByKey es.
Proof.
  intros HL HN Hrids H Hlo Hho Hrange Hguard Hfuel.
  destruct (insertAll_fresh_index _ _ _ _ _ _ HL HN Hrids H) as (g & Hidx & _ & Hfirst).
  pose proof Hidx as (_ & _ & _ & Hleaves & _ & _ & _ & _ & Hperm).
  destruct (scanAll_indexOk LEAFSIZE NONLEAFSIZE ((k0, r0) :: rest) g s lowVal lowOpParm
              highVal highOpParm fuel 3%nat) as [s' Hscan]; try done; try lia.
  { destruct Hguard as [(e & He & Hlt)|Hz]; [left|by right].
    eapply (firstLeaf_holds_iff LEAFSIZE); [lia|exact Hidx|exact Hfirst|].
    exists e. split; [by apply list_elem_of_further|done]. }
  exists (concat (map (entriesOf g) (leafChain g))), s'.
  split; [done|]. split; [done|].
  eapply indexOk_sorted; [|exact Hidx]. lia.
Qed.

Lemma full_scan_returns_entries_in_key_order_witness :
  exists es s',
    scanAll 3 3 5 0 GT 100 LT
      (snd (insertAll 3 3 ((10, rid1 10) :: entries1 [5; 20]%nat) (freshIndex 3)))
    = (Return (map snd es), s')
    /\ es ≡ₚ (10, rid1 10) :: entries1 [5; 20]%nat /\ sortedByKey es.
Proof.
  apply (full_scan_returns_entries_in_key_order 3 3 10 (rid1 10) (entries1 [5; 20]%nat)).
  - lia.
  - lia.
  - vm_compute. repeat constructor; discriminate.
  - vm_compute. reflexivity.
  - left. reflexivity.
  - left. reflexivity.
  - vm_compute. repeat constructor; discriminate.
  - left. exists (5, rid1 5). split; [apply list_elem_of_here|simpl; lia].
  - simpl. lia.
Defined.

(** X8.  The chain of leaves.  After any run of inserts as in X7, the
    occupied slots of the leaves, read from page 3 along the right sibling
    pointers, hold exactly the inserted entries, in the order of their
    keys. *)
Theorem leaf_chain_holds_entries_in_key_order (LEAFSIZE NONLEAFSIZE : Z)
    (entries : list (Z * RecordId)) (s : BTreeIndex) :
  2 <= LEAFSIZE -> 3 <= NONLEAFSIZE ->
  entries <> [] ->
  Forall (fun e => page_number (snd e) <> Page.INVALID_NUMBER) entries ->
  insertAll LEAFSIZE NONLEAFSIZE entries (freshIndex NONLEAFSIZE) = (Return tt, s) ->
  chainEntries (file s) (length (file s)) 3%nat ≡ₚ entries
  /\ sortedByKey (chainEntries (file s) (length (file s)) 3%nat).
Proof.
  intros HL HN Hne Hrids H. destruct entries as [|[k r] rest]; [done|].
  destruct (insertAll_fresh_index _ _ _ _ _ _ HL HN Hrids H) as (g & Hidx & _ & _).
  pose proof Hidx as (_ & _ & _ & Hleaves & Hnodup & [c Hchain] & Hlinked & _ & Hperm).
  assert (Hlen : (length (leafChain g) <= length (file s))%nat).
  { apply chain_length; [done|]. intros a Ha.
    destruct (linked_leaf _ _ _ a Hlinked Ha) as [l Hl]. eauto. }
  rewrite Hchain in Hlinked, Hlen.
  rewrite (chainEntries_linked LEAFSIZE g (file s) c 3%nat); [|lia|done| |done].
  2:{ intros b l _ Hb. by destruct (Hleaves _ _ Hb) as (? & _). }
  rewrite <- Hchain. split; [done|].
  eapply indexOk_sorted; [|exact Hidx]. lia.
Qed.

Lemma leaf_chain_holds_entries_in_key_order_witness :
  chainEntries (file scenarioRootSplit) (length (file scenarioRootSplit)) 3%nat
    ≡ₚ entries1 [10; 20; 30; 40; 50; 60]%nat
  /\ sortedByKey (chainEntries (file scenarioRootSplit) (length (file scenarioRootSplit)) 3%nat).
Proof.
  apply (leaf_chain_holds_entries_in_key_order 3 3 (entries1 [10; 20; 30; 40; 50; 60]%nat)).
  - lia.
  - lia.
  - vm_compute. discriminate.
  - vm_compute. repeat constructor; discriminate.
  - vm_compute. reflexivity.
Defined.

(** X9.  The keys of the non-leaves.  After any run of inserts as in X7,
    the keys that separate the children of a non-leaf are in non-decreasing
    order, and every one of them is the key of an inserted entry. *)
Theorem separator_keys_sorted_and_inserted (LEAFSIZE NONLEAFSIZE : Z)
    (entries : list (Z * RecordId)) (s : BTreeIndex) (p : PageId) (n : NonLeafNodeInt) :
  2 <= LEAFSIZE -> 3 <= NONLEAFSIZE ->
  entries <> [] ->
  Forall (fun e => page_number (snd e) <> Page.INVALID_NUMBER) entries ->
  insertAll LEAFSIZE NONLEAFSIZE entries (freshIndex NONLEAFSIZE) = (Return tt, s) ->
  pageAt (file s) p = Some (NonLeafPage n) ->
  (forall i j x y, 0 <= i <= j -> nextValid n j = true ->
     at_ (nlKeyArray n) i = Some x -> at_ (nlKeyArray n) j = Some y -> x <= y)
  /\ (forall i x, nextValid n i = true -> at_ (nlKeyArray n) i = Some x ->
        x ∈ map fst entries).
Proof.
  intros HL HN Hne Hrids H Hp. destruct entries as [|[k r] rest]; [done|].
  destruct (insertAll_fresh_index _ _ _ _ _ _ HL HN Hrids H) as (g & Hidx & Hkeys & _).
  destruct Hidx as (_ & _ & _ & _ & _ & _ & _ & Hsep & _).
  destruct (Hkeys _ _ Hp) as [_ Hsorted]. split; [done|].
  intros i x Hv Hx. by eapply Hsep.
Qed.

Lemma separator_keys_sorted_and_inserted_witness :
  (forall i j x y, 0 <= i <= j ->
     nextValid (mkNonLeaf 2 [30; 40; 0] [5; 6; 9; 0]%nat) j = true ->
     at_ [30; 40; 0] i = Some x -> at_ [30; 40; 0] j = Some y -> x <= y)
  /\ (forall i x, nextValid (mkNonLeaf 2 [30; 40; 0] [5; 6; 9; 0]%nat) i = true ->
        at_ [30; 40; 0] i = Some x ->
        x ∈ map fst (entries1 [10; 20; 30; 40; 50; 60]%nat)).
Proof.
  apply (separator_keys_sorted_and_inserted 3 3 (entries1 [10; 20; 30; 40; 50; 60]%nat)
           scenarioRootSplit 8%nat (mkNonLeaf 2 [30; 40; 0] [5; 6; 9; 0]%nat)).
  - lia.
  - lia.
  - vm_compute. discriminate.
  - vm_compute. repeat constructor; discriminate.
  - vm_compute. reflexivity.
  - vm_compute. reflexivity.
Defined.

(** X10.  The keys around a leaf.  After any run of inserts as in X7, the
    key of every entry of the leaf in slot [i] of a non-leaf is at least the
    key to the left of the slot (when [i > 0]) and at most the key at the
    slot (when slot [i + 1] holds a child): an entry whose key equals the
    separator can lie on either side of it. *)
Theorem leaf_keys_between_separators (LEAFSIZE NONLEAFSIZE : Z)
    (entries : list (Z * RecordId)) (s : BTreeIndex)
    (p : PageId) (n : NonLeafNodeInt) (i : Z) (c : PageId) (l : LeafNodeInt)
    (e : Z * RecordId) :
  2 <= LEAFSIZE -> 3 <= NONLEAFSIZE ->
  entries <> [] ->
  Forall (fun e => page_number (snd e) <> Page.INVALID_NUMBER) entries ->
  insertAll LEAFSIZE NONLEAFSIZE entries (freshIndex NONLEAFSIZE) = (Return tt, s) ->
  pageAt (file s) p = Some (NonLeafPage n) ->
  at_ (pageNoArray n) i = Some c ->
  pageAt (file s) c = Some (LeafPage l) ->
  e ∈ leafEntries l ->
  (forall x, 0 < i -> at_ (nlKeyArray n) (i - 1) = Some x -> x <= fst e)
  /\ (forall x, nextValid n i = true -> at_ (nlKeyArray n) i = Some x -> fst e <= x).
Proof.
  intros HL HN Hne Hrids H Hp Hc Hl He. destruct entries as [|[k r] rest]; [done|].
  destruct (insertAll_fresh_index _ _ _ _ _ _ HL HN Hrids H) as (g & Hidx & _ & _).
  destruct Hidx as (_ & Hedges & _ & Hleaves & _).
  assert (Hnz : c <> Page.INVALID_NUMBER).
  { intros ->. by rewrite pageAt_zero in Hl. }
  destruct (Hedges _ _ _ _ Hp Hc Hnz) as (_ & Hlow & Hhigh).
  destruct (Hleaves _ _ Hl) as (Hholds & _ & Hwithin & _).
  rewrite (leafHolds_entries LEAFSIZE l _ ltac:(lia) Hholds) in He.
  rewrite Forall_forall in Hwithin. destruct (Hwithin _ He) as [Ha Hb].
  rewrite Hlow in Ha. rewrite Hhigh in Hb. split.
  - intros x Hi Hx. rewrite decide_False in Ha by lia. rewrite Hx in Ha. done.
  - intros x Hv Hx. rewrite Hv, Hx in Hb. done.
Qed.

Lemma leaf_keys_between_separators_witness :
  (forall x, 0 < 1 -> at_ [30; 40; 0] (1 - 1) = Some x -> x <= 30)
  /\ (forall x, nextValid (mkNonLeaf 2 [30; 40; 0] [5; 6; 9; 0]%nat) 1 = true ->
        at_ [30; 40; 0] 1 = Some x -> 30 <= x).
Proof.
  apply (leaf_keys_between_separators 3 3 (entries1 [10; 20; 30; 40; 50; 60]%nat)
           scenarioRootSplit 8%nat (mkNonLeaf 2 [30; 40; 0] [5; 6; 9; 0]%nat) 1 6%nat
           (mkLeaf [30; 0; 0] [rid1 30; zeroRid; zeroRid] 9%nat) (30, rid1 30)).
  - lia.
  - lia.
  - vm_compute. discriminate.
  - vm_compute. repeat constructor; discriminate.
  - vm_compute. reflexivity.
  - vm_compute. reflexivity.
  - vm_compute. reflexivity.
  - vm_compute. reflexivity.
  - vm_compute. apply list_elem_of_here.
Defined.

(** X11.  The first leaf.  After any run of inserts as in X7, page 3 (the
    left leaf that the first insert creates empty) is a leaf that holds only
    entries whose key is below the key of the first insert, and it holds an
    entry exactly when such a key has been inserted. *)
Theorem first_leaf_holds_keys_below_first (LEAFSIZE NONLEAFSIZE : Z)
    (k0 : Z) (r0 : RecordId) (rest : list (Z * RecordId)) (s : BTreeIndex) :
  2 <= LEAFSIZE -> 3 <= NONLEAFSIZE ->
  Forall (fun e => page_number (snd e) <> Page.INVALID_NUMBER) ((k0, r0) :: rest) ->
  insertAll LEAFSIZE NONLEAFSIZE ((k0, r0) :: rest) (freshIndex NONLEAFSIZE)
  = (Return tt, s) ->
  exists l,
    pageAt (file s) 3%nat = Some (LeafPage l)
    /\ Forall (fun e => fst e < k0) (leafEntries l)
    /\ (leafEntries l <> [] <-> exists e, e ∈ rest /\ fst e < k0).
Proof.
  intros HL HN Hrids H.
  destruct (insertAll_fresh_index _ _ _ _ _ _ HL HN Hrids H) as (g & Hidx & _ & Hfirst).
  pose proof Hidx as (_ & _ & _ & Hleaves & _ & [c Hchain] & Hlinked & _).
  destruct (linked_leaf _ _ _ 3%nat Hlinked) as [l Hl];
    [rewrite Hchain; apply list_elem_of_here|].
  destruct (Hleaves _ _ Hl) as (Hholds & _).
  exists l. split; [done|].
  rewrite (leafHolds_entries LEAFSIZE l _ ltac:(lia) Hholds).
  split; [by destruct Hfirst as (? & _)|].
  rewrite (firstLeaf_holds_iff LEAFSIZE NONLEAFSIZE 3%nat _ g _ _ k0 ltac:(lia) Hidx Hfirst).
  split.
  - intros (e & He & Hlt). exists e. split; [|done].
    apply elem_of_cons in He as [->|He]; [simpl in Hlt; lia|done].
  - intros (e & He & Hlt). exists e. split; [by apply list_elem_of_further|done].
Qed.

Lemma first_leaf_holds_keys_below_first_witness :
  exists l,
    pageAt (file (snd (insertAll 3 3 ((10, rid1 10) :: entries1 [5; 20]%nat) (freshIndex 3))))
      3%nat = Some (LeafPage l)
    /\ Forall (fun e => fst e < 10) (leafEntries l)
    /\ (leafEntries l <> [] <-> exists e, e ∈ entries1 [5; 20]%nat /\ fst e < 10).
Proof.
  apply (first_leaf_holds_keys_below_first 3 3 10 (rid1 10) (entries1 [5; 20]%nat)).
  - lia.
  - lia.
  - vm_compute. repeat constructor; discriminate.
  - vm_compute. reflexivity.
Defined.

(** X12.  A scan that throws though entries match.  After any run of
    inserts as in X7 in which no key is below the key of the first insert,
    page 3 is still empty, and [startScan] tests the upper bound against its
    key 0 instead of the first entry: a scan whose bounds lie strictly outside
    all keys fails with [NoSuchKeyFound] when the upper bound is negative, or
    is 0 with the operator [LT] -- although every entry is within the
    range. *)
Theorem scan_of_negative_keys_throws (LEAFSIZE NONLEAFSIZE : Z)
    (k0 : Z) (r0 : RecordId) (rest : list (Z * RecordId)) (s : BTreeIndex)
    (lowVal : Z) (lowOpParm : Operator) (highVal : Z) (highOpParm : Operator) :
  2 <= LEAFSIZE -> 3 <= NONLEAFSIZE ->
  Forall (fun e => page_number (snd e) <> Page.INVALID_NUMBER) ((k0, r0) :: rest) ->
  insertAll LEAFSIZE NONLEAFSIZE ((k0, r0) :: rest) (freshIndex NONLEAFSIZE)
  = (Return tt, s) ->
  (lowOpParm = GT \/ lowOpParm = GTE) -> (highOpParm = LT \/ highOpParm = LTE) ->
  Forall (fun e => lowVal < fst e < highVal) ((k0, r0) :: rest) ->
  Forall (fun e => k0 <= fst e) rest ->
  (highVal < 0 \/ (highOpParm = LT /\ highVal = 0)) ->
  exists s',
    startScan LEAFSIZE NONLEAFSIZE lowVal lowOpParm highVal highOpParm s
    = (Throw NoSuchKeyFoundException, s').
Proof.
  intros HL HN Hrids H Hlo Hho Hrange Hnone Hhigh.
  destruct (insertAll_fresh_index _ _ _ _ _ _ HL HN Hrids H) as (g & Hidx & _ & Hfirst).
  assert (Hne : (k0, r0) :: rest <> []) by done.
  assert (Hall : Forall (fun e => k0 <= fst e) ((k0, r0) :: rest)).
  { constructor; [simpl; lia|done]. }
  destruct (firstLeaf_empty LEAFSIZE NONLEAFSIZE 3%nat _ g _ _ k0 ltac:(lia) Hne
              Hidx Hfirst Hall) as (leaf & Hleaf & Hholds & Hsib).
  pose proof Hidx as (Hst & _ & _ & _ & _ & _ & _ & Hsep & _).
  apply (startScan_stale LEAFSIZE NONLEAFSIZE (file s) lowVal lowOpParm highVal highOpParm s
           3%nat leaf); try done.
  - intros p nd Hp.
    eapply (childIndex_below LEAFSIZE NONLEAFSIZE 3%nat ((k0, r0) :: rest)); try done; [lia|].
    eapply Forall_impl; [exact Hrange|]. simpl. intros; lia.
  - apply Forall_cons in Hrange as [Hr _]. simpl in Hr. lia.
Qed.

Lemma scan_of_negative_keys_throws_witness :
  exists s',
    startScan 3 3 (-10) GT (-1) LT
      (snd (insertAll 3 3 [(-5, rid1 5); (-3, rid1 3)] (freshIndex 3)))
    = (Throw NoSuchKeyFoundException, s').
Proof.
  apply (scan_of_negative_keys_throws 3 3 (-5) (rid1 5) [(-3, rid1 3)]).
  - lia.
  - lia.
  - vm_compute. repeat constructor; discriminate.
  - vm_compute. reflexivity.
  - left. reflexivity.
  - left. reflexivity.
  - vm_compute. repeat constructor; discriminate.
  - repeat constructor. simpl. lia.
  - left. lia.
Defined.

(** X13.  A scan that misses the first entry.  After any run of inserts
    as in X7 in which no key is below the key of the first insert, all keys
    being positive, a scan with lower bound 0 and operator [GT] whose upper
    bound is above all keys returns the record ids of the entries in key
    order without the first of them (an entry with the smallest key):
    [startScan] takes key 0 of the empty page 3 for an entry equal to the
    bound and moves the cursor one slot on, to slot 1 of the right sibling
    of page 3, the leaf that holds the first entries.  When that leaf holds
    one entry only, slot 1 is empty and its record id (page number 0) comes
    back in the place of the first entry; when it holds more, nothing comes
    back in that place. *)
Theorem scan_above_zero_misses_smallest (LEAFSIZE NONLEAFSIZE : Z)
    (k0 : Z) (r0 : RecordId) (rest : list (Z * RecordId)) (s : BTreeIndex)
    (highVal : Z) (highOpParm : Operator) (fuel : nat) :
  2 <= LEAFSIZE -> 3 <= NONLEAFSIZE ->
  Forall (fun e => page_number (snd e) <> Page.INVALID_NUMBER) ((k0, r0) :: rest) ->
  insertAll LEAFSIZE NONLEAFSIZE ((k0, r0) :: rest) (freshIndex NONLEAFSIZE)
  = (Return tt, s) ->
  (highOpParm = LT \/ highOpParm = LTE) ->
  Forall (fun e => 0 < fst e < highVal) ((k0, r0) :: rest) ->
  Forall (fun e => k0 <= fst e) rest ->
  (length ((k0, r0) :: rest) < fuel)%nat ->
  exists es l3 l4 s',
    es ≡ₚ (k0, r0) :: rest /\ sortedByKey es
    /\ pageAt (file s) 3%nat = Some (LeafPage l3) /\ leafEntries l3 = []
    /\ pageAt (file s) (rightSibPageNo l3) = Some (LeafPage l4)
    /\ leafEntries l4 <> [] /\ leafEntries l4 = take (length (leafEntries l4)) es
    /\ scanAll LEAFSIZE NONLEAFSIZE fuel 0 GT highVal highOpParm s
       = (Return ((if decide (length (leafEntries l4) = 1%nat) then [zeroRid] else [])
                  ++ map snd (tail es)), s').
Proof.
  intros HL HN Hrids H Hho Hrange Hnone Hfuel.
  destruct (insertAll_fresh_index _ _ _ _ _ _ HL HN Hrids H) as (g & Hidx & _ & Hfirst).
  assert (Hne : (k0, r0) :: rest <> []) by done.
  assert (Hempty : entriesOf g 3%nat = []).
  { destruct (entriesOf g 3%nat) as [|e es] eqn:E; [done|]. exfalso.
    destruct (proj1 (firstLeaf_holds_iff LEAFSIZE NONLEAFSIZE 3%nat _ g _ _ k0
                       ltac:(lia) Hidx Hfirst)) as (e' & He' & Hlt); [by rewrite E|].
    apply elem_of_cons in He' as [->|He']; [simpl in Hlt; lia|].
    rewrite Forall_forall in Hnone. specialize (Hnone _ He'). lia. }
  destruct (scanAll_skip LEAFSIZE NONLEAFSIZE ((k0, r0) :: rest) g s highVal highOpParm fuel
              3%nat HL ltac:(lia) Hne Hidx Hho Hrange Hempty Hfuel)
    as (l3 & l4 & s' & Hl3 & Hnil & Hl4 & Hsome & Htake & Hscan).
  exists (concat (map (entriesOf g) (leafChain g))), l3, l4, s'.
  split; [by destruct Hidx as (_ & _ & _ & _ & _ & _ & _ & _ & ?)|].
  split; [|done]. eapply indexOk_sorted; [|exact Hidx]. lia.
Qed.

Lemma scan_above_zero_misses_smallest_witness :
  exists es l3 l4 s',
    es ≡ₚ (10, rid1 10) :: entries1 [20; 30; 40]%nat /\ sortedByKey es
    /\ pageAt (file scenario2) 3%nat = Some (LeafPage l3) /\ leafEntries l3 = []
    /\ pageAt (file scenario2) (rightSibPageNo l3) = Some (LeafPage l4)
    /\ leafEntries l4 <> [] /\ leafEntries l4 = take (length (leafEntries l4)) es
    /\ scanAll 3 3 5 0 GT 100 LT scenario2
       = (Return ((if decide (length (leafEntries l4) = 1%nat) then [zeroRid] else [])
                  ++ map snd (tail es)), s').
Proof.
  apply (scan_above_zero_misses_smallest 3 3 10 (rid1 10) (entries1 [20; 30; 40]%nat)).
  - lia.
  - lia.
  - vm_compute. repeat constructor; discriminate.
  - vm_compute. reflexivity.
  - left. reflexivity.
  - vm_compute. repeat constructor; discriminate.
  - repeat constructor; simpl; lia.
  - simpl. lia.
Defined.

(** * Inserts stay within the pages *)

(** X14.  Inserts return.  Every run of inserts into a new index with at
    least 2 slots per leaf and 3 keys per non-leaf, the record ids with a
    page number other than 0, returns: no insert reads or writes a key, child
    or record slot outside its array, reads a page the file does not hold, or
    uses the parent [GparentPageId] of the split before the loop over the
    saved path has set it.  (Pages never run out and an unpin never fails,
    as the buffer manager is modelled.) *)
Theorem inserts_into_new_index_return (LEAFSIZE NONLEAFSIZE : Z)
    (entries : list (Z * RecordId)) :
  2 <= LEAFSIZE -> 3 <= NONLEAFSIZE ->
  Forall (fun e => page_number (snd e) <> Page.INVALID_NUMBER) entries ->
  exists s', insertAll LEAFSIZE NONLEAFSIZE entries (freshIndex NONLEAFSIZE) = (Return tt, s').
Proof.
  intros HL HN Hrids.
  destruct (insertAll_fresh_total LEAFSIZE NONLEAFSIZE entries HL HN Hrids) as (s' & Hs' & _).
  by exists s'.
Qed.

Lemma inserts_into_new_index_return_witness :
  exists s', insertAll 3 3 (entries1 [10; 20; 30; 40; 50; 60]%nat) (freshIndex 3)
             = (Return tt, s').
Proof.
  apply (inserts_into_new_index_return 3 3 (entries1 [10; 20; 30; 40; 50; 60]%nat)).
  - lia.
  - lia.
  - vm_compute. repeat constructor; discriminate.
Defined.

(** X15.  Room above the parents of the leaves.  After any run of inserts
    as in X14, every non-leaf of level 3 or more has its last child slot
    free: the loop over the saved path splits such a node in the insert that
    fills it, so the next split below it finds a slot for the new child.  (A
    parent of leaves, level 2, can be left full.) *)
Theorem upper_nonleaves_are_never_left_full (LEAFSIZE NONLEAFSIZE : Z)
    (entries : list (Z * RecordId)) (s' : BTreeIndex) :
  2 <= LEAFSIZE -> 3 <= NONLEAFSIZE ->
  Forall (fun e => page_number (snd e) <> Page.INVALID_NUMBER) entries ->
  insertAll LEAFSIZE NONLEAFSIZE entries (freshIndex NONLEAFSIZE) = (Return tt, s') ->
  forall p n, pageAt (file s') p = Some (NonLeafPage n) -> 3 <= level n ->
              hasRoom NONLEAFSIZE n.
Proof.
  intros HL HN Hrids H p n Hp Hl3.
  destruct (insertAll_fresh_total LEAFSIZE NONLEAFSIZE entries HL HN Hrids)
    as (s1 & Hs1 & Hroom).
  assert (s1 = s') as -> by congruence. by apply (Hroom p n).
Qed.

Lemma upper_nonleaves_are_never_left_full_witness :
  exists n, pageAt (file scenarioRootSplit) 7%nat = Some (NonLeafPage n)
            /\ 3 <= level n /\ hasRoom 3 n.
Proof.
  eexists. split; [vm_compute; reflexivity|]. split; [simpl; lia|].
  apply (upper_nonleaves_are_never_left_full 3 3 (entries1 [10; 20; 30; 40; 50; 60]%nat)
           scenarioRootSplit) with (p := 7%nat).
  - lia.
  - lia.
  - vm_compute. repeat constructor; discriminate.
  - vm_compute. reflexivity.
  - vm_compute. reflexivity.
  - simpl. lia.
Defined.

(** X16.  A scan that starts on a full leaf.  After any run of inserts as
    in X14, take a scan whose lower bound is above every key of the leaf on
    which the walk from the root for that bound ends, that leaf being full.
    The descent of [startScan], though in read-only mode, then splits the
    leaf as an insert would: the file grows.  As the page it returns is the
    new leaf and not the page the walk ended on, [startScanTemplate] sets no
    cursor, and the scan returns no entry, whatever entries the leaves to the
    right hold within the bounds. *)
Theorem scan_start_on_full_leaf_splits_it (LEAFSIZE NONLEAFSIZE : Z)
    (entries : list (Z * RecordId)) (s : BTreeIndex)
    (lowVal : Z) (lowOpParm : Operator) (highVal : Z) (highOpParm : Operator)
    (rootData : NonLeafNodeInt) (p : PageId) (path : list (Z * PageId))
    (dataPage : LeafNodeInt) (fuel : nat) :
  2 <= LEAFSIZE -> 3 <= NONLEAFSIZE ->
  Forall (fun e => page_number (snd e) <> Page.INVALID_NUMBER) entries ->
  insertAll LEAFSIZE NONLEAFSIZE entries (freshIndex NONLEAFSIZE) = (Return tt, s) ->
  (lowOpParm = GT \/ lowOpParm = GTE) -> (highOpParm = LT \/ highOpParm = LTE) ->
  lowVal <= highVal ->
  pageAt (file s) (rootPageNum s) = Some (NonLeafPage rootData) ->
  fst (walk NONLEAFSIZE (Z.to_nat (level rootData - 1)) lowVal
         (rootPageNum s) (rootPageNum s) [] s) = Return (p, p, path) ->
  pageAt (file s) p = Some (LeafPage dataPage) ->
  length (leafEntries dataPage) = Z.to_nat LEAFSIZE ->
  Forall (fun e => fst e < lowVal) (leafEntries dataPage) ->
  exists s',
    startScan LEAFSIZE NONLEAFSIZE lowVal lowOpParm highVal highOpParm s = (Return tt, s')
    /\ (length (file s) < length (file s'))%nat
    /\ fst (scanAll LEAFSIZE NONLEAFSIZE fuel lowVal lowOpParm highVal highOpParm s)
       = Return [].
Proof.
  intros HL HN Hrids H Hlo Hho Hrange Hrd Hwalk Hleaf Hfull Hbelow.
  destruct entries as [|[k r] rest].
  { exfalso. apply ret_Return in H as [_ ->].
    destruct (freshIndex_state NONLEAFSIZE) as [Hf Hr]. rewrite Hf, Hr in Hrd.
    inversion Hrd; subst rootData.
    change (Z.to_nat (level (setLevel 1 (zeroNonLeaf NONLEAFSIZE)) - 1)) with 0%nat in Hwalk.
    inversion Hwalk; subst p. rewrite Hf in Hleaf. rewrite ?Hr in Hleaf.
    discriminate Hleaf. }
  destruct (insertAll_fresh_index _ _ _ _ _ _ HL HN Hrids H) as (g & Hidx & Hkeys & _).
  destruct (insertAll_fresh_total LEAFSIZE NONLEAFSIZE _ HL HN Hrids) as (s1 & Hs1 & Hroom).
  assert (s1 = s) as -> by congruence.
  assert (Hcur : scanExecuting s = false -> currentPageData s = None).
  { intros _. by rewrite (insertAll_cursor _ _ _ _ _ H). }
  destruct (startScan_splits_full_leaf LEAFSIZE NONLEAFSIZE 3%nat _ g lowVal lowOpParm
              highVal highOpParm s p dataPage path rootData
              HL HN Hidx Hkeys Hroom Hcur Hlo Hho Hrange Hrd Hwalk Hleaf Hfull Hbelow)
    as (s' & Hscan & Hlen & Hact & Hcur').
  exists s'. split; [exact Hscan|]. split; [exact Hlen|].
  unfold scanAll. erewrite bindM_run by exact Hscan.
  destruct fuel; [reflexivity|]. by rewrite drain_end.
Qed.

Lemma scan_start_on_full_leaf_splits_it_witness :
  exists s',
    startScan 3 3 28 GTE 100 LTE scenarioFullLeaf = (Return tt, s')
    /\ (length (file scenarioFullLeaf) < length (file s'))%nat
    /\ fst (scanAll 3 3 10 28 GTE 100 LTE scenarioFullLeaf) = Return [].
Proof.
  eapply (scan_start_on_full_leaf_splits_it 3 3
            (entries1 [10; 20; 30; 40; 50; 25; 27]%nat) scenarioFullLeaf 28 GTE 100 LTE
            _ 5%nat _ _ 10%nat).
  - lia.
  - lia.
  - vm_compute. repeat constructor; discriminate.
  - vm_compute. reflexivity.
  - by right.
  - by right.
  - lia.
  - vm_compute. reflexivity.
  - vm_compute. reflexivity.
  - vm_compute. reflexivity.
  - vm_compute. reflexivity.
  - vm_compute. repeat constructor.
Defined.

(** ** A scan of the empty index *)

Lemma leafView_blank L p s n :
  pageAt (file s) p = Some (NonLeafPage n) -> blankNonLeaf n = true ->
  leafView L p s = (Return (nonLeafAsLeaf L n), s).
Proof. unfold leafView. by intros -> ->. Qed.

(** [startScanTemplate] on the empty index: the descent ends on the root,
    whose slot 0 read as a leaf is empty and which has no right sibling. *)
Lemma startScanTemplate_empty L N lowVal highVal m s :
  1 <= L ->
  file s = [MetaPage m; NonLeafPage (setLevel 1 (zeroNonLeaf N))] ->
  rootPageNum s = 2%nat ->
  exists s',
    startScanTemplate L N lowVal highVal s = (Throw NoSuchKeyFoundException, s')
    /\ file s' = file s
    /\ pinned s' = unpinOne 2%nat (2%nat :: unpinOne 2%nat (2%nat :: pinned s))
    /\ scanExecuting s' = scanExecuting s.
Proof.
  intros HL Hf Hr.
  destruct s as [f0 pins0 evs0 hp rp se ne cpn cpd lv hv lop hop]. simpl in *. subst f0 rp.
  unfold startScanTemplate.
  erewrite bindM_run by reflexivity.
  erewrite bindM_run by reflexivity.
  erewrite bindM_run by (apply readPage_run; simpl; eauto).
  erewrite bindM_run by (by apply (descent_empty L N lowVal false m)).
  cbv beta iota. rewrite decide_True by done.
  erewrite bindM_run by (apply readPage_run; simpl; eauto).
  erewrite bindM_run by reflexivity.
  erewrite bindM_run by (apply leafView_blank; [done|apply blankNonLeaf_created]).
  erewrite bindM_run.
  2:{ apply defined_run. simpl. apply at_replicate. lia. }
  eexists. split.
  - apply bindM_throw. rewrite decide_True by done. rewrite decide_True by done.
    erewrite bindM_run by apply unPinPage_run. reflexivity.
  - done.
Qed.

Lemma startScan_empty L N lowVal lowOpParm highVal highOpParm m s :
  1 <= L ->
  (lowOpParm = GT \/ lowOpParm = GTE) -> (highOpParm = LT \/ highOpParm = LTE) ->
  lowVal <= highVal ->
  file s = [MetaPage m; NonLeafPage (setLevel 1 (zeroNonLeaf N))] ->
  rootPageNum s = 2%nat ->
  scanExecuting s = false ->
  exists s',
    startScan L N lowVal lowOpParm highVal highOpParm s = (Throw NoSuchKeyFoundException, s')
    /\ file s' = file s
    /\ pinned s' = unpinOne 2%nat (2%nat :: unpinOne 2%nat (2%nat :: pinned s))
    /\ scanExecuting s' = false.
Proof.
  intros HL Hlo Hho Hrange Hf Hr Hact.
  destruct (startScanTemplate_empty L N lowVal highVal m
              (withOps lowOpParm highOpParm s) HL Hf Hr)
    as (s' & Hrun & Hf' & Hp' & Hact').
  exists s'. split; [|by rewrite Hact' in *].
  unfold startScan. erewrite bindM_run by reflexivity. rewrite Hact.
  erewrite bindM_run by reflexivity.
  replace (negb (bool_decide (lowOpParm = GT) || bool_decide (lowOpParm = GTE))
           || negb (bool_decide (highOpParm = LT) || bool_decide (highOpParm = LTE)))
    with false.
  2:{ destruct Hlo as [-> | ->], Hho as [-> | ->]; done. }
  destruct (Z.gtb_spec lowVal highVal); [lia|].
  erewrite bindM_run by reflexivity.
  by apply bindM_throw.
Qed.

(** X17.  A scan of an index that holds no entry.  On a new index, for any
    pair of valid operators and any bounds with [lowVal <= highVal],
    [startScan] raises [NoSuchKeyFoundException]: the descent ends on the
    root, which [createRoot] wrote as a non-leaf and which the code reads as
    a leaf whose slot 0 is empty and which has no right sibling.  No page is
    left pinned, no scan is active, and the file is as it was. *)
Theorem scan_of_empty_index_finds_no_key (LEAFSIZE NONLEAFSIZE lowVal highVal : Z)
    (lowOpParm highOpParm : Operator) :
  1 <= LEAFSIZE ->
  (lowOpParm = GT \/ lowOpParm = GTE) -> (highOpParm = LT \/ highOpParm = LTE) ->
  lowVal <= highVal ->
  exists s',
    startScan LEAFSIZE NONLEAFSIZE lowVal lowOpParm highVal highOpParm (freshIndex NONLEAFSIZE)
      = (Throw NoSuchKeyFoundException, s')
    /\ file s' = file (freshIndex NONLEAFSIZE)
    /\ pinned s' = []
    /\ scanExecuting s' = false.
Proof.
  intros HL Hlo Hho Hrange.
  destruct (freshIndex_state NONLEAFSIZE) as [Hf Hr].
  assert (Hact : scanExecuting (freshIndex NONLEAFSIZE) = false) by reflexivity.
  assert (Hpin : pinned (freshIndex NONLEAFSIZE) = []) by reflexivity.
  destruct (startScan_empty LEAFSIZE NONLEAFSIZE lowVal lowOpParm highVal highOpParm _
              (freshIndex NONLEAFSIZE) HL Hlo Hho Hrange Hf Hr Hact)
    as (s' & Hrun & Hf' & Hp' & Hact').
  exists s'. split; [done|]. split; [done|]. split; [|done].
  rewrite Hp', Hpin. reflexivity.
Qed.

Lemma scan_of_empty_index_finds_no_key_witness :
  exists s',
    startScan 3 3 30 GTE 40 LTE (freshIndex 3) = (Throw NoSuchKeyFoundException, s')
    /\ file s' = file (freshIndex 3)
    /\ pinned s' = []
    /\ scanExecuting s' = false.
Proof.
  apply (scan_of_empty_index_finds_no_key 3 3 30 40 GTE LTE).
  - lia.
  - right. reflexivity.
  - right. reflexivity.
  - lia.
Defined.
